(* ===== verification/_CoqProject ===== *)
-Q . S2P
Prelude.v
CellQueue.v
Mailbox.v
Versions.v
Executor.v
ThumbnailWorker.v
Scheduler.v
RateLimit.v
Filesystem.v
PathFacts.v
DiskFacts.v
Png.v
Placeholder.v
Locator.v
Environment.v
Logging.v
Http.v
Health.v
Gateway.v
Jwt.v
Proto.v
Usd.v
Toy.v
Session.v
Broadcast.v
Listener.v
SendFacts.v
Dispatch.v
Committer.v
CommitFacts.v
Handlers.v
Progress.v
Budget.v
ToyWorld.v
Snapshot.v
Graphics.v
Imaging.v
Ordering.v
Authoring.v
Naming.v
Replies.v
Durability.v
Notices.v
Agreement.v
Manager.v
Registry.v
WebSocket.v
Uploads.v
Listing.v
Rest.v
Settings.v
Routes.v
