(* ===== verification/Prelude.v ===== *)
(** * idtx-core: verification library (root file)

    idtx-core is the C++ server (source/) of a collaborative editor for USD
    scenes: clients upload USD files over HTTP, open editing sessions on them,
    and exchange protobuf messages with the session over a websocket. This
    library models the server and proves what makes its parts correct. This
    file also is the prelude: machine integers, the state and exception monad
    [M], lemmas on lists and the tactics the other files share.

    ** How the program works, and where it is modelled

    A request passes the middleware in the order of Server.h: the rate limits
    and the login lockout (middleware/RateLimitHandler.h, RateLimiter.h:
    [Gateway.v] on [RateLimit.v]), then the JWT check
    (middleware/JwtAuthHandler.cpp, OidcConfiguration.cpp, with
    utils/HttpClient.cpp: [Jwt.v]). The routes (routes/: [Routes.v], which also
    composes the whole path of a request) hand it to a controller: login
    (controller/AuthController.cpp: [Gateway.v]), files
    (FileServingController.cpp: [Uploads.v], its list of files [Listing.v]),
    sessions (SessionController.cpp: [Rest.v]), health (HealthController.cpp:
    [Health.v]), websocket (WebSocketController.cpp: [WebSocket.v]). [Http.v] has
    the messages, the JSON values and the DTO helpers (dto/), [Environment.v] the
    environment (utils/Environment.h), [Logging.v] the log
    (shared/include/idtx/utils/Logger.h), and [Settings.v] what start-up makes of
    the environment (main.cpp, app/, server/).

    The controllers share one SessionManager (session/SessionManager.cpp:
    [Manager.v], its steps in [Registry.v]). A session (session/Session.h:
    [Session.v]) owns a USD stage and a queue of commands. A producer puts a
    command into a lock-free mailbox (BoundedMpscMailbox.h: [Mailbox.v]) and
    schedules a drain (SessionCommandScheduler.cpp: [Scheduler.v]) on a pool of
    threads (concurrency/WorkerExecutor.cpp: [Executor.v]); one drain at a time
    handles the session's commands. A handler ([Handlers.v]) validates a
    request and authors it into the stage (TransformDispatcher.cpp,
    PrimDispatcher.cpp: [Dispatch.v]); USD's change notice reaches the listener
    (StageNoticeListener.cpp: [Listener.v]) inside the authoring call, which
    broadcasts the change ([Broadcast.v]) with a version
    (SessionVersions.cpp: [Versions.v]). Committing writes the overrides back
    to the file (StageCommitter.cpp: [Committer.v], [CommitFacts.v]); the flusher
    (SessionFlusher.cpp) and the reaper are operations of [Manager.v].

    Paths a client names go through UsdFileLocator (utils/UsdFileLocator.h:
    [Locator.v]) to the disk ([Filesystem.v], with [PathFacts.v] and
    [DiskFacts.v]). Thumbnails are made by a background thread
    (thumbnails/ThumbnailWorker.cpp: [ThumbnailWorker.v]). A generator either
    renders the stage in an off-screen GL context
    (UsdImagingThumbnailGenerator.cpp: the contexts in [Graphics.v], the rest in
    [Imaging.v]) and falls back to a placeholder, or only draws the placeholder
    (PlaceholderThumbnailGenerator.cpp: [Placeholder.v]), written as PNG
    (MiniPng.h: [Png.v]).

    ** Conventions

    A definition has the name of the function it translates. A handler that
    changes state takes it and returns it; one that can throw is in [M], or
    returns a sum whose right side is the exception. What is not part of the
    program is a type class: the USD library ([Usd], laws [UsdLaws],
    [PathLaws], [UsdThrows], [CompleteNotices] and [CommitLaws]), protobuf's encoding ([Wire], law [WireOk]), the failures of
    the disk ([IoErrors], [ShortWrites]), the text of JSON ([JsonText]), the
    parsing of multipart bodies ([Multipart]), the layers' custom data
    ([LayerInfo]), the JWT library ([JwtLib]), the GL driver ([Driver]), the
    rendering calls ([Imaging]), the order and the times of directory entries
    ([DirectoryOrder], [FileTimes]), the framework's router ([Crow], law
    [CrowLaws]). A theorem holds for every
    instance unless it names a law; its witness uses a concrete instance
    ([Toy.v], [ToyWorld.v]). Concurrent code is a step relation over program
    points, one atomic access or critical section per step; components are
    stacked by contract: [Scheduler.v] runs on the queue of [CellQueue.v],
    which [Mailbox.v] implements, and the sessions use the sequential view of
    the queue that [Scheduler.v] justifies.

    ** What the theorems show

    - Queueing. The mailbox implements the bounded queue and no cell is
      accessed by two threads; a call ends when it runs alone. No accepted
      command is lost, reordered or handled twice, at most one drain runs, a
      quiet scheduler has handled everything, and waiting for idleness after
      closing is safe. The executor never strands a task
      ([Mailbox.v], [Scheduler.v], [Executor.v], [ThumbnailWorker.v]).
    - Versions. [CheckUpdate] decides staleness from the log of changes;
      versions on the wire never go down, and a base is invalid only above
      every frame sent ([Versions.v], [Ordering.v], by the preorder of
      [Progress.v] and the costs of [Budget.v]), whatever commands are handled
      and whatever other sessions reload of a shared layer in between.
    - Requests. Every request is answered by one Ack; a rejected one changes
      nothing, a creation is announced before it is acknowledged, a correction
      brings a client up to date, and no mark survives a command. Where a prim
      may be created and how it is named ([Replies.v], [Naming.v],
      [Authoring.v], [SendFacts.v]). What a change notice and a reload
      broadcast ([Notices.v]). A client that joins gets the whole of the session
      layer, each prim after its parent ([Snapshot.v]). However clients drag
      prims about, what each was told last is what the session has
      ([Agreement.v]). An accepted change counts as unsaved until it has been
      written ([Durability.v]).
    - Sessions. Clients, modes and registry entries are consistent in every
      reachable state, the reaper takes exactly the idle sessions, tearing down
      handles what was accepted ([Registry.v]); clients are exactly the open
      connections that attached, nothing is sent to any other, and a message is
      queued or refused ([WebSocket.v]); the life of a session over HTTP
      ([Rest.v]).
    - Files. What resolves lies below the root ([Locator.v]); an accepted
      upload is stored and downloads as far as the device took it, a refused one
      leaves every file ([Uploads.v]); the list of files is exact ([Listing.v]).
      The commit of a file is all or nothing, and of a package too if its entries
      have names that stay inside it and differ ([CommitFacts.v]).
    - Pictures. The checksums equal their reference, what is written decodes to
      the pixels, and drawing never leaves the buffer ([Png.v],
      [Placeholder.v]). The generator always returns, with the recorded image or
      with the placeholder and the reason why not the image, and releases every GL
      object it acquired, whatever the driver answers ([Imaging.v]).
    - Access. The limiter equals its counters, repeated failures lock until less
      than a second of the lockout is left, login attempts are bounded
      ([RateLimit.v], [Gateway.v]); a request that passes carries a verified token
      ([Jwt.v]); so no sequence of requests, websocket upgrades and messages
      without one changes a session or a file, if the framework runs the
      middleware before an upgrade ([Routes.v]).

    ** Bounds and fuel

    Mailbox positions are 64-bit and wrap: fewer than [2^63 - Capacity] may be
    reserved (292 years at one push per nanosecond), and fewer than [2^62]
    threads may be inside the scheduler. Session versions and connection ids
    are 64-bit counters; the theorems that need it assume they have not wrapped:
    for versions, that the counter is further from [2^64] than what the commands
    can count, one for each notice that USD delivers for a change and one for each
    announcement or correction ([Budget.v]). Path resolution follows at most 40 links, as Linux does. Fuel: the
    search for a free child name takes one more than the number of prims, the
    walk to the ancestors the number of prims, the stored blocks of a PNG the
    number of bytes, a teardown's drain the number of queued commands, the walk
    over the uploads the length of the longest location; each is proved to be
    enough.

    ** Not modelled

    Weak memory orders (every atomic access is sequentially consistent); the
    times at which background threads wake (they are steps that may happen at
    any time); log lines, outside [Logging.v]; the byte encoding of protobuf, the
    text of JSON, USD's internals, multipart parsing, cryptography and TLS, the
    drawing of a frame and [tan], which are libraries. A shared layer's reload
    reaches the other session between two of its commands; what it does in the
    middle of one is shown on examples ([Notices.v]). Of the framework: what
    its CORS handler makes of the rules, the handshake of an upgrade (whether the
    middleware runs before it is a parameter, [upgrades_checked]), and running the
    server and its sockets. The lines of the headers without a definition
    declare the functions whose bodies are modelled, name types, or forbid
    copies. *)
From Stdlib Require Export ZArith Lia Sorting.Sorted.
From stdpp Require Export base gmap strings list fin_maps relations.

#[global] Open Scope Z_scope.

(** ** Machine integers

    A [w]-bit unsigned integer is a [Z] in [0, 2^w); every arithmetic result
    the code stores in one is written [wrap w _]. *)

Definition wrap (w x : Z) : Z := x mod 2 ^ w.

Declare Scope idtx_scope.
Delimit Scope idtx_scope with idtx.
#[global] Open Scope idtx_scope.

Abbreviation u8 := (wrap 8).
Abbreviation u16 := (wrap 16).
Abbreviation u32 := (wrap 32).
Abbreviation u64 := (wrap 64).

(** [static_cast<std::intptr_t>] of a [std::size_t]: the two's complement
    reading of the same 64 bits. *)
Definition to_intptr (x : Z) : Z := if x <? 2 ^ 63 then x else x - 2 ^ 64.

Lemma wrap_small (w x : Z) : 0 <= x < 2 ^ w -> wrap w x = x.
Proof. apply Z.mod_small. Qed.

Lemma wrap_bounds (w x : Z) : 0 <= w -> 0 <= wrap w x < 2 ^ w.
Proof. intros Hw. apply Z.mod_pos_bound. by apply Z.pow_pos_nonneg. Qed.

Lemma to_intptr_small (x : Z) : x < 2 ^ 63 -> to_intptr x = x.
Proof. unfold to_intptr. intros Hx. destruct (Z.ltb_spec x (2 ^ 63)); lia. Qed.

Lemma wrap_add (w a b : Z) : wrap w (wrap w a + b) = wrap w (a + b).
Proof. apply Zplus_mod_idemp_l. Qed.

(** Selecting a slot with the mask [2^k - 1] is the remainder by [2^k]. *)
Lemma land_mask (x k : Z) : 0 <= k -> Z.land x (2 ^ k - 1) = x mod 2 ^ k.
Proof.
  intros Hk. rewrite <- Z.land_ones by done. by rewrite Z.ones_equiv, <- Z.sub_1_r.
Qed.

(** Joining a field of [k] bits to the bits above it. *)
Lemma lor_shiftl a b k : 0 <= k -> 0 <= a < 2 ^ k -> Z.lor (Z.shiftl b k) a = b * 2 ^ k + a.
Proof.
  intros Hk Ha. rewrite <- Z.shiftl_mul_pow2 by done. symmetry. apply Z.add_nocarry_lor.
  rewrite <- (Z.mod_small a (2 ^ k)), <- Z.land_ones by done. apply Z.bits_inj'. intros i Hi.
  rewrite !Z.land_spec, Z.bits_0, Z.testbit_ones_nonneg by done. destruct (Z.ltb_spec i k).
  - by rewrite Z.shiftl_spec_low.
  - by rewrite !andb_false_r.
Qed.

(** ** Exceptions and handlers

    Code that authors through a third-party API can throw. [StdException]
    carries what a [catch (const std::exception&)] sees; [OtherException] is
    any other type, which only a [catch (...)] stops. *)
Inductive exn :=
| StdException (what : string)
| OtherException.

#[global] Instance exn_eq_dec : EqDecision exn.
Proof. solve_decision. Defined.

(** State-passing with exceptions: the state survives a throw. *)
Definition M (S A : Type) : Type := S -> S * (A + exn).

#[global] Instance M_ret S : MRet (M S) := fun A a s => (s, inl a).
#[global] Instance M_bind S : MBind (M S) := fun A B f m s =>
  match m s with
  | (s', inl a) => f a s'
  | (s', inr e) => (s', inr e)
  end.

Section monad.
Context {S : Type}.

Definition get : M S S := fun s => (s, inl s).
Definition gets {A} (f : S -> A) : M S A := fun s => (s, inl (f s)).
Definition modify (f : S -> S) : M S unit := fun s => (f s, inl tt).
Definition throw {A} (e : exn) : M S A := fun s => (s, inr e).

(** [try m catch (const std::exception& e) { h }]. *)
Definition try_std {A} (m : M S A) (h : string -> M S A) : M S A := fun s =>
  match m s with
  | (s', inr (StdException w)) => h w s'
  | r => r
  end.

(** [try m catch (...) { h }]. *)
Definition try_all {A} (m : M S A) (h : exn -> M S A) : M S A := fun s =>
  match m s with
  | (s', inr e) => h e s'
  | r => r
  end.

(** A [for] loop over a container, body by body. *)
Fixpoint for_each {A} (l : list A) (body : A -> M S unit) : M S unit :=
  match l with
  | [] => mret tt
  | x :: l' => _ ← body x; for_each l' body
  end.

Definition when (b : bool) (m : M S unit) : M S unit := if b then m else mret tt.
End monad.

(** *** Running a program step by step *)

Lemma bind_ok {S A B} (m : M S A) (f : A -> M S B) s s' a :
  m s = (s', inl a) -> (m ≫= f) s = f a s'.
Proof. unfold mbind, M_bind. by intros ->. Qed.

Lemma bind_throw {S A B} (m : M S A) (f : A -> M S B) s s' e :
  m s = (s', inr e) -> (m ≫= f) s = (s', inr e).
Proof. unfold mbind, M_bind. by intros ->. Qed.

(** *** Reasoning about effects

    [preserves R m]: running [m], whether it returns or throws, relates the
    states before and after. For a preorder [R] it follows from the same fact
    of the parts of [m]. *)
Definition preserves {S A} (R : relation S) (m : M S A) : Prop := forall s, R s (fst (m s)).

Section preserves.
Context {S : Type} (R : relation S) `{!PreOrder R}.

Lemma preserves_ret {A} (a : A) : preserves R (mret a : M S A).
Proof. intros s. simpl. reflexivity. Qed.

Lemma preserves_throw {A} e : preserves R (throw e : M S A).
Proof. intros s. simpl. reflexivity. Qed.

Lemma preserves_gets {A} (f : S -> A) : preserves R (gets f).
Proof. intros s. simpl. reflexivity. Qed.

Lemma preserves_get : preserves R get.
Proof. intros s. simpl. reflexivity. Qed.

Lemma preserves_modify f : (forall s, R s (f s)) -> preserves R (modify f).
Proof. intros Hf s. apply Hf. Qed.

Lemma preserves_bind {A B} (m : M S A) (f : A -> M S B) :
  preserves R m -> (forall a, preserves R (f a)) -> preserves R (m ≫= f).
Proof.
  intros Hm Hf s. unfold mbind, M_bind. specialize (Hm s). destruct (m s) as [s' [a|e]]; simpl in *.
  - etrans; [done|]. apply Hf.
  - done.
Qed.

Lemma preserves_try_std {A} (m : M S A) h :
  preserves R m -> (forall w, preserves R (h w)) -> preserves R (try_std m h).
Proof.
  intros Hm Hh s. unfold try_std. specialize (Hm s). destruct (m s) as [s' [a|[w|]]]; simpl in *; try done.
  etrans; [done|]. apply Hh.
Qed.

Lemma preserves_try_all {A} (m : M S A) h :
  preserves R m -> (forall e, preserves R (h e)) -> preserves R (try_all m h).
Proof.
  intros Hm Hh s. unfold try_all. specialize (Hm s). destruct (m s) as [s' [a|e]]; simpl in *; [done|].
  etrans; [done|]. apply Hh.
Qed.

Lemma preserves_for_each {A} (l : list A) body :
  (forall x, x ∈ l -> preserves R (body x)) -> preserves R (for_each l body).
Proof.
  induction l as [|x l IH]; intros Hb; simpl; [apply preserves_ret|].
  apply preserves_bind; [apply Hb; by left|]. intros _. apply IH. intros y Hy. apply Hb. by right.
Qed.

Lemma preserves_when b m : preserves R m -> preserves R (when b m).
Proof. intros Hm. destruct b; [done|]. apply preserves_ret. Qed.
End preserves.

(** The same from a set of states that the program does not leave. *)
Definition preserves_in {S A} (P : S -> Prop) (R : relation S) (m : M S A) : Prop :=
  forall s, P s -> P (fst (m s)) /\ R s (fst (m s)).

Lemma preserves_in_for_each {S A} (P : S -> Prop) (R : relation S) `{!PreOrder R} (l : list A) body :
  (forall x, preserves_in P R (body x)) -> preserves_in P R (for_each l body).
Proof.
  intros Hb. induction l as [|x l IH]; intros s Hs; cbn [for_each]; [split; [done|reflexivity]|].
  unfold mbind, M_bind. destruct (Hb x s Hs) as [Hp Hr]. destruct (body x s) as [s' [a|e]]; [|done].
  simpl in *. destruct (IH s' Hp). split; [done|]. by etrans.
Qed.

(** From the states of [P], which it does not leave, a program [throws_std]
    if it throws nothing but [std::exception]s, and [returns] if it throws
    nothing. *)
Definition throws_std {S A} (P : S -> Prop) (m : M S A) : Prop :=
  forall s, P s -> P (fst (m s)) /\ snd (m s) <> inr OtherException.

Definition returns {S A} (P : S -> Prop) (m : M S A) : Prop :=
  forall s, P s -> P (fst (m s)) /\ exists a, snd (m s) = inl a.

Section throwing.
Context {S : Type} (P : S -> Prop).

Lemma returns_throws_std {A} (m : M S A) : returns P m -> throws_std P m.
Proof. intros Hm s Hs. destruct (Hm s Hs) as (? & a & ->). done. Qed.

Lemma returns_ret {A} (a : A) : returns P (mret a : M S A).
Proof. intros s Hs. split; [done|]. by exists a. Qed.

Lemma returns_gets {A} (f : S -> A) : returns P (gets f).
Proof. intros s Hs. split; [done|]. by eexists. Qed.

Lemma returns_modify f : (forall s, P s -> P (f s)) -> returns P (modify f).
Proof. intros Hf s Hs. split; [by apply Hf|]. by eexists. Qed.

Lemma returns_bind {A B} (m : M S A) (f : A -> M S B) :
  returns P m -> (forall a, returns P (f a)) -> returns P (m ≫= f).
Proof.
  intros Hm Hf s Hs. unfold mbind, M_bind. destruct (Hm s Hs) as (Hp & a & Ha).
  destruct (m s) as [s' r]. simpl in *. subst r. by apply Hf.
Qed.

Lemma returns_for_each {A} (l : list A) body :
  (forall x, returns P (body x)) -> returns P (for_each l body).
Proof.
  intros Hb. induction l as [|x l IH]; simpl; [apply returns_ret|]. by apply returns_bind.
Qed.

Lemma returns_try_std {A} (m : M S A) h :
  throws_std P m -> (forall w, returns P (h w)) -> returns P (try_std m h).
Proof.
  intros Hm Hh s Hs. unfold try_std. destruct (Hm s Hs) as [Hp Hr].
  destruct (m s) as [s' [a|[w|]]]; simpl in *; [by eauto|by apply Hh|done].
Qed.

Lemma throws_std_throw {A} w : throws_std P (throw (StdException w) : M S A).
Proof. by intros s Hs. Qed.

Lemma throws_std_bind {A B} (m : M S A) (f : A -> M S B) :
  throws_std P m -> (forall a, throws_std P (f a)) -> throws_std P (m ≫= f).
Proof.
  intros Hm Hf s Hs. unfold mbind, M_bind. destruct (Hm s Hs) as [Hp Ha].
  destruct (m s) as [s' [a|e]]; simpl in *; [by apply Hf|]. split; [done|]. congruence.
Qed.

Lemma throws_std_try_std {A} (m : M S A) h :
  throws_std P m -> (forall w, throws_std P (h w)) -> throws_std P (try_std m h).
Proof.
  intros Hm Hh s Hs. unfold try_std. destruct (Hm s Hs) as [Hp Hr].
  destruct (m s) as [s' [a|[w|]]]; simpl in *; [done|by apply Hh|done].
Qed.
End throwing.

(** [climbs lo l hi]: the numbers of [l] never go down and stay within
    [lo .. hi]. *)
Fixpoint climbs (lo : nat) (l : list nat) (hi : nat) : Prop :=
  match l with
  | [] => (lo <= hi)%nat
  | x :: l' => (lo <= x)%nat /\ climbs x l' hi
  end.

Lemma climbs_le lo l hi : climbs lo l hi -> (lo <= hi)%nat.
Proof. revert lo. induction l as [|x l IH]; simpl; [done|]. intros lo [? ?%IH]. lia. Qed.

Lemma climbs_lower lo lo' l hi : (lo' <= lo)%nat -> climbs lo l hi -> climbs lo' l hi.
Proof. destruct l; simpl; [lia|]. intros ? []. split; [lia|done]. Qed.

Lemma climbs_app lo l1 m l2 hi : climbs lo l1 m -> climbs m l2 hi -> climbs lo (l1 ++ l2) hi.
Proof.
  revert lo. induction l1 as [|x l1 IH]; simpl; intros lo H1 H2; [by eapply climbs_lower|].
  destruct H1. split; [done|]. by apply IH.
Qed.

Lemma climbs_shift k lo l hi :
  climbs lo l hi -> climbs (k + lo) ((fun j => k + j)%nat <$> l) (k + hi).
Proof. revert lo. induction l as [|x l IH]; simpl; intros lo; [lia|]. intros [? ?%IH]. split; [lia|done]. Qed.

Lemma climbs_all lo n x hi : (lo <= x <= hi)%nat -> climbs lo (replicate n x) hi.
Proof. revert lo. induction n as [|n IH]; simpl; intros lo; [lia|]. intros. split; [lia|]. apply IH. lia. Qed.

(** [k] increments of a 64-bit counter. *)
Definition advance (k : nat) (n : Z) : Z := Nat.iter k (fun n => u64 (n + 1)) n.

Lemma advance_add j k n : advance (j + k) n = advance k (advance j n).
Proof.
  unfold advance. induction k as [|k IH]; [by rewrite Nat.add_0_r|].
  rewrite Nat.add_succ_r. simpl. by rewrite IH.
Qed.

(** Without overflow they count. *)
Lemma advance_small k n : 0 <= n -> n + Z.of_nat k < 2 ^ 64 -> advance k n = n + Z.of_nat k.
Proof.
  intros Hn. induction k as [|k IH]; intros Hk; [simpl; lia|].
  change (advance (S k) n) with (u64 (advance k n + 1)). rewrite IH by lia. rewrite wrap_small; lia.
Qed.

(** [std::set]: a sorted list without repetitions. *)
Fixpoint set_insert {A} (ltb : A -> A -> bool) (x : A) (l : list A) : list A :=
  match l with
  | [] => [x]
  | y :: l' =>
      if ltb x y then x :: l
      else if ltb y x then y :: set_insert ltb x l'
      else l
  end.

Definition set_of {A} (ltb : A -> A -> bool) (l : list A) : list A :=
  foldl (fun s x => set_insert ltb x s) [] l.

(** [std::stable_sort] by a key. *)
Fixpoint stable_insert {A} (key : A -> nat) (x : A) (l : list A) : list A :=
  match l with
  | [] => [x]
  | y :: l' => if (key x <=? key y)%nat then x :: l else y :: stable_insert key x l'
  end.

Definition stable_sort {A} (key : A -> nat) (l : list A) : list A := foldr (stable_insert key) [] l.

Lemma stable_insert_perm {A} (key : A -> nat) x l : stable_insert key x l ≡ₚ x :: l.
Proof.
  induction l as [|y l IH]; simpl; [done|]. destruct (_ <=? _)%nat; [done|].
  rewrite IH. constructor.
Qed.

Lemma stable_sort_perm {A} (key : A -> nat) l : stable_sort key l ≡ₚ l.
Proof.
  induction l as [|x l IH]; simpl; [done|]. by rewrite stable_insert_perm, IH.
Qed.

Lemma stable_insert_sorted {A} (key : A -> nat) x l :
  StronglySorted (fun a b => (key a <= key b)%nat) l ->
  StronglySorted (fun a b => (key a <= key b)%nat) (stable_insert key x l).
Proof.
  induction 1 as [|y l Hs IH Hy]; simpl; [repeat constructor|].
  destruct (Nat.leb_spec (key x) (key y)).
  - repeat constructor; try done. eapply Forall_impl; [exact Hy|]. simpl. lia.
  - constructor; [done|]. rewrite stable_insert_perm. constructor; [lia|done].
Qed.

Lemma stable_sort_sorted {A} (key : A -> nat) l :
  StronglySorted (fun a b => (key a <= key b)%nat) (stable_sort key l).
Proof. induction l; [constructor|]. by apply stable_insert_sorted. Qed.

Lemma set_insert_elem {A} (ltb : A -> A -> bool) x y l :
  y ∈ set_insert ltb x l -> y = x \/ y ∈ l.
Proof.
  induction l as [|z l IH]; simpl; [by intros ->%list_elem_of_singleton; left|].
  destruct (ltb x z); [by intros [->|]%elem_of_cons; auto|].
  destruct (ltb z x); [|by auto].
  intros [->|Hy]%elem_of_cons; [right; by left|]. destruct (IH Hy); [by left|right; by right].
Qed.

Lemma set_of_elem {A} (ltb : A -> A -> bool) y l : y ∈ set_of ltb l -> y ∈ l.
Proof.
  unfold set_of. assert (Hg : forall s, y ∈ foldl (fun s x => set_insert ltb x s) s l -> y ∈ s \/ y ∈ l).
  { induction l as [|x l IH]; intros s; simpl; [auto|].
    intros [Hs|]%IH; [|right; by right]. apply set_insert_elem in Hs as [->|]; [right; by left|by left]. }
  intros [?%not_elem_of_nil|]%Hg; done.
Qed.

(** The order of a [std::set]. *)
Class LtbOrder {A} (ltb : A -> A -> bool) : Prop := {
  ltb_irrefl : forall x, ltb x x = false;
  ltb_trans : forall x y z, ltb x y = true -> ltb y z = true -> ltb x z = true;
  ltb_total : forall x y, ltb x y = false -> ltb y x = false -> x = y }.

Section ltb_order.
Context {A} (ltb : A -> A -> bool) `{!LtbOrder ltb}.

Lemma set_insert_in x y l : y ∈ set_insert ltb x l <-> y = x \/ y ∈ l.
Proof.
  split; [apply set_insert_elem|]. induction l as [|z l IH]; simpl.
  - intros [->|?%not_elem_of_nil]; [by left|done].
  - destruct (ltb x z) eqn:Hxz; [rewrite !elem_of_cons; tauto|].
    destruct (ltb z x) eqn:Hzx; [rewrite !elem_of_cons; tauto|].
    rewrite (ltb_total x z) by done. rewrite !elem_of_cons. tauto.
Qed.

Lemma set_insert_sorted x l :
  StronglySorted (fun a b => ltb a b = true) l -> StronglySorted (fun a b => ltb a b = true) (set_insert ltb x l).
Proof.
  induction 1 as [|y l Hs IH Hy]; simpl; [repeat constructor|]. destruct (ltb x y) eqn:Hxy.
  - repeat constructor; try done. eapply Forall_impl; [exact Hy|]. intros z. by apply ltb_trans.
  - destruct (ltb y x) eqn:Hyx; [|by constructor]. constructor; [done|]. rewrite Forall_forall in *.
    intros z [->|Hz]%set_insert_in; auto.
Qed.

Lemma set_of_in x l : x ∈ set_of ltb l <-> x ∈ l.
Proof.
  unfold set_of. cut (forall s, x ∈ foldl (fun s x => set_insert ltb x s) s l <-> x ∈ s \/ x ∈ l).
  { intros Hg. rewrite Hg. split; [by intros [?%not_elem_of_nil|]|by right]. }
  induction l as [|y l IH]; intros s; simpl.
  - split; [by left|]. by intros [|?%not_elem_of_nil].
  - rewrite IH, set_insert_in, elem_of_cons. tauto.
Qed.

Lemma set_of_NoDup l : NoDup (set_of ltb l).
Proof.
  assert (Hs : StronglySorted (fun a b => ltb a b = true) (set_of ltb l)).
  { unfold set_of. assert (Hn : StronglySorted (fun a b => ltb a b = true) (@nil A)) by constructor. revert Hn.
    generalize (@nil A). induction l as [|x l IH]; intros s Hs; simpl; [done|]. by apply IH, set_insert_sorted. }
  induction Hs as [|x k Hs IH Hx]; constructor; [|done]. intros Hin. rewrite Forall_forall in Hx.
  specialize (Hx x Hin). by rewrite ltb_irrefl in Hx.
Qed.
End ltb_order.

#[export] Instance string_order : LtbOrder String.ltb.
Proof.
  unfold String.ltb. split.
  - intros x. induction x as [|c x IH]; [done|]. simpl. unfold Ascii.compare. by rewrite N.compare_refl.
  - intros x. induction x as [|a x IH]; intros [|b y] [|c z]; simpl; try done. unfold Ascii.compare.
    destruct (N.compare_spec (Ascii.N_of_ascii a) (Ascii.N_of_ascii b)) as [Hab|Hab|], (N.compare_spec (Ascii.N_of_ascii b) (Ascii.N_of_ascii c)) as [Hbc|Hbc|]; try done; intros Hx Hy.
    + rewrite Hab, Hbc, N.compare_refl. by eapply IH.
    + rewrite Hab. apply N.compare_lt_iff in Hbc. by rewrite Hbc.
    + rewrite <- Hbc. apply N.compare_lt_iff in Hab. by rewrite Hab.
    + assert (Hac : (Ascii.N_of_ascii a < Ascii.N_of_ascii c)%N) by lia. apply N.compare_lt_iff in Hac. by rewrite Hac.
  - intros x y. rewrite (String.compare_antisym x y). destruct (String.compare y x) eqn:Hc; simpl; try done.
    intros _ _. symmetry. by apply String.compare_eq_iff.
Qed.

(** ** Reachability *)

(** An invariant that holds initially and that every step keeps holds in
    every reachable state. *)
Lemma rtc_invariant {A} (R : relation A) (P : A -> Prop) :
  (forall x y, P x -> R x y -> P y) ->
  forall x y, rtc R x y -> P x -> P y.
Proof. intros Hstep x y Hrtc. induction Hrtc; eauto. Qed.

(** The same with a side condition known only of the final state, for a
    quantity that never shrinks. *)
Lemma rtc_invariant_bounded {A} (R : relation A) (P : A -> Prop) (B : A -> Prop) :
  (forall x y, R x y -> B y -> B x) ->
  (forall x y, P x -> B y -> R x y -> P y) ->
  forall x y, rtc R x y -> P x -> B y -> P y.
Proof.
  intros Hmono Hstep x y Hrtc HP. revert y Hrtc.
  refine (rtc_ind_r (fun y => B y -> P y) x _ _); eauto.
Qed.

(** ** Lists *)

Lemma prefix_snoc_same {A} (l1 l2 : list A) x :
  l1 `prefix_of` l2 -> l1 `prefix_of` l2 ++ [x].
Proof. intros [k ->]. exists (k ++ [x]). by rewrite app_assoc. Qed.

(** Counting over a list of threads: replacing one changes the count by its
    own weight. *)
Lemma sum_insert {A} (f : A -> nat) l i x y :
  l !! i = Some y ->
  (sum_list_with f (<[i := x]> l) + f y = sum_list_with f l + f x)%nat.
Proof.
  revert i. induction l as [|z l IH]; intros [|i] Hi; simplify_eq/=; [lia|].
  specialize (IH i Hi). lia.
Qed.

Lemma sum_fmap {A B} (f : B -> nat) (g : A -> B) l :
  sum_list_with f (g <$> l) = sum_list_with (f ∘ g) l.
Proof. induction l as [|x l IH]; [done|]. rewrite fmap_cons. simpl. by rewrite IH. Qed.

Lemma sum_ext {A} (f g : A -> nat) l :
  (forall x, f x = g x) -> sum_list_with f l = sum_list_with g l.
Proof. intros Hfg. induction l as [|x l IH]; simpl; [done|]. by rewrite Hfg, IH. Qed.

Lemma sum_ge {A} (f : A -> nat) l i x :
  l !! i = Some x -> (f x <= sum_list_with f l)%nat.
Proof.
  revert i. induction l as [|y l IH]; intros [|i] Hi; simplify_eq/=; [lia|].
  specialize (IH _ Hi). lia.
Qed.

Lemma sum_ge_two {A} (f : A -> nat) l i j x y :
  l !! i = Some x -> l !! j = Some y -> i <> j -> (f x + f y <= sum_list_with f l)%nat.
Proof.
  revert i j. induction l as [|z l IH]; intros [|i] [|j] Hi Hj Hne; simplify_eq/=.
  - pose proof (sum_ge f _ _ _ Hj). lia.
  - pose proof (sum_ge f _ _ _ Hi). lia.
  - specialize (IH i j Hi Hj ltac:(congruence)). lia.
Qed.

Lemma sum_zero {A} (f : A -> nat) l :
  sum_list_with f l = 0%nat <-> Forall (fun x => f x = 0%nat) l.
Proof. induction l as [|x l IH]; simpl; [done|]. rewrite Forall_cons, <- IH. lia. Qed.

Lemma sum_replicate {A} (f : A -> nat) n x :
  sum_list_with f (replicate n x) = (n * f x)%nat.
Proof. induction n as [|n IH]; simpl; [done|]. by rewrite IH. Qed.

(** ** Automation *)

Create HintDb idtx discriminated.
#[export] Hint Resolve wrap_small prefix_snoc_same : idtx.

(** [lia] with division and remainder by constants. *)
Ltac divlia := Z.to_euclidean_division_equations; lia.

(** Split conjunctions and existentials in the context, then simplify. *)
Ltac destruct_hyps :=
  repeat match goal with
  | H : _ /\ _ |- _ => destruct H
  | H : exists _, _ |- _ => destruct H
  end; simplify_eq.

(** Decide the integer tests of the goal. *)
Ltac case_Z :=
  repeat match goal with
  | |- context [?a =? ?b] => destruct (Z.eqb_spec a b)
  | |- context [?a <? ?b] => destruct (Z.ltb_spec a b)
  | |- context [?a <=? ?b] => destruct (Z.leb_spec a b)
  end.

(** Follow the structure of a program; what is left are its primitives. *)
Ltac preserves_step :=
  lazymatch goal with
  | |- forall _, preserves _ _ => intro
  | |- preserves _ (mbind _ _) => apply preserves_bind
  | |- preserves _ (mret _) => apply preserves_ret
  | |- preserves _ (throw _) => apply preserves_throw
  | |- preserves _ (gets _) => apply preserves_gets
  | |- preserves _ get => apply preserves_get
  | |- preserves _ (try_std _ _) => apply preserves_try_std
  | |- preserves _ (try_all _ _) => apply preserves_try_all
  | |- preserves _ (when _ _) => apply preserves_when
  | |- preserves _ (match ?x with _ => _ end) => destruct x
  end.

Ltac throws_step :=
  lazymatch goal with
  | |- forall _, throws_std _ _ => intro
  | |- throws_std _ (mbind _ _) => apply throws_std_bind
  | |- throws_std _ (mret _) => apply returns_throws_std, returns_ret
  | |- throws_std _ (gets _) => apply returns_throws_std, returns_gets
  | |- throws_std _ (try_std _ _) => apply throws_std_try_std
  | |- throws_std _ (match ?x with _ => _ end) => destruct x eqn:?
  end.

Ltac throws_tac := repeat throws_step.

Ltac preserves_tac := repeat (first [preserves_step | solve [eauto with idtx]]).
