(* ===== verification/CellQueue.v ===== *)
(** * The contract of a session mailbox

    [BoundedMpscMailbox] (file [Mailbox.v]) promises its clients a bounded
    FIFO of cells. A producer first reserves the tail position and only then
    publishes the value, so a cell is owned by the reserving producer until it
    is ready; the consumer takes the head cell when it is ready and never
    skips one that is not. [Mailbox.v] proves that every step of the lock-free
    implementation is a step of this machine; [Scheduler.v] is proved on top
    of it. *)
From S2P Require Import Prelude.

(** A position of the queue: its value and the producer that has reserved but
    not yet published it. *)
Record cell (T : Type) := Cell { cell_value : T; cell_owner : option nat }.
Arguments Cell {T}.
Arguments cell_value {T}.
Arguments cell_owner {T}.

(** What a step does to the queue, as seen from outside. *)
Inductive qevent (T : Type) :=
| EvReserve (i : nat) (v : T)
| EvPublish (i : nat)
| EvFull (i : nat)
| EvPop (v : T)
| EvEmpty
| EvTau.
Arguments EvReserve {T}.
Arguments EvPublish {T}.
Arguments EvFull {T}.
Arguments EvPop {T}.
Arguments EvEmpty {T}.
Arguments EvTau {T}.

Section cell_queue.
Context {T : Type}.
Implicit Types (q : list (cell T)) (v : T).

Definition cq_reserve (i : nat) v q : list (cell T) := q ++ [Cell v (Some i)].

Definition cell_publish (i : nat) (c : cell T) : cell T :=
  if decide (cell_owner c = Some i) then Cell (cell_value c) None else c.

Definition cq_publish (i : nat) q : list (cell T) := cell_publish i <$> q.

Definition cq_pop q : option (T * list (cell T)) :=
  match q with
  | Cell v None :: q' => Some (v, q')
  | _ => None
  end.

Definition cq_values q : list T := cell_value <$> q.

(** The machine. [cap] is the number of cells. *)
Inductive qstep (cap : Z) : list (cell T) -> qevent T -> list (cell T) -> Prop :=
| qs_reserve q i v :
    Z.of_nat (length q) < cap -> qstep cap q (EvReserve i v) (cq_reserve i v q)
| qs_publish q k i v :
    q !! k = Some (Cell v (Some i)) -> qstep cap q (EvPublish i) (cq_publish i q)
| qs_full q i : Z.of_nat (length q) = cap -> qstep cap q (EvFull i) q
| qs_pop q v q' : cq_pop q = Some (v, q') -> qstep cap q (EvPop v) q'
| qs_empty q : cq_pop q = None -> qstep cap q EvEmpty q
| qs_tau q : qstep cap q EvTau q.

(** Executions with the values reserved and the values popped, in order. *)
Inductive qexec (cap : Z) : list (cell T) -> list T -> list T -> Prop :=
| qe_init : qexec cap [] [] []
| qe_step q rs ps ev q' :
    qexec cap q rs ps -> qstep cap q ev q' ->
    qexec cap q'
      (rs ++ match ev with EvReserve _ v => [v] | _ => [] end)
      (ps ++ match ev with EvPop v => [v] | _ => [] end).

Lemma cq_values_publish i q : cq_values (cq_publish i q) = cq_values q.
Proof.
  unfold cq_values, cq_publish. rewrite <- list_fmap_compose.
  apply list_fmap_ext. intros _ [v o] _. unfold cell_publish. simpl. by case_decide.
Qed.

Lemma length_cq_publish i q : length (cq_publish i q) = length q.
Proof. apply length_fmap. Qed.

Lemma length_cq_reserve i v q : length (cq_reserve i v q) = S (length q).
Proof. unfold cq_reserve. rewrite length_app. simpl. lia. Qed.

Lemma cq_values_reserve i v q : cq_values (cq_reserve i v q) = cq_values q ++ [v].
Proof. unfold cq_values, cq_reserve. by rewrite fmap_app. Qed.

Lemma cq_pop_values q v q' :
  cq_pop q = Some (v, q') -> cq_values q = v :: cq_values q'.
Proof. destruct q as [|[w [i|]] q1]; naive_solver. Qed.

Lemma cq_pop_length q v q' : cq_pop q = Some (v, q') -> length q = S (length q').
Proof. destruct q as [|[w [i|]] q1]; naive_solver. Qed.

Lemma cq_pop_head q v q' : cq_pop q = Some (v, q') <-> q = Cell v None :: q'.
Proof. destruct q as [|[w [i|]] q1]; naive_solver. Qed.

Lemma qstep_length cap q ev q' :
  qstep cap q ev q' -> Z.of_nat (length q) <= cap -> Z.of_nat (length q') <= cap.
Proof.
  destruct 1 as [q i v ?|q k i v ?|q i ?|q v q' Hp|q ?|q]; intros Hle; try done.
  - unfold cq_reserve. rewrite length_app. simpl. lia.
  - by rewrite length_cq_publish.
  - apply cq_pop_length in Hp. lia.
Qed.

(** Nothing is lost, duplicated or reordered: what was reserved is what was
    popped followed by what is still queued. *)
Lemma qexec_fifo cap q rs ps :
  qexec cap q rs ps -> rs = ps ++ cq_values q.
Proof.
  induction 1 as [|q rs ps ev q' Hex IH Hst]; [done|].
  inversion Hst; simplify_eq; rewrite ?app_nil_r; try done.
  - by rewrite cq_values_reserve, app_assoc.
  - by rewrite cq_values_publish.
  - erewrite cq_pop_values by done. by rewrite <- app_assoc.
Qed.

Lemma qexec_length cap q rs ps :
  0 <= cap -> qexec cap q rs ps -> Z.of_nat (length q) <= cap.
Proof.
  intros Hc. induction 1; [done|]. eauto using qstep_length.
Qed.
End cell_queue.
