(* ===== verification/Mailbox.v ===== *)
(** * [BoundedMpscMailbox] (source/session/BoundedMpscMailbox.h)

    The lock-free ring buffer, one atomic memory access per step: the shared
    state is [Mailbox], a call of [TryEmplace] is a [Producer], a call of
    [TryPop] a [Consumer], and [step] interleaves any number of producers with
    the one consumer. The atomics are read and written in one global order
    (the memory orders of the code are not weakened here). Positions are 64-bit
    and wrap; the theorems hold while fewer than [2^63 - Capacity] positions
    have been reserved, which is 292 years at one push per nanosecond. *)
From S2P Require Import Prelude CellQueue.

Module Mpsc.

(** [std::has_single_bit]. *)
Definition has_single_bit (c : Z) : bool := (0 <? c) && (Z.land c (c - 1) =? 0).

Definition ValidMailboxCapacity (Capacity : Z) : bool :=
  (2 <=? Capacity) && has_single_bit Capacity.

(** ** Shared state *)

(** [storage] is [None] while no object lives in the slot's raw bytes. *)
Record Slot (T : Type) := mkSlot { sequence : Z; storage : option T }.
Arguments mkSlot {T}.
Arguments sequence {T}.
Arguments storage {T}.

#[global] Instance Slot_inhabited T : Inhabited (Slot T) := populate (mkSlot 0 None).

Record BoundedMpscMailbox (T : Type) := mkMailbox {
  slots_ : list (Slot T);
  enqueue_position_ : Z;
  dequeue_position_ : Z }.
Arguments mkMailbox {T}.
Arguments slots_ {T}.
Arguments enqueue_position_ {T}.
Arguments dequeue_position_ {T}.

(** ** A call of [TryEmplace] *)

(** The program points of [TryEmplace], with the locals that are live there. *)
Inductive Producer (T : Type) :=
| PIdle
| PEnter (v : T)                  (* about to load [enqueue_position_] *)
| PLoaded (v : T) (position : Z)  (* about to load the slot's sequence *)
| PCas (v : T) (position : Z)     (* difference = 0: about to compare-exchange *)
| PReload (v : T)                 (* difference > 0: about to reload *)
| PReserved (v : T) (position : Z) (* about to construct the value *)
| PConstructed (position : Z)     (* about to publish *)
| PReturn (pushed : bool).
Arguments PIdle {T}.
Arguments PEnter {T}.
Arguments PLoaded {T}.
Arguments PCas {T}.
Arguments PReload {T}.
Arguments PReserved {T}.
Arguments PConstructed {T}.
Arguments PReturn {T}.

(** The program points of [TryPop]. *)
Inductive Consumer (T : Type) :=
| CIdle
| CEnter                          (* about to load [dequeue_position_] *)
| CLoaded (position : Z)          (* about to load the slot's sequence *)
| CTake (position : Z)            (* difference = 0: about to move the value out *)
| CTaken (v : option T) (position : Z)    (* about to release the slot *)
| CReleased (v : option T) (position : Z) (* about to store [dequeue_position_] *)
| CReturn (result : option T).
Arguments CIdle {T}.
Arguments CEnter {T}.
Arguments CLoaded {T}.
Arguments CTake {T}.
Arguments CTaken {T}.
Arguments CReleased {T}.
Arguments CReturn {T}.

Section mailbox.
Context {T : Type} (Capacity : Z).
Implicit Types (m : BoundedMpscMailbox T) (v : T).

Definition kIndexMask : Z := Capacity - 1.

(** Index of the slot of a position: [position & kIndexMask]. *)
Definition slot_index (position : Z) : nat := Z.to_nat (Z.land position kIndexMask).

Definition slot_at m (position : Z) : Slot T := slots_ m !!! slot_index position.

Definition update_slot (f : Slot T -> Slot T) (position : Z) m : BoundedMpscMailbox T :=
  mkMailbox (alter f (slot_index position) (slots_ m))
    (enqueue_position_ m) (dequeue_position_ m).

(** The constructor: every slot starts with its own index. *)
Definition init : BoundedMpscMailbox T :=
  mkMailbox ((fun i => mkSlot (Z.of_nat i) None) <$> seq 0 (Z.to_nat Capacity)) 0 0.

Definition construct_value (position : Z) v : BoundedMpscMailbox T -> BoundedMpscMailbox T :=
  update_slot (fun s => mkSlot (sequence s) (Some v)) position.

Definition destroy_value (position : Z) : BoundedMpscMailbox T -> BoundedMpscMailbox T :=
  update_slot (fun s => mkSlot (sequence s) None) position.

Definition store_sequence (position seq : Z) : BoundedMpscMailbox T -> BoundedMpscMailbox T :=
  update_slot (fun s => mkSlot seq (storage s)) position.

Definition store_enqueue (position : Z) m : BoundedMpscMailbox T :=
  mkMailbox (slots_ m) position (dequeue_position_ m).

Definition store_dequeue (position : Z) m : BoundedMpscMailbox T :=
  mkMailbox (slots_ m) (enqueue_position_ m) position.

(** [difference] of [TryEmplace] and of [TryPop]. *)
Definition difference (sequence position : Z) : Z := to_intptr sequence - to_intptr position.

(** One atomic step of [TryEmplace] by producer [i]. [weak] is the spurious
    failure [compare_exchange_weak] is allowed. *)
Definition TryEmplace_step (i : nat) (weak : bool) m (p : Producer T) :
    option (BoundedMpscMailbox T * Producer T * qevent T) :=
  match p with
  | PIdle => None
  | PEnter v => Some (m, PLoaded v (enqueue_position_ m), EvTau)
  | PLoaded v position =>
      let d := difference (sequence (slot_at m position)) position in
      if d =? 0 then Some (m, PCas v position, EvTau)
      else if d <? 0 then Some (m, PReturn false, EvFull i)
      else Some (m, PReload v, EvTau)
  | PCas v position =>
      if (enqueue_position_ m =? position) && negb weak
      then Some (store_enqueue (u64 (position + 1)) m, PReserved v position, EvReserve i v)
      else Some (m, PLoaded v (enqueue_position_ m), EvTau)
  | PReload v => Some (m, PLoaded v (enqueue_position_ m), EvTau)
  | PReserved v position => Some (construct_value position v m, PConstructed position, EvTau)
  | PConstructed position =>
      Some (store_sequence position (u64 (position + 1)) m, PReturn true, EvPublish i)
  | PReturn _ => Some (m, PIdle, EvTau)
  end.

(** One atomic step of [TryPop]. The event of the step that releases the
    slot is the pop: from then on the position can be reserved again. *)
Definition TryPop_step m (c : Consumer T) :
    option (BoundedMpscMailbox T * Consumer T * qevent T) :=
  match c with
  | CIdle => None
  | CEnter => Some (m, CLoaded (dequeue_position_ m), EvTau)
  | CLoaded position =>
      if difference (sequence (slot_at m position)) (u64 (position + 1)) =? 0
      then Some (m, CTake position, EvTau)
      else Some (m, CReturn None, EvEmpty)
  | CTake position =>
      Some (destroy_value position m, CTaken (storage (slot_at m position)) position, EvTau)
  | CTaken v position =>
      Some (store_sequence position (u64 (position + Capacity)) m, CReleased v position,
            match v with Some x => EvPop x | None => EvTau end)
  | CReleased v position => Some (store_dequeue (u64 (position + 1)) m, CReturn v, EvTau)
  | CReturn _ => Some (m, CIdle, EvTau)
  end.

(** ** Interleavings *)

Record config := mkConfig {
  mb : BoundedMpscMailbox T;
  producers : list (Producer T);
  consumer : Consumer T }.

Definition init_config (n : nat) : config := mkConfig init (replicate n PIdle) CIdle.

Inductive step : config -> qevent T -> config -> Prop :=
| step_call_emplace c i v :
    producers c !! i = Some PIdle ->
    step c EvTau (mkConfig (mb c) (<[i := PEnter v]> (producers c)) (consumer c))
| step_producer c i weak p m' p' ev :
    producers c !! i = Some p ->
    TryEmplace_step i weak (mb c) p = Some (m', p', ev) ->
    step c ev (mkConfig m' (<[i := p']> (producers c)) (consumer c))
| step_call_pop c :
    consumer c = CIdle ->
    step c EvTau (mkConfig (mb c) (producers c) CEnter)
| step_consumer c m' c' ev :
    TryPop_step (mb c) (consumer c) = Some (m', c', ev) ->
    step c ev (mkConfig m' (producers c) c').

(** Executions from the empty mailbox with [n] producer threads, with the
    values reserved and popped so far. *)
Inductive exec (n : nat) : config -> list T -> list T -> Prop :=
| exec_init : exec n (init_config n) [] []
| exec_step c rs ps ev c' :
    exec n c rs ps -> step c ev c' ->
    exec n c'
      (rs ++ match ev with EvReserve _ v => [v] | _ => [] end)
      (ps ++ match ev with EvPop v => [v] | _ => [] end).

(** ** A call that runs alone: the loop of the code with its retries *)

Fixpoint run_TryEmplace (fuel : nat) (i : nat) m (p : Producer T) :
    option (BoundedMpscMailbox T * bool) :=
  match p, fuel with
  | PReturn b, _ => Some (m, b)
  | _, O => None
  | _, S fuel =>
      match TryEmplace_step i false m p with
      | Some (m', p', _) => run_TryEmplace fuel i m' p'
      | None => None
      end
  end.

Definition TryEmplace (v : T) m : option (BoundedMpscMailbox T * bool) :=
  run_TryEmplace 6 0 m (PEnter v).

(** [TryPush] forwards to [TryEmplace]. *)
Definition TryPush (v : T) m : option (BoundedMpscMailbox T * bool) := TryEmplace v m.

Fixpoint run_TryPop (fuel : nat) m (c : Consumer T) :
    option (BoundedMpscMailbox T * option T) :=
  match c, fuel with
  | CReturn r, _ => Some (m, r)
  | _, O => None
  | _, S fuel =>
      match TryPop_step m c with
      | Some (m', c', _) => run_TryPop fuel m' c'
      | None => None
      end
  end.

Definition TryPop m : option (BoundedMpscMailbox T * option T) := run_TryPop 5 m CEnter.

Definition ApproximateSize m : Z :=
  let difference := u64 (enqueue_position_ m - dequeue_position_ m) in
  if difference <? Capacity then difference else Capacity.

Definition EmptyApproximate m : bool := enqueue_position_ m =? dequeue_position_ m.

Definition MaxSize : Z := Capacity.

(** The body of the destructor's loop: [None] is its [return]. *)
Definition DestroyRemaining_step m : option (BoundedMpscMailbox T) :=
  let position := dequeue_position_ m in
  if negb (difference (sequence (slot_at m position)) (u64 (position + 1)) =? 0) then None
  else Some (store_dequeue (u64 (position + 1))
               (store_sequence position (u64 (position + Capacity))
                 (destroy_value position m))).

Fixpoint DestroyRemaining (fuel : nat) m : option (BoundedMpscMailbox T) :=
  match DestroyRemaining_step m, fuel with
  | None, _ => Some m
  | Some _, O => None
  | Some m', S fuel => DestroyRemaining fuel m'
  end.
End mailbox.

(** ** Slots and positions *)

Section slots.
Context {T : Type} (Capacity : Z).
Hypothesis Hcap : ValidMailboxCapacity Capacity = true.
Implicit Types (m : BoundedMpscMailbox T).

Lemma capacity_ge_2 : 2 <= Capacity.
Proof. unfold ValidMailboxCapacity in Hcap. apply andb_prop in Hcap as [H%Z.leb_le _]. done. Qed.

Lemma capacity_pow2 : exists k, 0 <= k /\ Capacity = 2 ^ k.
Proof.
  pose proof capacity_ge_2 as Hge.
  unfold ValidMailboxCapacity, has_single_bit in Hcap.
  apply andb_prop in Hcap as [_ [_ Hland%Z.eqb_eq]%andb_prop].
  remember (Z.log2 Capacity) as k eqn:Hkdef. exists k.
  destruct (Z.log2_spec Capacity ltac:(lia)) as [Hlo Hhi]. rewrite <- Hkdef in Hlo, Hhi.
  assert (Hk : 0 <= k) by (subst k; apply Z.log2_nonneg). split; [done|].
  destruct (decide (Capacity = 2 ^ k)) as [|Hne]; [done|]. exfalso.
  assert (Hb1 : Z.testbit Capacity k = true) by (subst k; apply Z.bit_log2; lia).
  assert (Hb2 : Z.testbit (Capacity - 1) k = true).
  { replace k with (Z.log2 (Capacity - 1)); [apply Z.bit_log2; lia|].
    apply Z.log2_unique; lia. }
  assert (Hb : Z.testbit (Z.land Capacity (Capacity - 1)) k = true)
    by (by rewrite Z.land_spec, Hb1, Hb2).
  rewrite Hland, Z.bits_0 in Hb. done.
Qed.

Lemma slot_index_mod position :
  slot_index Capacity position = Z.to_nat (position mod Capacity).
Proof.
  unfold slot_index, kIndexMask. destruct capacity_pow2 as (k & Hk & ->).
  by rewrite land_mask.
Qed.

Lemma slot_index_lt position : (slot_index Capacity position < Z.to_nat Capacity)%nat.
Proof.
  rewrite slot_index_mod. pose proof capacity_ge_2.
  pose proof (Z.mod_pos_bound position Capacity ltac:(lia)). lia.
Qed.

(** Two positions less than a capacity apart use different slots. *)
Lemma slot_index_inj p1 p2 :
  Z.abs (p1 - p2) < Capacity -> slot_index Capacity p1 = slot_index Capacity p2 -> p1 = p2.
Proof.
  rewrite !slot_index_mod. pose proof capacity_ge_2. intros Hd Heq.
  pose proof (Z.mod_pos_bound p1 Capacity ltac:(lia)).
  pose proof (Z.mod_pos_bound p2 Capacity ltac:(lia)).
  assert (Hm : p1 mod Capacity = p2 mod Capacity) by lia.
  pose proof (Z.div_mod p1 Capacity ltac:(lia)).
  pose proof (Z.div_mod p2 Capacity ltac:(lia)).
  assert (Hq : Capacity * (p1 / Capacity - p2 / Capacity) = p1 - p2) by lia.
  assert (p1 / Capacity - p2 / Capacity = 0) by nia. lia.
Qed.

Lemma slot_index_add_capacity p :
  slot_index Capacity (p + Capacity) = slot_index Capacity p.
Proof.
  rewrite !slot_index_mod. pose proof capacity_ge_2. f_equal.
  rewrite <- (Z.mul_1_l Capacity) at 1. apply Z.mod_add. lia.
Qed.

Lemma slots_update f p m :
  length (slots_ (update_slot Capacity f p m)) = length (slots_ m).
Proof. unfold update_slot. simpl. apply length_alter. Qed.

Lemma slot_at_update_eq f p m :
  length (slots_ m) = Z.to_nat Capacity ->
  slot_at Capacity (update_slot Capacity f p m) p = f (slot_at Capacity m p).
Proof.
  intros Hlen. unfold slot_at, update_slot. simpl.
  rewrite !list_lookup_total_alt, list_lookup_alter_eq.
  destruct (lookup_lt_is_Some_2 (slots_ m) (slot_index Capacity p)) as [s ->]; [|done].
  rewrite Hlen. apply slot_index_lt.
Qed.

Lemma slot_at_update_ne f p p' m :
  slot_index Capacity p <> slot_index Capacity p' ->
  slot_at Capacity (update_slot Capacity f p m) p' = slot_at Capacity m p'.
Proof.
  intros Hne. unfold slot_at, update_slot. simpl.
  by rewrite !list_lookup_total_alt, list_lookup_alter_ne.
Qed.

Lemma slot_at_index p p' m :
  slot_index Capacity p = slot_index Capacity p' ->
  slot_at Capacity m p = slot_at Capacity m p'.
Proof. unfold slot_at. by intros ->. Qed.

Lemma slot_at_init p :
  slot_at Capacity (@init T Capacity) p = mkSlot (Z.of_nat (slot_index Capacity p)) None.
Proof.
  unfold slot_at, init. simpl. rewrite list_lookup_total_alt, list_lookup_fmap.
  rewrite lookup_seq_lt; [done|]. apply slot_index_lt.
Qed.

Lemma difference_small s p :
  0 <= s < 2 ^ 63 -> 0 <= p < 2 ^ 63 -> difference s p = s - p.
Proof. intros. unfold difference. by rewrite !to_intptr_small by lia. Qed.
End slots.

(** ** The simulation

    [Inv c d q]: position [d] is the oldest one not yet released, and the
    cells [q] are the positions [d], [d+1], ... up to the enqueue position. *)

Section simulation.
Context {T : Type} (Capacity : Z).
Hypothesis Hcap : ValidMailboxCapacity Capacity = true.
Implicit Types (m : BoundedMpscMailbox T) (c : @config T) (q : list (cell T)) (d k : Z).

Definition taken c : bool := match consumer c with CTaken _ _ => true | _ => false end.
Definition releasing c : bool := match consumer c with CReleased _ _ => true | _ => false end.

Definition slot_ok c d q k (s : Slot T) : Prop :=
  match q !! Z.to_nat k with
  | None => s = mkSlot (d + k) None
  | Some (Cell v None) =>
      sequence s = d + k + 1 /\
      storage s = (if taken c && (k =? 0) then None else Some v)
  | Some (Cell v (Some i)) =>
      sequence s = d + k /\
      ((producers c !! i = Some (PReserved v (d + k)) /\ storage s = None) \/
       (producers c !! i = Some (PConstructed (d + k)) /\ storage s = Some v))
  end.

Definition owns i (p : Producer T) d q : Prop :=
  match p with
  | PReserved v pos => exists k, 0 <= k /\ pos = d + k /\ q !! Z.to_nat k = Some (Cell v (Some i))
  | PConstructed pos => exists k v, 0 <= k /\ pos = d + k /\ q !! Z.to_nat k = Some (Cell v (Some i))
  | _ => True
  end.

Definition prod_ok (p : Producer T) d q : Prop :=
  let e := d + Z.of_nat (length q) in
  match p with
  | PLoaded _ pos => 0 <= pos <= e
  | PCas _ pos => 0 <= pos <= e /\ (pos = e -> Z.of_nat (length q) < Capacity)
  | _ => True
  end.

Definition cons_ok c d q : Prop :=
  match consumer c with
  | CLoaded pos => pos = d
  | CTake pos => pos = d /\ exists v q', q = Cell v None :: q'
  | CTaken r pos => pos = d /\ exists v q', r = Some v /\ q = Cell v None :: q'
  | CReleased r pos => pos + 1 = d /\ is_Some r
  | _ => True
  end.

Record Inv c d q : Prop := {
  inv_d : 0 <= d;
  inv_cap : Z.of_nat (length q) <= Capacity;
  inv_enq : enqueue_position_ (mb c) = d + Z.of_nat (length q);
  inv_deq : dequeue_position_ (mb c) = (if releasing c then d - 1 else d);
  inv_len : length (slots_ (mb c)) = Z.to_nat Capacity;
  inv_slot : forall k, 0 <= k < Capacity -> slot_ok c d q k (slot_at Capacity (mb c) (d + k));
  inv_prod : forall i p, producers c !! i = Some p -> prod_ok p d q;
  inv_own : forall i p, producers c !! i = Some p -> owns i p d q;
  inv_cons : cons_ok c d q }.

Lemma mailbox_inv_init n : Inv (init_config Capacity n) 0 [].
Proof.
  pose proof (capacity_ge_2 _ Hcap) as Hge.
  split; simpl; try done; try lia.
  - by rewrite length_fmap, length_seq.
  - intros k Hk. unfold slot_ok. rewrite lookup_nil.
    rewrite slot_at_init by done. f_equal.
    rewrite slot_index_mod by done. rewrite Z.mod_small by lia. lia.
  - intros i p [-> _]%lookup_replicate. done.
  - intros i p [-> _]%lookup_replicate. done.
Qed.

(** A producer that is not past its reservation owns no cell. *)
Lemma inv_not_owner c d q i p (k : nat) v :
  Inv c d q -> producers c !! i = Some p ->
  q !! k = Some (Cell v (Some i)) ->
  p = PReserved v (d + Z.of_nat k) \/ p = PConstructed (d + Z.of_nat k).
Proof.
  intros HI Hi Hq.
  assert (Hk : 0 <= Z.of_nat k < Capacity).
  { apply lookup_lt_Some in Hq. pose proof (inv_cap _ _ _ HI). lia. }
  pose proof (inv_slot _ _ _ HI _ Hk) as Hs. unfold slot_ok in Hs.
  rewrite Nat2Z.id, Hq in Hs. destruct Hs as [_ [[Hp _]|[Hp _]]]; rewrite Hi in Hp;
    simplify_eq; eauto.
Qed.

Lemma slot_ok_producers c c' d q k s :
  consumer c' = consumer c ->
  (forall i v, q !! Z.to_nat k = Some (Cell v (Some i)) -> producers c' !! i = producers c !! i) ->
  slot_ok c d q k s -> slot_ok c' d q k s.
Proof.
  intros Hc Hp. unfold slot_ok, taken. rewrite Hc.
  destruct (q !! Z.to_nat k) as [[v [i|]]|] eqn:E; [|done|done].
  by rewrite (Hp i v).
Qed.

Definition owner_state (p : Producer T) : bool :=
  match p with PReserved _ _ | PConstructed _ => true | _ => false end.

(** Steps that touch only the locals of a producer owning nothing. *)
Lemma inv_set_producer c d q i p p' :
  Inv c d q -> producers c !! i = Some p ->
  owner_state p = false -> owner_state p' = false -> prod_ok p' d q ->
  Inv (mkConfig (mb c) (<[i := p']> (producers c)) (consumer c)) d q.
Proof.
  intros HI Hi Ho Ho' Hok.
  assert (Hne : forall j (k : nat) v, q !! k = Some (Cell v (Some j)) -> j <> i).
  { intros j k v Hq ->. destruct (inv_not_owner _ _ _ _ _ _ _ HI Hi Hq); by subst p. }
  destruct HI as [H1 H2 H3 H4 H5 H6 H7 H8 H9]. split; simpl; try done.
  - intros k Hk. eapply slot_ok_producers; [| |by apply H6]; [done|].
    simpl. intros j v Hq. apply list_lookup_insert_ne. intros ->. by eapply Hne.
  - intros j pj [(-> & -> & _)|(Hj & ?)]%list_lookup_insert_Some; eauto.
  - intros j pj [(-> & -> & _)|(Hj & ?)]%list_lookup_insert_Some; [|eauto].
    by destruct pj.
Qed.

(** Steps that touch only the locals of the consumer. *)
Lemma inv_set_consumer c d q st :
  Inv c d q -> taken c = false -> releasing c = false ->
  (match st with CTaken _ _ | CReleased _ _ => false | _ => true end) = true ->
  cons_ok (mkConfig (mb c) (producers c) st) d q ->
  Inv (mkConfig (mb c) (producers c) st) d q.
Proof.
  intros [H1 H2 H3 H4 H5 H6 H7 H8 H9] Ht Hr Hst Hok.
  split; simpl; try done.
  - rewrite Hr in H4. unfold releasing. simpl. by destruct st.
  - intros k Hk. pose proof (H6 k Hk) as Hs. unfold slot_ok in *. rewrite Ht in Hs.
    replace (taken _) with false by (unfold taken; simpl; by destruct st). done.
Qed.

(** Where the slot of an observed position stands in the window. *)
Lemma window_of_position d e pos :
  e <= d + Capacity -> 0 <= pos <= e ->
  exists k, 0 <= k < Capacity /\
    slot_index Capacity pos = slot_index Capacity (d + k) /\
    (pos <= d + k \/ (pos = d + Capacity /\ k = 0)).
Proof.
  intros He Hpos. pose proof (capacity_ge_2 _ Hcap) as Hge.
  destruct (decide (pos = d + Capacity)) as [->|Hne].
  { exists 0. rewrite Z.add_0_r, slot_index_add_capacity by done.
    split; [lia|]. split; [done|by right]. }
  exists ((pos - d) mod Capacity).
  pose proof (Z.mod_pos_bound (pos - d) Capacity ltac:(lia)) as Hb.
  pose proof (Z.div_mod (pos - d) Capacity ltac:(lia)) as Hdm.
  assert (Hq : (pos - d) / Capacity < 1) by (apply Z.div_lt_upper_bound; lia).
  split; [lia|]. split; [|left; nia].
  rewrite !slot_index_mod by done. f_equal.
  rewrite Zplus_mod_idemp_r. f_equal. lia.
Qed.

(** The sequence stored in the slot of window offset [k]. *)
Lemma slot_ok_sequence c d q k s :
  slot_ok c d q k s ->
  (sequence s = d + k \/ (sequence s = d + k + 1 /\ exists v, q !! Z.to_nat k = Some (Cell v None))).
Proof.
  unfold slot_ok. destruct (q !! Z.to_nat k) as [[v [i|]]|].
  - intros [? _]. by left.
  - intros [? _]. right. eauto.
  - intros ->. by left.
Qed.

(** Steps that overwrite the slot of window offset [k0]. *)
Lemma slot_ok_update m d k0 k f :
  0 <= k0 < Capacity -> 0 <= k < Capacity ->
  length (slots_ m) = Z.to_nat Capacity ->
  slot_at Capacity (update_slot Capacity f (d + k0) m) (d + k) =
  if decide (k = k0) then f (slot_at Capacity m (d + k)) else slot_at Capacity m (d + k).
Proof.
  intros Hk0 Hk Hlen. case_decide as Hd; [subst k0; by rewrite slot_at_update_eq|].
  apply slot_at_update_ne. intros Heq. apply Hd.
  apply slot_index_inj in Heq; [lia|done|lia].
Qed.

Lemma slot_ok_update_head m d k f :
  0 <= k < Capacity -> length (slots_ m) = Z.to_nat Capacity ->
  slot_at Capacity (update_slot Capacity f d m) (d + k) =
  if decide (k = 0) then f (slot_at Capacity m (d + k)) else slot_at Capacity m (d + k).
Proof.
  intros Hk Hlen. rewrite <- (slot_ok_update m d 0) by (done || lia). by rewrite Z.add_0_r.
Qed.

Definition bounded d q : Prop := d + Z.of_nat (length q) + Capacity < 2 ^ 63.

Lemma lookup_reserve_lt q i v (k : nat) :
  (k < length q)%nat -> cq_reserve i v q !! k = q !! k.
Proof. intros. unfold cq_reserve. by apply lookup_app_l. Qed.

(** The outcome of the comparison with the slot's sequence. *)
Lemma emplace_difference c d q i v pos :
  Inv c d q -> bounded d q -> producers c !! i = Some (PLoaded v pos) ->
  let dif := difference (sequence (slot_at Capacity (mb c) pos)) pos in
  (dif = 0 -> pos = d + Z.of_nat (length q) -> Z.of_nat (length q) < Capacity) /\
  (dif < 0 -> Z.of_nat (length q) = Capacity).
Proof.
  intros HI HB Hi. pose proof (capacity_ge_2 _ Hcap) as Hge.
  pose proof (inv_prod _ _ _ HI _ _ Hi) as Hpos. simpl in Hpos.
  pose proof (inv_cap _ _ _ HI) as Hlen. pose proof (inv_d _ _ _ HI) as Hd.
  unfold bounded in HB.
  destruct (window_of_position d (d + Z.of_nat (length q)) pos) as (k & Hk & Hidx & Hw);
    [lia|lia|].
  rewrite (slot_at_index _ _ _ _ Hidx).
  pose proof (inv_slot _ _ _ HI _ Hk) as Hs. apply slot_ok_sequence in Hs.
  assert (Hseq : d + k <= sequence (slot_at Capacity (mb c) (d + k)) <= d + k + 1)
    by (destruct Hs as [|[? _]]; lia).
  assert (Hk63 : sequence (slot_at Capacity (mb c) (d + k)) < 2 ^ 63).
  { destruct Hs as [Hs|[Hs [w Hw']]]; [lia|]. apply lookup_lt_Some in Hw'. lia. }
  cbv zeta. rewrite difference_small by lia. split; intros; destruct Hw as [|[? ->]]; lia.
Qed.

Lemma sim_reserve c d q i v pos :
  Inv c d q -> bounded d q -> producers c !! i = Some (PCas v pos) ->
  enqueue_position_ (mb c) = pos ->
  let c' := mkConfig (store_enqueue (u64 (pos + 1)) (mb c))
              (<[i := PReserved v pos]> (producers c)) (consumer c) in
  qstep Capacity q (EvReserve i v) (cq_reserve i v q) /\ Inv c' d (cq_reserve i v q).
Proof.
  intros HI HB Hi He c'. pose proof (inv_prod _ _ _ HI _ _ Hi) as [Hpos Hroom].
  pose proof (inv_enq _ _ _ HI) as Henq. pose proof (inv_d _ _ _ HI) as Hd.
  unfold bounded in HB. assert (Hpe : pos = d + Z.of_nat (length q)) by lia.
  specialize (Hroom Hpe).
  assert (Hne : forall j (k : nat) w, q !! k = Some (Cell w (Some j)) -> j <> i).
  { intros j k w Hq ->. by destruct (inv_not_owner _ _ _ _ _ _ _ HI Hi Hq). }
  assert (Hl : length (cq_reserve i v q) = S (length q))
    by (unfold cq_reserve; rewrite length_app; simpl; lia).
  assert (Hil : (i < length (producers c))%nat) by by eapply lookup_lt_Some.
  split; [by constructor|].
  destruct HI as [H1 H2 H3 H4 H5 H6 H7 H8 H9]. subst c'. split; simpl; try done; try lia.
  - rewrite Hl, wrap_small; lia.
  - intros k Hk. specialize (H6 k Hk). unfold slot_ok in *.
    destruct (Nat.lt_total (Z.to_nat k) (length q)) as [Hlt|[Heq|Hgt]].
    + rewrite lookup_reserve_lt by done.
      destruct (q !! Z.to_nat k) as [[w [j|]]|] eqn:E; [|done|done].
      simpl. rewrite list_lookup_insert_ne by (apply not_eq_sym; eauto). done.
    + rewrite lookup_ge_None_2 in H6 by lia. simpl in *.
      unfold cq_reserve. rewrite Heq, list_lookup_middle by done.
      unfold slot_at, store_enqueue in *. simpl in *. rewrite H6. simpl. split; [done|].
      left. rewrite list_lookup_insert_eq by done. split; [|done]. do 2 f_equal. lia.
    + rewrite lookup_ge_None_2 in H6 by lia.
      rewrite lookup_ge_None_2 by lia. done.
  - intros j pj [(-> & <- & _)|(Hj & Hpj)]%list_lookup_insert_Some; [done|].
    specialize (H7 _ _ Hpj). unfold prod_ok in *. rewrite Hl.
    destruct pj; try done; lia.
  - intros j pj [(-> & <- & _)|(Hj & Hpj)]%list_lookup_insert_Some.
    + simpl. exists (Z.of_nat (length q)). rewrite Nat2Z.id. unfold cq_reserve.
      rewrite list_lookup_middle by done. split; [lia|]. by split; [lia|].
    + specialize (H8 _ _ Hpj). unfold owns in *. destruct pj; try done.
      * destruct H8 as (k & ? & ? & Hk). exists k. rewrite lookup_reserve_lt; [done|].
        by eapply lookup_lt_Some.
      * destruct H8 as (k & w & ? & ? & Hk). exists k, w.
        rewrite lookup_reserve_lt; [done|]. by eapply lookup_lt_Some.
  - unfold cons_ok in *. simpl. destruct (consumer c); try done.
    + destruct H9 as (? & w & q' & ->). split; [done|]. by exists w, (cq_reserve i v q').
    + destruct H9 as (? & w & q' & ? & ->). split; [done|]. by exists w, (cq_reserve i v q').
Qed.

(** Facts about the cell a producer past its reservation owns. *)
Lemma owned_cell c d q i p k v :
  Inv c d q -> producers c !! i = Some p -> 0 <= k ->
  q !! Z.to_nat k = Some (Cell v (Some i)) ->
  k < Capacity /\ (i < length (producers c))%nat /\
  (forall (k' : nat) w, q !! k' = Some (Cell w (Some i)) -> Z.of_nat k' = k).
Proof.
  intros HI Hi Hk Hq. pose proof (inv_cap _ _ _ HI) as Hlen.
  assert (k < Capacity) by (apply lookup_lt_Some in Hq; lia).
  split; [done|]. split; [by eapply lookup_lt_Some|]. intros k' w Hq'.
  destruct (inv_not_owner _ _ _ _ _ _ _ HI Hi Hq), (inv_not_owner _ _ _ _ _ _ _ HI Hi Hq');
    subst p; simplify_eq; lia.
Qed.

Lemma sim_construct c d q i v pos :
  Inv c d q -> producers c !! i = Some (PReserved v pos) ->
  Inv (mkConfig (construct_value Capacity pos v (mb c))
         (<[i := PConstructed pos]> (producers c)) (consumer c)) d q.
Proof.
  intros HI Hi. pose proof (inv_own _ _ _ HI _ _ Hi) as (k0 & Hk0 & -> & Hq0).
  destruct (owned_cell _ _ _ _ _ _ _ HI Hi Hk0 Hq0) as (Hk0' & Hil & Huniq).
  destruct HI as [H1 H2 H3 H4 H5 H6 H7 H8 H9]. split; simpl; try done.
  - by rewrite length_alter.
  - intros k Hk. unfold construct_value, store_sequence. rewrite slot_ok_update by done. specialize (H6 k Hk).
    case_decide as Hd.
    + subst k. unfold slot_ok in *. rewrite Hq0 in *. simpl. destruct H6 as [Hs _].
      split; [done|]. right. by rewrite list_lookup_insert_eq.
    + eapply slot_ok_producers; [| |exact H6]; [done|]. simpl. intros j w Hq.
      apply list_lookup_insert_ne. intros ->. apply Huniq in Hq. lia.
  - intros j pj [(-> & <- & _)|(Hj & Hpj)]%list_lookup_insert_Some; [done|eauto].
  - intros j pj [(-> & <- & _)|(Hj & Hpj)]%list_lookup_insert_Some; [|eauto].
    simpl. by exists k0, v.
Qed.

Lemma publish_lookup i q (k : nat) :
  cq_publish i q !! k = cell_publish i <$> q !! k.
Proof. apply list_lookup_fmap. Qed.

Lemma cell_publish_other i (x : cell T) : cell_owner x <> Some i -> cell_publish i x = x.
Proof. unfold cell_publish. by case_decide. Qed.

Lemma sim_publish c d q i pos :
  Inv c d q -> bounded d q -> producers c !! i = Some (PConstructed pos) ->
  let c' := mkConfig (store_sequence Capacity pos (u64 (pos + 1)) (mb c))
              (<[i := PReturn true]> (producers c)) (consumer c) in
  qstep Capacity q (EvPublish i) (cq_publish i q) /\ Inv c' d (cq_publish i q).
Proof.
  intros HI HB Hi c'. pose proof (inv_own _ _ _ HI _ _ Hi) as (k0 & v & Hk0 & -> & Hq0).
  destruct (owned_cell _ _ _ _ _ _ _ HI Hi Hk0 Hq0) as (Hk0' & Hil & Huniq).
  pose proof (inv_d _ _ _ HI) as Hd. unfold bounded in HB.
  assert (Hlt : k0 < Z.of_nat (length q)) by (apply lookup_lt_Some in Hq0; lia).
  assert (Hpub : forall (k : nat), Z.of_nat k <> k0 -> cq_publish i q !! k = q !! k).
  { intros k Hne. rewrite publish_lookup. destruct (q !! k) as [x|] eqn:E; [|done].
    simpl. f_equal. apply cell_publish_other. intros Ho.
    destruct x as [w o]. simpl in Ho. subst o. by apply Huniq in E. }
  assert (Hpub0 : cq_publish i q !! Z.to_nat k0 = Some (Cell v None)).
  { rewrite publish_lookup, Hq0. simpl. unfold cell_publish. by rewrite decide_True. }
  split; [by econstructor|].
  destruct HI as [H1 H2 H3 H4 H5 H6 H7 H8 H9]. subst c'.
  split; rewrite ?length_cq_publish; simpl; try done.
  - by rewrite length_alter.
  - intros k Hk. unfold construct_value, store_sequence. rewrite slot_ok_update by done. specialize (H6 k Hk).
    case_decide as Hdk.
    + subst k. unfold slot_ok in *. rewrite Hq0 in H6. rewrite Hpub0. simpl.
      rewrite wrap_small by lia. destruct H6 as [Hs [[Hp _]|[_ Hst]]]; [simplify_eq|].
      split; [lia|]. unfold taken in *. simpl. destruct (consumer c) eqn:Ec; try done.
      unfold cons_ok in H9. rewrite Ec in H9. destruct H9 as (_ & w & q' & _ & ->).
      destruct (Z.eqb_spec k0 0) as [->|]; [simplify_eq/=|done].
    + eapply (slot_ok_producers c); [done| |].
      * simpl. intros j w. rewrite Hpub by lia. intros Hq.
        apply list_lookup_insert_ne. intros ->. apply Huniq in Hq. lia.
      * unfold slot_ok. rewrite Hpub by lia. done.
  - intros j pj [(-> & <- & _)|(Hj & Hpj)]%list_lookup_insert_Some; [done|].
    specialize (H7 _ _ Hpj). unfold prod_ok in *. by rewrite length_cq_publish.
  - intros j pj [(-> & <- & _)|(Hj & Hpj)]%list_lookup_insert_Some; [done|].
    specialize (H8 _ _ Hpj). unfold owns in *. destruct pj as [| | | | |w pos|pos|]; try done.
    + destruct H8 as (k & ? & ? & Hk). exists k. rewrite publish_lookup, Hk. simpl.
      by rewrite cell_publish_other by (simpl; congruence).
    + destruct H8 as (k & w & ? & ? & Hk). exists k, w. rewrite publish_lookup, Hk. simpl.
      by rewrite cell_publish_other by (simpl; congruence).
  - unfold cons_ok in *. simpl. destruct (consumer c); try done.
    + destruct H9 as (? & w & q' & ->). split; [done|]. by exists w, (cq_publish i q').
    + destruct H9 as (? & w & q' & ? & ->). split; [done|]. by exists w, (cq_publish i q').
Qed.

(** The head slot, as [TryPop] reads it. *)
Lemma pop_difference c d q :
  Inv c d q -> bounded d q -> taken c = false ->
  let dif := difference (sequence (slot_at Capacity (mb c) d)) (u64 (d + 1)) in
  (dif = 0 <-> exists v q', q = Cell v None :: q').
Proof.
  intros HI HB Ht. pose proof (capacity_ge_2 _ Hcap) as Hge.
  pose proof (inv_d _ _ _ HI) as Hd. unfold bounded in HB.
  pose proof (inv_slot _ _ _ HI 0 ltac:(lia)) as Hs. rewrite Z.add_0_r in Hs.
  unfold slot_ok in Hs. rewrite wrap_small by lia. change (Z.to_nat 0) with 0%nat in Hs.
  destruct q as [|[v [i|]] q']; simpl in Hs; cbv zeta.
  - rewrite Hs. simpl. rewrite difference_small by lia. split; [lia|].
    by intros (? & ? & ?).
  - destruct Hs as [Hseq _]. rewrite difference_small by lia. split; [lia|].
    by intros (? & ? & ?).
  - destruct Hs as [Hseq _]. rewrite difference_small by lia.
    split; [intros _; eauto|lia].
Qed.

Lemma head_storage c d v q' :
  Inv c d (Cell v None :: q') -> taken c = false ->
  storage (slot_at Capacity (mb c) d) = Some v.
Proof.
  intros HI Ht. pose proof (capacity_ge_2 _ Hcap) as Hge.
  pose proof (inv_slot _ _ _ HI 0 ltac:(lia)) as Hs. rewrite Z.add_0_r in Hs.
  unfold slot_ok in Hs. simpl in Hs. rewrite Ht in Hs. by destruct Hs.
Qed.

Lemma sim_take c d v q' :
  Inv c d (Cell v None :: q') -> consumer c = CTake d ->
  Inv (mkConfig (destroy_value Capacity d (mb c)) (producers c)
         (CTaken (storage (slot_at Capacity (mb c) d)) d)) d (Cell v None :: q').
Proof.
  intros HI Hc. pose proof (capacity_ge_2 _ Hcap) as Hge.
  assert (Ht : taken c = false) by (unfold taken; by rewrite Hc).
  assert (Hr : releasing c = false) by (unfold releasing; by rewrite Hc).
  rewrite (head_storage _ _ _ _ HI Ht).
  destruct HI as [H1 H2 H3 H4 H5 H6 H7 H8 H9]. rewrite Hr in H4. split; try done.
  - simpl. by rewrite length_alter.
  - intros k Hk. specialize (H6 k Hk). unfold destroy_value.
    simpl. rewrite slot_ok_update_head by (done || lia).
    case_decide as Hdk.
    + subst k. unfold slot_ok in *. simpl in *. rewrite Ht in H6. by destruct H6.
    + unfold slot_ok in *. rewrite Ht in H6.
      destruct (_ !! Z.to_nat k) as [[w [j|]]|]; [done| |done].
      destruct (Z.eqb_spec k 0); [done|]. by rewrite andb_false_r.
  - unfold cons_ok. simpl. eauto.
Qed.

Lemma sim_release c d v q' :
  Inv c d (Cell v None :: q') -> bounded d (Cell v None :: q') ->
  consumer c = CTaken (Some v) d ->
  Inv (mkConfig (store_sequence Capacity d (u64 (d + Capacity)) (mb c)) (producers c)
         (CReleased (Some v) d)) (d + 1) q'.
Proof.
  intros HI HB Hc. pose proof (capacity_ge_2 _ Hcap) as Hge.
  assert (Ht : taken c = true) by (unfold taken; by rewrite Hc).
  assert (Hr : releasing c = false) by (unfold releasing; by rewrite Hc).
  destruct HI as [H1 H2 H3 H4 H5 H6 H7 H8 H9]. rewrite Hr in H4.
  unfold bounded in HB. simpl in H2, H3, HB.
  split; try done; try (simpl; lia).
  - simpl. by rewrite length_alter.
  - intros k Hk. unfold store_sequence. simpl.
    destruct (decide (k = Capacity - 1)) as [->|Hlast].
    + replace (d + 1 + (Capacity - 1)) with (d + Capacity) by lia.
      rewrite (slot_at_index _ _ d) by (by apply slot_index_add_capacity).
      rewrite slot_at_update_eq by done. specialize (H6 0 ltac:(lia)).
      rewrite Z.add_0_r in H6. unfold slot_ok in H6. simpl in H6. rewrite Ht in H6.
      unfold slot_ok. rewrite lookup_ge_None_2 by lia. destruct H6 as [_ Hst]. simpl in Hst.
      rewrite Hst, wrap_small by lia. f_equal. lia.
    + specialize (H6 (k + 1) ltac:(lia)).
      replace (d + 1 + k) with (d + (k + 1)) by lia.
      rewrite slot_ok_update_head by (done || lia). rewrite decide_False by lia.
      unfold slot_ok in *. rewrite Ht in H6.
      replace (Z.to_nat (k + 1)) with (S (Z.to_nat k)) in H6 by lia. simpl in H6.
      destruct (q' !! Z.to_nat k) as [[w [j|]]|].
      * replace (d + 1 + k) with (d + (k + 1)) by lia. done.
      * destruct (Z.eqb_spec (k + 1) 0); [lia|]. simpl in *. split; [lia|]. by destruct H6.
      * rewrite H6. f_equal. lia.
  - intros j pj Hpj. specialize (H7 _ _ Hpj). unfold prod_ok in *. simpl in *.
    destruct pj; try done; lia.
  - intros j pj Hpj. specialize (H8 _ _ Hpj). unfold owns in *.
    destruct pj as [| | | | |w pos|pos|]; try done.
    + destruct H8 as (k & ? & -> & Hk). exists (k - 1).
      destruct (Z.to_nat k) as [|n] eqn:E; [done|]. simpl in Hk.
      replace (Z.to_nat (k - 1)) with n by lia. split; [lia|]. by split; [lia|].
    + destruct H8 as (k & w & ? & -> & Hk). exists (k - 1), w.
      destruct (Z.to_nat k) as [|n] eqn:E; [done|]. simpl in Hk.
      replace (Z.to_nat (k - 1)) with n by lia. split; [lia|]. by split; [lia|].
Qed.

Lemma sim_store_dequeue c d q r pos :
  Inv c d q -> bounded d q -> consumer c = CReleased r pos ->
  Inv (mkConfig (store_dequeue (u64 (pos + 1)) (mb c)) (producers c) (CReturn r)) d q.
Proof.
  intros [H1 H2 H3 H4 H5 H6 H7 H8 H9] HB Hc. pose proof (capacity_ge_2 _ Hcap) as Hge.
  unfold bounded in HB. unfold cons_ok in H9. rewrite Hc in H9. destruct H9 as [Hpos _].
  split; try done.
  - simpl. rewrite wrap_small; lia.
  - intros k Hk. specialize (H6 k Hk). unfold slot_ok, taken in *. rewrite Hc in H6. done.
Qed.

Definition reserves (ev : qevent T) : list T :=
  match ev with EvReserve _ v => [v] | _ => [] end.

Lemma sim_producer c d q i weak p m' p' ev :
  Inv c d q -> bounded d q -> producers c !! i = Some p ->
  TryEmplace_step Capacity i weak (mb c) p = Some (m', p', ev) ->
  exists q', qstep Capacity q ev q' /\
    Inv (mkConfig m' (<[i := p']> (producers c)) (consumer c)) d q' /\
    Z.of_nat (length q') = Z.of_nat (length q) + Z.of_nat (length (reserves ev)).
Proof.
  intros HI HB Hi Hst.
  assert (He : enqueue_position_ (mb c) = d + Z.of_nat (length q)) by apply (inv_enq _ _ _ HI).
  pose proof (inv_d _ _ _ HI) as Hd.
  assert (Hlocal : owner_state p = false -> owner_state p' = false -> prod_ok p' d q ->
      m' = mb c -> ev = EvTau -> exists q', qstep Capacity q ev q' /\
      Inv (mkConfig m' (<[i := p']> (producers c)) (consumer c)) d q' /\
      Z.of_nat (length q') = Z.of_nat (length q) + Z.of_nat (length (reserves ev))).
  { intros Ho Ho' Hok -> ->. exists q. split; [constructor|]. split; [|simpl; lia].
    by eapply inv_set_producer. }
  destruct p as [|v|v pos|v pos|v|v pos|pos|b]; simpl in Hst; simplify_eq.
  - apply Hlocal; try done. simpl. lia.
  - pose proof (emplace_difference _ _ _ _ _ _ HI HB Hi) as [Hz Hneg]. simpl in Hz, Hneg.
    pose proof (inv_prod _ _ _ HI _ _ Hi) as Hpos. simpl in Hpos.
    destruct (Z.eqb_spec (difference (sequence (slot_at Capacity (mb c) pos)) pos) 0) as [E|_];
      [|destruct (Z.ltb_spec (difference (sequence (slot_at Capacity (mb c) pos)) pos) 0) as [E|_]];
      simplify_eq.
    + apply Hlocal; try done. simpl. auto.
    + exists q. split; [constructor; auto|]. split; [|simpl; lia].
      by eapply inv_set_producer.
    + apply Hlocal; done.
  - destruct (Z.eqb_spec (enqueue_position_ (mb c)) pos) as [E|_];
      [destruct weak|]; simpl in Hst; simplify_eq; try (apply Hlocal; try done; simpl; lia).
    destruct (sim_reserve _ _ _ _ _ _ HI HB Hi eq_refl) as [Hq HI'].
    eexists. split; [exact Hq|]. split; [exact HI'|].
    unfold cq_reserve. rewrite length_app. simpl. lia.
  - apply Hlocal; try done. simpl. lia.
  - exists q. split; [constructor|]. split; [|simpl; lia]. by apply sim_construct.
  - destruct (sim_publish _ _ _ _ _ HI HB Hi) as [Hq HI'].
    eexists. split; [exact Hq|]. split; [exact HI'|]. rewrite length_cq_publish. simpl. lia.
  - apply Hlocal; done.
Qed.

Lemma sim_consumer c d q m' st ev :
  Inv c d q -> bounded d q -> TryPop_step Capacity (mb c) (consumer c) = Some (m', st, ev) ->
  exists d' q', qstep Capacity q ev q' /\ Inv (mkConfig m' (producers c) st) d' q' /\
    reserves ev = [] /\ d' + Z.of_nat (length q') = d + Z.of_nat (length q).
Proof.
  intros HI HB Hst. pose proof (inv_cons _ _ _ HI) as Hc. unfold cons_ok in Hc.
  assert (Hlocal : forall st', taken c = false -> releasing c = false ->
      match st' with CTaken _ _ | CReleased _ _ => false | _ => true end = true ->
      cons_ok (mkConfig (mb c) (producers c) st') d q ->
      Inv (mkConfig (mb c) (producers c) st') d q) by (intros; by apply inv_set_consumer).
  destruct (consumer c) as [| |pos|pos|r pos|r pos|r] eqn:Ec; simpl in Hst; [done|..].
  - pose proof (inv_deq _ _ _ HI) as Hdq. exists d, q. unfold releasing in Hdq.
    rewrite Ec in Hdq. rewrite Hdq in Hst. injection Hst as <- <- <-.
    split; [constructor|]. split; [|done].
    unfold releasing, taken in *. rewrite Ec in *. by apply Hlocal.
  - assert (Ht : taken c = false) by (unfold taken; by rewrite Ec).
    pose proof (pop_difference _ _ _ HI HB Ht) as Hdif. simpl in Hdif. subst pos.
    unfold releasing, taken in *. rewrite Ec in *.
    destruct (Z.eqb_spec (difference (sequence (slot_at Capacity (mb c) d)) (u64 (d + 1))) 0)
      as [E|E]; simplify_eq; exists d, q.
    + split; [constructor|]. split; [|done]. apply Hlocal; try done.
      unfold cons_ok. simpl. split; [done|]. by apply Hdif.
    + split; [|split; [by apply Hlocal|done]]. constructor.
      destruct (cq_pop q) as [[v q']|] eqn:Ep; [|done].
      apply cq_pop_head in Ep. exfalso. apply E, Hdif. eauto.
  - destruct Hc as (-> & v & q' & ->). simplify_eq. exists d, (Cell v None :: q').
    split; [constructor|]. split; [|done]. by apply sim_take.
  - destruct Hc as (-> & v & q' & -> & ->). simplify_eq. exists (d + 1), q'.
    split; [by constructor|]. split; [by apply sim_release|]. split; [done|]. simpl. lia.
  - simplify_eq. exists d, q. split; [constructor|]. split; [|done]. by apply sim_store_dequeue.
  - simplify_eq. exists d, q. split; [constructor|]. split; [|done].
    unfold releasing, taken in *. rewrite Ec in *. by apply Hlocal.
Qed.

Lemma sim_step c d q ev c' :
  Inv c d q -> bounded d q -> step Capacity c ev c' ->
  exists d' q', qstep Capacity q ev q' /\ Inv c' d' q' /\
    d' + Z.of_nat (length q') = d + Z.of_nat (length q) + Z.of_nat (length (reserves ev)).
Proof.
  intros HI HB Hst. destruct Hst as [c i v Hi|c i weak p m' p' ev Hi Hst|c Hc|c m' st ev Hst].
  - exists d, q. split; [constructor|]. split; [|simpl; lia]. by eapply inv_set_producer.
  - destruct (sim_producer _ _ _ _ _ _ _ _ _ HI HB Hi Hst) as (q' & ? & ? & ?).
    exists d, q'. split; [done|]. split; [done|lia].
  - exists d, q. split; [constructor|]. split; [|simpl; lia].
    unfold taken, releasing. apply inv_set_consumer; try done; unfold taken, releasing;
      by rewrite Hc.
  - destruct (sim_consumer _ _ _ _ _ _ HI HB Hst) as (d' & q' & ? & ? & -> & ?).
    exists d', q'. split; [done|]. split; [done|]. simpl. lia.
Qed.

(** Every execution of the ring buffer is one of the cell queue. *)
Lemma sim_exec n c rs ps :
  exec Capacity n c rs ps -> Z.of_nat (length rs) + Capacity < 2 ^ 63 ->
  exists d q, Inv c d q /\ qexec Capacity q rs ps /\
    d + Z.of_nat (length q) = Z.of_nat (length rs).
Proof.
  induction 1 as [|c rs ps ev c' Hex IH Hst]; intros HB.
  - exists 0, []. split; [apply mailbox_inv_init|]. split; [constructor|done].
  - rewrite length_app in HB. destruct IH as (d & q & HI & Hq & Hlen); [lia|].
    destruct (sim_step c d q ev c') as (d' & q' & Hqs & HI' & Hlen'); [done| |done|].
    { unfold bounded. lia. }
    exists d', q'. split; [done|]. split; [by econstructor|].
    rewrite length_app. unfold reserves in Hlen'. destruct ev; simpl in *; lia.
Qed.
End simulation.

(** ** Calls that run alone *)

Section alone.
Context {T : Type} (Capacity : Z).
Hypothesis Hcap : ValidMailboxCapacity Capacity = true.
Implicit Types (c : @config T) (q : list (cell T)) (d : Z).

Lemma tail_difference c d q :
  Inv Capacity c d q -> bounded Capacity d q ->
  let e := d + Z.of_nat (length q) in
  let dif := difference (sequence (slot_at Capacity (mb c) e)) e in
  (Z.of_nat (length q) < Capacity -> dif = 0) /\
  (Z.of_nat (length q) = Capacity -> dif < 0).
Proof.
  intros HI HB e dif. pose proof (capacity_ge_2 _ Hcap) as Hge.
  pose proof (inv_d _ _ _ _ HI) as Hd. unfold bounded in HB. subst e dif. split; intros Hl.
  - pose proof (inv_slot _ _ _ _ HI (Z.of_nat (length q)) ltac:(lia)) as Hs.
    unfold slot_ok in Hs. rewrite Nat2Z.id, lookup_ge_None_2 in Hs by lia.
    rewrite Hs. simpl. rewrite difference_small; lia.
  - rewrite Hl, (slot_at_index _ _ d) by (by apply slot_index_add_capacity).
    pose proof (inv_slot _ _ _ _ HI 0 ltac:(lia)) as Hs. apply slot_ok_sequence in Hs.
    rewrite Z.add_0_r in Hs. rewrite difference_small; destruct Hs as [|[? _]]; lia.
Qed.

Lemma run_TryEmplace_step fuel i (m : BoundedMpscMailbox T) p m' p' ev :
  TryEmplace_step Capacity i false m p = Some (m', p', ev) ->
  (forall b, p <> PReturn b) ->
  run_TryEmplace Capacity (S fuel) i m p = run_TryEmplace Capacity fuel i m' p'.
Proof.
  intros Hs Hne. transitivity (match TryEmplace_step Capacity i false m p with
    | Some (m1, p1, _) => run_TryEmplace Capacity fuel i m1 p1 | None => None end);
    [|by rewrite Hs].
  destruct p; try reflexivity. by edestruct Hne.
Qed.

Lemma run_alone_room c d q v :
  Inv Capacity c d q -> bounded Capacity d q -> Z.of_nat (length q) < Capacity ->
  let e := d + Z.of_nat (length q) in
  TryEmplace Capacity v (mb c) =
    Some (store_sequence Capacity e (e + 1)
           (construct_value Capacity e v (store_enqueue (e + 1) (mb c))), true).
Proof.
  intros HI HB Hl e. pose proof (tail_difference _ _ _ HI HB) as [Hd _].
  specialize (Hd Hl). fold e in Hd. pose proof (inv_enq _ _ _ _ HI) as He. fold e in He.
  pose proof (inv_d _ _ _ _ HI). unfold bounded in HB. unfold TryEmplace.
  erewrite run_TryEmplace_step by done. rewrite He.
  erewrite run_TryEmplace_step by (simpl; by rewrite ?Hd).
  erewrite run_TryEmplace_step by (simpl; by rewrite ?He, ?Z.eqb_refl).
  erewrite run_TryEmplace_step by done.
  erewrite run_TryEmplace_step by done. simpl. rewrite !wrap_small; [done|lia..].
Qed.

Lemma run_alone_full c d q v :
  Inv Capacity c d q -> bounded Capacity d q -> Z.of_nat (length q) = Capacity ->
  TryEmplace Capacity v (mb c) = Some (mb c, false).
Proof.
  intros HI HB Hl. pose proof (tail_difference _ _ _ HI HB) as [_ Hd]. specialize (Hd Hl).
  unfold TryEmplace. erewrite run_TryEmplace_step by done. rewrite (inv_enq _ _ _ _ HI).
  assert (Hd0 : (difference (sequence (slot_at Capacity (mb c)
    (d + Z.of_nat (length q)))) (d + Z.of_nat (length q)) =? 0) = false) by (apply Z.eqb_neq; lia).
  apply Z.ltb_lt in Hd.
  erewrite run_TryEmplace_step by (simpl; by rewrite ?Hd0, ?Hd). done.
Qed.

(** The mailbox after the consumer took the head cell. *)
Definition after_pop d (m : BoundedMpscMailbox T) : BoundedMpscMailbox T :=
  store_dequeue (u64 (d + 1))
    (store_sequence Capacity d (u64 (d + Capacity)) (destroy_value Capacity d m)).

Lemma inv_after_pop c d v q :
  Inv Capacity c d (Cell v None :: q) -> bounded Capacity d (Cell v None :: q) ->
  consumer c = CIdle ->
  Inv Capacity (mkConfig (after_pop d (mb c)) (producers c) CIdle) (d + 1) q.
Proof.
  intros HI HB Hc.
  assert (HI1 : Inv Capacity (mkConfig (mb c) (producers c) (CTake d)) d (Cell v None :: q)).
  { apply inv_set_consumer; try done; unfold taken, releasing, cons_ok; rewrite ?Hc; simpl; eauto. }
  apply (sim_take _ Hcap) in HI1; [|done]. simpl in HI1.
  rewrite (head_storage _ Hcap _ _ _ _ HI) in HI1 by (unfold taken; by rewrite Hc).
  apply (sim_release _ Hcap) in HI1; [|done|done]. simpl in HI1.
  assert (HB' : bounded Capacity (d + 1) q) by (unfold bounded in *; simpl in HB; lia).
  apply (sim_store_dequeue _ Hcap _ _ _ (Some v) d) in HI1; [|done|done]. simpl in HI1.
  apply (inv_set_consumer _ _ _ _ CIdle) in HI1; done.
Qed.

Lemma run_pop_ready c d v q :
  Inv Capacity c d (Cell v None :: q) -> bounded Capacity d (Cell v None :: q) ->
  consumer c = CIdle ->
  TryPop Capacity (mb c) = Some (after_pop d (mb c), Some v).
Proof.
  intros HI HB Hc. assert (Ht : taken c = false) by (unfold taken; by rewrite Hc).
  pose proof (pop_difference _ Hcap _ _ _ HI HB Ht) as Hdif. simpl in Hdif.
  pose proof (inv_deq _ _ _ _ HI) as Hdq. unfold releasing in Hdq. rewrite Hc in Hdq.
  unfold TryPop. cbn [run_TryPop TryPop_step]. rewrite Hdq.
  destruct (Z.eqb_spec (difference (sequence (slot_at Capacity (mb c) d)) (u64 (d + 1))) 0)
    as [_|E]; [|exfalso; apply E, Hdif; eauto].
  cbn [run_TryPop TryPop_step]. by rewrite (head_storage _ Hcap _ _ _ _ HI Ht).
Qed.

Lemma run_pop_unready c d q :
  Inv Capacity c d q -> bounded Capacity d q -> consumer c = CIdle -> cq_pop q = None ->
  TryPop Capacity (mb c) = Some (mb c, None).
Proof.
  intros HI HB Hc Hp. assert (Ht : taken c = false) by (unfold taken; by rewrite Hc).
  pose proof (pop_difference _ Hcap _ _ _ HI HB Ht) as Hdif. simpl in Hdif.
  pose proof (inv_deq _ _ _ _ HI) as Hdq. unfold releasing in Hdq. rewrite Hc in Hdq.
  unfold TryPop. cbn [run_TryPop TryPop_step]. rewrite Hdq.
  destruct (Z.eqb_spec (difference (sequence (slot_at Capacity (mb c) d)) (u64 (d + 1))) 0)
    as [E|_]; [|done].
  apply Hdif in E as (v & q' & ->). done.
Qed.

Lemma destroy_step_ready c d v q :
  Inv Capacity c d (Cell v None :: q) -> bounded Capacity d (Cell v None :: q) ->
  consumer c = CIdle ->
  DestroyRemaining_step Capacity (mb c) = Some (after_pop d (mb c)).
Proof.
  intros HI HB Hc. assert (Ht : taken c = false) by (unfold taken; by rewrite Hc).
  pose proof (pop_difference _ Hcap _ _ _ HI HB Ht) as Hdif. simpl in Hdif.
  pose proof (inv_deq _ _ _ _ HI) as Hdq. unfold releasing in Hdq. rewrite Hc in Hdq.
  unfold DestroyRemaining_step. rewrite Hdq.
  destruct (Z.eqb_spec (difference (sequence (slot_at Capacity (mb c) d)) (u64 (d + 1))) 0)
    as [_|E]; [done|]. exfalso. apply E, Hdif. eauto.
Qed.

Lemma destroy_step_done c d :
  Inv Capacity c d [] -> bounded Capacity d (@nil (cell T)) -> consumer c = CIdle ->
  DestroyRemaining_step Capacity (mb c) = None.
Proof.
  intros HI HB Hc. assert (Ht : taken c = false) by (unfold taken; by rewrite Hc).
  pose proof (pop_difference _ Hcap _ _ _ HI HB Ht) as Hdif. simpl in Hdif.
  pose proof (inv_deq _ _ _ _ HI) as Hdq. unfold releasing in Hdq. rewrite Hc in Hdq.
  unfold DestroyRemaining_step. rewrite Hdq.
  destruct (Z.eqb_spec (difference (sequence (slot_at Capacity (mb c) d)) (u64 (d + 1))) 0)
    as [E|_]; [|done]. apply Hdif in E as (v & q' & ?). done.
Qed.

Lemma inv_empty_storage c d :
  Inv Capacity c d [] -> Forall (fun s => storage s = None) (slots_ (mb c)).
Proof.
  intros HI. pose proof (capacity_ge_2 _ Hcap) as Hge. apply Forall_lookup. intros i s Hi.
  pose proof (inv_len _ _ _ _ HI) as Hlen.
  assert (Hil : Z.of_nat i < Capacity) by (apply lookup_lt_Some in Hi; lia).
  set (k := (Z.of_nat i - d) mod Capacity).
  assert (Hk : 0 <= k < Capacity) by (apply Z.mod_pos_bound; lia).
  pose proof (inv_slot _ _ _ _ HI k Hk) as Hs. unfold slot_ok in Hs. rewrite lookup_nil in Hs.
  assert (Hidx : slot_index Capacity (d + k) = i).
  { rewrite slot_index_mod by done. unfold k. rewrite Zplus_mod_idemp_r.
    replace (d + (Z.of_nat i - d)) with (Z.of_nat i) by lia.
    rewrite Z.mod_small by lia. apply Nat2Z.id. }
  unfold slot_at in Hs. rewrite Hidx, list_lookup_total_alt, Hi in Hs. simpl in Hs.
  by rewrite Hs.
Qed.

Lemma destroy_remaining c d q fuel :
  Inv Capacity c d q -> bounded Capacity d q -> consumer c = CIdle ->
  Forall (fun x => cell_owner x = None) q -> (length q <= fuel)%nat ->
  exists m', DestroyRemaining Capacity fuel (mb c) = Some m' /\
    Forall (fun s => storage s = None) (slots_ m').
Proof.
  intros HI HB Hc Hall. revert c d fuel HI HB Hc.
  induction q as [|[v o] q IH]; intros c d fuel HI HB Hc Hf.
  - exists (mb c). split; [|by eapply inv_empty_storage].
    destruct fuel; simpl; by rewrite (destroy_step_done _ _ HI HB Hc).
  - apply Forall_cons in Hall as [Ho Hall]. simpl in Ho. subst o.
    destruct fuel as [|fuel]; simpl in Hf; [lia|]. simpl.
    rewrite (destroy_step_ready _ _ _ _ HI HB Hc).
    apply (IH Hall (mkConfig (after_pop d (mb c)) (producers c) CIdle) (d + 1));
      [by apply (inv_after_pop _ _ v)|unfold bounded in *; simpl in HB; lia|done|lia].
Qed.
End alone.

(** ** What the mailbox promises *)

Section properties.
Context {T : Type}.
Implicit Types (c : @config T) (rs ps : list T).

(** C5. The lock-free mailbox implements the bounded cell queue: for any
    number of producers and any interleaving of their atomic steps with the
    consumer's, the values popped so far are, in order, the first of the
    values reserved so far, nothing is lost or duplicated, and never more
    than [Capacity] positions are occupied. *)
Theorem mailbox_refines_queue Capacity n c rs ps :
  ValidMailboxCapacity Capacity = true ->
  exec Capacity n c rs ps ->
  Z.of_nat (length rs) + Capacity < 2 ^ 63 ->
  exists q, qexec Capacity q rs ps /\ rs = ps ++ cq_values q /\
    Z.of_nat (length q) <= Capacity /\
    enqueue_position_ (mb c) = Z.of_nat (length rs).
Proof.
  intros Hcap Hex HB. destruct (sim_exec _ Hcap _ _ _ _ Hex HB) as (d & q & HI & Hq & Hlen).
  exists q. split; [done|]. split; [by eapply qexec_fifo|].
  split; [apply (inv_cap _ _ _ _ HI)|]. rewrite (inv_enq _ _ _ _ HI). lia.
Qed.

Lemma sim_exec_pops Capacity n c rs ps :
  ValidMailboxCapacity Capacity = true ->
  exec Capacity n c rs ps -> Z.of_nat (length rs) + Capacity < 2 ^ 63 ->
  exists q, Inv Capacity c (Z.of_nat (length ps)) q /\ rs = ps ++ cq_values q /\
    bounded Capacity (Z.of_nat (length ps)) q.
Proof.
  intros Hcap Hex HB. destruct (sim_exec _ Hcap _ _ _ _ Hex HB) as (d & q & HI & Hq & Hlen).
  apply qexec_fifo in Hq as Hrs. exists q.
  assert (Hd : d = Z.of_nat (length ps)).
  { rewrite Hrs, length_app in Hlen. unfold cq_values in Hlen. rewrite length_fmap in Hlen. lia. }
  subst d. split; [done|]. split; [done|]. unfold bounded. lia.
Qed.

(** C6. Slot storage is used safely: a producer about to construct finds
    raw storage, the consumer about to move a value out finds a live one,
    and two producers past their reservation never share a slot. *)
Theorem mailbox_storage_safe Capacity n c rs ps :
  ValidMailboxCapacity Capacity = true ->
  exec Capacity n c rs ps ->
  Z.of_nat (length rs) + Capacity < 2 ^ 63 ->
  (forall i v pos, producers c !! i = Some (PReserved v pos) ->
     storage (slot_at Capacity (mb c) pos) = None) /\
  (forall pos, consumer c = CTake pos -> is_Some (storage (slot_at Capacity (mb c) pos))) /\
  (forall i j v w p1 p2,
     producers c !! i = Some (PReserved v p1) -> producers c !! j = Some (PReserved w p2) ->
     slot_index Capacity p1 = slot_index Capacity p2 -> i = j).
Proof.
  intros Hcap Hex HB. destruct (sim_exec_pops _ _ _ _ _ Hcap Hex HB) as (q & HI & _ & _).
  assert (Hown : forall i v pos, producers c !! i = Some (PReserved v pos) ->
    exists k, 0 <= k < Capacity /\ pos = Z.of_nat (length ps) + k /\
      q !! Z.to_nat k = Some (Cell v (Some i)) /\
      storage (slot_at Capacity (mb c) pos) = None).
  { intros i v pos Hi. destruct (inv_own _ _ _ _ HI _ _ Hi) as (k & Hk & -> & Hq).
    destruct (owned_cell _ _ _ _ _ _ _ _ HI Hi Hk Hq) as (Hk' & _).
    exists k. split; [done|]. split; [done|]. split; [done|].
    pose proof (inv_slot _ _ _ _ HI k ltac:(lia)) as Hs. unfold slot_ok in Hs.
    rewrite Hq in Hs. destruct Hs as [_ [[_ ?]|[Hp _]]]; [done|]. rewrite Hi in Hp. done. }
  split; [|split].
  - intros i v pos Hi. by destruct (Hown _ _ _ Hi) as (k & _ & _ & _ & ?).
  - intros pos Hc. pose proof (inv_cons _ _ _ _ HI) as Hcons. unfold cons_ok in Hcons.
    rewrite Hc in Hcons. destruct Hcons as (-> & v & q' & ->).
    rewrite (head_storage _ Hcap _ _ _ _ HI); [eauto|]. unfold taken. by rewrite Hc.
  - intros i j v w p1 p2 Hi Hj Hidx.
    destruct (Hown _ _ _ Hi) as (k1 & Hk1 & -> & Hq1 & _).
    destruct (Hown _ _ _ Hj) as (k2 & Hk2 & -> & Hq2 & _).
    apply slot_index_inj in Hidx; [|done|lia].
    assert (k1 = k2) by lia. congruence.
Qed.

(** [TryEmplace] gives up only on a full mailbox: at the step where it
    decides to return [false], exactly [Capacity] positions are reserved
    and not yet released by the consumer. *)
Theorem try_emplace_false_means_full Capacity n c rs ps i c' :
  ValidMailboxCapacity Capacity = true ->
  exec Capacity n c rs ps ->
  Z.of_nat (length rs) + Capacity < 2 ^ 63 ->
  step Capacity c (EvFull i) c' ->
  Z.of_nat (length rs) = Z.of_nat (length ps) + Capacity.
Proof.
  intros Hcap Hex HB Hst. destruct (sim_exec_pops _ _ _ _ _ Hcap Hex HB) as (q & HI & Hrs & Hb).
  destruct (sim_step _ Hcap _ _ _ _ _ HI Hb Hst) as (d' & q' & Hqs & _).
  inversion Hqs; simplify_eq. rewrite length_app. unfold cq_values.
  rewrite length_fmap. lia.
Qed.

(** [TryPop] returns nothing only when the head position is not ready:
    either every reserved position has been popped, or a producer has
    reserved the head position and not published it yet. *)
Theorem try_pop_empty_means_unready Capacity n c rs ps c' :
  ValidMailboxCapacity Capacity = true ->
  exec Capacity n c rs ps ->
  Z.of_nat (length rs) + Capacity < 2 ^ 63 ->
  step Capacity c EvEmpty c' ->
  rs = ps \/
  exists i p, producers c !! i = Some p /\
    (p = PConstructed (Z.of_nat (length ps)) \/
     exists v, p = PReserved v (Z.of_nat (length ps))).
Proof.
  intros Hcap Hex HB Hst. destruct (sim_exec_pops _ _ _ _ _ Hcap Hex HB) as (q & HI & Hrs & Hb).
  destruct (sim_step _ Hcap _ _ _ _ _ HI Hb Hst) as (d' & q' & Hqs & _).
  inversion Hqs; simplify_eq. destruct q' as [|[v [i|]] q']; [|right|done].
  - left. apply app_nil_r.
  - pose proof (capacity_ge_2 _ Hcap).
    pose proof (inv_slot _ _ _ _ HI 0 ltac:(lia)) as Hs. unfold slot_ok in Hs. simpl in Hs.
    rewrite Z.add_0_r in Hs. destruct Hs as [_ [[Hp _]|[Hp _]]]; eauto 6.
Qed.

(** C7. A call that runs alone finishes, whatever the calls it interrupted
    are in the middle of: [TryEmplace] within six atomic steps, pushing iff
    fewer than [Capacity] positions are occupied, and [TryPop] within five,
    returning the oldest value not yet popped iff it is ready. *)
Theorem mailbox_calls_terminate_alone Capacity n c rs ps v :
  ValidMailboxCapacity Capacity = true ->
  exec Capacity n c rs ps ->
  Z.of_nat (length rs) + Capacity < 2 ^ 63 ->
  (exists m' b, TryEmplace Capacity v (mb c) = Some (m', b) /\
     (b = true <-> Z.of_nat (length rs) < Z.of_nat (length ps) + Capacity)) /\
  (consumer c = CIdle ->
     exists m' r, TryPop Capacity (mb c) = Some (m', r) /\
       (forall x, r = Some x -> rs !! length ps = Some x) /\
       (r = None -> rs = ps \/
          exists i p, producers c !! i = Some p /\ owner_state p = true)).
Proof.
  intros Hcap Hex HB. destruct (sim_exec_pops _ _ _ _ _ Hcap Hex HB) as (q & HI & Hrs & Hb).
  pose proof (inv_cap _ _ _ _ HI) as Hl.
  assert (Hlen : length rs = (length ps + length q)%nat).
  { rewrite Hrs, length_app. unfold cq_values. by rewrite length_fmap. }
  split.
  - destruct (decide (Z.of_nat (length q) = Capacity)) as [Hfull|Hroom].
    + rewrite (run_alone_full _ Hcap _ _ _ v HI Hb Hfull).
      eexists _, _. split; [done|]. split; [done|lia].
    + rewrite (run_alone_room _ Hcap _ _ _ v HI Hb) by lia.
      eexists _, _. split; [done|]. split; [lia|done].
  - intros Hc. destruct (cq_pop q) as [[x q']|] eqn:Ep.
    + apply cq_pop_head in Ep. subst q. rewrite (run_pop_ready _ Hcap _ _ _ _ HI Hb Hc).
      eexists _, _. split; [done|]. split; [|done]. intros y [= ->]. rewrite Hrs.
      by apply list_lookup_middle.
    + rewrite (run_pop_unready _ Hcap _ _ _ HI Hb Hc Ep).
      eexists _, _. split; [done|]. split; [done|]. intros _.
      destruct q as [|[w [i|]] q']; [left; simpl in Hrs; by rewrite app_nil_r in Hrs|right|done].
      pose proof (capacity_ge_2 _ Hcap).
      pose proof (inv_slot _ _ _ _ HI 0 ltac:(lia)) as Hs. unfold slot_ok in Hs.
      destruct Hs as [_ [[Hp _]|[Hp _]]]; eauto.
Qed.

(** The destructor leaks nothing: once the producers and the consumer
    have stopped, its loop ends after at most [Capacity] iterations and no
    slot holds a live value any more. *)
Theorem destroy_remaining_leaves_no_value Capacity n c rs ps :
  ValidMailboxCapacity Capacity = true ->
  exec Capacity n c rs ps ->
  Z.of_nat (length rs) + Capacity < 2 ^ 63 ->
  consumer c = CIdle -> Forall (fun p => owner_state p = false) (producers c) ->
  exists m', DestroyRemaining Capacity (Z.to_nat Capacity) (mb c) = Some m' /\
    Forall (fun s => storage s = None) (slots_ m').
Proof.
  intros Hcap Hex HB Hc Hidle.
  destruct (sim_exec_pops _ _ _ _ _ Hcap Hex HB) as (q & HI & _ & Hb).
  eapply destroy_remaining; try done; [|pose proof (inv_cap _ _ _ _ HI); lia].
  apply Forall_lookup. intros k [w [i|]] Hq; [|done]. exfalso.
  pose proof (inv_cap _ _ _ _ HI) as Hl.
  assert (Hk : Z.of_nat k < Capacity) by (apply lookup_lt_Some in Hq; lia).
  pose proof (inv_slot _ _ _ _ HI (Z.of_nat k) ltac:(lia)) as Hs. unfold slot_ok in Hs.
  rewrite Nat2Z.id, Hq in Hs. rewrite Forall_lookup in Hidle.
  destruct Hs as [_ [[Hp _]|[Hp _]]]; apply Hidle in Hp; done.
Qed.
End properties.

(** ** Concrete executions *)

(** A schedule names who takes the next atomic step; running it yields the
    execution, so a concrete interleaving is checked by evaluation. *)
Inductive action := Call (i : nat) (v : Z) | Emplace (i : nat) | CallPop | Pop.

Definition act (Capacity : Z) (a : action) (s : @config Z * list Z * list Z) :
    option (@config Z * list Z * list Z) :=
  let '(c, rs, ps) := s in
  match a with
  | Call i v =>
      match producers c !! i with
      | Some PIdle =>
          Some (mkConfig (mb c) (<[i := PEnter v]> (producers c)) (consumer c), rs ++ [], ps ++ [])
      | _ => None
      end
  | Emplace i =>
      match producers c !! i with
      | Some p =>
          match TryEmplace_step Capacity i false (mb c) p with
          | Some (m', p', ev) =>
              Some (mkConfig m' (<[i := p']> (producers c)) (consumer c),
                    rs ++ match ev with EvReserve _ v => [v] | _ => [] end,
                    ps ++ match ev with EvPop v => [v] | _ => [] end)
          | None => None
          end
      | None => None
      end
  | CallPop =>
      match consumer c with
      | CIdle => Some (mkConfig (mb c) (producers c) CEnter, rs ++ [], ps ++ [])
      | _ => None
      end
  | Pop =>
      match TryPop_step Capacity (mb c) (consumer c) with
      | Some (m', st, ev) =>
          Some (mkConfig m' (producers c) st,
                rs ++ match ev with EvReserve _ v => [v] | _ => [] end,
                ps ++ match ev with EvPop v => [v] | _ => [] end)
      | None => None
      end
  end.

Fixpoint acts (Capacity : Z) (l : list action) (s : @config Z * list Z * list Z) :
    option (@config Z * list Z * list Z) :=
  match l with
  | [] => Some s
  | a :: l' => match act Capacity a s with Some s' => acts Capacity l' s' | None => None end
  end.

Lemma act_exec Capacity n a c rs ps c' rs' ps' :
  exec Capacity n c rs ps -> act Capacity a (c, rs, ps) = Some (c', rs', ps') ->
  exec Capacity n c' rs' ps'.
Proof.
  intros Hex Ha. destruct a as [i v|i| |]; simpl in Ha.
  - destruct (producers c !! i) as [[]|] eqn:Hi; simplify_eq.
    apply (exec_step _ _ _ _ _ EvTau _ Hex). by constructor.
  - destruct (producers c !! i) as [p|] eqn:Hi; [|done].
    destruct (TryEmplace_step _ _ _ _ _) as [[[m' p'] ev]|] eqn:E; simplify_eq.
    apply (exec_step _ _ _ _ _ ev _ Hex). by econstructor.
  - destruct (consumer c) eqn:Hc; simplify_eq.
    apply (exec_step _ _ _ _ _ EvTau _ Hex). by constructor.
  - destruct (TryPop_step _ _ _) as [[[m' st] ev]|] eqn:E; simplify_eq.
    apply (exec_step _ _ _ _ _ ev _ Hex). by constructor.
Qed.

Lemma acts_exec Capacity n l c rs ps c' rs' ps' :
  exec Capacity n c rs ps -> acts Capacity l (c, rs, ps) = Some (c', rs', ps') ->
  exec Capacity n c' rs' ps'.
Proof.
  revert c rs ps. induction l as [|a l IH]; intros c rs ps Hex Ha; [by simplify_eq/=|].
  cbn [acts] in Ha. destruct (act Capacity a (c, rs, ps)) as [[[c1 rs1] ps1]|] eqn:E; [|done].
  eauto using act_exec.
Qed.

Definition demo (l : list action) : @config Z :=
  match acts 2 l (init_config 2 2, [], []) with
  | Some (c, _, _) => c
  | None => init_config 2 2
  end.

(** Two pushes, the second not published yet, and one pop. *)
Definition demo_schedule : list action :=
  [Call 0 7; Emplace 0; Emplace 0; Emplace 0; Call 1 8; Emplace 1; Emplace 1; Emplace 1;
   Emplace 0; Emplace 0; CallPop; Pop; Pop; Pop; Pop; Pop; Pop].

(** Both slots reserved, and a third push about to look at the sequence. *)
Definition full_schedule : list action :=
  [Call 0 7; Emplace 0; Emplace 0; Emplace 0; Emplace 0; Emplace 0; Emplace 0;
   Call 0 8; Emplace 0; Emplace 0; Emplace 0; Call 1 9; Emplace 1].

Definition demo_config := Eval vm_compute in demo demo_schedule.
Definition full_config := Eval vm_compute in demo full_schedule.
Definition unready_config := Eval vm_compute in demo (demo_schedule ++ [CallPop; Pop]).
Definition one_left_config := Eval vm_compute in demo (take 7 full_schedule).

Lemma demo_exec : exec 2 2 demo_config [7; 8] [7].
Proof. apply (acts_exec 2 2 demo_schedule _ _ _ _ _ _ (exec_init 2 2)). by vm_compute. Qed.

Lemma full_exec : exec 2 2 full_config [7; 8] [].
Proof. apply (acts_exec 2 2 full_schedule _ _ _ _ _ _ (exec_init 2 2)). by vm_compute. Qed.

Lemma unready_exec : exec 2 2 unready_config [7; 8] [7].
Proof.
  apply (acts_exec 2 2 (demo_schedule ++ [CallPop; Pop]) _ _ _ _ _ _ (exec_init 2 2)).
  by vm_compute.
Qed.

Lemma one_left_exec : exec 2 2 one_left_config [7] [].
Proof.
  apply (acts_exec 2 2 (take 7 full_schedule) _ _ _ _ _ _ (exec_init 2 2)). by vm_compute.
Qed.

Lemma mailbox_refines_queue_witness :
  exists q, qexec 2 q [7; 8] [7] /\ [7; 8] = [7] ++ cq_values q /\
    Z.of_nat (length q) <= 2 /\
    enqueue_position_ (mb demo_config) = Z.of_nat (length [7; 8]).
Proof.
  apply (mailbox_refines_queue 2 2 demo_config [7; 8] [7]);
    [by vm_compute|exact demo_exec|by vm_compute].
Defined.

Lemma mailbox_storage_safe_witness :
  storage (slot_at 2 (mb demo_config) 1) = None.
Proof.
  destruct (mailbox_storage_safe 2 2 demo_config [7; 8] [7]) as [H _];
    [by vm_compute|exact demo_exec|by vm_compute|].
  apply (H 1%nat 8 1). by vm_compute.
Defined.

Lemma try_emplace_false_means_full_witness :
  Z.of_nat (length [7; 8]) = Z.of_nat (length (@nil Z)) + 2.
Proof.
  apply (try_emplace_false_means_full 2 2 full_config [7; 8] [] 1
           (mkConfig (mb full_config) (<[1%nat := PReturn false]> (producers full_config))
              (consumer full_config)));
    [by vm_compute|exact full_exec|by vm_compute|].
  apply (step_producer 2 full_config 1 false (PLoaded 9 2) (mb full_config) (PReturn false));
    by vm_compute.
Defined.

Lemma try_pop_empty_means_unready_witness :
  [7; 8] = [7] \/
  exists i p, producers unready_config !! i = Some p /\
    (p = PConstructed (Z.of_nat (length [7])) \/
     exists v, p = PReserved v (Z.of_nat (length [7]))).
Proof.
  apply (try_pop_empty_means_unready 2 2 unready_config [7; 8] [7]
           (mkConfig (mb unready_config) (producers unready_config) (CReturn None)));
    [by vm_compute|exact unready_exec|by vm_compute|].
  apply (step_consumer 2 unready_config (mb unready_config) (CReturn None)). by vm_compute.
Defined.

Lemma mailbox_calls_terminate_alone_witness :
  exists m' b, TryEmplace 2 5 (mb demo_config) = Some (m', b) /\
    (b = true <-> Z.of_nat (length [7; 8]) < Z.of_nat (length [7]) + 2).
Proof.
  apply (mailbox_calls_terminate_alone 2 2 demo_config [7; 8] [7] 5);
    [by vm_compute|exact demo_exec|by vm_compute].
Defined.

Lemma destroy_remaining_leaves_no_value_witness :
  exists m', DestroyRemaining 2 (Z.to_nat 2) (mb one_left_config) = Some m' /\
    Forall (fun s => storage s = None) (slots_ m').
Proof.
  apply (destroy_remaining_leaves_no_value 2 2 one_left_config [7] []);
    [by vm_compute|exact one_left_exec|by vm_compute|by vm_compute|].
  vm_compute. repeat constructor.
Defined.

End Mpsc.
