(* ===== verification/Versions.v ===== *)
(** * [SessionVersions] (source/session/SessionVersions.{h,cpp})

    The bookkeeping that decides whether an update was made on the current
    state: [SessionVersions] is the state, [CheckUpdate], [RecordChange],
    [RecordSent] and [RecordCorrection] the operations. The specification is
    a log of what was recorded: [CheckUpdate] answers from the log alone
    whether somebody else changed the prim after the base. The operations take
    the class's mutex, so each is one atomic step. *)
From S2P Require Import Prelude.

Module Versions.

(** [ConnectionId]: the id of a websocket connection, 0 for the server. *)
Abbreviation ConnectionId := Z.

Inductive UpdateBaseStatus := Current | Stale | InvalidBase.

#[global] Instance UpdateBaseStatus_eq_dec : EqDecision UpdateBaseStatus.
Proof. solve_decision. Defined.

Record PrimVersion := mkPrimVersion {
  last_change_seq : Z;
  last_writer : ConnectionId;
  foreign_before_run : Z }.

Record ConnectionVersions := mkConnectionVersions {
  max_sent_seq : Z;
  correction_seq : gmap string Z }.

Record SessionVersions := mkSessionVersions {
  prims_ : gmap string PrimVersion;
  connections_ : gmap ConnectionId ConnectionVersions }.

(** The values [operator[]] creates for a missing key. *)
Definition new_prim : PrimVersion := mkPrimVersion 0 0 0.
Definition new_connection : ConnectionVersions := mkConnectionVersions 0 ∅.

Definition empty : SessionVersions := mkSessionVersions ∅ ∅.

Definition CheckUpdate (sender : ConnectionId) (prim_path : string) (base : Z)
    (sv : SessionVersions) : UpdateBaseStatus :=
  let '(max_sent, correction) :=
    match connections_ sv !! sender with
    | Some conn => (max_sent_seq conn, default 0 (correction_seq conn !! prim_path))
    | None => (0, 0)
    end in
  if base >? max_sent then InvalidBase
  else
    let latest_foreign :=
      match prims_ sv !! prim_path with
      | Some prim =>
          if last_writer prim =? sender then foreign_before_run prim else last_change_seq prim
      | None => 0
      end in
    if base <? Z.max latest_foreign correction then Stale else Current.

Definition RecordChange (prim_path : string) (seq : Z) (writer : ConnectionId)
    (sv : SessionVersions) : SessionVersions :=
  let prim := default new_prim (prims_ sv !! prim_path) in
  let prim' :=
    if (writer =? 0) || negb (last_writer prim =? writer)
    then mkPrimVersion seq writer (last_change_seq prim)
    else mkPrimVersion seq (last_writer prim) (foreign_before_run prim) in
  mkSessionVersions (<[prim_path := prim']> (prims_ sv)) (connections_ sv).

Definition RecordSent (connection : ConnectionId) (seq : Z) (sv : SessionVersions) :
    SessionVersions :=
  let conn := default new_connection (connections_ sv !! connection) in
  mkSessionVersions (prims_ sv)
    (<[connection := mkConnectionVersions (Z.max (max_sent_seq conn) seq) (correction_seq conn)]>
       (connections_ sv)).

Definition RecordCorrection (connection : ConnectionId) (prim_path : string) (seq : Z)
    (sv : SessionVersions) : SessionVersions :=
  let conn := default new_connection (connections_ sv !! connection) in
  mkSessionVersions (prims_ sv)
    (<[connection := mkConnectionVersions (Z.max (max_sent_seq conn) seq)
                       (<[prim_path := seq]> (correction_seq conn))]> (connections_ sv)).

(** ** The specification: a log *)

Inductive record :=
| Changed (prim_path : string) (seq : Z) (writer : ConnectionId)
| Sent (connection : ConnectionId) (seq : Z)
| Corrected (connection : ConnectionId) (prim_path : string) (seq : Z).

Definition apply_record (sv : SessionVersions) (r : record) : SessionVersions :=
  match r with
  | Changed p seq w => RecordChange p seq w sv
  | Sent c seq => RecordSent c seq sv
  | Corrected c p seq => RecordCorrection c p seq sv
  end.

(** The state after the records of [log], oldest first. *)
Definition replay (log : list record) : SessionVersions := foldl apply_record empty log.

Definition record_seq (r : record) : Z :=
  match r with Changed _ seq _ | Sent _ seq | Corrected _ _ seq => seq end.

(** A record is foreign to [sender] if it changed the prim and [sender] did
    not make the change. *)
Definition foreign (sender : ConnectionId) (p : string) (r : record) : bool :=
  match r with Changed p' _ w => bool_decide (p' = p) && negb (w =? sender) | _ => false end.

Definition corrects (sender : ConnectionId) (p : string) (r : record) : bool :=
  match r with Corrected c p' _ => (c =? sender) && bool_decide (p' = p) | _ => false end.

Definition reaches (sender : ConnectionId) (r : record) : bool :=
  match r with Sent c _ | Corrected c _ _ => c =? sender | Changed _ _ _ => false end.

(** The version of the newest record of a kind, 0 if there is none. *)
Definition newest (k : record -> bool) (log : list record) : Z :=
  foldl (fun v r => if k r then record_seq r else v) 0 log.

Definition highest (k : record -> bool) (log : list record) : Z :=
  foldl (fun v r => if k r then Z.max v (record_seq r) else v) 0 log.

(** ** Lemmas *)

Lemma replay_snoc log r : replay (log ++ [r]) = apply_record (replay log) r.
Proof. unfold replay. by rewrite foldl_app. Qed.

Lemma newest_snoc k log r :
  newest k (log ++ [r]) = if k r then record_seq r else newest k log.
Proof. unfold newest. by rewrite foldl_app. Qed.

Lemma highest_snoc k log r :
  highest k (log ++ [r]) = if k r then Z.max (highest k log) (record_seq r) else highest k log.
Proof. unfold highest. by rewrite foldl_app. Qed.

(** What the state says of a connection and of a prim. *)
Definition max_sent (sv : SessionVersions) (c : ConnectionId) : Z :=
  max_sent_seq (default new_connection (connections_ sv !! c)).

Definition correction (sv : SessionVersions) (c : ConnectionId) (p : string) : Z :=
  default 0 (correction_seq (default new_connection (connections_ sv !! c)) !! p).

Definition prim_of (sv : SessionVersions) (p : string) : PrimVersion :=
  default new_prim (prims_ sv !! p).

Definition latest_foreign (sv : SessionVersions) (sender : ConnectionId) (p : string) : Z :=
  if last_writer (prim_of sv p) =? sender
  then foreign_before_run (prim_of sv p) else last_change_seq (prim_of sv p).

Lemma CheckUpdate_spec sender p base sv :
  sender <> 0 ->
  CheckUpdate sender p base sv =
    if base >? max_sent sv sender then InvalidBase
    else if base <? Z.max (latest_foreign sv sender p) (correction sv sender p)
    then Stale else Current.
Proof.
  intros Hs. unfold CheckUpdate, max_sent, correction, latest_foreign, prim_of.
  assert (H0 : (if 0 =? sender then 0 else 0) = 0) by by destruct (0 =? sender).
  destruct (connections_ sv !! sender) as [conn|], (prims_ sv !! p) as [prim|];
    cbn [default new_prim new_connection last_writer foreign_before_run last_change_seq
         max_sent_seq correction_seq]; rewrite ?H0, ?lookup_empty; done.
Qed.

Lemma max_sent_replay log c : max_sent (replay log) c = highest (reaches c) log.
Proof.
  induction log as [|r log IH] using rev_ind; [done|].
  rewrite replay_snoc, highest_snoc, <- IH. unfold max_sent.
  destruct r as [p seq w|c' seq|c' p seq]; simpl; [done| |];
    destruct (Z.eqb_spec c' c) as [->|]; by simplify_map_eq/=.
Qed.

Lemma correction_replay log c p : correction (replay log) c p = newest (corrects c p) log.
Proof.
  induction log as [|r log IH] using rev_ind; [done|].
  rewrite replay_snoc, newest_snoc, <- IH. unfold correction.
  destruct r as [p' seq w|c' seq|c' p' seq]; simpl; [done| |];
    destruct (Z.eqb_spec c' c) as [->|]; simplify_map_eq/=; try done.
  by case_bool_decide; simplify_map_eq.
Qed.

(** The run of consecutive changes by one connection: its writer made the
    newest change, and the change before it is the newest foreign one. *)
Lemma latest_foreign_change sv q seq w sender p :
  sender <> 0 ->
  latest_foreign (RecordChange q seq w sv) sender p =
    if bool_decide (q = p) && negb (w =? sender) then seq else latest_foreign sv sender p.
Proof.
  intros Hs. unfold latest_foreign, prim_of, RecordChange. cbn [prims_].
  case_bool_decide as Hq; cbn [andb]; simplify_map_eq; [|done].
  cbn [default]. destruct (default new_prim (prims_ sv !! p)) as [lc lw fb].
  cbn [last_writer last_change_seq foreign_before_run].
  case_Z; simpl in *; case_Z; congruence.
Qed.

Lemma prim_replay log p sender :
  sender <> 0 -> latest_foreign (replay log) sender p = newest (foreign sender p) log.
Proof.
  intros Hs. induction log as [|r log IH] using rev_ind.
  - unfold latest_foreign, newest. cbn [foldl]. by case_match.
  - rewrite replay_snoc, newest_snoc, <- IH. destruct r as [p' seq w|c' seq|c' p' seq]; try done.
    cbn [apply_record foreign record_seq]. by rewrite latest_foreign_change.
Qed.

(** Versions recorded in order: none is smaller than an earlier one. *)
Definition ordered (log : list record) : Prop :=
  forall i j r s, (i <= j)%nat -> log !! i = Some r -> log !! j = Some s ->
    record_seq r <= record_seq s.

Lemma ordered_app_l log r : ordered (log ++ [r]) -> ordered log.
Proof. intros Ho i j x y Hij Hi Hj. by eapply Ho; [|apply lookup_app_l_Some..]. Qed.

Lemma ordered_last log r s : ordered (log ++ [r]) -> s ∈ log -> record_seq s <= record_seq r.
Proof.
  intros Ho [i Hi]%list_elem_of_lookup. eapply (Ho i (length log)).
  - apply lookup_lt_Some in Hi. lia.
  - by apply lookup_app_l_Some.
  - by rewrite list_lookup_middle.
Qed.

(** In an ordered log the newest record of a kind is also the highest. *)
Lemma newest_lt base k log :
  0 <= base -> ordered log ->
  base < newest k log <-> exists r, r ∈ log /\ k r = true /\ base < record_seq r.
Proof.
  intros Hb Ho. induction log as [|r log IH] using rev_ind.
  - change (newest k []) with 0. split; [lia|]. by intros (r & Hr%not_elem_of_nil & _).
  - rewrite newest_snoc. destruct (k r) eqn:Hk.
    + split; [|intros (s & [Hs| ->%list_elem_of_singleton]%elem_of_app & _ & Hlt)].
      * exists r. by rewrite elem_of_app, list_elem_of_singleton; auto.
      * pose proof (ordered_last _ _ _ Ho Hs). lia.
      * done.
    + rewrite IH by eauto using ordered_app_l. split.
      * intros (s & Hs & ? & ?). exists s. rewrite elem_of_app. auto.
      * intros (s & [Hs| ->%list_elem_of_singleton]%elem_of_app & ? & ?); [eauto|congruence].
Qed.

Lemma highest_le base k log :
  0 <= base ->
  highest k log < base <->
    0 < base /\ forall r, r ∈ log -> k r = true -> record_seq r < base.
Proof.
  intros Hb. induction log as [|r log IH] using rev_ind.
  - change (highest k []) with 0. split; [|by intros []].
    intros; split; [done|by intros r ?%not_elem_of_nil].
  - rewrite highest_snoc.
    assert (Hall : (forall s, s ∈ log ++ [r] -> k s = true -> record_seq s < base) <->
      (forall s, s ∈ log -> k s = true -> record_seq s < base) /\
      (k r = true -> record_seq r < base)).
    { setoid_rewrite elem_of_app. setoid_rewrite list_elem_of_singleton. split.
      - intros H. split; [|intros Hr]; eauto.
      - intros [H1 H2] s [Hs| ->]; eauto. }
    rewrite Hall. destruct (k r); [rewrite Z.max_lub_lt_iff|]; rewrite IH; intuition done.
Qed.

(** The client's own changes leave what decides its next update alone. *)
Lemma own_changes_preserve sender p sv changes :
  sender <> 0 ->
  let sv' := foldl (fun sv '(q, seq) => RecordChange q seq sender sv) sv changes in
  connections_ sv' = connections_ sv /\ latest_foreign sv' sender p = latest_foreign sv sender p.
Proof.
  intros Hs. revert sv. induction changes as [|[q seq] changes IH]; intros sv; [done|].
  cbn [foldl]. destruct (IH (RecordChange q seq sender sv)) as [-> ->]. split; [done|].
  rewrite latest_foreign_change by done. by rewrite Z.eqb_refl, andb_false_r.
Qed.

(** An update on a base older than a correction is stale. *)
Lemma corrected_base_stale sender p base seq sv changes :
  sender <> 0 -> base < seq ->
  CheckUpdate sender p base
    (foldl (fun sv '(q, seq) => RecordChange q seq sender sv) (RecordCorrection sender p seq sv)
       changes) = Stale.
Proof.
  intros Hs Hlt. rewrite CheckUpdate_spec by done.
  destruct (own_changes_preserve sender p (RecordCorrection sender p seq sv) changes Hs)
    as [Hc ->].
  unfold max_sent, correction. rewrite Hc. simpl. simplify_map_eq/=.
  rewrite Z.gtb_ltb. case_Z; try lia; done.
Qed.

(** ** What the versions promise *)

(** C8. An update is accepted exactly when it was made on the current state.
    When versions are recorded in order, [CheckUpdate] reports [InvalidBase]
    iff the base is above every version that reached the client, and
    otherwise [Stale] iff, after the base, the prim was changed by anybody
    but the client or a correction of the prim was sent to the client. *)
Theorem check_update_decides_staleness log sender p base :
  sender <> 0 -> 0 <= base -> ordered log ->
  let status := CheckUpdate sender p base (replay log) in
  let unsent := 0 < base /\ forall r, r ∈ log -> reaches sender r = true -> record_seq r < base in
  let changed := exists r, r ∈ log /\ (foreign sender p r || corrects sender p r) = true /\
                   base < record_seq r in
  (status = InvalidBase <-> unsent) /\
  (status = Stale <-> ~ unsent /\ changed) /\
  (status = Current <-> ~ unsent /\ ~ changed).
Proof.
  intros Hs Hb Ho status unsent changed.
  assert (Hu : (base >? max_sent (replay log) sender) = true <-> unsent).
  { rewrite max_sent_replay, Z.gtb_ltb, Z.ltb_lt. by apply highest_le. }
  assert (Hc : (base <? Z.max (latest_foreign (replay log) sender p)
                         (correction (replay log) sender p)) = true <-> changed).
  { rewrite prim_replay, correction_replay, Z.ltb_lt, Z.max_lt_iff, !newest_lt by done.
    unfold changed. setoid_rewrite orb_true_iff. split.
    - intros [(r & ? & ? & ?)|(r & ? & ? & ?)]; eauto 6.
    - intros (r & ? & [?|?] & ?); eauto 6. }
  assert (Hst := CheckUpdate_spec sender p base (replay log) Hs). fold status in Hst.
  destruct (base >? _), (base <? _); rewrite Hst; intuition congruence.
Qed.

(** A continuous drag is not rejected by itself: the client's own changes
    never alter the verdict on its later updates of the prim, whatever other
    prims it changes in between. *)
Theorem own_changes_never_stale sender p base sv changes :
  sender <> 0 ->
  CheckUpdate sender p base
    (foldl (fun sv '(q, seq) => RecordChange q seq sender sv) sv changes) =
  CheckUpdate sender p base sv.
Proof.
  intros Hs. rewrite !CheckUpdate_spec by done.
  destruct (own_changes_preserve sender p sv changes Hs) as [Hc ->].
  unfold max_sent, correction. by rewrite Hc.
Qed.

(** Until the client bases an update on the correction it was sent, its
    updates of the corrected prim are stale, and one based on it is valid;
    changes the client makes meanwhile do not lift this. *)
Theorem correction_makes_older_bases_stale sender p base seq sv changes :
  sender <> 0 ->
  let sv' := foldl (fun sv '(q, seq) => RecordChange q seq sender sv)
               (RecordCorrection sender p seq sv) changes in
  (base < seq -> CheckUpdate sender p base sv' = Stale) /\
  (latest_foreign sv sender p <= seq -> CheckUpdate sender p seq sv' = Current).
Proof.
  intros Hs. cbv zeta. split; [by apply corrected_base_stale|].
  rewrite CheckUpdate_spec by done.
  destruct (own_changes_preserve sender p (RecordCorrection sender p seq sv) changes Hs)
    as [Hc ->].
  unfold max_sent, correction. rewrite Hc. simpl. simplify_map_eq/=.
  change (latest_foreign (RecordCorrection sender p seq sv)) with (latest_foreign sv).
  rewrite Z.gtb_ltb. intros Hlt. case_Z; try lia; done.
Qed.

(** ** Concrete logs *)

Definition log1 : list record :=
  [Changed "/A" 1 4; Sent 4 1; Sent 5 1; Changed "/A" 2 5; Sent 4 2; Changed "/A" 3 5; Sent 5 3].

Fixpoint orderedb (log : list record) : bool :=
  match log with
  | [] => true
  | r :: log' => forallb (fun s => record_seq r <=? record_seq s) log' && orderedb log'
  end.

Lemma ordered_check log : orderedb log = true -> ordered log.
Proof.
  induction log as [|r log IH]; intros Ho i j x y Hij Hi Hj; [by rewrite lookup_nil in Hi|].
  cbn [orderedb] in Ho. apply andb_prop in Ho as [Hr Ho]. rewrite forallb_forall in Hr.
  destruct i as [|i], j as [|j]; simpl in *; simplify_eq; try lia.
  - apply Z.leb_le, Hr, list_elem_of_In. by eapply list_elem_of_lookup_2.
  - by apply (IH Ho i j); [lia|..].
Qed.

Lemma check_update_decides_staleness_witness :
  CheckUpdate 4 "/A" 2 (replay log1) = Stale <->
  ~ (0 < 2 /\ forall r, r ∈ log1 -> reaches 4 r = true -> record_seq r < 2) /\
  exists r, r ∈ log1 /\ (foreign 4 "/A" r || corrects 4 "/A" r) = true /\ 2 < record_seq r.
Proof.
  apply (check_update_decides_staleness log1 4 "/A" 2); [done|done|].
  apply ordered_check. reflexivity.
Defined.

Lemma own_changes_never_stale_witness :
  CheckUpdate 5 "/A" 1
    (foldl (fun sv '(q, seq) => RecordChange q seq 5 sv) (replay log1)
       [("/A", 4); ("/B", 5)]) =
  CheckUpdate 5 "/A" 1 (replay log1).
Proof. apply own_changes_never_stale. done. Defined.

Lemma correction_makes_older_bases_stale_witness :
  CheckUpdate 5 "/A" 2 (RecordChange "/A" 5 5 (RecordCorrection 5 "/A" 4 (replay log1))) = Stale.
Proof.
  apply (correction_makes_older_bases_stale 5 "/A" 2 4 (replay log1) [("/A", 5)]); done.
Defined.

End Versions.
