(* ===== verification/Executor.v ===== *)
(** * [WorkerExecutor] (source/concurrency/WorkerExecutor.{h,cpp})

    The fixed-size thread pool as a state machine: the state is what the
    mutex guards, plus the program point of every worker thread and of the
    one [Stop] call that gets past the flag. A critical section is one step;
    notifications are separate steps, because the code sends them after it
    has released the mutex, so lost wake-ups would be visible here. Whether a
    task returns or throws makes no difference to the worker ([catch (...)]),
    so running a task is one [start] and one [finish]. *)
From S2P Require Import Prelude.

Module Executor.

(** Where a worker is in [WorkerLoop]. *)
Inductive Worker (Task : Type) :=
| Checking          (* about to evaluate the wait predicate, under the lock *)
| Asleep            (* blocked in [work_available_.wait] *)
| Running (t : Task)
| Exited.
Arguments Checking {Task}.
Arguments Asleep {Task}.
Arguments Running {Task}.
Arguments Exited {Task}.

(** The [Stop] call that set the flag. *)
Inductive StopCall := NotCalled | Notifying | Joining | Joined.

#[global] Instance StopCall_eq_dec : EqDecision StopCall.
Proof. solve_decision. Defined.

Section executor.
Context {Task : Type}.

Record WorkerExecutor := mkExecutor {
  tasks_ : list Task;
  stopping_ : bool;
  workers_ : list (Worker Task);
  notifications : nat;       (* [Post] calls between the unlock and [notify_one] *)
  stop_call : StopCall;
  accepted : list Task;      (* history: every task [Post] accepted *)
  started : list Task;       (* history: every task handed to a worker *)
  finished : list Task }.

Definition set_worker (i : nat) (w : Worker Task) (e : WorkerExecutor) : WorkerExecutor :=
  mkExecutor (tasks_ e) (stopping_ e) (<[i := w]> (workers_ e)) (notifications e) (stop_call e)
    (accepted e) (started e) (finished e).

(** The constructor. [spawned] is the number of threads the platform lets it
    start; if one is missing, the code stops the ones it has and rethrows. *)
Definition spawn (n : nat) : WorkerExecutor :=
  mkExecutor [] false (replicate n Checking) 0 NotCalled [] [] [].

(** The critical section of [Post]; the task is [None] for an empty
    [std::function]. The result is what [Post] returns. *)
Definition Post (task : option Task) (e : WorkerExecutor) : WorkerExecutor * bool :=
  match task with
  | None => (e, false)
  | Some t =>
      if stopping_ e then (e, false)
      else (mkExecutor (tasks_ e ++ [t]) (stopping_ e) (workers_ e) (S (notifications e))
              (stop_call e) (accepted e ++ [t]) (started e) (finished e), true)
  end.

(** [notify_one] wakes worker [i] if it sleeps. *)
Definition wake (w : Worker Task) : Worker Task :=
  match w with Asleep => Checking | _ => w end.

Definition notify_one (i : option nat) (e : WorkerExecutor) : WorkerExecutor :=
  mkExecutor (tasks_ e) (stopping_ e)
    (match i with Some i => alter wake i (workers_ e) | None => workers_ e end)
    (pred (notifications e)) (stop_call e) (accepted e) (started e) (finished e).

(** The critical section of [Stop]: [false] is the early return. *)
Definition Stop (e : WorkerExecutor) : WorkerExecutor * bool :=
  if stopping_ e then (e, false)
  else (mkExecutor (tasks_ e) true (workers_ e) (notifications e) Notifying
          (accepted e) (started e) (finished e), true).

Definition notify_all (e : WorkerExecutor) : WorkerExecutor :=
  mkExecutor (tasks_ e) (stopping_ e) (wake <$> workers_ e) (notifications e) Joining
    (accepted e) (started e) (finished e).

Definition joined (e : WorkerExecutor) : WorkerExecutor :=
  mkExecutor (tasks_ e) (stopping_ e) (workers_ e) (notifications e) Joined
    (accepted e) (started e) (finished e).

Definition WorkerExecutor_ctor (worker_count spawned : nat) : WorkerExecutor + string :=
  if decide (worker_count = 0%nat)
  then inr "WorkerExecutor requires at least one worker."
  else if decide (worker_count <= spawned)%nat then inl (spawn worker_count)
  else inr "std::system_error".

Definition WorkerCount (worker_count : nat) : nat := worker_count.

(** One step of a worker: the critical section of the loop, or the end of the
    task it runs. *)
Definition WorkerLoop_step (i : nat) (e : WorkerExecutor) : option WorkerExecutor :=
  match workers_ e !! i with
  | Some Checking =>
      match tasks_ e with
      | t :: rest =>
          Some (mkExecutor rest (stopping_ e) (<[i := Running t]> (workers_ e)) (notifications e)
                  (stop_call e) (accepted e) (started e ++ [t]) (finished e))
      | [] => Some (set_worker i (if stopping_ e then Exited else Asleep) e)
      end
  | Some (Running t) =>
      Some (mkExecutor (tasks_ e) (stopping_ e) (<[i := Checking]> (workers_ e))
              (notifications e) (stop_call e) (accepted e) (started e) (finished e ++ [t]))
  | _ => None
  end.

Inductive step : WorkerExecutor -> WorkerExecutor -> Prop :=
| step_post e task : step e (fst (Post task e))
| step_notify_one e i :
    (0 < notifications e)%nat -> workers_ e !! i = Some Asleep -> step e (notify_one (Some i) e)
| step_notify_nobody e :
    (0 < notifications e)%nat -> (forall i, workers_ e !! i <> Some Asleep) ->
    step e (notify_one None e)
| step_stop e : step e (fst (Stop e))
| step_notify_all e : stop_call e = Notifying -> step e (notify_all e)
| step_join e :
    stop_call e = Joining -> Forall (fun w => w = Exited) (workers_ e) -> step e (joined e)
| step_worker e i e' : WorkerLoop_step i e = Some e' -> step e e'
| step_spurious e i : workers_ e !! i = Some Asleep -> step e (set_worker i Checking e).

(** ** Invariant *)

Definition task_of (w : Worker Task) : list Task :=
  match w with Running t => [t] | _ => [] end.

Definition checking (w : Worker Task) : nat := match w with Checking => 1 | _ => 0 end.

Definition n_checking (ws : list (Worker Task)) : nat := sum_list_with checking ws.

#[local] Arguments n_checking : simpl never.

Record Inv (n : nat) (e : WorkerExecutor) : Prop := {
  inv_workers : length (workers_ e) = n;
  inv_fifo : accepted e = started e ++ tasks_ e;
  inv_once : started e ≡ₚ finished e ++ (workers_ e ≫= task_of);
  inv_wake : Asleep ∈ workers_ e -> (length (tasks_ e) <= notifications e + n_checking (workers_ e))%nat;
  inv_exit : Exited ∈ workers_ e -> stopping_ e = true /\ tasks_ e = [];
  inv_stop : (stop_call e = NotCalled <-> stopping_ e = false);
  inv_awake : stop_call e = Joining \/ stop_call e = Joined -> Asleep ∉ workers_ e;
  inv_joined : stop_call e = Joined -> Forall (fun w => w = Exited) (workers_ e) }.

Lemma tasks_insert ws i w0 w :
  ws !! i = Some w0 ->
  (<[i := w]> ws) ≫= task_of ≡ₚ task_of w ++ (delete i ws ≫= task_of).
Proof.
  revert i. induction ws as [|v ws IH]; intros [|i] Hi; simplify_eq/=; [done|].
  rewrite (IH i) by done. by rewrite !app_assoc, (Permutation_app_comm (task_of v)).
Qed.

Lemma tasks_lookup ws i w0 :
  ws !! i = Some w0 -> ws ≫= task_of ≡ₚ task_of w0 ++ (delete i ws ≫= task_of).
Proof. intros Hi. rewrite <- (tasks_insert _ _ _ w0 Hi). by rewrite list_insert_id. Qed.

Lemma checking_insert ws i w0 w :
  ws !! i = Some w0 ->
  (n_checking (<[i := w]> ws) + checking w0 = n_checking ws + checking w)%nat.
Proof. apply sum_insert. Qed.

Lemma elem_of_insert_ne (ws : list (Worker Task)) i w v :
  v <> w -> v ∈ <[i := w]> ws -> v ∈ ws.
Proof.
  intros Hne [j Hj]%list_elem_of_lookup. apply list_lookup_insert_Some in Hj.
  destruct Hj as [(? & ? & ?)|[_ Hj]]; [congruence|by eapply list_elem_of_lookup_2].
Qed.

Lemma not_asleep_wake (ws : list (Worker Task)) : Asleep ∉ (wake <$> ws).
Proof. by intros ([] & ? & _)%list_elem_of_fmap. Qed.

Lemma exited_wake (ws : list (Worker Task)) : Exited ∈ (wake <$> ws) -> Exited ∈ ws.
Proof. by intros ([] & ? & ?)%list_elem_of_fmap. Qed.

Lemma tasks_wake (ws : list (Worker Task)) : (wake <$> ws) ≫= task_of = ws ≫= task_of.
Proof.
  induction ws as [|w ws IH]; [done|]. rewrite fmap_cons, !bind_cons, IH. by destruct w.
Qed.

Lemma alter_wake (ws : list (Worker Task)) i :
  ws !! i = Some Asleep -> alter wake i ws = <[i := Checking]> ws.
Proof.
  revert i. induction ws as [|w ws IH]; intros [|i] Hi; simplify_eq/=; [done|].
  f_equal. by apply IH.
Qed.

(** A sleeping worker starts to check: a notification or a spurious wake-up. *)
Lemma inv_wake_one n e i k :
  Inv n e -> workers_ e !! i = Some Asleep -> (notifications e <= S k)%nat ->
  Inv n (mkExecutor (tasks_ e) (stopping_ e) (<[i := Checking]> (workers_ e)) k (stop_call e)
           (accepted e) (started e) (finished e)).
Proof.
  intros [] Hi Hk. pose proof (list_elem_of_lookup_2 _ _ _ Hi) as Has.
  constructor; cbn; try done.
  - by rewrite length_insert.
  - rewrite inv_once0. by rewrite (tasks_insert _ _ _ Checking Hi), (tasks_lookup _ _ _ Hi).
  - intros _. pose proof (checking_insert _ _ _ Checking Hi) as Hc. cbn [checking] in Hc.
    specialize (inv_wake0 Has). lia.
  - intros Hex. apply inv_exit0. by apply elem_of_insert_ne in Hex.
  - intros Hst. by specialize (inv_awake0 Hst).
  - intros Hst. destruct (inv_awake0 (or_intror Hst) Has).
Qed.

Lemma inv_worker_step n e i e' : Inv n e -> WorkerLoop_step i e = Some e' -> Inv n e'.
Proof.
  intros [] Hst. unfold WorkerLoop_step in Hst.
  destruct (workers_ e !! i) as [w|] eqn:Hi; [|done].
  assert (Hni : w <> Exited -> stop_call e <> Joined).
  { intros Hw Hj. specialize (inv_joined0 Hj). rewrite Forall_lookup in inv_joined0. eauto. }
  pose proof (list_elem_of_lookup_2 _ _ _ Hi) as Hin.
  destruct w as [| |t|]; [|done| |done].
  - destruct (tasks_ e) as [|t rest] eqn:Ht; simplify_eq/=.
    + pose proof (checking_insert _ _ _ (if stopping_ e then Exited else Asleep) Hi) as Hc.
      constructor; cbn; rewrite ?Ht; try done.
      * by rewrite length_insert.
      * rewrite inv_once0, (tasks_insert _ _ _ _ Hi), (tasks_lookup _ _ _ Hi).
        by destruct (stopping_ e).
      * intros _. simpl. lia.
      * intros Hex. destruct (stopping_ e) eqn:Hs; [done|].
        apply elem_of_insert_ne in Hex; [|done]. apply inv_exit0 in Hex as [? ?]; congruence.
      * intros Hj Has. destruct (stopping_ e) eqn:Hs.
        -- apply elem_of_insert_ne in Has; [|done]. by apply inv_awake0 in Hj.
        -- assert (stop_call e = NotCalled) by by apply inv_stop0. intuition congruence.
      * intros Hj. by apply Hni in Hj.
    + pose proof (checking_insert _ _ _ (Running t) Hi) as Hc. cbn [checking] in Hc.
      constructor; cbn; try done.
      * by rewrite length_insert.
      * by rewrite inv_fifo0, <- app_assoc.
      * rewrite inv_once0, (tasks_insert _ _ _ _ Hi), (tasks_lookup _ _ _ Hi). cbn [task_of].
        rewrite <- !app_assoc. f_equiv. by rewrite (Permutation_app_comm [t]).
      * intros Has%elem_of_insert_ne; [|done]. specialize (inv_wake0 Has). simpl in inv_wake0. lia.
      * intros Hex%elem_of_insert_ne; [|done]. by apply inv_exit0 in Hex as [_ ?].
      * intros Hj Has%elem_of_insert_ne; [|done]. by apply inv_awake0 in Hj.
      * intros Hj. by apply Hni in Hj.
  - simplify_eq/=. pose proof (checking_insert _ _ _ Checking Hi) as Hc. cbn [checking] in Hc.
    constructor; cbn; try done.
    + by rewrite length_insert.
    + rewrite inv_once0, (tasks_insert _ _ _ _ Hi), (tasks_lookup _ _ _ Hi). cbn [task_of].
      by rewrite <- !app_assoc.
    + intros Has%elem_of_insert_ne; [|done]. specialize (inv_wake0 Has). lia.
    + intros Hex%elem_of_insert_ne; [|done]. by apply inv_exit0 in Hex.
    + intros Hj Has%elem_of_insert_ne; [|done]. by apply inv_awake0 in Hj.
    + intros Hj. by apply Hni in Hj.
Qed.

Lemma executor_inv_step n e e' : Inv n e -> step e e' -> Inv n e'.
Proof.
  intros HI Hst. destruct Hst as [e task|e i Hn Hi|e Hn Hno|e|e Hs|e Hs Hall|e i e' Hw|e i Hi].
  - pose proof HI as []. unfold Post. destruct task as [t|]; [|done].
    destruct (stopping_ e) eqn:Hs; [done|]. constructor; cbn; rewrite ?Hs; try done.
    + by rewrite inv_fifo0, <- app_assoc.
    + intros Has. rewrite length_app. simpl. specialize (inv_wake0 Has). lia.
    + intros Hex. apply inv_exit0 in Hex as [? ?]; congruence.
  - unfold notify_one. rewrite alter_wake by done. apply inv_wake_one; [done|done|lia].
  - destruct HI. constructor; cbn; try done.
    intros [i Hi]%list_elem_of_lookup. by apply Hno in Hi.
  - pose proof HI as []. unfold Stop. destruct (stopping_ e) eqn:Hs; [done|].
    assert (stop_call e = NotCalled) by by apply inv_stop0.
    constructor; cbn; try done; [|intuition congruence..]. intros Hex. apply inv_exit0 in Hex as [? ?]; congruence.
  - destruct HI. constructor; cbn; try done.
    + by rewrite length_fmap.
    + by rewrite tasks_wake.
    + intros Has. by apply not_asleep_wake in Has.
    + intros Hex. by apply inv_exit0, exited_wake.
    + split; [done|]. intros Hf. apply inv_stop0 in Hf. congruence.
    + intros _. apply not_asleep_wake.
  - destruct HI. constructor; cbn; try done; [|by eauto].
    split; [done|]. intros Hf. apply inv_stop0 in Hf. congruence.
  - by eapply inv_worker_step.
  - apply inv_wake_one; [done|done|lia].
Qed.

Lemma executor_inv_init n : Inv n (spawn n).
Proof.
  constructor; cbn; try done; [by rewrite length_replicate| | | |intuition congruence..].
  - assert (replicate n Checking ≫= task_of = []) as ->; [|done]. by induction n.
  - intros [? ?]%elem_of_replicate. congruence.
  - intros [? ?]%elem_of_replicate. congruence.
Qed.

Lemma executor_inv_reachable n e : rtc step (spawn n) e -> Inv n e.
Proof. intros Hr. eapply (rtc_invariant step (Inv n)); eauto using executor_inv_step, executor_inv_init. Qed.

Definition resting (w : Worker Task) : bool :=
  match w with Exited | Asleep => true | _ => false end.

Lemma active_worker_steps e i w :
  workers_ e !! i = Some w -> resting w = false -> exists e', WorkerLoop_step i e = Some e'.
Proof.
  intros Hi Hw. unfold WorkerLoop_step. rewrite Hi.
  destruct w; [destruct (tasks_ e)| | |]; eauto; done.
Qed.

Lemma resting_none_checking ws :
  Forall (fun w => resting w = true) ws -> n_checking ws = 0%nat.
Proof.
  induction 1 as [|w ws Hw _ IH]; [done|]. unfold n_checking in *. simpl. rewrite IH.
  by destruct w.
Qed.

(** With every worker resting and no notification on its way, nothing is
    queued. *)
Lemma resting_queue_empty n e :
  Inv n e -> (0 < n)%nat -> notifications e = 0%nat ->
  Forall (fun w => resting w = true) (workers_ e) -> tasks_ e = [].
Proof.
  intros [] Hn Hz Hall.
  destruct (lookup_lt_is_Some_2 (workers_ e) 0) as [w Hw]; [lia|].
  pose proof (list_elem_of_lookup_2 _ _ _ Hw) as Hin.
  pose proof (proj1 (Forall_lookup _ _) Hall _ _ Hw) as Hr. simpl in Hr.
  destruct w; try done; [|by apply inv_exit0 in Hin as []].
  specialize (inv_wake0 Hin). rewrite resting_none_checking in inv_wake0 by done.
  destruct (tasks_ e); [done|simpl in *; lia].
Qed.

(** ** What the executor promises *)

(** Every accepted task is handed to exactly one worker, in the order of
    acceptance, and is run to its end exactly once: the tasks handed out are
    the first of the accepted ones and the finished ones are those, apart from
    the task each worker is running now. When [Stop] returns, every accepted
    task has finished, whatever was queued when it was called. *)
Theorem tasks_run_once_in_order n e :
  rtc step (spawn n) e ->
  accepted e = started e ++ tasks_ e /\
  started e ≡ₚ finished e ++ (workers_ e ≫= task_of) /\
  (stop_call e = Joined -> (0 < n)%nat -> finished e ≡ₚ accepted e).
Proof.
  intros Hr. destruct (executor_inv_reachable _ _ Hr). split; [done|]. split; [done|].
  intros Hj Hn. specialize (inv_joined0 Hj).
  assert (Hw : workers_ e ≫= task_of = []).
  { clear -inv_joined0. induction inv_joined0 as [|w ws -> _ IH]; done. }
  rewrite Hw, app_nil_r in inv_once0. rewrite inv_fifo0, inv_once0.
  assert (Hex : Exited ∈ workers_ e).
  { rewrite Forall_lookup in inv_joined0.
    destruct (lookup_lt_is_Some_2 (workers_ e) 0) as [w Hw0]; [lia|].
    rewrite <- (inv_joined0 _ _ Hw0). by eapply list_elem_of_lookup_2. }
  apply inv_exit0 in Hex as [_ ->]. by rewrite app_nil_r.
Qed.

(** C9. No wake-up is lost: while a worker sleeps, every queued task is
    matched by a notification still to be sent or by a worker about to look
    at the queue, and once [Stop] has notified no worker sleeps again. So
    whenever a task is queued or a stop has not been joined yet, some step of
    the executor's own (not a call from outside) is possible. *)
Theorem executor_never_stuck n e :
  rtc step (spawn n) e -> (0 < n)%nat ->
  (Asleep ∈ workers_ e ->
     (length (tasks_ e) <= notifications e + n_checking (workers_ e))%nat) /\
  (stop_call e = Joining \/ stop_call e = Joined -> Asleep ∉ workers_ e) /\
  (tasks_ e <> [] \/ stop_call e = Notifying \/ stop_call e = Joining ->
     stop_call e = Notifying \/ (0 < notifications e)%nat \/
     (exists i e', WorkerLoop_step i e = Some e') \/
     (stop_call e = Joining /\ Forall (fun w => w = Exited) (workers_ e))).
Proof.
  intros Hr Hn. pose proof (executor_inv_reachable _ _ Hr) as HI. pose proof HI as [].
  split; [done|]. split; [done|]. intros Hbusy. destruct (decide (stop_call e = Notifying)) as [|Hnn]; [by left|].
  destruct (decide (0 < notifications e)%nat) as [|Hz]; [by right; left|]. right; right.
  destruct (decide (Forall (fun w => resting w = true) (workers_ e))) as [Hall|Hsome].
  - right. pose proof (resting_queue_empty _ _ HI Hn ltac:(lia) Hall) as Ht.
    destruct Hbusy as [|[|Hj]]; [done|done|]. split; [done|].
    rewrite Forall_lookup in Hall |- *. intros i w Hi. specialize (Hall _ _ Hi).
    destruct w; try done. destruct (inv_awake0 (or_introl Hj)). by eapply list_elem_of_lookup_2.
  - left. apply not_Forall_Exists in Hsome; [|solve_decision].
    apply Exists_exists in Hsome as (w & [i Hi]%list_elem_of_lookup & Hw).
    apply not_true_is_false in Hw. eauto using active_worker_steps.
Qed.

End executor.

(** ** A concrete run: two tasks on one worker, then a stop *)

(** [k] consecutive steps of worker 0. *)
Fixpoint work (k : nat) (e : @WorkerExecutor Z) : @WorkerExecutor Z :=
  match k with
  | O => e
  | S k => match WorkerLoop_step 0 e with Some e' => work k e' | None => e end
  end.

Lemma work_steps k e : rtc step e (work k e).
Proof.
  revert e. induction k as [|k IH]; intros e; [done|]. cbn [work].
  destruct (WorkerLoop_step 0 e) as [e'|] eqn:E; [|done].
  eapply rtc_l; [by eapply step_worker|apply IH].
Qed.

Definition posted : @WorkerExecutor Z := fst (Post (Some 2) (fst (Post (Some 1) (spawn 1)))).
Definition stopped : @WorkerExecutor Z := joined (work 3 (notify_all (fst (Stop (work 2 posted))))).

Lemma posted_reachable : rtc step (spawn 1) posted.
Proof. eapply rtc_l; [apply (step_post _ (Some 1))|]. apply rtc_once, (step_post _ (Some 2)). Qed.

Lemma stopped_reachable : rtc step (spawn 1) stopped.
Proof.
  etrans; [apply posted_reachable|]. etrans; [apply (work_steps 2)|].
  eapply rtc_l; [apply step_stop|]. eapply rtc_l; [by apply step_notify_all|].
  etrans; [apply (work_steps 3)|]. apply rtc_once, step_join; [done|]. repeat constructor.
Qed.

Lemma tasks_run_once_in_order_witness : finished stopped ≡ₚ accepted stopped.
Proof.
  destruct (tasks_run_once_in_order 1 stopped stopped_reachable) as (_ & _ & H).
  apply H; [reflexivity|lia].
Defined.

Lemma executor_never_stuck_witness :
  stop_call posted = Notifying \/ (0 < notifications posted)%nat \/
  (exists i e', WorkerLoop_step i posted = Some e') \/
  (stop_call posted = Joining /\ Forall (fun w => w = Exited) (workers_ posted)).
Proof.
  destruct (executor_never_stuck 1 posted posted_reachable) as (_ & _ & H); [lia|].
  apply H. by left.
Defined.

End Executor.
