(* ===== verification/ThumbnailWorker.v ===== *)
(** * [ThumbnailWorker] (source/thumbnails/ThumbnailWorker.h and .cpp)

    The thread that generates thumbnails in the background, with its queue,
    as a step relation: the critical sections of [Submit], of the destructor
    and of [Run], the notifications sent after them, and the end of a job. What
    the generator does with a job is a parameter. The worker is shown to be a
    one-thread instance of the task executor of [Executor.v], whose invariant it
    inherits. *)
From S2P Require Import Prelude Executor.

Module ThumbnailWorker.
Import Executor.

Record Job := mkJob { usd_file : string; out_path : string }.

#[global] Instance Job_eq_dec : EqDecision Job.
Proof. solve_decision. Defined.

#[global] Instance Worker_eq_dec : EqDecision (Worker Job).
Proof. solve_decision. Defined.

(** What happens to a job; each outcome is only logged. *)
Inductive outcome := Generated | GenerationFailed (err : string) | Threw (what : string) | ThrewOther.

Record ThumbnailWorker := mkThumbnailWorker {
  m_queue_ : list Job;
  m_stop_ : bool;
  m_thread_ : Worker Job;
  notifications : nat;      (* [Submit] calls between the unlock and [notify_one] *)
  destructor : StopCall;
  accepted : list Job;      (* history: the jobs that were queued *)
  started : list Job;       (* history: the jobs taken from the queue *)
  log : list (Job * outcome) }.

(** The constructor. *)
Definition start : ThumbnailWorker := mkThumbnailWorker [] false Checking 0 NotCalled [] [] [].

(** The critical section of [Submit]. *)
Definition Submit (job : Job) (t : ThumbnailWorker) : ThumbnailWorker :=
  if m_stop_ t then t
  else mkThumbnailWorker (m_queue_ t ++ [job]) (m_stop_ t) (m_thread_ t) (S (notifications t))
         (destructor t) (accepted t ++ [job]) (started t) (log t).

Definition PendingCount (t : ThumbnailWorker) : nat := length (m_queue_ t).

Definition set_thread (w : Worker Job) (t : ThumbnailWorker) : ThumbnailWorker :=
  mkThumbnailWorker (m_queue_ t) (m_stop_ t) w (notifications t) (destructor t) (accepted t)
    (started t) (log t).

(** [m_cv_.notify_one()] of a [Submit]. *)
Definition notify_one (t : ThumbnailWorker) : ThumbnailWorker :=
  mkThumbnailWorker (m_queue_ t) (m_stop_ t) (wake (m_thread_ t)) (pred (notifications t))
    (destructor t) (accepted t) (started t) (log t).

(** The destructor: the flag, the notification, the join. *)
Definition destroy (t : ThumbnailWorker) : ThumbnailWorker :=
  mkThumbnailWorker (m_queue_ t) true (m_thread_ t) (notifications t) Notifying (accepted t)
    (started t) (log t).

Definition notify_all (t : ThumbnailWorker) : ThumbnailWorker :=
  mkThumbnailWorker (m_queue_ t) (m_stop_ t) (wake (m_thread_ t)) (notifications t) Joining
    (accepted t) (started t) (log t).

Definition joined (t : ThumbnailWorker) : ThumbnailWorker :=
  mkThumbnailWorker (m_queue_ t) (m_stop_ t) (m_thread_ t) (notifications t) Joined (accepted t)
    (started t) (log t).

(** The critical section of [Run], and the end of a job with an outcome. *)
Definition Run_step (result : outcome) (t : ThumbnailWorker) : option ThumbnailWorker :=
  match m_thread_ t with
  | Checking =>
      match m_queue_ t with
      | job :: rest =>
          Some (mkThumbnailWorker rest (m_stop_ t) (Running job) (notifications t) (destructor t)
                  (accepted t) (started t ++ [job]) (log t))
      | [] => Some (set_thread (if m_stop_ t then Exited else Asleep) t)
      end
  | Running job =>
      Some (mkThumbnailWorker (m_queue_ t) (m_stop_ t) Checking (notifications t) (destructor t)
              (accepted t) (started t) (log t ++ [(job, result)]))
  | Asleep | Exited => None
  end.

Inductive step : ThumbnailWorker -> ThumbnailWorker -> Prop :=
| step_submit t job : step t (Submit job t)
| step_notify_one t : (0 < notifications t)%nat -> step t (notify_one t)
| step_destroy t : destructor t = NotCalled -> step t (destroy t)
| step_notify_all t : destructor t = Notifying -> step t (notify_all t)
| step_join t : destructor t = Joining -> m_thread_ t = Exited -> step t (joined t)
| step_run t result t' : Run_step result t = Some t' -> step t t'
| step_spurious t : m_thread_ t = Asleep -> step t (set_thread Checking t).

(** ** An executor with one thread *)

Definition executor (t : ThumbnailWorker) : @WorkerExecutor Job :=
  mkExecutor (m_queue_ t) (m_stop_ t) [m_thread_ t] (notifications t) (destructor t) (accepted t)
    (started t) (map fst (log t)).

Definition in_order (t : ThumbnailWorker) : Prop := started t = map fst (log t) ++ task_of (m_thread_ t).

Definition stop_flag (t : ThumbnailWorker) : Prop := m_stop_ t = true <-> destructor t <> NotCalled.

(** A step of the worker is a step of the executor. *)
Lemma step_executor t t' : stop_flag t -> step t t' -> rtc Executor.step (executor t) (executor t').
Proof.
  intros Hf Hst; destruct Hst as [t0 job|t0 Hn|t0 Hd|t0 Hd|t0 Hd Hw|t0 result t1 Hr|t0 Hw].
  - assert (executor (Submit job t0) = fst (Post (Some job) (executor t0))) as ->.
    { unfold Submit, Post, executor. cbn. destruct (m_stop_ t0) eqn:Hs; cbn; by rewrite ?Hs. }
    apply rtc_once, step_post.
  - apply rtc_once. destruct (decide (m_thread_ t0 = Asleep)) as [Hw|Hw].
    + assert (executor (notify_one t0) = Executor.notify_one (Some 0%nat) (executor t0)) as -> by done.
      apply Executor.step_notify_one; [done|]. cbn. by rewrite Hw.
    + assert (executor (notify_one t0) = Executor.notify_one None (executor t0)) as ->.
      { unfold executor, notify_one. cbn. by destruct (m_thread_ t0). }
      apply step_notify_nobody; [done|]. intros [|[|i]]; cbn; congruence.
  - apply rtc_once.
    assert (executor (destroy t0) = fst (Stop (executor t0))) as ->; [|apply Executor.step_stop].
    unfold Stop, executor, destroy. cbn. destruct (m_stop_ t0) eqn:Hs; [|done]. apply (proj1 Hf) in Hs. congruence.
  - apply rtc_once. apply (Executor.step_notify_all (executor t0)). done.
  - apply rtc_once. apply (Executor.step_join (executor t0)); [done|]. cbn. rewrite Hw. by repeat constructor.
  - apply rtc_once. apply (step_worker _ 0). unfold Run_step in Hr. unfold WorkerLoop_step, executor. cbn.
    destruct (m_thread_ t0) as [| |job|]; [|done| |done].
    + destruct (m_queue_ t0) as [|job rest] eqn:Hq; injection Hr as <-; cbn; [|done].
      unfold set_worker. cbn. by rewrite Hq.
    + simplify_eq/=. by rewrite map_app.
  - apply rtc_once. apply (Executor.step_spurious (executor t0) 0). cbn. by rewrite Hw.
Qed.

Lemma wake_task w : task_of (wake w : Worker Job) = task_of w.
Proof. by destruct w. Qed.

Lemma step_in_order t t' : in_order t -> step t t' -> in_order t'.
Proof.
  unfold in_order. intros Ho Hst; destruct Hst as [t0 job|t0 Hn|t0 Hd|t0 Hd|t0 Hd Hw|t0 result t1 Hr|t0 Hw]; cbn;
    rewrite ?wake_task; try done.
  - unfold Submit. by destruct (m_stop_ t0).
  - unfold Run_step in Hr. destruct (m_thread_ t0) as [| |job|] eqn:Hw; cbn in Ho; try done.
    + destruct (m_queue_ t0) as [|job rest]; simplify_eq/=.
      * rewrite Ho. by destruct (m_stop_ t0).
      * by rewrite Ho, app_nil_r.
    + simplify_eq/=. by rewrite Ho, map_app, app_nil_r.
  - rewrite Ho, Hw. done.
Qed.

Lemma step_stop_flag t t' : stop_flag t -> step t t' -> stop_flag t'.
Proof.
  unfold stop_flag. intros Hf Hst; destruct Hst as [t0 job|t0 Hn|t0 Hd|t0 Hd|t0 Hd Hw|t0 result t1 Hr|t0 Hw]; cbn; try done.
  - unfold Submit. by destruct (m_stop_ t0) eqn:Hs; cbn; rewrite ?Hs.
  - rewrite Hf, Hd. done.
  - rewrite Hf, Hd. done.
  - unfold Run_step in Hr. destruct (m_thread_ t0); [destruct (m_queue_ t0)|..]; by simplify_eq/=.
Qed.

(** Everything the worker does, a one-thread executor can do. *)
Lemma reachable_executor t :
  rtc step start t ->
  rtc Executor.step (spawn 1) (executor t) /\ in_order t /\ stop_flag t.
Proof.
  intros Hr. apply (rtc_invariant step (fun t => rtc Executor.step (spawn 1) (executor t) /\
    in_order t /\ stop_flag t)) with start; [|done|].
  - intros t1 t2 (Hex & Ho & Hf) Hst. split_and!.
    + etrans; [exact Hex|by apply step_executor].
    + by eapply step_in_order.
    + by eapply step_stop_flag.
  - split; [reflexivity|]. split; [done|]. done.
Qed.

(** Every thumbnail job that was queued is processed exactly once, in the
    order of submission, by one thread: the jobs the generator has finished,
    whatever it did with them, then the job it works on now, then the queue, are
    together the jobs accepted so far. A job is never left to a sleeping
    thread, and when the destructor returns, every job queued before it was
    called has been processed and the thread has ended. *)
Theorem thumbnail_jobs_processed_in_order t :
  rtc step start t ->
  accepted t = map fst (log t) ++ task_of (m_thread_ t) ++ m_queue_ t /\
  (m_thread_ t = Asleep -> (PendingCount t <= notifications t)%nat) /\
  (destructor t = Joined -> m_thread_ t = Exited /\ accepted t = map fst (log t)).
Proof.
  intros Hr. destruct (reachable_executor t Hr) as (Hex & Ho & _).
  destruct (executor_inv_reachable _ _ Hex) as [_ Hfifo _ Hwake Hexit _ _ Hj]. cbn in *.
  assert (Hacc : accepted t = map fst (log t) ++ task_of (m_thread_ t) ++ m_queue_ t)
    by by rewrite Hfifo, Ho, <- app_assoc.
  split; [done|]. split.
  - intros Has. rewrite Has in Hwake. specialize (Hwake ltac:(by left)).
    unfold n_checking in Hwake. cbn in Hwake. unfold PendingCount. lia.
  - intros Hd. specialize (Hj Hd). apply Forall_cons in Hj as [Hw _].
    split; [done|]. rewrite Hw in Hexit. destruct (Hexit ltac:(by left)) as [_ Hq].
    rewrite Hacc, Hw, Hq. by rewrite app_nil_r.
Qed.

(** Two jobs, the first of which makes the generator throw, then the
    destructor. *)
Definition job1 : Job := mkJob "a.usd" "a.png".
Definition job2 : Job := mkJob "b.usd" "b.png".

Definition finished_run : ThumbnailWorker :=
  mkThumbnailWorker [] true Exited 1 Joined [job1; job2] [job1; job2]
    [(job1, Threw "bad layer"); (job2, Generated)].

Lemma finished_run_reachable : rtc step start finished_run.
Proof.
  eapply rtc_l; [apply (step_submit _ job1)|]. eapply rtc_l; [apply (step_submit _ job2)|].
  eapply rtc_l; [apply step_notify_one; cbn; lia|]. eapply rtc_l; [by eapply (step_run _ Generated)|].
  eapply rtc_l; [by eapply (step_run _ (Threw "bad layer"))|]. eapply rtc_l; [by apply step_destroy|].
  eapply rtc_l; [by eapply (step_run _ Generated)|]. eapply rtc_l; [by eapply (step_run _ Generated)|].
  eapply rtc_l; [by eapply (step_run _ Generated)|]. eapply rtc_l; [by apply step_notify_all|].
  eapply rtc_l; [by apply step_join|]. reflexivity.
Qed.

Lemma thumbnail_jobs_processed_in_order_witness :
  rtc step start finished_run /\ accepted finished_run = map fst (log finished_run).
Proof.
  split; [apply finished_run_reachable|].
  destruct (thumbnail_jobs_processed_in_order finished_run finished_run_reachable) as (_ & _ & Hend).
  by apply Hend.
Defined.

End ThumbnailWorker.
