(* ===== verification/Scheduler.v ===== *)
(** * [SessionCommandScheduler] (source/session/SessionCommandScheduler.{h,cpp})

    The scheduler runs on top of two mailboxes, of which it uses the contract
    of [CellQueue.v], and on an executor of which it uses that a posted task
    is run once ([Executor.v]). Every thread is a program point; a step is one
    atomic access to the scheduler's state (one event of a mailbox, one
    [load]/[store]/[exchange]/[fetch_add] of an atomic, one notification), and
    threads are interleaved arbitrarily. All of these operations are
    sequentially consistent in the code. The command handler only shows in
    the history of handled commands: it can do nothing to the scheduler, and
    whether it throws makes no difference ([catch (...)]). *)
From S2P Require Import Prelude CellQueue.

Module Scheduler.

Inductive CommandAdmissionStatus := Accepted | QueueFull | Stopping.

#[global] Instance CommandAdmissionStatus_eq_dec : EqDecision CommandAdmissionStatus.
Proof. solve_decision. Defined.

Definition kMailboxCapacity : Z := 1024.
Definition kPriorityMailboxCapacity : Z := 128.
Definition kMaxCommandsPerDrain : nat := 64.
Definition kHeadPublicationRetries : nat := 16.

(** Capacity of the mailbox a command goes to; [true] is the priority one. *)
Definition capacity (priority : bool) : Z :=
  if priority then kPriorityMailboxCapacity else kMailboxCapacity.

(** Program points of [DrainBatch]. *)
Inductive DrainPc (T : Type) :=
| PopPriority                       (* [priority_mailbox_.TryPop()] *)
| PopNormal                         (* [mailbox_.TryPop()] *)
| CheckPending                      (* nothing popped: load [pending_count_] *)
| Handle (priority : bool) (v : T)  (* about to call the handler *)
| Release                           (* [ReleasePending]: [fetch_sub] *)
| ReleaseNotify                     (* ... that returned 1 *)
| Clear                             (* [drain_scheduled_.store(false)] *)
| ClearNotify
| Recheck.                          (* load [pending_count_] for the result *)
Arguments PopPriority {T}.
Arguments PopNormal {T}.
Arguments CheckPending {T}.
Arguments Handle {T}.
Arguments Release {T}.
Arguments ReleaseNotify {T}.
Arguments Clear {T}.
Arguments ClearNotify {T}.
Arguments Recheck {T}.

(** Program points of a thread: inside [Submit], [ScheduleDrainIfRequired],
    [DrainBatch] or [WaitIdle]. [worker] tells a thread that runs a drain task
    from a submitter, which returns [Accepted] when it is done. *)
Inductive Pc (T : Type) :=
| Idle
| Announce (priority : bool) (v : T)   (* [pending_count_.fetch_add(1)] *)
| CheckAccepting (priority : bool) (v : T)
| Push (priority : bool) (v : T)       (* [TryPush]: about to reserve *)
| Publish (priority : bool)            (* reserved, about to publish *)
| Reject (status : CommandAdmissionStatus)       (* [ReleasePending] *)
| RejectNotify (status : CommandAdmissionStatus)
| Schedule (worker : bool)             (* [drain_scheduled_.exchange(true)] *)
| PostTask (worker : bool)             (* lock the executor and [Post] *)
| Drain (d : DrainPc T) (processed retries : nat) (worker : bool)
| Return (status : CommandAdmissionStatus)
| WaitPendingLoad
| WaitPending (old : Z)                (* [pending_count_.wait(old)] *)
| WaitPendingBlocked (old : Z)
| WaitDrainLoad
| WaitDrain                            (* [drain_scheduled_.wait(true)] *)
| WaitDrainBlocked
| WaitReturn.
Arguments Idle {T}.
Arguments Announce {T}.
Arguments CheckAccepting {T}.
Arguments Push {T}.
Arguments Publish {T}.
Arguments Reject {T}.
Arguments RejectNotify {T}.
Arguments Schedule {T}.
Arguments PostTask {T}.
Arguments Drain {T}.
Arguments Return {T}.
Arguments WaitPendingLoad {T}.
Arguments WaitPending {T}.
Arguments WaitPendingBlocked {T}.
Arguments WaitDrainLoad {T}.
Arguments WaitDrain {T}.
Arguments WaitDrainBlocked {T}.
Arguments WaitReturn {T}.

Section scheduler.
Context {T : Type}.

(** The members of the class, the executor as the scheduler sees it
    ([executor_open]: the weak pointer locks and [Post] accepts; [posted]:
    drain tasks accepted and not yet started) and two histories. *)
Record SessionCommandScheduler := mkScheduler {
  mailbox_ : list (cell T);
  priority_mailbox_ : list (cell T);
  pending_count_ : Z;
  drain_scheduled_ : bool;
  accepting_ : bool;
  executor_open : bool;
  posted : nat;
  reserved : list (bool * T);
  popped : list (bool * T);
  handled : list (bool * T) }.

Definition mailbox (priority : bool) (s : SessionCommandScheduler) : list (cell T) :=
  if priority then priority_mailbox_ s else mailbox_ s.

Definition set_mailbox (priority : bool) (q : list (cell T)) (s : SessionCommandScheduler) :=
  if priority
  then mkScheduler (mailbox_ s) q (pending_count_ s) (drain_scheduled_ s) (accepting_ s)
         (executor_open s) (posted s) (reserved s) (popped s) (handled s)
  else mkScheduler q (priority_mailbox_ s) (pending_count_ s) (drain_scheduled_ s) (accepting_ s)
         (executor_open s) (posted s) (reserved s) (popped s) (handled s).

Definition set_pending (n : Z) (s : SessionCommandScheduler) :=
  mkScheduler (mailbox_ s) (priority_mailbox_ s) n (drain_scheduled_ s) (accepting_ s)
    (executor_open s) (posted s) (reserved s) (popped s) (handled s).

Definition set_drain (b : bool) (s : SessionCommandScheduler) :=
  mkScheduler (mailbox_ s) (priority_mailbox_ s) (pending_count_ s) b (accepting_ s)
    (executor_open s) (posted s) (reserved s) (popped s) (handled s).

Definition set_posted (n : nat) (s : SessionCommandScheduler) :=
  mkScheduler (mailbox_ s) (priority_mailbox_ s) (pending_count_ s) (drain_scheduled_ s)
    (accepting_ s) (executor_open s) n (reserved s) (popped s) (handled s).

Definition add_reserved (b : bool) (v : T) (s : SessionCommandScheduler) :=
  mkScheduler (mailbox_ s) (priority_mailbox_ s) (pending_count_ s) (drain_scheduled_ s)
    (accepting_ s) (executor_open s) (posted s) (reserved s ++ [(b, v)]) (popped s) (handled s).

Definition add_popped (b : bool) (v : T) (s : SessionCommandScheduler) :=
  mkScheduler (mailbox_ s) (priority_mailbox_ s) (pending_count_ s) (drain_scheduled_ s)
    (accepting_ s) (executor_open s) (posted s) (reserved s) (popped s ++ [(b, v)]) (handled s).

(** The call of the command handler. *)
Definition add_handled (b : bool) (v : T) (s : SessionCommandScheduler) :=
  mkScheduler (mailbox_ s) (priority_mailbox_ s) (pending_count_ s) (drain_scheduled_ s)
    (accepting_ s) (executor_open s) (posted s) (reserved s) (popped s) (handled s ++ [(b, v)]).

Definition Create : SessionCommandScheduler :=
  mkScheduler [] [] 0 false true true 0 [] [] [].

Definition CloseAdmission (s : SessionCommandScheduler) : SessionCommandScheduler :=
  mkScheduler (mailbox_ s) (priority_mailbox_ s) (pending_count_ s) (drain_scheduled_ s) false
    (executor_open s) (posted s) (reserved s) (popped s) (handled s).

Definition close_executor (s : SessionCommandScheduler) : SessionCommandScheduler :=
  mkScheduler (mailbox_ s) (priority_mailbox_ s) (pending_count_ s) (drain_scheduled_ s)
    (accepting_ s) false (posted s) (reserved s) (popped s) (handled s).

Definition IsAccepting (s : SessionCommandScheduler) : bool := accepting_ s.

Definition ApproximatePendingCount (s : SessionCommandScheduler) : Z := pending_count_ s.

(** The test of the loop of [DrainBatch]. *)
Definition drain_loop (processed retries : nat) (worker : bool) : Pc T :=
  if (processed <? kMaxCommandsPerDrain)%nat then Drain PopPriority processed retries worker
  else Drain Clear processed retries worker.

(** What a thread does when its [ScheduleDrainIfRequired] returns. *)
Definition schedule_return (worker : bool) : Pc T := if worker then Idle else Return Accepted.

(** [ReleasePending]: the decrement, and whether it was the last one. *)
Definition release (s : SessionCommandScheduler) : SessionCommandScheduler * bool :=
  (set_pending (u64 (pending_count_ s - 1)) s, pending_count_ s =? 1).

(** What a step does to the threads blocked on an atomic. *)
Inductive notify := NoNotify | NotifyPending | NotifyDrain.

(** One step of thread [i]. [None]: it is blocked or outside the scheduler. *)
Definition thread_step (i : nat) (s : SessionCommandScheduler) (p : Pc T) :
    option (SessionCommandScheduler * Pc T * notify) :=
  match p with
  | Idle | WaitPendingBlocked _ | WaitDrainBlocked => None
  | Announce b v => Some (set_pending (u64 (pending_count_ s + 1)) s, CheckAccepting b v, NoNotify)
  | CheckAccepting b v =>
      Some (s, if accepting_ s then Push b v else Reject Stopping, NoNotify)
  | Push b v =>
      if Z.of_nat (length (mailbox b s)) <? capacity b
      then Some (add_reserved b v (set_mailbox b (cq_reserve i v (mailbox b s)) s), Publish b, NoNotify)
      else Some (s, Reject QueueFull, NoNotify)
  | Publish b => Some (set_mailbox b (cq_publish i (mailbox b s)) s, Schedule false, NoNotify)
  | Reject st =>
      let '(s', last) := release s in
      Some (s', if last then RejectNotify st else Return st, NoNotify)
  | RejectNotify st => Some (s, Return st, NotifyPending)
  | Schedule w =>
      Some (set_drain true s, if drain_scheduled_ s then schedule_return w else PostTask w, NoNotify)
  | PostTask w =>
      if executor_open s then Some (set_posted (S (posted s)) s, schedule_return w, NoNotify)
      else Some (s, drain_loop 0 0 w, NoNotify)
  | Drain PopPriority n r w =>
      match cq_pop (priority_mailbox_ s) with
      | Some (v, q) => Some (add_popped true v (set_mailbox true q s), Drain (Handle true v) n r w, NoNotify)
      | None => Some (s, Drain PopNormal n r w, NoNotify)
      end
  | Drain PopNormal n r w =>
      match cq_pop (mailbox_ s) with
      | Some (v, q) => Some (add_popped false v (set_mailbox false q s), Drain (Handle false v) n r w, NoNotify)
      | None => Some (s, Drain CheckPending n r w, NoNotify)
      end
  | Drain CheckPending n r w =>
      Some (s, if pending_count_ s =? 0 then Drain Clear n r w
               else if (kHeadPublicationRetries <? S r)%nat then Drain Clear n (S r) w
               else drain_loop n (S r) w, NoNotify)
  | Drain (Handle b v) n r w => Some (add_handled b v s, Drain Release n 0 w, NoNotify)
  | Drain Release n r w =>
      let '(s', last) := release s in
      Some (s', if last then Drain ReleaseNotify n r w else drain_loop (S n) r w, NoNotify)
  | Drain ReleaseNotify n r w => Some (s, drain_loop (S n) r w, NotifyPending)
  | Drain Clear n r w => Some (set_drain false s, Drain ClearNotify n r w, NoNotify)
  | Drain ClearNotify n r w => Some (s, Drain Recheck n r w, NotifyDrain)
  | Drain Recheck n r w =>
      Some (s, if 0 <? pending_count_ s then Schedule w else schedule_return w, NoNotify)
  | Return _ => Some (s, Idle, NoNotify)
  | WaitPendingLoad =>
      Some (s, if pending_count_ s =? 0 then WaitDrainLoad else WaitPending (pending_count_ s), NoNotify)
  | WaitPending old =>
      Some (s, if pending_count_ s =? old then WaitPendingBlocked old else WaitPendingLoad, NoNotify)
  | WaitDrainLoad => Some (s, if drain_scheduled_ s then WaitDrain else WaitReturn, NoNotify)
  | WaitDrain => Some (s, if drain_scheduled_ s then WaitDrainBlocked else WaitDrainLoad, NoNotify)
  | WaitReturn => Some (s, Idle, NoNotify)
  end.

(** A notified thread compares the value again. *)
Definition wake (k : notify) (p : Pc T) : Pc T :=
  match k, p with
  | NotifyPending, WaitPendingBlocked old => WaitPending old
  | NotifyDrain, WaitDrainBlocked => WaitDrain
  | _, _ => p
  end.

Record config := mkConfig { sched : SessionCommandScheduler; threads : list (Pc T) }.

(** What an idle thread can start, and what happens around the scheduler. *)
Inductive call :=
| CallTrySubmit (v : T)
| CallTrySubmitPriority (v : T)
| CallWaitIdle
| CallRunDrainTask.

Definition start (k : call) (s : SessionCommandScheduler) : option (SessionCommandScheduler * Pc T) :=
  match k with
  | CallTrySubmit v => Some (s, Announce false v)
  | CallTrySubmitPriority v => Some (s, Announce true v)
  | CallWaitIdle => Some (s, WaitPendingLoad)
  | CallRunDrainTask =>
      match posted s with
      | O => None
      | S n => Some (set_posted n s, drain_loop 0 0 true)
      end
  end.

Inductive step : config -> config -> Prop :=
| step_call c i k s' p :
    threads c !! i = Some Idle -> start k (sched c) = Some (s', p) ->
    step c (mkConfig s' (<[i := p]> (threads c)))
| step_thread c i p s' p' k :
    threads c !! i = Some p -> thread_step i (sched c) p = Some (s', p', k) ->
    step c (mkConfig s' (wake k <$> <[i := p']> (threads c)))
| step_close c : step c (mkConfig (CloseAdmission (sched c)) (threads c))
| step_close_executor c : step c (mkConfig (close_executor (sched c)) (threads c))
| step_spurious c i k p :
    threads c !! i = Some p -> step c (mkConfig (sched c) (<[i := wake k p]> (threads c))).

Definition init (n : nat) : config := mkConfig Create (replicate n Idle).

(** ** Counting threads *)

(** What a thread adds to [pending_count_]: the command it carries. *)
Definition carries (p : Pc T) : nat :=
  match p with
  | CheckAccepting _ _ | Push _ _ | Reject _ => 1
  | Drain (Handle _ _) _ _ _ | Drain Release _ _ _ => 1
  | _ => 0
  end.

(** Whether a thread holds the drain: it is the one that set
    [drain_scheduled_], and has neither posted the task nor cleared it. *)
Definition drains (p : Pc T) : nat :=
  match p with
  | PostTask _ => 1
  | Drain ClearNotify _ _ _ | Drain Recheck _ _ _ => 0
  | Drain _ _ _ _ => 1
  | _ => 0
  end.

(** Whether a thread is about to look whether a drain is needed. *)
Definition will_schedule (p : Pc T) : nat :=
  match p with
  | Publish _ | Schedule _ | Drain ClearNotify _ _ _ | Drain Recheck _ _ _ => 1
  | _ => 0
  end.

Definition will_notify_pending (p : Pc T) : nat :=
  match p with RejectNotify _ | Drain ReleaseNotify _ _ _ => 1 | _ => 0 end.

Definition will_notify_drain (p : Pc T) : nat :=
  match p with Drain ClearNotify _ _ _ => 1 | _ => 0 end.

Definition blocked_pending (p : Pc T) : nat :=
  match p with WaitPendingBlocked _ => 1 | _ => 0 end.

Definition blocked_drain (p : Pc T) : nat :=
  match p with WaitDrainBlocked => 1 | _ => 0 end.

(** A thread that waits for a change of a value that is zero. *)
Definition waits_zero (p : Pc T) : nat :=
  match p with WaitPending old | WaitPendingBlocked old => if old =? 0 then 1 else 0 | _ => 0 end.

(** Whether a thread may still push a command or call the handler. *)
Definition works (p : Pc T) : nat :=
  match p with Push _ _ | Drain (Handle _ _) _ _ _ => 1 | _ => 0 end.

Definition handling (p : Pc T) : list (bool * T) :=
  match p with Drain (Handle b v) _ _ _ => [(b, v)] | _ => [] end.

Definition count (f : Pc T -> nat) (ts : list (Pc T)) : nat := sum_list_with f ts.

(** The commands of one mailbox in a history. *)
Definition of_mailbox (b : bool) (l : list (bool * T)) : list T :=
  snd <$> filter (fun x => x.1 = b) l.

Definition b2n (b : bool) : nat := if b then 1 else 0.

(** Bounds of the loop counters of a drain. *)
Definition drain_ok (p : Pc T) : Prop :=
  match p with
  | Drain (PopPriority | PopNormal | CheckPending) n r _ => (n < 64 /\ r <= 16)%nat
  | Drain (Handle _ _ | Release | ReleaseNotify) n r _ => (n < 64 /\ r <= 16)%nat
  | Drain (Clear | ClearNotify | Recheck) n r _ => (n <= 64)%nat
  | _ => True
  end.

Record Inv (n : nat) (c : config) : Prop := {
  inv_threads : length (threads c) = n;
  inv_pending : pending_count_ (sched c) =
    Z.of_nat (count carries (threads c) + length (mailbox_ (sched c)) + length (priority_mailbox_ (sched c)));
  inv_token : (posted (sched c) + count drains (threads c))%nat = b2n (drain_scheduled_ (sched c));
  inv_fifo : forall b, of_mailbox b (reserved (sched c)) =
    of_mailbox b (popped (sched c)) ++ cq_values (mailbox b (sched c));
  inv_handled : popped (sched c) = handled (sched c) ++ (threads c ≫= handling);
  inv_cap : forall b, Z.of_nat (length (mailbox b (sched c))) <= capacity b;
  inv_stranded : drain_scheduled_ (sched c) = false ->
    (0 < length (mailbox_ (sched c)) + length (priority_mailbox_ (sched c)))%nat ->
    (0 < count will_schedule (threads c))%nat;
  inv_waits : count waits_zero (threads c) = 0%nat;
  inv_blocked_pending : (0 < count blocked_pending (threads c))%nat -> pending_count_ (sched c) = 0 ->
    (0 < count will_notify_pending (threads c))%nat;
  inv_blocked_drain : (0 < count blocked_drain (threads c))%nat -> drain_scheduled_ (sched c) = false ->
    (0 < count will_notify_drain (threads c))%nat;
  inv_drain : Forall drain_ok (threads c) }.

(** A weight that waking a thread up does not change. *)
Definition stable (f : Pc T -> nat) : Prop := forall k p, f (wake k p) = f p.

Lemma count_step f k ts i p p' :
  stable f -> ts !! i = Some p ->
  (count f (wake k <$> <[i := p']> ts) + f p = count f ts + f p')%nat.
Proof.
  intros Hf Hi. unfold count. rewrite sum_fmap, (sum_ext _ f) by apply Hf. by apply sum_insert.
Qed.

Lemma handling_wake k p : handling (wake k p) = handling p.
Proof. by destruct k, p. Qed.

Lemma drain_ok_wake k p : drain_ok p -> drain_ok (wake k p).
Proof. by destruct k, p. Qed.

Lemma handling_none ts :
  sum_list_with drains ts = 0%nat -> ts ≫= handling = [].
Proof.
  induction ts as [|p ts IH]; [done|]. rewrite bind_cons. simpl. intros Hs.
  rewrite IH by lia. destruct p as [| | | | | | | | |[] ? ? ?| | | | | | | |]; simpl in *; done || lia.
Qed.

Lemma handling_wake_all k ts : (wake k <$> ts) ≫= handling = ts ≫= handling.
Proof.
  induction ts as [|q ts IH]; [done|]. by rewrite fmap_cons, !bind_cons, IH, handling_wake.
Qed.

(** While a thread drains, it alone can be calling the handler. *)
Lemma handling_insert k ts i p p' :
  ts !! i = Some p -> (sum_list_with drains ts <= 1)%nat -> drains p = 1%nat ->
  (wake k <$> <[i := p']> ts) ≫= handling = handling p' /\ ts ≫= handling = handling p.
Proof.
  rewrite handling_wake_all. revert i.
  induction ts as [|q ts IH]; intros [|i] Hi Hs Hp; simplify_eq; simpl in Hs, Hi;
    cbn [insert list_insert]; rewrite !bind_cons.
  - simplify_eq. rewrite handling_none by lia. by rewrite !app_nil_r.
  - pose proof (sum_ge drains _ _ _ Hi).
    assert (handling q = []) as ->.
    { pose proof (handling_none [q]) as Hq. rewrite bind_cons, app_nil_r in Hq.
      apply Hq. simpl. lia. }
    apply IH; [done|lia|done].
Qed.

Lemma handling_insert_other k ts i p p' :
  ts !! i = Some p -> handling p = handling p' ->
  (wake k <$> <[i := p']> ts) ≫= handling = ts ≫= handling.
Proof.
  rewrite handling_wake_all. revert i.
  induction ts as [|q ts IH]; intros [|i] Hi Hh; simpl in Hi; simplify_eq;
    cbn [insert list_insert]; rewrite !bind_cons.
  - by rewrite Hh.
  - f_equal. by apply IH.
Qed.

Lemma of_mailbox_snoc b l b' v :
  of_mailbox b (l ++ [(b', v)]) = of_mailbox b l ++ (if decide (b' = b) then [v] else []).
Proof.
  unfold of_mailbox. rewrite filter_app, fmap_app. f_equal.
  rewrite filter_cons, filter_nil. simpl. by repeat case_decide.
Qed.

Lemma of_mailbox_reserved b b' v l q q' (ps : list (bool * T)) i :
  of_mailbox b l = of_mailbox b ps ++ cq_values q ->
  q' = (if decide (b' = b) then cq_reserve i v q else q) ->
  of_mailbox b (l ++ [(b', v)]) = of_mailbox b ps ++ cq_values q'.
Proof.
  intros Hf ->. rewrite of_mailbox_snoc. case_decide.
  - by rewrite cq_values_reserve, Hf, app_assoc.
  - by rewrite app_nil_r.
Qed.

Lemma of_mailbox_popped b b' v l q q' (ps : list (bool * T)) :
  of_mailbox b l = of_mailbox b ps ++ cq_values q ->
  (if decide (b' = b) then cq_pop q = Some (v, q') else q' = q) ->
  of_mailbox b l = of_mailbox b (ps ++ [(b', v)]) ++ cq_values q'.
Proof.
  intros Hf Hq. rewrite of_mailbox_snoc. case_decide.
  - rewrite Hf, (cq_pop_values _ _ _ Hq). by rewrite <- app_assoc.
  - by rewrite Hq, app_nil_r.
Qed.

Lemma count_le f ts : (forall p, (f p <= 1)%nat) -> (count f ts <= length ts)%nat.
Proof.
  intros Hf. unfold count. induction ts as [|p ts IH]; simpl; [done|]. specialize (Hf p). lia.
Qed.

(** A notification clears the threads blocked on its value, and leaves the
    others alone. *)
Lemma count_pending_woken ts : count blocked_pending (wake NotifyPending <$> ts) = 0%nat.
Proof. unfold count. rewrite sum_fmap. apply sum_zero, Forall_forall. by intros []. Qed.

Lemma count_drain_woken ts : count blocked_drain (wake NotifyDrain <$> ts) = 0%nat.
Proof. unfold count. rewrite sum_fmap. apply sum_zero, Forall_forall. by intros []. Qed.

Lemma count_blocked_pending k ts i p p' :
  k <> NotifyPending -> ts !! i = Some p ->
  (count blocked_pending (wake k <$> <[i := p']> ts) + blocked_pending p =
   count blocked_pending ts + blocked_pending p')%nat.
Proof.
  intros Hk Hi. unfold count. rewrite sum_fmap, (sum_ext _ blocked_pending).
  - by apply sum_insert.
  - intros q. by destruct k, q.
Qed.

Lemma count_blocked_drain k ts i p p' :
  k <> NotifyDrain -> ts !! i = Some p ->
  (count blocked_drain (wake k <$> <[i := p']> ts) + blocked_drain p =
   count blocked_drain ts + blocked_drain p')%nat.
Proof.
  intros Hk Hi. unfold count. rewrite sum_fmap, (sum_ext _ blocked_drain).
  - by apply sum_insert.
  - intros q. by destruct k, q.
Qed.

#[local] Arguments count : simpl never.
#[local] Arguments of_mailbox : simpl never.
#[local] Arguments cq_reserve : simpl never.
#[local] Arguments cq_publish : simpl never.
#[local] Arguments wrap : simpl never.
#[local] Arguments cq_values : simpl never.

Lemma count_ge f ts i p : ts !! i = Some p -> (f p <= count f ts)%nat.
Proof. apply sum_ge. Qed.

Lemma drain_ok_step k ts i p' :
  Forall drain_ok ts -> drain_ok p' -> Forall drain_ok (wake k <$> <[i := p']> ts).
Proof.
  intros Hts Hp'. apply Forall_fmap. apply (Forall_impl drain_ok); [by apply Forall_insert|].
  intros q. apply drain_ok_wake.
Qed.


(** The counts of the next configuration, for [lia]. *)
Ltac pose_counts :=
  match goal with
  | Hi : ?ts !! ?i = Some ?p |- Inv _ (mkConfig _ (wake ?k <$> <[?i := ?p']> ?ts)) =>
      pose proof (count_step carries k ts i p p' ltac:(by intros [] []) Hi);
      pose proof (count_step drains k ts i p p' ltac:(by intros [] []) Hi);
      pose proof (count_step will_schedule k ts i p p' ltac:(by intros [] []) Hi);
      pose proof (count_step will_notify_pending k ts i p p' ltac:(by intros [] []) Hi);
      pose proof (count_step will_notify_drain k ts i p p' ltac:(by intros [] []) Hi);
      pose proof (count_step waits_zero k ts i p p' ltac:(by intros [] []) Hi);
      first [ pose proof (count_blocked_pending k ts i p p' ltac:(done) Hi)
            | pose proof (count_pending_woken (<[i := p']> ts)) ];
      first [ pose proof (count_blocked_drain k ts i p p' ltac:(done) Hi)
            | pose proof (count_drain_woken (<[i := p']> ts)) ];
      pose proof (handling_insert_other k ts i p p' Hi) as Hh1;
      pose proof (handling_insert k ts i p p' Hi) as Hh2;
      pose proof (drain_ok_step k ts i p') as Hd';
      assert (Hlen : length (wake k <$> <[i := p']> ts) = length ts)
        by (by rewrite length_fmap, length_insert);
      set (ts' := wake k <$> <[i := p']> ts) in *; clearbody ts'
  end;
  cbn [carries drains will_schedule will_notify_pending will_notify_drain waits_zero
       blocked_pending blocked_drain drain_ok handling] in *.

(** The fields of the invariant that are arithmetic. *)
Ltac inv_arith :=
  try done; rewrite ?length_cq_reserve, ?length_cq_publish, ?wrap_small by lia; try lia;
  try match goal with
  | HC : forall b, Z.of_nat (length (mailbox b _)) <= capacity b |- forall b, _ <= capacity b =>
      let b' := fresh in intros b'; specialize (HC b'); destruct b'; cbn in *;
      rewrite ?length_cq_reserve, ?length_cq_publish; lia
  | HD : _ -> _ -> Forall drain_ok ?ts |- Forall drain_ok ?ts => apply HD; [done|lia || done]
  | HH : ?x = ?x -> ?ts ≫= handling = _ |- _ = _ ++ (?ts ≫= handling) => by rewrite (HH eq_refl)
  | HS : _ = false -> (0 < _)%nat -> _ |- _ = false -> (0 < _)%nat -> _ =>
      let Ha := fresh in let Hb := fresh in
      intros Ha Hb; first [congruence | lia | specialize (HS Ha ltac:(lia)); lia]
  | HS : (0 < _)%nat -> pending_count_ _ = 0 -> _ |- (0 < _)%nat -> _ = 0 -> _ =>
      let Ha := fresh in let Hb := fresh in
      intros Ha Hb; first [lia | specialize (HS ltac:(lia) ltac:(lia)); lia]
  | HS : (0 < _)%nat -> _ = false -> _ |- (0 < _)%nat -> _ = false -> _ =>
      let Ha := fresh in let Hb := fresh in
      intros Ha Hb; first [congruence | lia | specialize (HS ltac:(lia) Hb); lia]
  end.

(** The shared premises of the preservation lemmas. *)
Ltac inv_prepare :=
  match goal with
  | Hn : _ < 2 ^ 62, HI : Inv ?n ?c, Hi : threads ?c !! ?i = Some _ |- _ =>
      let Hcap := fresh in let Htoken := fresh in let Hlen := fresh in
      pose proof (inv_cap _ _ HI) as Hcap; pose proof (inv_token _ _ HI) as Htoken;
      pose proof (inv_threads _ _ HI) as Hlen;
      assert (count carries (threads c) <= n)%nat by
        (rewrite <- Hlen; apply count_le; intros []; simpl; repeat case_match; lia);
      pose proof (Hcap true); pose proof (Hcap false);
      pose proof (proj1 (Forall_lookup _ _) (inv_drain _ _ HI) _ _ Hi);
      assert (count drains (threads c) <= 1)%nat by
        (destruct (drain_scheduled_ (sched c)); cbn [b2n] in *; lia);
      clear Hcap Htoken Hlen; pose proof HI as []; destruct c as [s ts];
      cbn [sched threads mailbox capacity] in *;
      unfold kPriorityMailboxCapacity, kMailboxCapacity in *
  end.

Lemma inv_submit n c i p s' p' k :
  Z.of_nat n < 2 ^ 62 -> Inv n c -> threads c !! i = Some p ->
  match p with
  | Announce _ _ | CheckAccepting _ _ | Push _ _ | Publish _ | Reject _ | RejectNotify _
  | Schedule _ | PostTask _ | Return _ => True
  | _ => False
  end ->
  thread_step i (sched c) p = Some (s', p', k) ->
  Inv n (mkConfig s' (wake k <$> <[i := p']> (threads c))).
Proof.
  intros Hn HI Hi Hp Hst. inv_prepare.
  destruct p as [|b v|b v|b v|b|st|st|w|w|d r r' w|st| | | | | | |];
    try done; clear Hp; cbn [thread_step] in Hst.
  - simplify_eq. pose_counts. constructor; cbn; inv_arith. 
  - destruct (accepting_ s); simplify_eq; pose_counts; constructor; cbn; inv_arith.
  - destruct (Z.ltb_spec (Z.of_nat (length (mailbox b s))) (capacity b)); simplify_eq.
    + pose_counts. destruct b; constructor; cbn; inv_arith; intros b';
        (eapply of_mailbox_reserved; [apply inv_fifo0|by destruct b']).
    + pose_counts. constructor; cbn; inv_arith.
  - simplify_eq. pose_counts. destruct b; constructor; cbn; inv_arith; intros b';
      rewrite inv_fifo0; destruct b'; cbn; rewrite ?cq_values_publish; done.
  - unfold release in Hst. destruct (Z.eqb_spec (pending_count_ s) 1); simplify_eq; pose_counts;
      constructor; cbn; inv_arith.
  - simplify_eq. pose_counts. constructor; cbn; inv_arith.
  - destruct (drain_scheduled_ s) eqn:Hds; simplify_eq; destruct w; pose_counts;
      constructor; cbn in *; inv_arith.
  - destruct (executor_open s); simplify_eq; destruct w; pose_counts; constructor; cbn in *; inv_arith.
  - simplify_eq. pose_counts. constructor; cbn; inv_arith.
Qed.

Lemma inv_drain_step n c i d r r' w s' p' k :
  Z.of_nat n < 2 ^ 62 -> Inv n c -> threads c !! i = Some (Drain d r r' w) ->
  thread_step i (sched c) (Drain d r r' w) = Some (s', p', k) ->
  Inv n (mkConfig s' (wake k <$> <[i := p']> (threads c))).
Proof.
  intros Hn HI Hi Hst. inv_prepare.
  destruct d as [| | |b v| | | | |]; cbn [thread_step] in Hst.
  - destruct (cq_pop (priority_mailbox_ s)) as [[v q]|] eqn:Ep; simplify_eq; pose_counts.
    + pose proof (cq_pop_length _ _ _ Ep). constructor; cbn in *; inv_arith.
      * intros b. eapply of_mailbox_popped; [apply inv_fifo0|by destruct b].
      * destruct (Hh2 ltac:(done) eq_refl) as [-> Hno]. by rewrite inv_handled0, Hno, app_nil_r.
    + constructor; cbn; inv_arith.
  - destruct (cq_pop (mailbox_ s)) as [[v q]|] eqn:Ep; simplify_eq; pose_counts.
    + pose proof (cq_pop_length _ _ _ Ep). constructor; cbn in *; inv_arith.
      * intros b. eapply of_mailbox_popped; [apply inv_fifo0|by destruct b].
      * destruct (Hh2 ltac:(done) eq_refl) as [-> Hno]. by rewrite inv_handled0, Hno, app_nil_r.
    + constructor; cbn; inv_arith.
  - unfold drain_loop, kHeadPublicationRetries, kMaxCommandsPerDrain in Hst.
    destruct (Z.eqb_spec (pending_count_ s) 0), (Nat.ltb_spec 16 (S r')), (Nat.ltb_spec r 64);
      simplify_eq; pose_counts; constructor; cbn in *; inv_arith.
  - simplify_eq. pose_counts. constructor; cbn in *; inv_arith.
    destruct (Hh2 ltac:(done) eq_refl) as [-> Hno]. by rewrite inv_handled0, Hno, app_nil_r.
  - unfold release, drain_loop, kMaxCommandsPerDrain in Hst.
    destruct (Z.eqb_spec (pending_count_ s) 1), (Nat.ltb_spec (S r) 64);
      simplify_eq; pose_counts; constructor; cbn in *; inv_arith.
  - unfold drain_loop, kMaxCommandsPerDrain in Hst. destruct (Nat.ltb_spec (S r) 64);
      simplify_eq; pose_counts; constructor; cbn in *; inv_arith.
  - simplify_eq. pose_counts. destruct (drain_scheduled_ s); constructor; cbn in *; inv_arith.
  - simplify_eq. pose_counts. constructor; cbn in *; inv_arith.
  - destruct (Z.ltb_spec 0 (pending_count_ s)), w; simplify_eq; pose_counts; constructor; cbn in *; inv_arith.
Qed.

Lemma inv_wait n c i p s' p' k :
  Z.of_nat n < 2 ^ 62 -> Inv n c -> threads c !! i = Some p ->
  match p with
  | WaitPendingLoad | WaitPending _ | WaitDrainLoad | WaitDrain | WaitReturn => True
  | _ => False
  end ->
  thread_step i (sched c) p = Some (s', p', k) ->
  Inv n (mkConfig s' (wake k <$> <[i := p']> (threads c))).
Proof.
  intros Hn HI Hi Hp Hst. inv_prepare.
  destruct p as [|b v|b v|b v|b|st|st|w|w|d r r' w|st| |old|old| | | |];
    try done; clear Hp; cbn [thread_step] in Hst.
  - destruct (Z.eqb_spec (pending_count_ s) 0) as [|Hz%Z.eqb_neq]; simplify_eq; pose_counts;
      rewrite ?Hz in *; constructor; cbn; inv_arith.
  - pose proof (count_ge waits_zero _ _ _ Hi) as Hge. cbn in Hge.
    destruct (Z.eqb_spec old 0) as [->|Hz%Z.eqb_neq]; [lia|].
    destruct (Z.eqb_spec (pending_count_ s) old); simplify_eq; pose_counts; rewrite ?Hz in *;
      constructor; cbn; inv_arith.
  - destruct (drain_scheduled_ s) eqn:Hds; simplify_eq; pose_counts; constructor; cbn in *;
      rewrite ?Hds; cbn [b2n]; inv_arith.
  - destruct (drain_scheduled_ s) eqn:Hds; simplify_eq; pose_counts; constructor; cbn in *;
      rewrite ?Hds; cbn [b2n]; inv_arith.
  - simplify_eq. pose_counts. constructor; cbn; inv_arith.
Qed.

Lemma inv_thread n c i p s' p' k :
  Z.of_nat n < 2 ^ 62 -> Inv n c -> threads c !! i = Some p ->
  thread_step i (sched c) p = Some (s', p', k) ->
  Inv n (mkConfig s' (wake k <$> <[i := p']> (threads c))).
Proof.
  intros Hn HI Hi Hst.
  destruct p; try done; eauto using inv_drain_step; (by eapply inv_submit) || (by eapply inv_wait).
Qed.

Lemma fmap_wake_none (ts : list (Pc T)) : wake NoNotify <$> ts = ts.
Proof. induction ts as [|p ts IH]; [done|]. rewrite fmap_cons, IH. by destruct p. Qed.

(** A call, and a spurious wake-up: steps that notify nobody. *)
Lemma inv_start n c i k s' p :
  Z.of_nat n < 2 ^ 62 -> Inv n c -> threads c !! i = Some Idle ->
  start k (sched c) = Some (s', p) ->
  Inv n (mkConfig s' (<[i := p]> (threads c))).
Proof.
  intros Hn HI Hi Hst. rewrite <- (fmap_wake_none (<[i := p]> _)). inv_prepare.
  destruct k; cbn [start] in Hst.
  1-3: simplify_eq; pose_counts; constructor; cbn; inv_arith.
  destruct (posted s) as [|m] eqn:Hm; simplify_eq. pose_counts.
  constructor; cbn in *; inv_arith.
Qed.

Lemma inv_spurious n c i k p :
  Z.of_nat n < 2 ^ 62 -> Inv n c -> threads c !! i = Some p ->
  Inv n (mkConfig (sched c) (<[i := wake k p]> (threads c))).
Proof.
  intros Hn HI Hi. rewrite <- (fmap_wake_none (<[i := _]> _)).
  destruct k, p; try by (cbn; rewrite list_insert_id, fmap_wake_none by done; destruct c).
  all: cbn [wake]; inv_prepare; pose_counts; constructor; cbn; inv_arith.
Qed.

Lemma scheduler_inv_step n c c' : Z.of_nat n < 2 ^ 62 -> Inv n c -> step c c' -> Inv n c'.
Proof.
  intros Hn HI Hst. destruct Hst; eauto using inv_start, inv_thread, inv_spurious.
  all: destruct HI; constructor; done.
Qed.

Lemma scheduler_inv_init n : Inv n (init n).
Proof.
  assert (Hz : forall f, f Idle = 0%nat -> count f (threads (init n)) = 0%nat).
  { intros f Hf. unfold count, init. cbn [threads]. rewrite sum_replicate, Hf. lia. }
  constructor; rewrite ?Hz by done; cbn; try done; try lia.
  - apply length_replicate.
  - by intros [].
  - rewrite handling_none; [done|]. by rewrite sum_replicate.
  - by intros [].
  - by apply Forall_replicate.
Qed.

Lemma scheduler_inv_reachable n c : Z.of_nat n < 2 ^ 62 -> rtc step (init n) c -> Inv n c.
Proof.
  intros Hn Hr. eapply (rtc_invariant step (Inv n)); eauto using scheduler_inv_step, scheduler_inv_init.
Qed.

(** ** What the scheduler promises *)

Section promises.
Context (n : nat) (c : config) (Hn : Z.of_nat n < 2 ^ 62) (Hreach : rtc step (init n) c).

(** C10. At most one drain exists at any time: a drain task waiting on the
    executor, a thread about to post one and a thread popping or handling
    commands exclude each other, and exist exactly while [drain_scheduled_]
    is set. So commands are handled one at a time and each mailbox has the
    single consumer it requires. *)
Theorem drain_is_exclusive :
  (posted (sched c) + count drains (threads c))%nat = b2n (drain_scheduled_ (sched c)) /\
  (forall i j p q, threads c !! i = Some p -> threads c !! j = Some q ->
     drains p = 1%nat -> drains q = 1%nat -> i = j).
Proof.
  pose proof (scheduler_inv_reachable _ _ Hn Hreach) as [_ _ Htok _ _ _ _ _ _ _ _]. split; [done|].
  intros i j p q Hi Hj Hp Hq. destruct (decide (i = j)) as [|Hne]; [done|].
  pose proof (sum_ge_two drains _ _ _ _ _ Hi Hj Hne). unfold count in Htok.
  destruct (drain_scheduled_ _); cbn in Htok; lia.
Qed.

Lemma commands_in_order b :
  of_mailbox b (reserved (sched c)) =
    of_mailbox b (handled (sched c)) ++ of_mailbox b (threads c ≫= handling) ++
    cq_values (mailbox b (sched c)) /\
  Z.of_nat (length (mailbox b (sched c))) <= capacity b.
Proof.
  pose proof (scheduler_inv_reachable _ _ Hn Hreach) as [_ _ _ Hf Hh Hc _ _ _ _ _]. split; [|done].
  rewrite Hf, Hh. unfold of_mailbox. by rewrite filter_app, fmap_app, <- app_assoc.
Qed.

(** C1. Accepted commands are handled exactly once and in order: for each
    mailbox, the commands handed to the handler so far, the one a drain is
    about to hand over and those still queued are together exactly the
    commands accepted so far, in the order their positions were reserved. *)
Theorem commands_handled_once_in_order b :
  of_mailbox b (reserved (sched c)) =
    of_mailbox b (handled (sched c)) ++ of_mailbox b (threads c ≫= handling) ++
    cq_values (mailbox b (sched c)) /\
  Z.of_nat (length (mailbox b (sched c))) <= capacity b.
Proof. apply commands_in_order. Qed.

(** A thread that is outside the scheduler or blocked in [WaitIdle]. *)
Definition resting (p : Pc T) : Prop :=
  match p with Idle | Return _ | WaitPendingBlocked _ | WaitDrainBlocked => True | _ => False end.

Lemma resting_counts f ts :
  Forall resting ts -> (forall p, resting p -> f p = 0%nat) -> count f ts = 0%nat.
Proof. intros Hall Hf. apply sum_zero. by apply (Forall_impl _ _ _ Hall). Qed.

(** C11. No command is stranded and no waiter is left behind: when no drain
    task waits on the executor and every thread is idle or blocked, every
    accepted command has been handled, the pending count is zero, no drain is
    scheduled, and no thread is blocked in [WaitIdle]. *)
Theorem quiescent_means_all_handled :
  posted (sched c) = 0%nat -> Forall resting (threads c) ->
  (forall b, of_mailbox b (handled (sched c)) = of_mailbox b (reserved (sched c))) /\
  pending_count_ (sched c) = 0 /\ drain_scheduled_ (sched c) = false /\
  Forall (fun p => p <> WaitDrainBlocked /\ forall old, p <> WaitPendingBlocked old) (threads c).
Proof.
  intros Hpost Hrest. pose proof (scheduler_inv_reachable _ _ Hn Hreach) as HI.
  pose proof (inv_token _ _ HI) as Htok. rewrite Hpost in Htok.
  rewrite resting_counts in Htok by (done || (intros []; done || intros [])).
  assert (Hds : drain_scheduled_ (sched c) = false) by (by destruct (drain_scheduled_ _)).
  assert (Hq : (length (mailbox_ (sched c)) + length (priority_mailbox_ (sched c)) = 0)%nat).
  { destruct (decide (0 < length (mailbox_ (sched c)) + length (priority_mailbox_ (sched c)))%nat)
      as [Hlt|]; [|lia].
    pose proof (inv_stranded _ _ HI Hds Hlt) as Hs. rewrite resting_counts in Hs by (done || (intros []; done || intros [])); lia. }
  assert (Hpend : pending_count_ (sched c) = 0).
  { rewrite (inv_pending _ _ HI), resting_counts by (done || (intros []; done || intros [])). lia. }
  assert (Hblock : count blocked_pending (threads c) = 0%nat /\ count blocked_drain (threads c) = 0%nat).
  { pose proof (inv_blocked_pending _ _ HI) as H1. pose proof (inv_blocked_drain _ _ HI) as H2.
    rewrite (resting_counts will_notify_pending) in H1 by (done || (intros []; done || intros [])).
    rewrite (resting_counts will_notify_drain) in H2 by (done || (intros []; done || intros [])).
    split; [destruct (decide (0 < count blocked_pending (threads c))%nat)
           |destruct (decide (0 < count blocked_drain (threads c))%nat)]; try lia.
    specialize (H2 ltac:(lia) Hds). lia. }
  split; [|split; [done|split; [done|]]].
  - intros b. destruct (commands_in_order b) as [-> _].
    rewrite (handling_none (threads c)) by (by apply resting_counts; [done|intros []; done || intros []]).
    assert (Hnil : mailbox b (sched c) = []) by (destruct b; apply nil_length_inv; simpl; lia).
    by rewrite Hnil, !app_nil_r.
  - destruct Hblock as [Hb1%sum_zero Hb2%sum_zero].
    rewrite Forall_lookup in Hb1, Hb2 |- *. intros i p Hp.
    specialize (Hb1 _ _ Hp). specialize (Hb2 _ _ Hp). by destruct p.
Qed.

(** ** Termination of a drain *)

(** Bound on the steps a thread still takes in [DrainBatch]. *)
Definition drain_measure (p : Pc T) : nat :=
  match p with
  | Drain d processed retries _ =>
      match d with
      | PopPriority => (64 - processed) * 100 + (17 - retries) * 3 + 6
      | PopNormal => (64 - processed) * 100 + (17 - retries) * 3 + 5
      | CheckPending => (64 - processed) * 100 + (17 - retries) * 3 + 4
      | Handle _ _ => (64 - processed) * 100 + 3
      | Release => (64 - processed) * 100 + 2
      | ReleaseNotify => (64 - processed) * 100 + 1
      | Clear => 3
      | ClearNotify => 2
      | Recheck => 1
      end
  | _ => 0
  end%nat.

Lemma drain_measure_decreases i s p s' p' k :
  drain_ok p -> (0 < drain_measure p)%nat ->
  thread_step i s p = Some (s', p', k) -> (drain_measure p' < drain_measure p)%nat.
Proof.
  intros Hok Hm Hst. destruct p as [|b v|b v|b v|b|st|st|w|w|d r r' w|st| | | | | | |];
    try (cbn in Hm; lia).
  unfold thread_step, release, drain_loop, schedule_return, kMaxCommandsPerDrain,
    kHeadPublicationRetries in Hst.
  destruct d; repeat case_match; simplify_eq; rewrite ?Nat.ltb_lt, ?Nat.ltb_ge in *;
    cbn -[Nat.mul Nat.sub] in *; lia.
Qed.

(** A stretch of an execution during which thread [i] stays in [DrainBatch]
    and takes [k] of the steps; the others are anybody's. *)
Inductive drain_run (i : nat) : nat -> config -> config -> Prop :=
| drain_run_nil d : drain_run i 0 d d
| drain_run_other k d d1 d2 :
    step d d1 -> threads d1 !! i = threads d !! i -> drain_run i k d1 d2 -> drain_run i k d d2
| drain_run_own k d d2 p s' p' nt :
    threads d !! i = Some p -> (0 < drain_measure p)%nat ->
    thread_step i (sched d) p = Some (s', p', nt) ->
    drain_run i k (mkConfig s' (wake nt <$> <[i := p']> (threads d))) d2 ->
    drain_run i (S k) d d2.

Lemma drain_run_measure i k d d' :
  Inv n d -> drain_run i k d d' ->
  k = 0%nat \/ exists p, threads d !! i = Some p /\ (k <= drain_measure p)%nat.
Proof.
  intros HI Hrun. induction Hrun as [d|k d d1 d2 Hst Hsame _ IH|k d d2 p s' p' nt Hi Hm Hst _ IH].
  - by left.
  - rewrite Hsame in IH. apply IH. by eapply scheduler_inv_step.
  - right. exists p. split; [done|].
    pose proof (proj1 (Forall_lookup _ _) (inv_drain _ _ HI) _ _ Hi) as Hok.
    pose proof (drain_measure_decreases _ _ _ _ _ _ Hok Hm Hst).
    destruct (IH (inv_thread _ _ _ _ _ _ _ Hn HI Hi Hst)) as [->|(q & Hq & Hk)]; [lia|].
    cbn [threads] in Hq. rewrite list_lookup_fmap, list_lookup_insert_eq in Hq
      by by eapply lookup_lt_Some.
    simplify_eq/=. assert (drain_measure (wake nt p') = drain_measure p') by (by destruct nt, p').
    lia.
Qed.

(** A drain yields its worker: however other threads interleave and
    however many commands they keep submitting, a thread takes at most 6457
    steps inside one [DrainBatch], never blocks there, and handles at most
    [kMaxCommandsPerDrain] = 64 commands. *)
Theorem drain_batch_terminates i :
  (forall k c', drain_run i k c c' -> Z.of_nat k <= 6457) /\
  (forall d processed retries w, threads c !! i = Some (Drain d processed retries w) ->
     is_Some (thread_step i (sched c) (Drain d processed retries w)) /\
     (processed <= kMaxCommandsPerDrain)%nat /\
     forall b v, d = Handle b v -> (processed < kMaxCommandsPerDrain)%nat).
Proof.
  pose proof (scheduler_inv_reachable _ _ Hn Hreach) as HI. split.
  - intros k c' Hrun. destruct (drain_run_measure _ _ _ _ HI Hrun) as [->|(p & _ & Hk)]; [lia|].
    assert (Z.of_nat (drain_measure p) <= 6457); [|lia].
    clear. destruct p as [| | | | | | | | |[]| | | | | | | |]; cbn -[Nat.mul Nat.sub]; lia.
  - intros d m r w Hi. pose proof (proj1 (Forall_lookup _ _) (inv_drain _ _ HI) _ _ Hi) as Hok.
    unfold kMaxCommandsPerDrain. split; [|unfold kMaxCommandsPerDrain; destruct d; cbn in Hok; split; done || lia].
    destruct d; cbn [thread_step]; unfold release; repeat case_match; eauto.
Qed.

(** ** [WaitIdle] *)

(** Nothing is left to do: the gate is closed, the mailboxes are empty and no
    thread is on its way to push or to call the handler. *)
Definition drained (d : config) : Prop :=
  accepting_ (sched d) = false /\ mailbox_ (sched d) = [] /\ priority_mailbox_ (sched d) = [] /\
  count works (threads d) = 0%nat.

Lemma drained_thread d i p s' p' k :
  drained d -> threads d !! i = Some p -> thread_step i (sched d) p = Some (s', p', k) ->
  drained (mkConfig s' (wake k <$> <[i := p']> (threads d))) /\
  handled s' = handled (sched d) /\ reserved s' = reserved (sched d).
Proof.
  intros (Ha & Hq & Hp & Hw) Hi Hst. unfold drained. cbn [sched threads].
  pose proof (count_step works k _ _ _ p' ltac:(by intros [] []) Hi) as Hc.
  pose proof (count_ge works _ _ _ Hi) as Hge. rewrite Hw in Hc, Hge.
  unfold thread_step, release, drain_loop, schedule_return in Hst.
  rewrite ?Ha, ?Hq, ?Hp in Hst.
  destruct p as [|b v|b v|b v|[]|st|st|w|w|[] r r' w|st| |old|old| | | |]; cbn in Hge; try lia;
    repeat case_match; simplify_eq; cbn in *; rewrite ?Hq, ?Hp in *; repeat split; done || lia.
Qed.

Lemma drained_step d d' :
  drained d -> step d d' ->
  drained d' /\ handled (sched d') = handled (sched d) /\ reserved (sched d') = reserved (sched d).
Proof.
  intros Hd Hst. destruct Hst as [d i k s' p Hi Hst|d i p s' p' k Hi Hst|d|d|d i k p Hi].
  - destruct Hd as (Ha & Hq & Hp & Hw). unfold drained. cbn [sched threads].
    pose proof (sum_insert works _ _ p _ Hi) as Hc. unfold count in *. rewrite Hw in Hc.
    destruct k; cbn [start] in Hst; repeat case_match; simplify_eq; cbn in *; repeat split;
      try done; lia.
  - by eapply drained_thread.
  - destruct Hd as (Ha & Hq & Hp & Hw). done.
  - destruct Hd as (Ha & Hq & Hp & Hw). done.
  - destruct Hd as (Ha & Hq & Hp & Hw). unfold drained. cbn [sched threads].
    pose proof (sum_insert works _ _ (wake k p) _ Hi) as Hc. unfold count in *. rewrite Hw in Hc.
    assert (works (wake k p) = works p) by (by destruct k, p). repeat split; try done; lia.
Qed.

Lemma drained_forever d d' :
  drained d -> rtc step d d' ->
  drained d' /\ handled (sched d') = handled (sched d) /\ reserved (sched d') = reserved (sched d).
Proof.
  intros Hd Hr. revert Hd. induction Hr as [d|d d1 d2 Hst _ IH]; intros Hd; [done|].
  destruct (drained_step _ _ Hd Hst) as (Hd1 & Hh & Hres). rewrite <- Hh, <- Hres. auto.
Qed.

(** Whether a thread in [WaitIdle] has seen the pending count at zero. *)
Definition past_pending (p : Pc T) : bool :=
  match p with WaitDrainLoad | WaitDrain | WaitDrainBlocked | WaitReturn => true | _ => false end.

Lemma pending_zero_drained d :
  Inv n d -> accepting_ (sched d) = false -> pending_count_ (sched d) = 0 -> drained d.
Proof.
  intros HI Ha Hz. pose proof (inv_pending _ _ HI) as Hp. rewrite Hz in Hp.
  split; [done|]. split; [apply nil_length_inv; lia|]. split; [apply nil_length_inv; lia|].
  assert (Hc : count carries (threads d) = 0%nat) by lia. apply sum_zero in Hc. apply sum_zero.
  apply (Forall_impl _ _ _ Hc). by intros [| | | | | | | | |[] ? ? ?| | | | | | | |].
Qed.

Lemma past_pending_step d d' i :
  Inv n d -> accepting_ (sched d) = false -> step d d' ->
  (forall p, threads d !! i = Some p -> past_pending p = true -> drained d) ->
  accepting_ (sched d') = false /\
  forall p, threads d' !! i = Some p -> past_pending p = true -> drained d'.
Proof.
  intros HI Ha Hst Hpast. split.
  { destruct Hst as [d j k s' q Hj Hs|d j q s' q' k Hj Hs|d|d|d j k q Hj]; cbn; try done.
    - destruct k; cbn in Hs; repeat case_match; by simplify_eq.
    - unfold thread_step, release in Hs. repeat case_match; simplify_eq; try done;
        match goal with |- context [set_mailbox ?b _ _] => by destruct b end. }
  intros p Hi Hp. assert (Hd : drained d -> drained d') by (intros; by eapply drained_step).
  destruct Hst as [d j k s' q Hj Hs|d j q s' q' k Hj Hs|d|d|d j k q Hj]; cbn [threads] in Hi;
    [| |by eauto|by eauto|].
  - destruct (decide (i = j)) as [<-|Hne]; [|rewrite list_lookup_insert_ne in Hi by done; eauto].
    rewrite list_lookup_insert_eq in Hi by by eapply lookup_lt_Some. simplify_eq.
    destruct k; cbn in Hs; repeat case_match; by simplify_eq.
  - rewrite list_lookup_fmap in Hi.
    destruct (decide (i = j)) as [<-|Hne].
    + rewrite list_lookup_insert_eq in Hi by by eapply lookup_lt_Some. simplify_eq/=.
      destruct (past_pending q) eqn:Hq; [eauto|]. apply Hd, pending_zero_drained; [done|done|].
      unfold thread_step, release, drain_loop, schedule_return in Hs.
      repeat case_match; simplify_eq; try done; by apply Z.eqb_eq.
    + rewrite list_lookup_insert_ne in Hi by done.
      destruct (threads d !! i) as [p0|] eqn:Hi0; simplify_eq/=. apply Hd, (Hpast p0); [done|].
      by destruct k, p0.
  - destruct (decide (i = j)) as [<-|Hne]; [|rewrite list_lookup_insert_ne in Hi by done; eauto].
    rewrite list_lookup_insert_eq in Hi by by eapply lookup_lt_Some. simplify_eq.
    apply Hd, (Hpast q); [done|]. by destruct k, q.
Qed.

(** C12. Teardown is safe: when a [WaitIdle] that started after
    [CloseAdmission] returns, every command ever accepted has been handled,
    and no command is accepted and no handler called ever again. *)
Theorem wait_idle_after_close i c' :
  accepting_ (sched c) = false -> threads c !! i = Some WaitPendingLoad ->
  rtc step c c' -> threads c' !! i = Some WaitReturn ->
  (forall b, of_mailbox b (handled (sched c')) = of_mailbox b (reserved (sched c'))) /\
  forall c'', rtc step c' c'' ->
    handled (sched c'') = handled (sched c') /\ reserved (sched c'') = reserved (sched c').
Proof.
  intros Ha Hi Hr Hi'.
  assert (Hd : Inv n c' /\ accepting_ (sched c') = false /\
    forall p, threads c' !! i = Some p -> past_pending p = true -> drained c').
  { eapply (rtc_invariant step (fun d => Inv n d /\ accepting_ (sched d) = false /\
      forall p, threads d !! i = Some p -> past_pending p = true -> drained d)); [|exact Hr|].
    - intros d d' (HI & Had & Hp) Hst. split; [by eapply scheduler_inv_step|]. by eapply past_pending_step.
    - split; [by apply scheduler_inv_reachable|]. split; [done|]. intros p Hp Hpast. by simplify_eq. }
  destruct Hd as (HI & _ & Hd). specialize (Hd _ Hi' eq_refl). split.
  - intros b. destruct Hd as (_ & Hq & Hp & Hw). rewrite (inv_fifo _ _ HI), (inv_handled _ _ HI).
    assert (Hh : threads c' ≫= handling = []).
    { clear -Hw. unfold count in Hw. induction (threads c') as [|p ts IH]; [done|].
      rewrite bind_cons. simpl in Hw. rewrite IH by lia.
      destruct p as [| | | | | | | | |[]| | | | | | | |]; done || (simpl in Hw; lia). }
    rewrite Hh, app_nil_r. destruct b; cbn [mailbox]; rewrite ?Hq, ?Hp; by rewrite app_nil_r.
  - intros c'' Hr'. by apply drained_forever.
Qed.
End promises.

End scheduler.
Arguments SessionCommandScheduler : clear implicits.
Arguments config : clear implicits.
Arguments call : clear implicits.

(** ** Concrete executions *)

(** A schedule names the thread that takes the next step. *)
Inductive action (T : Type) := Start (i : nat) (k : call T) | Step (i : nat) | Close.
Arguments Start {T}.
Arguments Step {T}.
Arguments Close {T}.

Definition act {T} (a : action T) (c : config T) : option (config T) :=
  match a with
  | Start i k =>
      match threads c !! i with
      | Some Idle =>
          match start k (sched c) with
          | Some (s', p) => Some (mkConfig s' (<[i := p]> (threads c)))
          | None => None
          end
      | _ => None
      end
  | Step i =>
      match threads c !! i with
      | Some p =>
          match thread_step i (sched c) p with
          | Some (s', p', k) => Some (mkConfig s' (wake k <$> <[i := p']> (threads c)))
          | None => None
          end
      | None => None
      end
  | Close => Some (mkConfig (CloseAdmission (sched c)) (threads c))
  end.

Fixpoint run {T} (l : list (action T)) (c : config T) : option (config T) :=
  match l with
  | [] => Some c
  | a :: l' => match act a c with Some c' => run l' c' | None => None end
  end.

Lemma run_reachable {T} (l : list (action T)) c c' : run l c = Some c' -> rtc step c c'.
Proof.
  revert c. induction l as [|a l IH]; intros c Hr; [by simplify_eq/=|].
  cbn [run] in Hr. destruct (act a c) as [c1|] eqn:Ha; [|done].
  eapply rtc_l; [|by apply IH]. destruct a as [i k|i|]; cbn in Ha.
  - destruct (threads c !! i) as [[]|] eqn:Hi; try done.
    destruct (start k (sched c)) as [[s' p]|] eqn:Hs; simplify_eq. by eapply step_call.
  - destruct (threads c !! i) as [p|] eqn:Hi; [|done].
    destruct (thread_step i (sched c) p) as [[[s' p'] k]|] eqn:Hs; simplify_eq.
    by eapply step_thread.
  - simplify_eq. apply step_close.
Qed.

Definition demo (l : list (action Z)) : config Z := default (init 3) (run l (init 3)).

(** Thread 0 submits 7 and posts the drain task; thread 1 submits 8 with
    priority; thread 2 starts the task and pops the priority command. *)
Definition submit_both : list (action Z) :=
  Start 0 (CallTrySubmit 7) :: replicate 7 (Step 0) ++
  Start 1 (CallTrySubmitPriority 8) :: replicate 6 (Step 1).

Definition draining : list (action Z) := submit_both ++ [Start 2 CallRunDrainTask; Step 2].

(** ... and then finishes the drain. *)
Definition drained_schedule : list (action Z) := draining ++ replicate 13 (Step 2).

(** Admission is closed and thread 0 waits. *)
Definition waiting : list (action Z) := submit_both ++ [Close; Start 0 CallWaitIdle].
Definition waited : list (action Z) :=
  waiting ++ [Start 2 CallRunDrainTask] ++ replicate 14 (Step 2) ++ replicate 2 (Step 0).

Definition draining_config := Eval vm_compute in demo draining.
Definition drained_config := Eval vm_compute in demo drained_schedule.
Definition waiting_config := Eval vm_compute in demo waiting.
Definition waited_config := Eval vm_compute in demo waited.

Lemma draining_reachable : rtc step (init 3) draining_config.
Proof. apply (run_reachable draining). by vm_compute. Qed.

Lemma drained_reachable : rtc step (init 3) drained_config.
Proof. apply (run_reachable drained_schedule). by vm_compute. Qed.

Lemma waiting_reachable : rtc step (init 3) waiting_config.
Proof. apply (run_reachable waiting). by vm_compute. Qed.

Lemma waited_reachable : rtc step waiting_config waited_config.
Proof.
  apply (run_reachable ([Start 2 CallRunDrainTask] ++ replicate 14 (Step 2) ++ replicate 2 (Step 0))).
  by vm_compute.
Qed.

Lemma drain_is_exclusive_witness :
  (posted (sched draining_config) + count drains (threads draining_config))%nat =
  b2n (drain_scheduled_ (sched draining_config)).
Proof.
  apply (drain_is_exclusive 3 draining_config); [by vm_compute|exact draining_reachable].
Defined.

Lemma commands_handled_once_in_order_witness :
  of_mailbox true (reserved (sched draining_config)) =
  of_mailbox true (handled (sched draining_config)) ++
  of_mailbox true (threads draining_config ≫= handling) ++
  cq_values (mailbox true (sched draining_config)).
Proof.
  apply (commands_handled_once_in_order 3 draining_config); [by vm_compute|exact draining_reachable].
Defined.

Lemma quiescent_means_all_handled_witness :
  of_mailbox false (handled (sched drained_config)) =
  of_mailbox false (reserved (sched drained_config)).
Proof.
  apply (quiescent_means_all_handled 3 drained_config);
    [by vm_compute|exact drained_reachable|by vm_compute|repeat constructor].
Defined.

Lemma drain_batch_terminates_witness :
  is_Some (thread_step 2 (sched draining_config) (Drain (Handle true 8) 0 0 true)).
Proof.
  destruct (drain_batch_terminates 3 draining_config) with (i := 2%nat) as [_ H];
    [by vm_compute|exact draining_reachable|].
  apply (H (Handle true 8) 0%nat 0%nat true). by vm_compute.
Defined.

Lemma wait_idle_after_close_witness :
  of_mailbox true (handled (sched waited_config)) = of_mailbox true (reserved (sched waited_config)).
Proof.
  apply (wait_idle_after_close 3 waiting_config) with (i := 0%nat) (c' := waited_config);
    [by vm_compute|exact waiting_reachable|by vm_compute|by vm_compute
    |exact waited_reachable|by vm_compute].
Defined.

(** A drain can still be scheduled after [WaitIdle] has returned, although
    nothing is left for it to do: thread 0 pushes and is delayed before it
    schedules, thread 1's drain handles its command, [WaitIdle] returns, and
    then thread 0 posts a drain task. *)
Definition late_drain : list (action Z) :=
  Start 0 (CallTrySubmit 7) :: replicate 4 (Step 0) ++
  Start 1 (CallTrySubmit 8) :: replicate 7 (Step 1) ++
  [Start 2 CallRunDrainTask] ++ replicate 15 (Step 2) ++ [Close; Start 1 CallWaitIdle] ++
  replicate 3 (Step 1) ++ replicate 2 (Step 0).

Definition late_config := Eval vm_compute in demo late_drain.

Lemma drain_task_after_wait_idle :
  rtc step (init 3) late_config /\ posted (sched late_config) = 1%nat /\
  threads late_config !! 1%nat = Some Idle /\ accepting_ (sched late_config) = false.
Proof. split; [apply (run_reachable late_drain); by vm_compute|by vm_compute]. Qed.

End Scheduler.
