(* ===== verification/RateLimit.v ===== *)
(** * The rate limiter and the login throttler (source/middleware/RateLimiter.h)

    [SlidingWindow]: requests counted per key in windows of fixed length.
    [LoginThrottler]: failed logins per key, with a lockout. A point in time is
    the number of nanoseconds of the steady clock, a duration given in the
    configuration is a number of seconds; their products stay far below the
    63 bits of the representation. Both classes lock a mutex for the whole of
    every operation, so an operation is one step. *)
From S2P Require Import Prelude.

Definition second : Z := 1000000000.

(** A number of seconds as a number of nanoseconds. *)
Definition duration (s : Z) : Z := s * second.

Module SlidingWindow.

Record Bucket := mkBucket { windowStart : Z; count : Z }.

Definition new_bucket : Bucket := mkBucket 0 0.

Record SlidingWindowLimiter := mkLimiter {
  m_maxRequests_ : Z;
  m_window_ : Z;
  m_lastSweep_ : Z;
  m_buckets_ : gmap string Bucket }.

(** The constructor, at the time [now]. *)
Definition new_limiter (maxRequests window now : Z) : SlidingWindowLimiter :=
  mkLimiter maxRequests window now ∅.

Record Decision := mkDecision { allowed : bool; observed : Z; limit : Z; retryAfter : Z }.

Definition expired (window now : Z) (b : Bucket) : bool := duration window <=? now - windowStart b.

Definition MaybeSweep (now : Z) (l : SlidingWindowLimiter) : SlidingWindowLimiter :=
  if now - m_lastSweep_ l <? duration (m_window_ l) then l
  else mkLimiter (m_maxRequests_ l) (m_window_ l) now
         (filter (fun x => expired (2 * m_window_ l) now x.2 = false) (m_buckets_ l)).

(** The bucket after one more request, and the decision. *)
Definition charge (maxRequests window now : Z) (b : Bucket) : Bucket * Decision :=
  let b := if expired window now b then mkBucket now 0 else b in
  let b := mkBucket (windowStart b) (u64 (count b + 1)) in
  let allowed := count b <=? maxRequests in
  let elapsed := Z.quot (now - windowStart b) second in
  let retry := if allowed then 0 else window - elapsed in
  (b, mkDecision allowed (count b) maxRequests (if 0 <? retry then retry else 1)).

Definition Allow (key : string) (now : Z) (l : SlidingWindowLimiter) : SlidingWindowLimiter * Decision :=
  let l := MaybeSweep now l in
  let '(b, d) := charge (m_maxRequests_ l) (m_window_ l) now (default new_bucket (m_buckets_ l !! key)) in
  (mkLimiter (m_maxRequests_ l) (m_window_ l) (m_lastSweep_ l) (<[key := b]> (m_buckets_ l)), d).

(** ** The reference: one counter per key, never forgotten *)

(** The calls of a history, oldest first, with their decisions. *)
Fixpoint serve (calls : list (string * Z)) (l : SlidingWindowLimiter) :
    SlidingWindowLimiter * list Decision :=
  match calls with
  | [] => (l, [])
  | (key, now) :: calls =>
      let '(l, d) := Allow key now l in
      let '(l, ds) := serve calls l in
      (l, d :: ds)
  end.

(** The same history for counters that are only reset when their window has
    ended. *)
Fixpoint count_all (maxRequests window : Z) (calls : list (string * Z)) (bs : string -> Bucket) :
    list Decision :=
  match calls with
  | [] => []
  | (key, now) :: calls =>
      let '(b, d) := charge maxRequests window now (bs key) in
      d :: count_all maxRequests window calls (fun k => if decide (k = key) then b else bs k)
  end.

(** The times of a history do not go back. *)
Fixpoint ordered_from {K} (t : Z) (calls : list (K * Z)) : Prop :=
  match calls with [] => True | (_, now) :: calls => t <= now /\ ordered_from now calls end.

Lemma ordered_from_mono {K} t t' (calls : list (K * Z)) :
  t' <= t -> ordered_from t calls -> ordered_from t' calls.
Proof. destruct calls as [|[k now] calls]; [done|]. intros Ht [Hn Hc]. split; [lia|done]. Qed.

(** What counts of a bucket from the time [now] on. *)
Definition live (window now : Z) (b : Bucket) : Bucket :=
  if expired window now b then mkBucket now 0 else b.

Lemma charge_live maxRequests window now b :
  charge maxRequests window now (live window now b) = charge maxRequests window now b.
Proof.
  unfold charge, live. destruct (expired window now b) eqn:He; [|by rewrite He].
  by destruct (expired window now (mkBucket now 0)).
Qed.

Lemma charge_start maxRequests window now b :
  0 <= now -> 0 <= windowStart b -> 0 <= windowStart (fst (charge maxRequests window now b)).
Proof. intros Hn Hb. unfold charge. by destruct (expired window now b). Qed.

(** The limiter and the counters agree from the time [t] on. *)
Definition agree (t : Z) (l : SlidingWindowLimiter) (bs : string -> Bucket) : Prop :=
  forall k, 0 <= windowStart (default new_bucket (m_buckets_ l !! k)) /\
    forall now, t <= now ->
      live (m_window_ l) now (default new_bucket (m_buckets_ l !! k)) = live (m_window_ l) now (bs k).

Lemma agree_later t t' l bs : t <= t' -> agree t l bs -> agree t' l bs.
Proof. intros Ht Ha k. destruct (Ha k) as [Hs Hl]. split; [done|]. intros now Hn. apply Hl. lia. Qed.

(** Only buckets that would be reset anyway are swept. *)
Lemma agree_sweep now l bs :
  0 <= now -> 0 <= m_window_ l -> agree now l bs -> agree now (MaybeSweep now l) bs.
Proof.
  intros Hnow Hw Ha. unfold MaybeSweep. destruct (_ <? _); [done|]. intros k. cbn.
  specialize (Ha k) as [Hs Hl]. destruct (m_buckets_ l !! k) as [b|] eqn:Hb; cbn in Hs, Hl.
  - destruct (expired (2 * m_window_ l) now b) eqn:He.
    + assert (filter (fun x => expired (2 * m_window_ l) now x.2 = false) (m_buckets_ l) !! k = None) as ->.
      { apply map_lookup_filter_None. right. intros b' Hb'. simplify_eq. cbn. congruence. }
      cbn. split; [lia|]. intros now' Hn'. rewrite <- (Hl now' Hn'). unfold live.
      unfold expired, duration in *. apply Z.leb_le in He. cbn.
      unfold second in *. rewrite !(proj2 (Z.leb_le _ _)) by lia. done.
    + assert (filter (fun x => expired (2 * m_window_ l) now x.2 = false) (m_buckets_ l) !! k = Some b) as ->
        by by apply map_lookup_filter_Some. by split.
  - assert (filter (fun x => expired (2 * m_window_ l) now x.2 = false) (m_buckets_ l) !! k = None) as ->.
    { apply map_lookup_filter_None. by left. }
    by split.
Qed.

Lemma agree_Allow t key now l bs :
  0 <= t <= now -> 0 <= m_window_ l -> agree t l bs ->
  let '(b, d) := charge (m_maxRequests_ l) (m_window_ l) now (bs key) in
  snd (Allow key now l) = d /\
  agree now (fst (Allow key now l)) (fun k => if decide (k = key) then b else bs k) /\
  m_window_ (fst (Allow key now l)) = m_window_ l /\
  m_maxRequests_ (fst (Allow key now l)) = m_maxRequests_ l.
Proof.
  intros Ht Hw Ha. apply (agree_later t now) in Ha; [|lia]. apply agree_sweep in Ha; [|lia|done].
  assert (Hsame : m_window_ (MaybeSweep now l) = m_window_ l /\
    m_maxRequests_ (MaybeSweep now l) = m_maxRequests_ l) by (unfold MaybeSweep; by destruct (_ <? _)).
  destruct Hsame as [Hsw Hsm]. unfold Allow. set (l1 := MaybeSweep now l) in *.
  assert (Hcharge : charge (m_maxRequests_ l1) (m_window_ l1) now (default new_bucket (m_buckets_ l1 !! key)) =
    charge (m_maxRequests_ l) (m_window_ l) now (bs key)).
  { rewrite <- charge_live, (proj2 (Ha key) now) by lia. rewrite Hsm, Hsw. apply charge_live. }
  rewrite Hcharge. destruct (charge _ _ now (bs key)) as [b d] eqn:Hb. cbn. split_and!; try done.
  intros k. cbn. destruct (decide (k = key)) as [->|Hne].
  - rewrite lookup_insert_eq. cbn. split; [|done].
    pose proof (charge_start (m_maxRequests_ l1) (m_window_ l1) now _ ltac:(lia) (proj1 (Ha key))) as Hs.
    by rewrite Hcharge in Hs.
  - rewrite lookup_insert_ne by done. rewrite Hsw. rewrite <- Hsw. apply Ha.
Qed.

Lemma serve_counters calls t l bs :
  0 <= t -> 0 <= m_window_ l -> ordered_from t calls -> agree t l bs ->
  snd (serve calls l) = count_all (m_maxRequests_ l) (m_window_ l) calls bs.
Proof.
  revert t l bs. induction calls as [|[key now] calls IH]; intros t l bs Ht Hw Hord Ha; [done|].
  destruct Hord as [Hn Hord]. cbn [serve count_all].
  pose proof (agree_Allow t key now l bs ltac:(lia) Hw Ha) as Hstep.
  destruct (charge (m_maxRequests_ l) (m_window_ l) now (bs key)) as [b d].
  destruct (Allow key now l) as [l1 d1]. cbn in Hstep. destruct Hstep as (-> & Ha1 & Hw1 & Hm1).
  specialize (IH now l1 _ ltac:(lia) ltac:(lia) Hord Ha1).
  destruct (serve calls l1) as [l2 ds]. cbn in *. by rewrite IH, Hw1, Hm1.
Qed.

(** C31. Sweeping is invisible. Whatever the keys and however often buckets are
    evicted, every call of a history with a monotonic clock gets exactly the
    decision, count and retry delay of the reference that keeps one counter per
    key for ever: keys do not influence each other, and forgetting a bucket never
    gives a client a fresh quota early. *)
Theorem limiter_equals_counters maxRequests window t calls :
  0 <= t -> 0 <= window -> ordered_from t calls ->
  snd (serve calls (new_limiter maxRequests window t)) =
  count_all maxRequests window calls (fun _ => new_bucket).
Proof.
  intros Ht Hw Hord. apply (serve_counters calls t); [done..|].
  intros k. cbn. by rewrite lookup_empty.
Qed.

(** ** How much a window admits *)

(** How many of the times are [T] or later, and how many of those before
    [T + w]. *)
Fixpoint since (T : Z) (times : list Z) : Z :=
  match times with [] => 0 | t :: times => (if T <=? t then 1 else 0) + since T times end.

Fixpoint within (T w : Z) (times : list Z) : Z :=
  match times with
  | [] => 0
  | t :: times => (if (T <=? t) && (t <? T + w) then 1 else 0) + within T w times
  end.

Lemma within_since T w times : 0 <= within T w times <= since T times.
Proof.
  induction times as [|t times IH]; cbn [within since]; [done|].
  destruct (T <=? t), (t <? T + w); cbn [andb]; lia.
Qed.

Lemma since_none T times : Forall (fun t => t < T) times -> since T times = 0.
Proof.
  induction 1 as [|t times Ht _ IH]; [done|]. cbn [since]. rewrite IH, (proj2 (Z.leb_gt _ _)) by lia. done.
Qed.

(** The times at which the calls of a key were allowed, the latest first,
    added to [times]. *)
Fixpoint admissions (key : string) (calls : list (string * Z)) (ds : list Decision) (times : list Z) : list Z :=
  match calls, ds with
  | (k, now) :: calls, d :: ds =>
      admissions key calls ds
        (if decide (k = key) then if allowed d then now :: times else times else times)
  | _, _ => times
  end.

(** What a bucket says about the admissions so far: all are before the end of
    its window, those of its window number at most its count and the limit, those
    within one window's length before it at most the limit more. *)
Record accounts (maxRequests w now : Z) (b : Bucket) (times : list Z) : Prop := {
  acc_count : 0 <= count b;
  acc_before : Forall (fun t => t < windowStart b + w /\ t <= now) times;
  acc_window : forall T, windowStart b <= T -> since T times <= Z.min (count b) maxRequests;
  acc_two : forall T, windowStart b - w < T -> since T times <= Z.min (count b) maxRequests + maxRequests;
  acc_any : forall T, within T w times <= 2 * maxRequests }.

Lemma accounts_later maxRequests w now now' b times :
  now <= now' -> accounts maxRequests w now b times -> accounts maxRequests w now' b times.
Proof.
  intros Hn []. constructor; try done. eapply Forall_impl; [done|]. cbn. intros t ?. lia.
Qed.

(** The window has ended and another one starts. *)
Lemma accounts_live maxRequests window now b times :
  0 <= maxRequests -> 0 < window -> accounts maxRequests (duration window) now b times ->
  accounts maxRequests (duration window) now (live window now b) times.
Proof.
  intros Hm Hpos Ha. assert (Hd : 0 < duration window) by (unfold duration, second; lia).
  unfold live. destruct (expired window now b) eqn:He; [|done].
  destruct Ha as [Hc Hb Hw H2 Hany]. unfold expired in He. apply Z.leb_le in He. constructor; cbn; [done| | | |done].
  - eapply Forall_impl; [done|]. cbn. intros t ?. lia.
  - intros T HT. rewrite since_none; [lia|]. eapply Forall_impl; [done|]. cbn. intros t ?. lia.
  - intros T HT. specialize (Hw T). lia.
Qed.

Lemma accounts_charge maxRequests window now b times :
  0 <= maxRequests -> 0 < window -> count b + 1 < 2 ^ 64 -> windowStart b <= now ->
  accounts maxRequests (duration window) now b times ->
  let '(b', d) := charge maxRequests window now b in
  accounts maxRequests (duration window) now b' (if allowed d then now :: times else times) /\
  windowStart b' <= now /\ count b' <= count b + 1.
Proof.
  intros Hm Hw Hov Hs Ha. pose proof (acc_count _ _ _ _ _ Ha) as Hc0.
  apply (accounts_live maxRequests window) in Ha; [|done..].
  unfold charge. fold (live window now b). set (b1 := live window now b) in *.
  assert (Hb1 : count b1 <= count b /\ windowStart b1 <= now /\ now < windowStart b1 + duration window).
  { unfold b1, live. unfold expired. destruct (Z.leb_spec (duration window) (now - windowStart b)); cbn; [|lia].
    unfold duration, second. lia. }
  clearbody b1. destruct Ha as [Hc Hb Hwin H2 Hany]. rewrite wrap_small by lia. cbn.
  split; [|lia]. assert (Hd : 0 < duration window) by (unfold duration, second; lia).
  destruct (Z.leb_spec (count b1 + 1) maxRequests).
  - constructor; cbn; [lia| | | |].
    + constructor; [lia|done].
    + intros T HT. specialize (Hwin T HT). destruct (T <=? now); lia.
    + intros T HT. specialize (H2 T HT). destruct (T <=? now); lia.
    + intros T. specialize (Hany T). destruct (Z.leb_spec T now), (Z.ltb_spec now (T + duration window)); cbn; try lia.
      specialize (H2 T ltac:(lia)). pose proof (within_since T (duration window) times). lia.
  - constructor; cbn; [lia|done| | |done].
    + intros T HT. specialize (Hwin T HT). lia.
    + intros T HT. specialize (H2 T HT). lia.
Qed.

Lemma counters_bound maxRequests window key calls now bs times T :
  0 <= maxRequests -> 0 < window -> ordered_from now calls ->
  count (bs key) + Z.of_nat (length calls) < 2 ^ 64 -> windowStart (bs key) <= now ->
  accounts maxRequests (duration window) now (bs key) times ->
  within T (duration window) (admissions key calls (count_all maxRequests window calls bs) times)
    <= 2 * maxRequests.
Proof.
  intros Hm Hw. revert now bs times. induction calls as [|[k t] calls IH]; intros now bs times Hord Hc Hs Ha.
  - by eapply acc_any.
  - destruct Hord as [Hn Hord]. cbn [count_all length] in *.
    apply (accounts_later _ _ _ t) in Ha; [|done]. destruct (decide (k = key)) as [->|Hne].
    + pose proof (accounts_charge maxRequests window t (bs key) times Hm Hw ltac:(lia) ltac:(lia) Ha) as Hstep.
      destruct (charge maxRequests window t (bs key)) as [b d]. destruct Hstep as (Ha' & Hs' & Hc').
      cbn [admissions]. rewrite decide_True by done. apply (IH t); rewrite ?decide_True by done; (done || lia).
    + destruct (charge maxRequests window t (bs k)) as [b d].
      cbn [admissions]. rewrite decide_False by done.
      apply (IH t); rewrite ?decide_False by done; (done || lia).
Qed.

(** In every interval as long as the window, a key is admitted at most twice
    the quota: once from the window that is ending, once from the next one. *)
Lemma limiter_bound maxRequests window t calls key T :
  0 <= t -> 0 <= maxRequests -> 0 < window -> ordered_from t calls -> Z.of_nat (length calls) < 2 ^ 64 ->
  within T (duration window)
    (admissions key calls (snd (serve calls (new_limiter maxRequests window t))) []) <= 2 * maxRequests.
Proof.
  intros Ht Hm Hw Hord Hlen. rewrite (serve_counters calls t _ (fun _ => new_bucket)); [|done|cbn; lia|done|].
  - apply (counters_bound _ _ _ _ t); cbn; try done. constructor; cbn; try done; intros; lia.
  - intros k. cbn. by rewrite lookup_empty.
Qed.

Definition demo_calls : list (string * Z) :=
  [("a"%string, duration 100); ("a"%string, duration 101); ("b"%string, duration 101);
   ("a"%string, duration 102); ("b"%string, duration 230); ("a"%string, duration 231)].

Lemma limiter_equals_counters_witness :
  ordered_from 0 demo_calls /\
  map allowed (snd (serve demo_calls (new_limiter 2 60 0))) = [true; true; true; false; true; true] /\
  count_all 2 60 demo_calls (fun _ => new_bucket) = snd (serve demo_calls (new_limiter 2 60 0)).
Proof.
  assert (H : ordered_from 0 demo_calls) by (vm_compute; repeat split; discriminate).
  split; [exact H|]. split; [vm_compute; reflexivity|]. symmetry.
  apply (limiter_equals_counters 2 60 0 demo_calls); [lia|lia|exact H].
Defined.

End SlidingWindow.

Module LoginThrottler.

Record Entry := mkEntry { firstFailure : Z; failures : Z; lockedUntil : Z }.

Definition new_entry : Entry := mkEntry 0 0 0.

Record LoginThrottler := mkThrottler {
  m_maxFailures_ : Z;
  m_failureWindow_ : Z;
  m_lockout_ : Z;
  m_lastSweep_ : Z;
  m_entries_ : gmap string Entry }.

Definition new_throttler (maxFailures failureWindow lockoutDuration now : Z) : LoginThrottler :=
  mkThrottler maxFailures failureWindow lockoutDuration now ∅.

Definition set_entries (es : gmap string Entry) (l : LoginThrottler) : LoginThrottler :=
  mkThrottler (m_maxFailures_ l) (m_failureWindow_ l) (m_lockout_ l) (m_lastSweep_ l) es.

(** In seconds. *)
Definition LockedFor (key : string) (now : Z) (l : LoginThrottler) : Z :=
  match m_entries_ l !! key with
  | None => 0
  | Some e => if now <? lockedUntil e then Z.quot (lockedUntil e - now) second else 0
  end.

Definition kept (failureWindow now : Z) (e : Entry) : bool :=
  (now <? lockedUntil e) || ((0 <? failures e) && (now - firstFailure e <? duration failureWindow)).

Definition MaybeSweep (now : Z) (l : LoginThrottler) : LoginThrottler :=
  if now - m_lastSweep_ l <? duration (m_failureWindow_ l) then l
  else mkThrottler (m_maxFailures_ l) (m_failureWindow_ l) (m_lockout_ l) now
         (filter (fun x => kept (m_failureWindow_ l) now x.2 = true) (m_entries_ l)).

Definition RecordFailure (key : string) (now : Z) (l : LoginThrottler) : LoginThrottler * bool :=
  let l := MaybeSweep now l in
  let e := default new_entry (m_entries_ l !! key) in
  let e := if (failures e =? 0) || (duration (m_failureWindow_ l) <=? now - firstFailure e)
           then mkEntry now 0 (lockedUntil e) else e in
  let e := mkEntry (firstFailure e) (u64 (failures e + 1)) (lockedUntil e) in
  if m_maxFailures_ l <=? failures e
  then (set_entries (<[key := mkEntry (firstFailure e) 0 (now + duration (m_lockout_ l))]> (m_entries_ l)) l, true)
  else (set_entries (<[key := e]> (m_entries_ l)) l, false).

Definition RecordSuccess (key : string) (l : LoginThrottler) : LoginThrottler :=
  set_entries (delete key (m_entries_ l)) l.

(** ** A streak of failures locks the key *)

(** What the controllers report, with the time of the call. *)
Inductive report := Failure (key : string) | Success (key : string).

#[global] Instance report_eq_dec : EqDecision report.
Proof. solve_decision. Defined.

Definition record (r : report) (now : Z) (l : LoginThrottler) : LoginThrottler :=
  match r with
  | Failure key => fst (RecordFailure key now l)
  | Success key => RecordSuccess key l
  end.

Fixpoint record_all (rs : list (report * Z)) (l : LoginThrottler) : LoginThrottler :=
  match rs with [] => l | (r, now) :: rs => record_all rs (record r now l) end.

Lemma record_all_app rs rs' l : record_all (rs ++ rs') l = record_all rs' (record_all rs l).
Proof. revert l. induction rs as [|[r now] rs IH]; intros l; [done|]. apply IH. Qed.

Definition same_config (l l' : LoginThrottler) : Prop :=
  m_maxFailures_ l' = m_maxFailures_ l /\ m_failureWindow_ l' = m_failureWindow_ l /\
  m_lockout_ l' = m_lockout_ l.

Lemma same_config_record r now l : same_config l (record r now l).
Proof.
  assert (Hsweep : same_config l (MaybeSweep now l))
    by (unfold MaybeSweep, same_config; by destruct (_ <? _)).
  destruct r as [key|key]; cbn [record]; [|done]. unfold RecordFailure.
  destruct (m_maxFailures_ _ <=? _); exact Hsweep.
Qed.

(** The entry a key has after a sweep. *)
Lemma sweep_entry now key l :
  m_entries_ (MaybeSweep now l) !! key = m_entries_ l !! key \/
  (m_entries_ (MaybeSweep now l) !! key = None /\
   forall e, m_entries_ l !! key = Some e -> kept (m_failureWindow_ l) now e = false).
Proof.
  unfold MaybeSweep. destruct (_ <? _); [by left|]. cbn.
  destruct (m_entries_ l !! key) as [e|] eqn:He.
  - destruct (kept (m_failureWindow_ l) now e) eqn:Hk.
    + left. by apply map_lookup_filter_Some.
    + right. split; [|by intros ? [= <-]]. apply map_lookup_filter_None. right. intros e' ?. simplify_eq. cbn. congruence.
  - left. apply map_lookup_filter_None. by left.
Qed.

(** Reports for other keys change an entry only by sweeping it. *)
Lemma other_report r now key l :
  (forall k, r = Failure k \/ r = Success k -> k <> key) ->
  m_entries_ (record r now l) !! key = m_entries_ l !! key \/
  (m_entries_ (record r now l) !! key = None /\
   forall e, m_entries_ l !! key = Some e -> kept (m_failureWindow_ l) now e = false).
Proof.
  intros Hk. destruct r as [k|k]; cbn [record].
  - specialize (Hk k (or_introl eq_refl)). unfold RecordFailure.
    assert (Hl : forall e l1, m_entries_ (set_entries (<[k := e]> (m_entries_ l1)) l1) !! key = m_entries_ l1 !! key)
      by (intros e l1; by apply lookup_insert_ne).
    destruct (m_maxFailures_ _ <=? _); cbn [fst]; rewrite Hl; apply sweep_entry.
  - specialize (Hk k (or_intror eq_refl)). left. by apply lookup_delete_ne.
Qed.

(** A locked key stays locked until the lockout ends. *)
Definition locked_at_least (key : string) (until : Z) (l : LoginThrottler) : Prop :=
  exists e, m_entries_ l !! key = Some e /\ until <= lockedUntil e.

Lemma locked_record key until r now l :
  r <> Success key -> now < until -> until <= now + duration (m_lockout_ l) ->
  locked_at_least key until l -> locked_at_least key until (record r now l).
Proof.
  intros Hr Hn Hu (e & He & Hle).
  assert (Hkept : kept (m_failureWindow_ l) now e = true).
  { unfold kept. by rewrite (proj2 (Z.ltb_lt _ _)) by lia. }
  destruct (decide (r = Failure key)) as [->|Hne].
  - cbn [record]. unfold RecordFailure.
    assert (He' : m_entries_ (MaybeSweep now l) !! key = Some e).
    { destruct (sweep_entry now key l) as [->|[_ Hk]]; [done|]. specialize (Hk e He). congruence. }
    rewrite He'. cbn [default]. destruct (same_config_record (Failure key) now l) as (_ & _ & Hlock).
    assert (Hl : m_lockout_ (MaybeSweep now l) = m_lockout_ l) by (unfold MaybeSweep; by destruct (_ <? _)).
    destruct (m_maxFailures_ _ <=? _); cbn [fst]; eexists; (split; [apply lookup_insert_eq|]); cbn; rewrite ?Hl.
    + done.
    + by destruct (_ || _).
  - exists e. split; [|done]. destruct (other_report r now key l) as [->|[_ Hk]]; [|done|].
    + intros k [->| ->] ->; done.
    + specialize (Hk e He). congruence.
Qed.

Lemma locked_record_all key until rs now l :
  Forall (fun x => x.1 <> Success key /\ until <= x.2 + duration (m_lockout_ l)) rs ->
  Forall (fun x => x.2 <= now) rs -> now < until ->
  locked_at_least key until l -> locked_at_least key until (record_all rs l).
Proof.
  intros Hrs Hn Hu. revert l Hrs. induction rs as [|[r t] rs IH]; intros l Hrs Hl; [done|].
  apply Forall_cons in Hrs as [[Hr Ht] Hrs]. apply Forall_cons in Hn as [Htn Hn]. cbn in *.
  destruct (same_config_record r t l) as (_ & _ & Hlock).
  apply IH; [done|by rewrite Hlock|]. apply locked_record; (done || lia).
Qed.

(** The failures of a key in a list of reports. *)
Definition failures_of (key : string) (rs : list (report * Z)) : nat :=
  length (filter (fun x => x.1 = Failure key) rs).

(** A streak of [n] failures that began no earlier than [t1]. *)
Definition streak (key : string) (t1 : Z) (n : nat) (l : LoginThrottler) : Prop :=
  match n with
  | O => match m_entries_ l !! key with None => True | Some e => failures e = 0 end
  | S _ => exists e, m_entries_ l !! key = Some e /\ failures e = Z.of_nat n /\ t1 <= firstFailure e
  end.

Lemma streak_failure key t1 now n l :
  t1 <= now < t1 + duration (m_failureWindow_ l) ->
  Z.of_nat (S n) < 2 ^ 64 -> streak key t1 n l ->
  if m_maxFailures_ l <=? Z.of_nat (S n)
  then snd (RecordFailure key now l) = true /\
       locked_at_least key (now + duration (m_lockout_ l)) (record (Failure key) now l)
  else streak key t1 (S n) (record (Failure key) now l).
Proof.
  intros Hw Hov Hs.
  assert (Hcfg : m_maxFailures_ (MaybeSweep now l) = m_maxFailures_ l /\
    m_failureWindow_ (MaybeSweep now l) = m_failureWindow_ l /\ m_lockout_ (MaybeSweep now l) = m_lockout_ l)
    by (unfold MaybeSweep; by destruct (_ <? _)).
  destruct Hcfg as (Hm & Hf & Hl).
  assert (He : exists e, (let e0 := default new_entry (m_entries_ (MaybeSweep now l) !! key) in
     if (failures e0 =? 0) || (duration (m_failureWindow_ l) <=? now - firstFailure e0)
     then mkEntry now 0 (lockedUntil e0) else e0) = e /\ failures e = Z.of_nat n /\ t1 <= firstFailure e).
  { eexists. split; [reflexivity|]. cbv zeta. destruct n as [|n].
    - assert (Hz : failures (default new_entry (m_entries_ (MaybeSweep now l) !! key)) = 0).
      { destruct (sweep_entry now key l) as [->|[-> _]]; [|done]. cbn in Hs. by destruct (m_entries_ l !! key). }
      rewrite Hz. cbn. split; [done|lia].
    - destruct Hs as (e & He & Hfe & Hte).
      assert (He' : m_entries_ (MaybeSweep now l) !! key = Some e).
      { destruct (sweep_entry now key l) as [->|[_ Hk]]; [done|]. specialize (Hk e He).
        unfold kept in Hk. rewrite Hfe in Hk. apply orb_false_iff in Hk as [_ Hk].
        rewrite !(proj2 (Z.ltb_lt _ _)) in Hk by lia. done. }
      rewrite He'. cbn [default]. change (id e) with e. rewrite Hfe. rewrite (proj2 (Z.eqb_neq _ _)), (proj2 (Z.leb_gt _ _)) by lia.
      done. }
  destruct He as (e & He & Hfe & Hte). cbn [record]. unfold RecordFailure.
  cbv zeta in He |- *. rewrite Hf, He, Hm, Hl. cbn [failures]. rewrite Hfe, wrap_small by lia. replace (Z.of_nat n + 1) with (Z.of_nat (S n)) by lia.
  cbn [failures]. destruct (Z.leb_spec (m_maxFailures_ l) (Z.of_nat (S n))); cbn [fst snd].
  - split; [done|]. eexists. split; [apply lookup_insert_eq|]. done.
  - eexists. split; [apply lookup_insert_eq|]. done.
Qed.

Lemma streak_other key t1 now n r l :
  r <> Failure key -> r <> Success key ->
  (n <> 0%nat -> t1 <= now < t1 + duration (m_failureWindow_ l)) ->
  streak key t1 n l -> streak key t1 n (record r now l).
Proof.
  intros Hf Hsu Hw Hs. destruct (other_report r now key l) as [He|[Hn Hk]].
  { intros k [->| ->] ->; done. }
  - unfold streak. by rewrite He.
  - destruct n as [|n]; cbn; [by rewrite Hn|]. destruct Hs as (e & He & Hfe & Hte).
    specialize (Hk e He). specialize (Hw ltac:(done)). unfold kept in Hk.
    rewrite Hfe in Hk. apply orb_false_iff in Hk as [_ Hk].
    rewrite !(proj2 (Z.ltb_lt _ _)) in Hk by lia. done.
Qed.

(** Reports of a streak that is still too short. *)
Lemma streak_record_all key t1 n rs l :
  Forall (fun x => x.1 <> Success key /\ t1 <= x.2 < t1 + duration (m_failureWindow_ l)) rs ->
  Z.of_nat (n + failures_of key rs) < m_maxFailures_ l -> m_maxFailures_ l < 2 ^ 64 ->
  streak key t1 n l -> streak key t1 (n + failures_of key rs) (record_all rs l).
Proof.
  revert n l. induction rs as [|[r t] rs IH]; intros n l Hrs Hlt Hov Hs.
  - by rewrite Nat.add_0_r.
  - apply Forall_cons in Hrs as [[Hr Ht] Hrs]. cbn in Hr, Ht.
    destruct (same_config_record r t l) as (Hm & Hf & _). cbn [record_all].
    unfold failures_of in *. destruct (decide (r = Failure key)) as [->|Hne].
    + rewrite filter_cons_True by done. rewrite filter_cons_True in Hlt by done. cbn [length] in *.
      pose proof (streak_failure key t1 t n l Ht ltac:(lia) Hs) as Hstep.
      rewrite (proj2 (Z.leb_gt _ _)) in Hstep by lia.
      rewrite Nat.add_succ_r. apply (IH (S n)); rewrite ?Hm, ?Hf; (done || lia).
    + rewrite filter_cons_False by done. rewrite filter_cons_False in Hlt by done.
      apply IH; rewrite ?Hm, ?Hf; try done. by apply streak_other.
Qed.

Lemma same_config_record_all rs l : same_config l (record_all rs l).
Proof.
  revert l. induction rs as [|[r t] rs IH]; intros l; [done|]. cbn [record_all].
  destruct (same_config_record r t l) as (? & ? & ?), (IH (record r t l)) as (? & ? & ?).
  split_and!; congruence.
Qed.

(** C32. Repeated failures lock the source out. When a key without a failure
    streak fails [maxFailures] times (at least one) within a failure window that
    starts anywhere, without a successful login of that key in between and
    whatever other keys do, the last failure, at [tn], reports the lockout. From
    then on until the lockout has passed, however many reports and sweeps follow,
    and unless a login of that key succeeds, [LockedFor] is at least the whole
    seconds that are left of it: the key is locked as long as a whole second is
    left. In the last second the remaining time is truncated to 0, which the
    middleware takes for not locked ([locked_for_truncates]). *)
Theorem repeated_failures_lock key t1 rs1 tn rs2 now l :
  streak key t1 0 l -> 0 < m_maxFailures_ l < 2 ^ 64 ->
  Z.of_nat (failures_of key rs1) = m_maxFailures_ l - 1 ->
  Forall (fun x => x.1 <> Success key /\ t1 <= x.2 < t1 + duration (m_failureWindow_ l)) rs1 ->
  t1 <= tn < t1 + duration (m_failureWindow_ l) ->
  Forall (fun x => x.1 <> Success key /\ tn <= x.2 <= now) rs2 ->
  tn <= now < tn + duration (m_lockout_ l) ->
  let l1 := record_all rs1 l in
  let locked := LockedFor key now (record_all rs2 (fst (RecordFailure key tn l1))) in
  snd (RecordFailure key tn l1) = true /\
  Z.quot (tn + duration (m_lockout_ l) - now) second <= locked /\
  (now + second <= tn + duration (m_lockout_ l) -> 0 < locked).
Proof.
  intros Hs Hm Hn H1 Ht H2 Hnow l1.
  destruct (same_config_record_all rs1 l) as (Hm2 & Hf2 & Hl2). fold l1 in Hm2, Hf2, Hl2.
  assert (Hst : streak key t1 (failures_of key rs1) l1) by (apply (streak_record_all key t1 0 rs1); (done || lia)).
  pose proof (streak_failure key t1 tn (failures_of key rs1) l1 ltac:(by rewrite Hf2) ltac:(lia) Hst) as Hlast.
  rewrite Hm2, (proj2 (Z.leb_le _ _)), Hl2 in Hlast by lia. destruct Hlast as [-> Hlock]. cbv zeta. split; [done|].
  destruct (same_config_record (Failure key) tn l1) as (_ & _ & Hl3). assert (0 < second) by done.
  assert (Hle : Z.quot (tn + duration (m_lockout_ l) - now) second <=
    LockedFor key now (record_all rs2 (fst (RecordFailure key tn l1)))).
  { apply (locked_record_all key _ rs2 now) in Hlock; [|eapply Forall_impl; [done|]..|lia].
    - destruct Hlock as (e & He & Hle). unfold LockedFor. cbn [record] in He.
      rewrite He, (proj2 (Z.ltb_lt _ _)) by lia. apply Z.quot_le_mono; lia.
    - intros [r t] [? ?]. cbn in *. rewrite Hl3, Hl2. split; [done|lia].
    - intros [r t] [? ?]. cbn in *. lia. }
  split; [exact Hle|]. intros Hleft. eapply Z.lt_le_trans; [|exact Hle].
  rewrite Z.quot_div_nonneg by lia. apply Z.div_str_pos. lia.
Qed.

Definition demo_reports : list (report * Z) :=
  [(Failure "b", duration 11); (Failure "a", duration 12); (Success "b", duration 13); (Failure "b", duration 14)].

Lemma repeated_failures_lock_witness :
  let l := new_throttler 3 300 300 (duration 1) in
  let l1 := record_all ((Failure "a", duration 10) :: demo_reports) l in
  failures_of "a" ((Failure "a", duration 10) :: demo_reports) = 2%nat /\
  snd (RecordFailure "a" (duration 15) l1) = true /\
  115 <= LockedFor "a" (duration 200) (record_all [] (fst (RecordFailure "a" (duration 15) l1))).
Proof.
  split; [reflexivity|].
  destruct (repeated_failures_lock "a" (duration 9) ((Failure "a", duration 10) :: demo_reports) (duration 15) []
    (duration 200) (new_throttler 3 300 300 (duration 1))) as (Ha & Hb & _).
  - exact I.
  - cbn. lia.
  - reflexivity.
  - cbn [m_failureWindow_ new_throttler]. unfold demo_reports, duration, second.
    repeat (apply Forall_cons_2; [cbn [fst snd]; split; [discriminate|lia]|]). apply Forall_nil_2.
  - cbn [m_failureWindow_ new_throttler]. unfold duration, second. lia.
  - apply Forall_nil_2.
  - cbn [m_lockout_ new_throttler]. unfold duration, second. lia.
  - split; [exact Ha|exact Hb].
Defined.

(** In the last second of a lockout the remaining time is truncated to zero, and
    the key counts as not locked. *)
Example locked_for_truncates :
  LockedFor "a" (duration 300) (mkThrottler 3 300 300 0 {["a"%string := mkEntry 0 0 (duration 300 + second - 1)]}) = 0.
Proof. reflexivity. Qed.

End LoginThrottler.
