(* ===== verification/Filesystem.v ===== *)
(** * [std::filesystem], as far as the server uses it

    [Path]: the lexical operations on paths (POSIX syntax), on strings.
    [Disk]: a file system of files, directories and symbolic links, the
    resolution of paths in it ([canonical], [exists]) and the calls that
    change it. A call can also fail for reasons outside the model
    (permissions, a full disk): the class [IoErrors] says when. *)
From Stdlib Require Export Ascii.
From S2P Require Import Prelude.

(** ** Strings *)

Module Str.
Local Open Scope string_scope.

Fixpoint rev_append (s acc : string) : string :=
  match s with EmptyString => acc | String c s' => rev_append s' (String c acc) end.

Definition starts_with (p s : string) : bool := String.prefix p s.

Definition ends_with (p s : string) : bool :=
  String.prefix (rev_append p "") (rev_append s "").

(** [s.find(p) != npos]. *)
Fixpoint contains (p s : string) : bool :=
  String.prefix p s ||
  match s with EmptyString => false | String _ s' => contains p s' end.

Fixpoint contains_char (c : ascii) (s : string) : bool :=
  match s with EmptyString => false | String d s' => Ascii.eqb c d || contains_char c s' end.

Fixpoint all_chars (f : ascii -> bool) (s : string) : bool :=
  match s with EmptyString => true | String c s' => f c && all_chars f s' end.

Fixpoint take_string (n : nat) (s : string) : string :=
  match n, s with
  | S n, String c s' => String c (take_string n s')
  | _, _ => EmptyString
  end.

Fixpoint drop_string (n : nat) (s : string) : string :=
  match n, s with
  | S n, String _ s' => drop_string n s'
  | _, _ => s
  end.

(** Around the last occurrence of [c]. *)
Fixpoint split_last (c : ascii) (s : string) : option (string * string) :=
  match s with
  | EmptyString => None
  | String d s' =>
      match split_last c s' with
      | Some (b, r) => Some (String d b, r)
      | None => if Ascii.eqb d c then Some ("", s') else None
      end
  end.

(** The pieces between separators [c], empty pieces included. *)
Fixpoint split (c : ascii) (s : string) : list string :=
  match s with
  | EmptyString => [""]
  | String d s' =>
      if Ascii.eqb d c then "" :: split c s'
      else match split c s' with
           | w :: ws => String d w :: ws
           | [] => [String d ""]
           end
  end.

(** Removing every [c] at the end, and every [c] at the start. *)
Fixpoint drop_front (f : ascii -> bool) (s : string) : string :=
  match s with
  | EmptyString => ""
  | String c s' => if f c then drop_front f s' else s
  end.

Definition drop_back (f : ascii -> bool) (s : string) : string :=
  rev_append (drop_front f (rev_append s "")) "".

Definition is_empty (s : string) : bool := match s with EmptyString => true | _ => false end.
End Str.

(** ** Paths *)

Module Path.
Import Str.
Local Open Scope string_scope.

Definition slash : ascii := "/"%char.

Definition is_absolute (p : string) : bool := starts_with "/" p.

(** [begin()..end()]: the root directory, the names, and an empty name for a
    trailing separator. *)
Definition components (p : string) : list string :=
  let names := filter (fun w => w <> "") (split slash p) in
  (if is_absolute p then ["/"] else []) ++ names ++
  (if ends_with "/" p && negb (bool_decide (names = [])) then [""] else []).

Definition filename (p : string) : string :=
  match split_last slash p with Some (_, r) => r | None => p end.

Definition parent_path (p : string) : string :=
  match split_last slash p with
  | None => ""
  | Some (b, r) =>
      let b' := drop_back (fun c => Ascii.eqb c slash) b in
      if is_empty b' then "/" else b'
  end.

(** [operator/]. *)
Definition join (a b : string) : string :=
  if is_absolute b then b
  else if is_empty a || ends_with "/" a then a ++ b
  else a ++ "/" ++ b.

Definition extension (p : string) : string :=
  let f := filename p in
  if bool_decide (f = "." \/ f = "..") then ""
  else match split_last "."%char f with
       | Some (b, r) => if is_empty b then "" else "." ++ r
       | None => ""
       end.

Definition stem (p : string) : string :=
  let f := filename p in
  if bool_decide (f = "." \/ f = "..") then f
  else match split_last "."%char f with
       | Some (b, r) => if is_empty b then f else b
       | None => f
       end.

(** The names of a path with [.] and [name/..] removed; the flag says whether
    the result ends with a separator. [acc] is reversed. *)
Fixpoint normal_names (absolute : bool) (acc : list string) (trailing : bool) (l : list string) :
    list string * bool :=
  match l with
  | [] => (rev acc, trailing)
  | w :: l' =>
      if bool_decide (w = "" \/ w = ".") then normal_names absolute acc true l'
      else if bool_decide (w = "..") then
        match acc with
        | n :: acc' =>
            if bool_decide (n = "..") then normal_names absolute (w :: acc) false l'
            else normal_names absolute acc' true l'
        | [] => if absolute then normal_names absolute [] true l'
                else normal_names absolute [w] false l'
        end
      else normal_names absolute (w :: acc) false l'
  end.

(** The components of [lexically_normal()]. *)
Definition normal_components (p : string) : list string :=
  let cs := components p in
  let names := filter (fun w => w <> "/") cs in
  let '(ns, trailing) := normal_names (is_absolute p) [] false names in
  match (if is_absolute p then ["/"] else []), ns with
  | [], [] => if is_empty p then [] else ["."]
  | root, [] => root
  | root, _ =>
      root ++ ns ++
      (if trailing && negb (bool_decide (last ns = Some "..")) then [""] else [])
  end.

(** The path with these components. *)
Fixpoint of_components (l : list string) : string :=
  match l with
  | [] => ""
  | w :: l' => if bool_decide (w = "/") then "/" ++ of_components l'
               else match l' with [] => w | _ => w ++ "/" ++ of_components l' end
  end.

Definition lexically_normal (p : string) : string := of_components (normal_components p).

(** [std::mismatch(a.begin(), a.end(), b...).first == a.end()]. *)
Fixpoint is_prefix (a b : list string) : bool :=
  match a, b with
  | [], _ => true
  | x :: a', y :: b' => bool_decide (x = y) && is_prefix a' b'
  | _ :: _, [] => false
  end.

Lemma is_prefix_spec a b : is_prefix a b = true <-> a `prefix_of` b.
Proof.
  revert b. induction a as [|x a IH]; intros b.
  - split; [|done]. intros _. by exists b.
  - destruct b as [|y b]; cbn [is_prefix].
    + split; [done|]. intros [k Hk]. done.
    + rewrite andb_true_iff, bool_decide_eq_true, IH. split.
      * intros [-> Hp]. by apply prefix_cons.
      * intros Hp. pose proof (prefix_cons_inv_1 _ _ _ _ Hp). split; [done|].
        by apply prefix_cons_inv_2 in Hp.
Qed.
End Path.

(** ** Disk *)

Module Disk.
Import Str Path.
Local Open Scope string_scope.
Local Open Scope list_scope.

Inductive node := File (content : string) | Directory | Symlink (target : string).

#[global] Instance node_eq_dec : EqDecision node.
Proof. solve_decision. Defined.

(** [std::error_code], the values the code tells apart. *)
Inductive errc :=
| no_such_file_or_directory
| not_a_directory
| file_exists
| is_a_directory
| directory_not_empty
| too_many_symbolic_link_levels
| permission_denied
| operation_not_permitted
| read_only_file_system
| io_failure.

#[global] Instance errc_eq_dec : EqDecision errc.
Proof. solve_decision. Defined.

(** [ec.message()]. *)
Definition error_message (e : errc) : string :=
  match e with
  | no_such_file_or_directory => "No such file or directory"
  | not_a_directory => "Not a directory"
  | file_exists => "File exists"
  | is_a_directory => "Is a directory"
  | directory_not_empty => "Directory not empty"
  | too_many_symbolic_link_levels => "Too many levels of symbolic links"
  | permission_denied => "Permission denied"
  | operation_not_permitted => "Operation not permitted"
  | read_only_file_system => "Read-only file system"
  | io_failure => "Input/output error"
  end.

(** The nodes by location, that is by the names from the root directory, and
    the working directory. *)
Record Disk := mkDisk { nodes : gmap (list string) node; cwd : list string }.

Definition node_at (d : Disk) (loc : list string) : option node :=
  match loc with [] => Some Directory | _ => nodes d !! loc end.

Definition set_node (loc : list string) (n : node) (d : Disk) : Disk :=
  mkDisk (<[loc := n]> (nodes d)) (cwd d).

Definition delete_node (loc : list string) (d : Disk) : Disk :=
  mkDisk (delete loc (nodes d)) (cwd d).

(** When a call ([name]) at a location fails for reasons of its own. *)
Class IoErrors := io_error : string -> list string -> Disk -> option errc.

(** Writing to an open file can fail after a part of the text: how many
    characters reach the disk, and whether the stream knows when it is asked
    (what is still in its buffer is only written when it is closed). *)
Class ShortWrites := short_write : string -> string -> Disk -> option (nat * bool).

Inductive stream_state := NotOpened | Opened (good : bool).

Definition names_of (p : string) : list string := filter (fun w => w <> "/") (components p).

(** Path resolution, following at most [links] symbolic links. *)
Fixpoint resolve (d : Disk) (links : nat) : list string -> list string -> list string + errc :=
  fix go (acc todo : list string) {struct todo} : list string + errc :=
    match todo with
    | [] => inl acc
    | w :: rest =>
        if bool_decide (w = "" \/ w = ".") then go acc rest
        else if bool_decide (w = "..") then go (removelast acc) rest
        else
          let loc := acc ++ [w] in
          match node_at d loc with
          | None => inr no_such_file_or_directory
          | Some Directory => go loc rest
          | Some (File _) => match rest with [] => inl loc | _ => inr not_a_directory end
          | Some (Symlink t) =>
              match links with
              | O => inr too_many_symbolic_link_levels
              | S links => resolve d links (if is_absolute t then [] else acc) (names_of t ++ rest)
              end
          end
    end.

Definition max_links : nat := 40.

Definition start_of (d : Disk) (p : string) : list string := if is_absolute p then [] else cwd d.

(** [std::filesystem::canonical]. *)
Definition canonical (d : Disk) (p : string) : list string + errc :=
  if is_empty p then inr no_such_file_or_directory
  else resolve d max_links (start_of d p) (names_of p).

Definition exists_ (d : Disk) (p : string) : bool :=
  match canonical d p with inl _ => true | inr _ => false end.

(** Where the last name of a path is, whether or not it exists: its directory
    is resolved, a link in the last place is not followed. *)
Definition location (d : Disk) (p : string) : list string + errc :=
  match resolve d max_links (start_of d p) (names_of (parent_path p)) with
  | inl dir => inl (dir ++ [filename p])
  | inr e => inr e
  end.

Definition has_children (d : Disk) (loc : list string) : bool :=
  negb (bool_decide (filter (fun x => loc `prefix_of` x.1 /\ loc <> x.1) (map_to_list (nodes d)) = [])).

Section calls.
Context `{IoErrors}.

(** [std::filesystem::remove(p, ec)]. *)
Definition remove (p : string) (d : Disk) : Disk * (bool + errc) :=
  match location d p with
  | inr no_such_file_or_directory => (d, inl false)
  | inr e => (d, inr e)
  | inl loc =>
      match node_at d loc with
      | None => (d, inl false)
      | Some n =>
          match io_error "remove" loc d with
          | Some e => (d, inr e)
          | None => if has_children d loc then (d, inr directory_not_empty)
                    else (delete_node loc d, inl true)
          end
      end
  end.

(** [std::filesystem::rename(a, b, ec)], of a file. *)
Definition rename (a b : string) (d : Disk) : Disk * option errc :=
  match location d a, location d b with
  | inl la, inl lb =>
      match node_at d la with
      | None => (d, Some no_such_file_or_directory)
      | Some n =>
          match io_error "rename" la d with
          | Some e => (d, Some e)
          | None =>
              match node_at d lb with
              | Some Directory => (d, Some is_a_directory)
              | _ => if bool_decide (la = lb) then (d, None)
                     else (set_node lb n (delete_node la d), None)
              end
          end
      end
  | inr e, _ | _, inr e => (d, Some e)
  end.

(** [std::filesystem::create_directories(p, ec)]: every missing directory on
    the way. *)
Fixpoint make_directories (acc todo : list string) (d : Disk) : Disk * option errc :=
  match todo with
  | [] => (d, None)
  | w :: rest =>
      match resolve d max_links acc [w] with
      | inl loc =>
          match node_at d loc with
          | Some Directory => make_directories loc rest d
          | _ => (d, Some not_a_directory)
          end
      | inr no_such_file_or_directory =>
          let loc := acc ++ [w] in
          match node_at d loc, io_error "mkdir" loc d with
          | Some _, _ => (d, Some file_exists)          (* a link that leads nowhere *)
          | None, Some e => (d, Some e)
          | None, None => make_directories loc rest (set_node loc Directory d)
          end
      | inr e => (d, Some e)
      end
  end.

Definition create_directories (p : string) (d : Disk) : Disk * option errc :=
  make_directories (start_of d p) (names_of p) d.

(** [std::filesystem::remove_all(p, ec)], errors ignored by every caller. *)
Definition remove_all (p : string) (d : Disk) : Disk :=
  match location d p with
  | inr _ => d
  | inl loc =>
      match io_error "remove_all" loc d with
      | Some _ => d
      | None => mkDisk (filter (fun x => ~ loc `prefix_of` x.1) (nodes d)) (cwd d)
      end
  end.

(** Opening an [ofstream] with [trunc]: where the file is. *)
Definition open_file (p : string) (d : Disk) : option (list string) :=
  match (match canonical d p with inl loc => inl loc | inr _ => location d p end) with
  | inr _ => None
  | inl loc =>
      match node_at d loc, io_error "open" loc d with
      | Some Directory, _ | _, Some _ => None
      | _, None => Some loc
      end
  end.

(** An [ofstream] opened for writing with [trunc] and closed again; [false]
    if it cannot be opened. *)
Definition write_file (p content : string) (d : Disk) : Disk * bool :=
  match open_file p d with
  | None => (d, false)
  | Some loc => (set_node loc (File content) d, true)
  end.

(** An [ofstream] opened with [trunc] and written: whether it could be opened,
    and whether the stream is still good after the write. *)
Definition stream_file `{ShortWrites} (p content : string) (d : Disk) : Disk * stream_state :=
  match open_file p d with
  | None => (d, NotOpened)
  | Some loc =>
      match short_write p content d with
      | Some (n, noticed) => (set_node loc (File (Str.take_string n content)) d, Opened (negb noticed))
      | None => (set_node loc (File content) d, Opened true)
      end
  end.

(** [std::filesystem::copy_file(p, q, overwrite_existing, ec)]; the callers do
    not tell its errors apart. A copy that fails half-way stays. *)
Definition copy_file `{ShortWrites} (p q : string) (d : Disk) : Disk * option errc :=
  match canonical d p with
  | inr e => (d, Some e)
  | inl la =>
      match node_at d la, open_file q d with
      | Some (File text), Some lb =>
          if bool_decide (la = lb) then (d, Some file_exists)
          else match short_write q text d with
               | Some (n, _) => (set_node lb (File (Str.take_string n text)) d, Some io_failure)
               | None => (set_node lb (File text) d, None)
               end
      | _, _ => (d, Some io_failure)
      end
  end.

Definition read_file (p : string) (d : Disk) : option string :=
  match canonical d p with
  | inl loc => match node_at d loc with Some (File c) => Some c | _ => None end
  | inr _ => None
  end.
End calls.
End Disk.
