(* ===== verification/PathFacts.v ===== *)
(** * Facts about paths

    The lexical operations of [Filesystem.v] against each other: a path is its
    parent and its file name, and joining or normalising paths only joins or
    cleans their names. *)
From S2P Require Import Prelude Filesystem.

Module PathFacts.
Import Str Path Disk.
Local Open Scope string_scope.
Local Open Scope list_scope.
Local Open Scope Z_scope.

(** ** Strings *)

Lemma append_cons c (a b : string) : (String c a +:+ b)%string = String c (a +:+ b)%string.
Proof. reflexivity. Qed.

Lemma append_nil_l (b : string) : ("" +:+ b)%string = b.
Proof. reflexivity. Qed.

Lemma split_last_none c b : contains_char c b = false -> split_last c b = None.
Proof.
  induction b as [|x b IH]; [done|]. simpl. rewrite orb_false_iff. intros [Hx Hb].
  rewrite (IH Hb). by rewrite Ascii.eqb_sym, Hx.
Qed.

Lemma split_last_app c a b :
  contains_char c b = false -> split_last c (a +:+ String c b)%string = Some (a, b).
Proof.
  intros Hb. induction a as [|x a IH].
  - rewrite append_nil_l. simpl. by rewrite (split_last_none c b Hb), Ascii.eqb_refl.
  - rewrite append_cons. simpl. by rewrite IH.
Qed.

Lemma rev_append_app (a b acc : string) :
  (rev_append a acc +:+ b)%string = rev_append a (acc +:+ b)%string.
Proof. revert acc. induction a as [|c a IH]; intros acc; [done|]. simpl. by rewrite IH. Qed.

Lemma rev_append_rev (s acc acc' : string) :
  rev_append (rev_append s acc) acc' = rev_append acc (s +:+ acc')%string.
Proof.
  revert acc. induction s as [|c s IH]; intros acc; [done|]. simpl. rewrite IH. simpl.
  by rewrite append_cons.
Qed.

Lemma string_app_nil (s : string) : (s +:+ "")%string = s.
Proof. induction s as [|c s IH]; [done|]. by rewrite append_cons, IH. Qed.

Lemma string_app_assoc (a b c : string) : ((a +:+ b) +:+ c)%string = (a +:+ (b +:+ c))%string.
Proof. induction a as [|x a IH]; [done|]. by rewrite !append_cons, IH. Qed.

Lemma prefix_slash c r : String.prefix "/" (String c r) = Ascii.eqb "/" c.
Proof. by destruct c as [[] [] [] [] [] [] [] []], r. Qed.

(** A string that ends with a slash has its last slash at the end. *)
Lemma ends_with_slash s : ends_with "/" s = true -> exists a, s = (a +:+ "/")%string.
Proof.
  unfold ends_with. cbn [rev_append].
  intros Hp. destruct (rev_append s "") as [|c r] eqn:Hr; [done|].
  exists (rev_append r ""). change (rev_append "" "/") with "/" in Hp.
  rewrite prefix_slash in Hp. destruct (Ascii.eqb_spec "/" c) as [<-|]; [|done].
  assert (Hs : rev_append (rev_append s "") "" = s)
    by (rewrite (rev_append_rev s "" ""); apply string_app_nil).
  rewrite <- Hs, Hr. symmetry. apply (rev_append_app r "/" "").
Qed.

Lemma filename_join a b :
  contains_char "/" b = false -> is_absolute b = false -> a <> "" -> filename (join a b) = b.
Proof.
  intros Hb Habs Ha. unfold join, filename. rewrite Habs. unfold slash.
  destruct (is_empty a) eqn:He; [by destruct a|]. cbn [orb].
  destruct (ends_with "/" a) eqn:Hend.
  - destruct (ends_with_slash _ Hend) as [a' ->]. rewrite string_app_assoc.
    change ("/" +:+ b)%string with (String "/" b). by rewrite split_last_app.
  - change ("/" +:+ b)%string with (String "/" b). by rewrite split_last_app.
Qed.

Lemma not_absolute s : contains_char "/" s = false -> is_absolute s = false.
Proof.
  destruct s as [|c s]; [done|].
  change (contains_char "/" (String c s)) with (Ascii.eqb "/" c || contains_char "/" s).
  intros [Hc _]%orb_false_iff. unfold is_absolute, starts_with. by rewrite prefix_slash.
Qed.


Local Tactic Notation "str" := cbn [split split_last contains_char all_chars rev_append drop_front is_empty].
Local Tactic Notation "str" "in" "*" :=
  cbn [split split_last contains_char all_chars rev_append drop_front is_empty] in *.
Local Tactic Notation "str" "in" hyp(H) :=
  cbn [split split_last contains_char all_chars rev_append drop_front is_empty] in H.

Lemma split_nonempty c s : split c s <> [].
Proof. destruct s as [|x s]; [done|]. str. destruct (Ascii.eqb x c); [done|]. by destruct (split c s). Qed.

Lemma split_app c a b : split c (a +:+ String c b)%string = split c a ++ split c b.
Proof.
  induction a as [|x a IH]; [by rewrite append_nil_l; str; rewrite Ascii.eqb_refl|].
  rewrite append_cons. str. destruct (Ascii.eqb x c); [by rewrite IH|].
  rewrite IH. pose proof (split_nonempty c a). by destruct (split c a).
Qed.

Lemma split_none c s : contains_char c s = false -> split c s = [s].
Proof.
  induction s as [|x s IH]; [done|]. str. intros [Hx Hs]%orb_false_iff.
  by rewrite Ascii.eqb_sym, Hx, IH.
Qed.

Lemma no_split_last c s : split_last c s = None -> contains_char c s = false.
Proof.
  induction s as [|x s IH]; [done|]. str. destruct (split_last c s) as [[? ?]|]; [done|].
  rewrite (Ascii.eqb_sym c x). destruct (Ascii.eqb x c); [done|]. intros _. by apply IH.
Qed.

Lemma split_last_some c s b r :
  split_last c s = Some (b, r) -> s = (b +:+ String c r)%string /\ contains_char c r = false.
Proof.
  revert b r. induction s as [|x s IH]; intros b r; [done|]. str.
  destruct (split_last c s) as [[b' r']|] eqn:Hs.
  - intros [= <- <-]. destruct (IH b' r' eq_refl) as [-> ?]. by rewrite append_cons.
  - destruct (Ascii.eqb_spec x c) as [->|]; [|done]. intros [= <- <-]. split; [done|].
    by apply no_split_last.
Qed.

Lemma drop_front_split f s : exists z, s = (z +:+ drop_front f s)%string /\ all_chars f z = true.
Proof.
  induction s as [|x s IH]; [by exists ""|]. str. destruct (f x) eqn:Hx; [|by exists ""].
  destruct IH as (z & Hs & Hz). exists (String x z). rewrite append_cons, <- Hs. str. by rewrite Hx, Hz.
Qed.

Lemma all_chars_rev f s acc : all_chars f (rev_append s acc) = all_chars f s && all_chars f acc.
Proof.
  revert acc. induction s as [|x s IH]; intros acc; [done|]. str. rewrite IH. str.
  by rewrite andb_assoc, (andb_comm (all_chars f s)).
Qed.

Lemma rev_app a b : rev_append (a +:+ b)%string "" = (rev_append b "" +:+ rev_append a "")%string.
Proof.
  revert b. induction a as [|x a IH]; intros b; [by rewrite append_nil_l, string_app_nil|].
  rewrite append_cons. str.
  assert (forall s acc, rev_append s acc = (rev_append s "" +:+ acc)%string) as Hacc
    by (intros s acc; by rewrite rev_append_app, append_nil_l).
  rewrite (Hacc (a +:+ b)%string), (Hacc a), IH. by rewrite string_app_assoc.
Qed.

Lemma rev_rev s : rev_append (rev_append s "") "" = s.
Proof. rewrite rev_append_rev. apply string_app_nil. Qed.

Lemma drop_back_split f s : exists z, s = (drop_back f s +:+ z)%string /\ all_chars f z = true.
Proof.
  destruct (drop_front_split f (rev_append s "")) as (z & Hs & Hz). exists (rev_append z "").
  unfold drop_back. split; [|by rewrite all_chars_rev, Hz]. rewrite <- rev_app, <- Hs. by rewrite rev_rev.
Qed.

Lemma ends_with_app_slash a : ends_with "/" (a +:+ "/")%string = true.
Proof. unfold ends_with. rewrite rev_app. str. by destruct (rev_append a ""). Qed.

Lemma drop_front_head f s c r : drop_front f s = String c r -> f c = false.
Proof. induction s as [|x s IH]; [done|]. str. destruct (f x) eqn:?; [done|]. by intros [= <- <-]. Qed.

Lemma drop_back_end s : ends_with "/" (drop_back (fun c => Ascii.eqb c slash) s) = false.
Proof.
  destruct (ends_with "/" _) eqn:He; [|done]. apply ends_with_slash in He as [a Ha].
  unfold drop_back in Ha. apply (f_equal (fun s => rev_append s "")) in Ha.
  rewrite rev_rev, rev_app in Ha. by apply drop_front_head in Ha.
Qed.

Lemma prefix_app a b : String.prefix a (a +:+ b)%string = true.
Proof.
  induction a as [|x a IH]; [by destruct b|]. rewrite append_cons. cbn [String.prefix]. by destruct (ascii_dec x x).
Qed.

Lemma ends_with_app a b : ends_with b (a +:+ b)%string = true.
Proof. unfold ends_with. rewrite rev_app. apply prefix_app. Qed.

Lemma split_last_plain c s t :
  contains_char c t = false ->
  split_last c (s +:+ t)%string =
  match split_last c s with Some (b, r) => Some (b, (r +:+ t)%string) | None => None end.
Proof.
  intros Ht. induction s as [|x s IH]; [rewrite append_nil_l; by apply split_last_none|].
  rewrite append_cons. str. rewrite IH. destruct (split_last c s) as [[b r]|]; [done|].
  by destruct (Ascii.eqb x c).
Qed.

Lemma filename_plain p t :
  contains_char slash t = false -> filename (p +:+ t)%string = (filename p +:+ t)%string.
Proof. intros Ht. unfold filename. rewrite split_last_plain by done. by destruct (split_last slash p) as [[b r]|]. Qed.

Lemma parent_plain p t : contains_char slash t = false -> parent_path (p +:+ t)%string = parent_path p.
Proof. intros Ht. unfold parent_path. rewrite split_last_plain by done. by destruct (split_last slash p) as [[b r]|]. Qed.

Lemma length_app_string a b : String.length (a +:+ b)%string = (String.length a + String.length b)%nat.
Proof. induction a as [|x a IH]; [done|]. rewrite append_cons. cbn [String.length]. by rewrite IH. Qed.

(** ** The names of a path *)

Definition names (p : string) : list string := filter (fun w => w <> "") (split slash p).

Lemma names_app a b : names (a +:+ String slash b)%string = names a ++ names b.
Proof. unfold names. by rewrite split_app, filter_app. Qed.

Lemma names_slashes z : all_chars (fun c => Ascii.eqb c slash) z = true -> names z = [].
Proof.
  induction z as [|c z IH]; [done|]. str. intros [Hc%Ascii.eqb_eq Hz]%andb_true_iff. subst c.
  rewrite <- (append_nil_l (String slash z)), names_app. by rewrite IH.
Qed.

Lemma names_drop_back p : names (drop_back (fun c => Ascii.eqb c slash) p) = names p.
Proof.
  destruct (drop_back_split (fun c => Ascii.eqb c slash) p) as (z & Hp & Hz). rewrite Hp at 2.
  destruct z as [|c z]; [by rewrite string_app_nil|]. pose proof Hz as Hz'. str in Hz.
  apply andb_true_iff in Hz as [Hc%Ascii.eqb_eq Hz]. subst c.
  rewrite names_app, (names_slashes z) by done. by rewrite app_nil_r.
Qed.

Lemma filter_all {A} (P : A -> Prop) `{forall x, Decision (P x)} (l : list A) :
  (forall x, x ∈ l -> P x) -> filter P l = l.
Proof.
  induction l as [|x l IH]; [done|]. intros Hl. rewrite filter_cons_True by (apply Hl; by left).
  f_equal. apply IH. intros y Hy. apply Hl. by right.
Qed.

Lemma split_no_slash p w : w ∈ split slash p -> contains_char slash w = false.
Proof.
  revert w. induction p as [|c p IH]; intros w; str.
  { by intros ->%list_elem_of_singleton. }
  destruct (Ascii.eqb_spec c slash) as [|Hc].
  { intros [->|Hw]%elem_of_cons; [done|by apply IH]. }
  destruct (split slash p) as [|v ws] eqn:Hs.
  { intros ->%list_elem_of_singleton. str. rewrite orb_false_r. apply Ascii.eqb_neq. congruence. }
  intros [->|Hw]%elem_of_cons; [|apply IH; by right].
  change (contains_char slash (String c v)) with (Ascii.eqb slash c || contains_char slash v).
  rewrite (IH v) by by left. rewrite orb_false_r. apply Ascii.eqb_neq. congruence.
Qed.

(** The names, and perhaps an empty one for a separator at the end. *)
Lemma names_of_trailing p : names_of p = names p \/ names_of p = names p ++ [""].
Proof.
  unfold names_of, components. rewrite !filter_app. fold (names p).
  assert (filter (fun w : string => w <> "/") (names p) = names p) as ->.
  { apply filter_all. intros w [_ Hw]%list_elem_of_filter ->. by apply split_no_slash in Hw. }
  assert (filter (fun w : string => w <> "/") (if is_absolute p then ["/"] else []) = []) as -> by by destruct (is_absolute p).
  destruct (_ && _); [by right|left]. by rewrite app_nil_r.
Qed.

Lemma names_of_plain p : ends_with "/" p = false -> names_of p = names p.
Proof.
  intros He. unfold names_of, components. rewrite He, app_nil_r, filter_app.
  fold (names p). assert (filter (fun w : string => w <> "/") (names p) = names p) as ->.
  { apply filter_all. intros w [_ Hw]%list_elem_of_filter ->.
    by apply split_no_slash in Hw. }
  by destruct (is_absolute p).
Qed.

Lemma filename_no_slash p : filename p <> "" -> ends_with "/" p = false.
Proof.
  intros Hf. destruct (ends_with "/" p) eqn:He; [|done]. apply ends_with_slash in He as [a ->].
  unfold filename in Hf. by rewrite split_last_app in Hf.
Qed.

(** A path whose last name is not empty is its parent followed by that name. *)
Lemma names_of_parent p :
  filename p <> "" -> names_of p = names_of (parent_path p) ++ [filename p].
Proof.
  intros Hf. assert (He : ends_with "/" p = false) by by apply filename_no_slash.
  rewrite names_of_plain by done. unfold filename, parent_path in *.
  destruct (split_last slash p) as [[b r]|] eqn:Hs.
  - apply split_last_some in Hs as [-> Hr]. rewrite names_app.
    assert (names r = [r]) as ->.
    { unfold names. rewrite split_none by done. by rewrite filter_cons_True. }
    f_equal. rewrite <- (names_drop_back b). destruct (is_empty _) eqn:Hb.
    + by destruct (drop_back _ b).
    + by rewrite names_of_plain by apply drop_back_end.
  - apply no_split_last in Hs.
    unfold names. rewrite split_none by done. by rewrite filter_cons_True.
Qed.

Lemma parent_absolute p : parent_path p <> "" -> is_absolute (parent_path p) = is_absolute p.
Proof.
  unfold parent_path. destruct (split_last slash p) as [[b r]|] eqn:Hs; [|done]. intros _.
  apply split_last_some in Hs as [-> _].
  destruct (drop_back_split (fun c => Ascii.eqb c slash) b) as (z & Hb & Hz).
  destruct (drop_back _ b) as [|c b'].
  - str. rewrite append_nil_l in Hb. subst z. unfold is_absolute, starts_with.
    destruct b as [|c b]; [by rewrite append_nil_l, !prefix_slash|]. str in Hz.
    apply andb_true_iff in Hz as [->%Ascii.eqb_eq _]. by rewrite append_cons, !prefix_slash.
  - rewrite Hb. str. unfold is_absolute, starts_with. by rewrite !append_cons, !prefix_slash.
Qed.

Definition regular_name (w : string) : Prop := w <> "" /\ w <> "." /\ w <> "..".

(** ** Joining and normalising *)

Lemma names_join a b : a <> "" -> is_absolute b = false -> names (join a b) = names a ++ names b.
Proof.
  intros Ha Hb. unfold join. rewrite Hb. destruct (is_empty a) eqn:He; [by destruct a|]. cbn [orb].
  destruct (ends_with "/" a) eqn:Hs.
  - apply ends_with_slash in Hs as [a' ->]. change "/" with (String slash ""). rewrite string_app_assoc.
    change (String slash "" +:+ b)%string with (String slash b). rewrite !names_app.
    by rewrite app_nil_r.
  - change ("/" +:+ b)%string with (String slash b). apply names_app.
Qed.

Lemma absolute_join a b : a <> "" -> is_absolute b = false -> is_absolute (join a b) = is_absolute a.
Proof.
  intros Ha Hb. unfold join. rewrite Hb. destruct a as [|x a]; [done|]. unfold is_absolute, starts_with.
  destruct (_ || _); by rewrite append_cons, !prefix_slash.
Qed.

Lemma filename_app a b : filename (a +:+ String slash b)%string = filename b.
Proof.
  unfold filename. assert (split_last slash (a +:+ String slash b)%string =
    match split_last slash b with Some (b', r) => Some ((a +:+ String slash b')%string, r) | None => Some (a, b) end) as ->.
  { induction a as [|x a IH].
    - rewrite !append_nil_l. str. by destruct (split_last slash b) as [[? ?]|].
    - rewrite append_cons. str. rewrite IH. by destruct (split_last slash b) as [[? ?]|]. }
  by destruct (split_last slash b) as [[? ?]|].
Qed.

Lemma filename_join_last a b : a <> "" -> is_absolute b = false -> filename (join a b) = filename b.
Proof.
  intros Ha Hb. unfold join. rewrite Hb. destruct (is_empty a) eqn:He; [by destruct a|]. cbn [orb].
  destruct (ends_with "/" a) eqn:Hs; [|apply (filename_app a b)].
  apply ends_with_slash in Hs as [a' ->]. rewrite string_app_assoc. apply (filename_app a' b).
Qed.

(** The last name of a path that does not end with a separator. *)
Lemma filename_last p xs f : ends_with "/" p = false -> names p = xs ++ [f] -> filename p = f.
Proof.
  intros He Hn. unfold filename. destruct (split_last slash p) as [[b r]|] eqn:Hs.
  - apply split_last_some in Hs as [-> Hr]. rewrite names_app in Hn.
    destruct (decide (r = "")) as [->|Hne].
    { by rewrite ends_with_app_slash in He. }
    assert (names r = [r]) as Hnr by (unfold names; rewrite split_none by done; by rewrite filter_cons_True).
    rewrite Hnr in Hn. by apply app_inj_tail in Hn as [_ ?].
  - apply no_split_last in Hs. unfold names in Hn. rewrite split_none in Hn by done.
    destruct (decide (p <> "")); [rewrite filter_singleton_True in Hn by done|rewrite filter_singleton_False in Hn by done];
      destruct xs as [|? [|]]; by simplify_eq/=.
Qed.

Definition clean (l : list string) : list string := filter (fun w => ~ (w = "" \/ w = ".")) l.

Lemma normal_names_clean absolute acc trailing l f :
  (".." ∉ l) -> regular_name f -> normal_names absolute acc trailing (l ++ [f]) = (rev acc ++ clean l ++ [f], false).
Proof.
  intros Hno (Hf1 & Hf2 & Hf3). revert acc trailing Hno. induction l as [|w l IH]; intros acc trailing Hno.
  { cbn [app normal_names]. rewrite !bool_decide_false by naive_solver. done. }
  apply not_elem_of_cons in Hno as [Hw Hno]. cbn [app normal_names]. unfold clean.
  destruct (bool_decide (w = "" \/ w = ".")) eqn:Hd.
  - apply bool_decide_eq_true in Hd. rewrite filter_cons_False by tauto. by apply IH.
  - apply bool_decide_eq_false in Hd. rewrite filter_cons_True by done. rewrite bool_decide_false by done.
    rewrite IH by done. cbn [rev]. by rewrite <- app_assoc.
Qed.

Lemma contains_app c a b : contains_char c (a +:+ b)%string = contains_char c a || contains_char c b.
Proof. induction a as [|x a IH]; [done|]. rewrite append_cons. str. by rewrite IH, orb_assoc. Qed.

Lemma plain_name w : w <> "" -> contains_char slash w = false ->
  names w = [w] /\ ends_with "/" w = false /\ is_absolute w = false.
Proof.
  intros Hw Hs. split_and!; [| |by apply not_absolute].
  - unfold names. rewrite split_none by done. by rewrite filter_cons_True.
  - destruct (ends_with "/" w) eqn:He; [|done]. apply ends_with_slash in He as [a ->].
    rewrite contains_app, orb_false_iff in Hs. by destruct Hs.
Qed.

Lemma ends_with_suffix a b : b <> "" -> ends_with "/" (a +:+ b)%string = ends_with "/" b.
Proof.
  intros Hb. unfold ends_with. rewrite rev_app. change (rev_append "/" "") with "/".
  destruct (rev_append b "") as [|c r] eqn:Hr; [by apply (f_equal (fun s => rev_append s "")) in Hr; rewrite rev_rev in Hr|].
  by rewrite append_cons, !prefix_slash.
Qed.

(** A path built from names without separators has these names. *)
Lemma names_of_components (ns : list string) :
  Forall (fun w => w <> "" /\ contains_char slash w = false) ns -> ns <> [] ->
  names (of_components ns) = ns /\ ends_with "/" (of_components ns) = false /\
  is_absolute (of_components ns) = false /\ of_components ns <> "".
Proof.
  induction 1 as [|w ns [Hw Hs] Hall IH]; [done|]. intros _.
  cbn [of_components]. rewrite bool_decide_false by by intros ->.
  destruct (plain_name w Hw Hs) as (Hn & He & Ha). destruct ns as [|w' ns]; [done|].
  destruct IH as (IHn & IHe & IHa & IHne); [done|]. set (s := of_components (w' :: ns)) in *.
  change ("/" +:+ s)%string with (String slash s). split_and!.
  - by rewrite names_app, Hn, IHn.
  - rewrite ends_with_suffix by done. change (String slash s) with ("/" +:+ s)%string. by rewrite ends_with_suffix.
  - destruct w as [|c w]; [done|]. unfold is_absolute, starts_with in *. by rewrite append_cons, prefix_slash in *.
  - by destruct w.
Qed.

Lemma names_of_good p : Forall (fun w => contains_char slash w = false) (names_of p).
Proof.
  apply Forall_forall. intros w [Hw Hin]%list_elem_of_filter. unfold components in Hin.
  rewrite !elem_of_app in Hin. destruct Hin as [Hin|[[_ Hin]%list_elem_of_filter|Hin]].
  - destruct (is_absolute p); [|by apply elem_of_nil in Hin]. by apply list_elem_of_singleton in Hin.
  - by eapply split_no_slash.
  - destruct (_ && _); [|by apply elem_of_nil in Hin]. by apply list_elem_of_singleton in Hin as ->.
Qed.

Lemma normal_components_names p xs f :
  names_of p = xs ++ [f] -> (".." ∉ xs) -> regular_name f ->
  normal_components p = (if is_absolute p then ["/"] else []) ++ clean xs ++ [f].
Proof.
  intros Hp Hno Hf. unfold normal_components. fold (names_of p). rewrite Hp, normal_names_clean by done.
  cbn [rev app andb]. destruct (is_absolute p); [|by destruct (clean xs); rewrite ?app_nil_r].
  by destruct (clean xs); cbn [app]; rewrite ?app_nil_r.
Qed.

(** The names of a normalised path without [..]. *)
Lemma names_normal p xs f :
  names_of p = xs ++ [f] -> (".." ∉ xs) -> regular_name f ->
  names_of (lexically_normal p) = clean xs ++ [f] /\ filename (lexically_normal p) = f /\
  is_absolute (lexically_normal p) = is_absolute p /\ is_empty (lexically_normal p) = false.
Proof.
  intros Hp Hno Hf. pose proof (names_of_good p) as Hgood. rewrite Hp in Hgood.
  apply Forall_app in Hgood as [Hgood Hgf].
  assert (Hns : Forall (fun w => w <> "" /\ contains_char slash w = false) (clean xs ++ [f])).
  { apply Forall_app. split.
    - apply Forall_forall. intros w [Hw Hin]%list_elem_of_filter. rewrite Forall_forall in Hgood. naive_solver.
    - apply Forall_singleton. split; [apply Hf|by apply Forall_cons_1 in Hgf as [? _]]. }
  assert (Hne : clean xs ++ [f] <> []) by by destruct (clean xs).
  destruct (names_of_components _ Hns Hne) as (Hn & He & Ha & Hemp).
  unfold lexically_normal. rewrite (normal_components_names p xs f) by done.
  set (ns := clean xs ++ [f]) in *. destruct (is_absolute p).
  - cbn [app of_components]. rewrite bool_decide_true by done. set (s := of_components ns) in *.
    assert (Hns' : names ("/" +:+ s)%string = ns) by (change ("/" +:+ s)%string with ("" +:+ String slash s)%string; by rewrite names_app, Hn).
    assert (He' : ends_with "/" ("/" +:+ s)%string = false) by by rewrite ends_with_suffix.
    split_and!; [by rewrite names_of_plain|by eapply filename_last| |done].
    unfold is_absolute, starts_with. apply (prefix_slash "/" s).
  - cbn [app]. split_and!; [by rewrite names_of_plain|by eapply filename_last|done|].
    by destruct (of_components ns).
Qed.

(** ** File names *)

Lemma filename_plain_chars p : contains_char slash (filename p) = false.
Proof.
  unfold filename. destruct (split_last slash p) as [[b r]|] eqn:Hs; [by apply split_last_some in Hs as [_ ?]|].
  by apply no_split_last.
Qed.

(** The stem and the extension are parts of the file name. *)
Lemma stem_plain_chars p : contains_char slash (stem p) = false.
Proof.
  pose proof (filename_plain_chars p) as Hf. unfold stem. destruct (bool_decide _); [done|].
  destruct (split_last "."%char (filename p)) as [[b r]|] eqn:Hs; [|done]. destruct (is_empty b); [done|].
  apply split_last_some in Hs as [He _]. rewrite He, contains_app in Hf. by apply orb_false_iff in Hf as [? _].
Qed.

Lemma extension_plain_chars p : contains_char slash (extension p) = false.
Proof.
  pose proof (filename_plain_chars p) as Hf. unfold extension. destruct (bool_decide _); [done|].
  destruct (split_last "."%char (filename p)) as [[b r]|] eqn:Hs; [|done]. destruct (is_empty b); [done|].
  apply split_last_some in Hs as [He _]. rewrite He, contains_app in Hf. by apply orb_false_iff in Hf as [_ ?].
Qed.

(** The directory of a path has no separator at its end, unless it is the root. *)
Lemma names_of_directory p : names_of (parent_path p) = names (parent_path p).
Proof.
  unfold parent_path. destruct (split_last slash p) as [[b r]|]; [|done]. cbv zeta.
  destruct (is_empty (drop_back _ b)); [done|]. apply names_of_plain, drop_back_end.
Qed.

Lemma parent_nonempty p : contains_char slash p = true -> parent_path p <> "".
Proof.
  unfold parent_path. destruct (split_last slash p) as [[b r]|] eqn:Hs.
  - intros _. cbv zeta. destruct (drop_back _ b); done.
  - apply no_split_last in Hs. congruence.
Qed.

(** A path in the directory of another one. *)
Lemma parent_sibling p n :
  parent_path p <> "" -> regular_name n -> contains_char slash n = false ->
  let q := join (parent_path p) n in
  filename q = n /\ parent_path q <> "" /\ names_of (parent_path q) = names_of (parent_path p) /\
  is_absolute (parent_path q) = is_absolute (parent_path p).
Proof.
  intros Hp Hn Hs q. assert (Hne : n <> "") by apply Hn. destruct (plain_name n Hne Hs) as (Hnames & He & Habs).
  assert (Hf : filename q = n) by by apply filename_join.
  assert (Hq : parent_path q <> "").
  { apply parent_nonempty. unfold q, join. rewrite Habs. destruct (is_empty _) eqn:Hem; [by destruct (parent_path p)|].
    cbn [orb]. destruct (ends_with "/" (parent_path p)) eqn:Hend; [|by rewrite !contains_app, orb_true_r].
    apply ends_with_slash in Hend as [a ->]. by rewrite !contains_app, orb_true_r. }
  split_and!; [done|done| |].
  - assert (Hparts : names_of q = names_of (parent_path q) ++ [n]) by (rewrite <- Hf; apply names_of_parent; by rewrite Hf).
    rewrite names_of_plain in Hparts by (apply filename_no_slash; by rewrite Hf).
    unfold q in Hparts. rewrite names_join, Hnames in Hparts by done. apply app_inj_tail in Hparts as [Hparts _].
    rewrite (names_of_directory p). symmetry. exact Hparts.
  - rewrite parent_absolute by done. by apply absolute_join.
Qed.
End PathFacts.
