(* ===== verification/DiskFacts.v ===== *)
(** * Facts about the disk

    Path resolution of [Filesystem.v] name by name and on disks of the same
    shape, and what the calls leave unchanged. *)
From S2P Require Import Prelude Filesystem PathFacts.

Module DiskFacts.
Import Str Path Disk PathFacts.
Local Open Scope string_scope.
Local Open Scope list_scope.
Local Open Scope Z_scope.

(** ** Resolution *)

(** Resolving one name more: the directory is the one of the names before it,
    and if that entry is no link the result is the entry. *)
Lemma resolve_snoc d links xs w acc loc :
  regular_name w ->
  resolve d links acc (xs ++ [w]) = inl loc ->
  (forall dir t, resolve d links acc xs = inl dir -> node_at d (dir ++ [w]) <> Some (Symlink t)) ->
  exists dir, resolve d links acc xs = inl dir /\ loc = dir ++ [w].
Proof.
  intros (Hw1 & Hw2 & Hw3). revert acc xs. induction links as [|links IH]; intros acc xs;
    revert acc; induction xs as [|x xs IHx]; intros acc.
  1,3: cbn [app resolve]; rewrite !bool_decide_false by naive_solver;
    intros Hr Hno; destruct (node_at d (acc ++ [w])) as [[]|] eqn:Hn; simplify_eq;
    first [by exists acc | by edestruct Hno].
  - cbn [app resolve]. destruct (bool_decide (x = "" \/ x = ".")); [by apply IHx|].
    destruct (bool_decide (x = "..")); [by apply IHx|].
    destruct (node_at d (acc ++ [x])) as [[| |t]|]; try done; [by destruct xs|by apply IHx].
  - cbn [app resolve]. destruct (bool_decide (x = "" \/ x = ".")); [by apply IHx|].
    destruct (bool_decide (x = "..")); [by apply IHx|].
    destruct (node_at d (acc ++ [x])) as [[| |t]|]; try done; [by destruct xs|by apply IHx|].
    rewrite app_assoc. apply IH.
Qed.

Lemma location_of_canonical d p loc :
  regular_name (filename p) -> canonical d p = inl loc ->
  (forall loc t, location d p = inl loc -> node_at d loc <> Some (Symlink t)) ->
  location d p = inl loc.
Proof.
  intros Hf. unfold canonical. destruct (is_empty p); [done|].
  rewrite names_of_parent by apply Hf. intros Hr Hno. unfold location in *.
  destruct (resolve_snoc _ _ _ _ _ _ Hf Hr) as (dir & -> & ->); [|done].
  intros dir t Hd. rewrite Hd in Hno. by apply Hno.
Qed.

(** The cases of the first name. *)
Ltac resolve_step d x IHx :=
  cbn [app resolve];
  destruct (bool_decide (x = "" \/ x = ".")) eqn:?; [try by apply IHx|];
  destruct (bool_decide (x = "..")) eqn:?; [try by apply IHx|];
  match goal with |- context [node_at d (?acc ++ [x])] => destruct (node_at d (acc ++ [x])) as [[| |]|] eqn:? end.

(** Following more links does no harm. *)
Lemma resolve_budget d links links' acc xs r :
  (links <= links')%nat -> resolve d links acc xs = inl r -> resolve d links' acc xs = inl r.
Proof.
  revert links' acc xs. induction links as [|links IH]; intros links' acc xs Hle; revert acc;
    induction xs as [|x xs IHx]; intros acc; destruct links' as [|links']; try lia; try done.
  all: resolve_step d x IHx; try done; try apply IHx. apply IH. lia.
Qed.

(** Resolution goes through the directories of the way. *)
Lemma resolve_app d links acc xs ys r :
  ys <> [] -> resolve d links acc (xs ++ ys) = inl r ->
  exists m links', (links' <= links)%nat /\ resolve d links acc xs = inl m /\ resolve d links' m ys = inl r.
Proof.
  intros Hys. revert acc xs. induction links as [|links IH]; intros acc xs; revert acc;
    induction xs as [|x xs IHx]; intros acc; try (cbn [app]; intros Hr; eexists _, _; by split_and!).
  all: resolve_step d x IHx; try done; try apply IHx; try (by destruct xs, ys).
  rewrite app_assoc. intros (m & links' & Hle & Hm & Hr)%IH. exists m, links'. split_and!; [lia|done..].
Qed.

(** Empty names and dots before the last name make no difference. *)
Lemma resolve_clean d links acc xs f :
  regular_name f -> resolve d links acc (clean xs ++ [f]) = resolve d links acc (xs ++ [f]).
Proof.
  intros Hf. revert acc xs. induction links as [|links IH]; intros acc xs; revert acc;
    induction xs as [|x xs IHx]; intros acc; try done; unfold clean; destruct (decide (x = "" \/ x = ".")) as [Hx|Hx].
  1,3: rewrite filter_cons_False by tauto; cbn [app resolve]; rewrite (bool_decide_true (x = "" \/ x = ".")) by done; apply IHx.
  all: rewrite filter_cons_True by done; fold (clean xs); resolve_step d x IHx; try done; try apply IHx;
    try (by destruct (clean xs), xs).
  rewrite !app_assoc, <- IH, <- (IH _ (names_of _ ++ xs)). unfold clean. rewrite !filter_app.
  by rewrite list_filter_filter_l.
Qed.

Lemma canonical_normal d p xs f :
  names_of p = xs ++ [f] -> (".." ∉ xs) -> regular_name f -> canonical d (lexically_normal p) = canonical d p.
Proof.
  intros Hp Hno Hf. destruct (names_normal p xs f Hp Hno Hf) as (Hn & _ & Ha & He).
  unfold canonical, start_of. rewrite He, Hn, Ha, Hp. destruct p; [by destruct xs|]. by apply resolve_clean.
Qed.

(** A separator at the end makes no difference to what resolves. *)
Lemma resolve_names d links acc p r : resolve d links acc (names_of p) = inl r -> resolve d links acc (names p) = inl r.
Proof.
  destruct (names_of_trailing p) as [-> | ->]; [done|]. intros (m & links' & _ & Hm & Hr)%resolve_app; [|done].
  assert (resolve d links' m [""] = inl m) as E by by destruct links'. congruence.
Qed.

(** What is in a directory is found under its name, if it is no link. *)
Lemma resolve_child d links acc xs dir f n :
  regular_name f -> resolve d links acc xs = inl dir -> node_at d dir = Some Directory ->
  node_at d (dir ++ [f]) = Some n -> (forall t, n <> Symlink t) -> resolve d links acc (xs ++ [f]) = inl (dir ++ [f]).
Proof.
  intros (Hf1 & Hf2 & Hf3) Hr Hdir Hn Hlink. revert acc xs Hr. induction links as [|links IH]; intros acc xs; revert acc;
    induction xs as [|x xs IHx]; intros acc.
  1,3: intros [= ->]; cbn [app resolve]; rewrite !bool_decide_false by naive_solver; rewrite Hn; destruct n; try done;
    by destruct (Hlink target).
  all: resolve_step d x IHx; try done; try apply IHx; try (destruct xs; intros [= <-]; congruence).
  rewrite app_assoc. apply IH.
Qed.

Lemma resolve_entry d links acc xs dir f s :
  regular_name f -> resolve d links acc xs = inl dir -> node_at d dir = Some Directory ->
  node_at d (dir ++ [f]) = Some (File s) -> resolve d links acc (xs ++ [f]) = inl (dir ++ [f]).
Proof. intros. by eapply resolve_child. Qed.

(** A directory is still found when only files came and went. *)
Lemma resolve_directory d d' links acc xs r :
  (forall loc n, node_at d loc = Some n -> (forall s, n <> File s) -> node_at d' loc = Some n) ->
  resolve d links acc xs = inl r -> node_at d r = Some Directory -> resolve d' links acc xs = inl r.
Proof.
  intros Hk Hr Hdir. revert acc xs Hr. induction links as [|links IH]; intros acc xs; revert acc;
    induction xs as [|x xs IHx]; intros acc; try done.
  all: resolve_step d x IHx; try done; try (destruct xs; intros [= <-]; congruence).
  all: match goal with H : node_at _ _ = Some _ |- _ => rewrite (Hk _ _ H) by done end; first [apply IHx|apply IH].
Qed.

(** The entry of a path in a directory that exists. *)
Lemma location_in_parent d p parent :
  canonical d (parent_path p) = inl parent -> location d p = inl (parent ++ [filename p]).
Proof.
  unfold canonical, location. destruct (is_empty (parent_path p)) eqn:He; [done|].
  unfold start_of. rewrite parent_absolute by by intros Hp; rewrite Hp in He.
  by intros ->.
Qed.

Lemma location_not_root d p loc : location d p = inl loc -> loc <> [].
Proof. unfold location. destruct (resolve _ _ _ _) as [dir|]; [|done]. intros [= <-]. by destruct dir. Qed.

(** Resolution only looks at links, and at what is a directory. *)
Definition same_kind (n n' : node) : Prop :=
  match n, n' with
  | File _, File _ | Directory, Directory => True
  | Symlink t, Symlink t' => t = t'
  | _, _ => False
  end.

Definition same_shape (d d' : Disk) : Prop :=
  cwd d' = cwd d /\
  forall loc n, node_at d loc = Some n -> exists n', node_at d' loc = Some n' /\ same_kind n n'.

Lemma resolve_same_shape d d' links acc xs r :
  same_shape d d' -> resolve d links acc xs = inl r -> resolve d' links acc xs = inl r.
Proof.
  intros [_ Hs]. revert acc xs. induction links as [|links IH]; intros acc xs;
    revert acc; induction xs as [|x xs IHx]; intros acc; try done; cbn [resolve].
  all: destruct (bool_decide (x = "" \/ x = ".")); [by apply IHx|].
  all: destruct (bool_decide (x = "..")); [by apply IHx|].
  all: destruct (node_at d (acc ++ [x])) as [n|] eqn:Hn; [|done].
  all: destruct (Hs _ _ Hn) as (n' & -> & Hk); destruct n, n'; try done; try by apply IHx.
  cbn in Hk. subst. apply IH.
Qed.

Lemma location_same_shape d d' p loc :
  same_shape d d' -> location d p = inl loc -> location d' p = inl loc.
Proof.
  intros Hs. unfold location. destruct (resolve d _ _ _) as [dir|] eqn:Hr; [|done].
  intros [= <-]. apply (resolve_same_shape d d' _ _ _ _ Hs) in Hr. unfold start_of in *.
  destruct Hs as [-> _]. by rewrite Hr.
Qed.

(** ** What a call leaves unchanged *)

Lemma node_at_set loc n d loc' :
  loc <> [] -> node_at (set_node loc n d) loc' = if decide (loc = loc') then Some n else node_at d loc'.
Proof.
  intros Hloc. unfold node_at. destruct loc' as [|w l].
  - by rewrite decide_False.
  - cbn [set_node nodes]. destruct (decide (loc = w :: l)) as [->|].
    + by rewrite lookup_insert_eq.
    + by rewrite lookup_insert_ne.
Qed.

Lemma node_at_delete loc d loc' :
  loc <> [] -> node_at (delete_node loc d) loc' = if decide (loc = loc') then None else node_at d loc'.
Proof.
  intros Hloc. unfold node_at. destruct loc' as [|w l].
  - by rewrite decide_False.
  - cbn [delete_node nodes]. destruct (decide (loc = w :: l)) as [->|].
    + by rewrite lookup_delete_eq.
    + by rewrite lookup_delete_ne.
Qed.

(** Opening a file at the entry of its path, unless a link is there. *)
Lemma open_file_location `{IoErrors} p d loc :
  regular_name (filename p) ->
  (forall loc t, location d p = inl loc -> node_at d loc <> Some (Symlink t)) ->
  open_file p d = Some loc -> location d p = inl loc /\ node_at d loc <> Some Directory.
Proof.
  intros Hf Hno. unfold open_file.
  assert (Hopen : forall l, match node_at d l, io_error "open" l d with
                      | Some Directory, _ | _, Some _ => None
                      | _, None => Some l
                      end = Some loc -> l = loc /\ node_at d loc <> Some Directory).
  { intros l. destruct (node_at d l) as [[]|] eqn:Hn, (io_error "open" l d); try done; intros [= ->]; by rewrite Hn. }
  destruct (canonical d p) as [l|] eqn:Hc.
  - apply (location_of_canonical d p l Hf) in Hc; [|done]. intros [-> ?]%Hopen. done.
  - destruct (location d p) as [l|]; [|done]. intros [-> ?]%Hopen. done.
Qed.

Lemma same_shape_write loc s d :
  loc <> [] -> (forall n, node_at d loc = Some n -> exists s', n = File s') -> same_shape d (set_node loc (File s) d).
Proof.
  intros Hloc Hold. split; [done|]. intros l n Hn. rewrite node_at_set by done. destruct (decide (loc = l)) as [<-|].
  - destruct (Hold n Hn) as [s' ->]. by eexists.
  - exists n. split; [done|]. by destruct n.
Qed.

(** [remove] touches at most the entry of its path. *)
Lemma remove_keeps `{IoErrors} p d loc :
  location d p <> inl loc -> node_at (fst (remove p d)) loc = node_at d loc.
Proof.
  intros Hl. unfold remove. destruct (location d p) as [l|e] eqn:Hp; [|by destruct e].
  destruct (node_at d l); [|done]. destruct (io_error _ _ _); [done|]. destruct (has_children d l); [done|].
  cbn [fst]. rewrite node_at_delete by by eapply location_not_root. rewrite decide_False; congruence.
Qed.

(** Only directories are added. *)
Definition only_new_directories (d d' : Disk) : Prop :=
  cwd d' = cwd d /\
  forall loc, node_at d' loc = node_at d loc \/ (node_at d loc = None /\ node_at d' loc = Some Directory).

#[global] Instance only_new_directories_refl : Reflexive only_new_directories.
Proof. split; [done|]. by left. Qed.

#[global] Instance only_new_directories_trans : Transitive only_new_directories.
Proof.
  intros d1 d2 d3 [Hc12 H12] [Hc23 H23]. split; [congruence|]. intros loc. destruct (H12 loc) as [He|[Hn Hd]], (H23 loc) as [He'|[Hn' Hd']];
    rewrite ?He', ?He in *; eauto; congruence.
Qed.

Lemma only_new_keeps d d' loc n :
  only_new_directories d d' -> node_at d loc = Some n -> node_at d' loc = Some n.
Proof. intros [_ Ho] Hn. destruct (Ho loc) as [->|[? _]]; congruence. Qed.

(** ** Created directories *)

Lemma make_directories_new `{IoErrors} acc todo d : only_new_directories d (fst (make_directories acc todo d)).
Proof.
  revert acc d. induction todo as [|w todo IH]; intros acc d; [done|]. cbn [make_directories].
  destruct (resolve d max_links acc [w]) as [loc|[]] eqn:Hr; try done.
  { destruct (node_at d loc) as [[]|]; done. }
  destruct (node_at d (acc ++ [w])) eqn:Hn; [done|].
  destruct (io_error _ _ _); [done|]. etrans; [|apply IH]. split; [done|]. intros loc.
  rewrite node_at_set by by destruct acc. destruct (decide (acc ++ [w] = loc)) as [<-|]; [by right|by left].
Qed.

Lemma create_directories_new `{IoErrors} p d : only_new_directories d (fst (create_directories p d)).
Proof. apply make_directories_new. Qed.

Lemma only_new_shape d d' : only_new_directories d d' -> same_shape d d'.
Proof.
  intros Ho. split; [apply Ho|]. intros l n Hn. exists n. split; [by eapply only_new_keeps|by destruct n].
Qed.

(** What resolves still does, to the same place. *)
Lemma resolve_new d d' p loc :
  only_new_directories d d' -> canonical d p = inl loc -> canonical d' p = inl loc.
Proof.
  intros Ho. unfold canonical, start_of. rewrite (proj1 Ho). destruct (is_empty p); [done|].
  by apply resolve_same_shape, only_new_shape.
Qed.

Lemma resolve_regular d w acc : resolve d max_links acc [w] = inr no_such_file_or_directory ->
  node_at d (acc ++ [w]) = None -> regular_name w.
Proof.
  unfold max_links. cbn [resolve]. intros Hr _. split_and!; intros ->; by cbn in Hr.
Qed.

Lemma made_directory `{IoErrors} acc todo d d' links loc :
  make_directories acc todo d = (d', None) -> (todo = [] -> node_at d acc = Some Directory) ->
  (links <= max_links)%nat -> resolve d' links acc todo = inl loc -> node_at d' loc = Some Directory.
Proof.
  revert acc d links. induction todo as [|w todo IH]; intros acc d links Hm Hacc Hle.
  { cbn in Hm. injection Hm as <-. specialize (Hacc eq_refl). by destruct links; intros [= <-]. }
  pose proof (make_directories_new acc (w :: todo) d) as Hnew. rewrite Hm in Hnew. cbn [fst] in Hnew.
  cbn [make_directories] in Hm.
  assert (Hstep : forall l d1, make_directories l todo d1 = (d', None) -> node_at d1 l = Some Directory ->
    resolve d' max_links acc [w] = inl l -> resolve d' links acc (w :: todo) = inl loc -> node_at d' loc = Some Directory).
  { intros l d1 Hl Hdir Hw Hr. destruct todo as [|w' todo].
    - apply (resolve_budget _ _ max_links) in Hr; [|done]. cbn in Hl. injection Hl as ->. congruence.
    - change (w :: w' :: todo) with ([w] ++ w' :: todo) in Hr.
      apply resolve_app in Hr as (m & links' & Hle' & Hm' & Hr); [|done].
      apply (resolve_budget _ _ max_links) in Hm'; [|done]. rewrite Hw in Hm'. injection Hm' as <-.
      eapply IH; [exact Hl|done| |exact Hr]. lia. }
  destruct (resolve d max_links acc [w]) as [l|[]] eqn:Hr; try done.
  - destruct (node_at d l) as [[]|] eqn:Hl; try done. apply (Hstep l d Hm Hl).
    by apply (resolve_same_shape d d'), Hr; apply only_new_shape.
  - destruct (node_at d (acc ++ [w])) eqn:Hn; [done|]. destruct (io_error _ _ _); [done|].
    set (d1 := set_node (acc ++ [w]) Directory d) in *. assert (acc ++ [w] <> []) by by destruct acc.
    assert (Hd1 : node_at d1 (acc ++ [w]) = Some Directory) by (unfold d1; rewrite node_at_set by done; by rewrite decide_True).
    apply (Hstep _ d1 Hm Hd1). pose proof (make_directories_new (acc ++ [w]) todo d1) as Hnew1. rewrite Hm in Hnew1.
    apply (resolve_same_shape d1 d'); [by apply only_new_shape|].
    destruct (resolve_regular d w acc Hr Hn) as (Hw1 & Hw2 & Hw3). unfold max_links. cbn [resolve].
    rewrite !bool_decide_false by naive_solver. by rewrite Hd1.
Qed.

Lemma created_directory `{IoErrors} p d d' loc :
  node_at d (cwd d) = Some Directory ->
  create_directories p d = (d', None) -> canonical d' p = inl loc -> node_at d' loc = Some Directory.
Proof.
  intros Hcwd Hc. unfold canonical. destruct (is_empty p) eqn:He; [done|].
  pose proof (make_directories_new (start_of d p) (names_of p) d) as Hnew. unfold create_directories in Hc.
  rewrite Hc in Hnew. cbn [fst] in Hnew. assert (start_of d' p = start_of d p) as -> by (unfold start_of; by rewrite (proj1 Hnew)).
  eapply made_directory; [exact Hc| |done]. intros _. unfold start_of. by destruct (is_absolute p).
Qed.

(** A directory that is still there, and a file in it. *)
Lemma canonical_directory d d' p r :
  cwd d' = cwd d -> (forall loc n, node_at d loc = Some n -> (forall s, n <> File s) -> node_at d' loc = Some n) ->
  canonical d p = inl r -> node_at d r = Some Directory -> canonical d' p = inl r.
Proof.
  intros Hc Hk. unfold canonical, start_of. rewrite Hc. destruct (is_empty p); [done|]. by apply resolve_directory.
Qed.

Lemma canonical_entry d p dir s :
  canonical d (parent_path p) = inl dir -> node_at d dir = Some Directory -> regular_name (filename p) ->
  node_at d (dir ++ [filename p]) = Some (File s) -> canonical d p = inl (dir ++ [filename p]).
Proof.
  unfold canonical. destruct (is_empty (parent_path p)) eqn:He; [done|]. intros Hr Hdir Hf Hfile.
  assert (Hp : parent_path p <> "") by by intros Hp; rewrite Hp in He.
  assert (is_empty p = false) as -> by by destruct p.
  rewrite names_of_parent by apply Hf. unfold start_of in *. rewrite parent_absolute in Hr by done.
  by eapply resolve_entry.
Qed.

(** The entry of a sibling. *)
Lemma location_sibling d p n dir :
  regular_name n -> contains_char slash n = false -> canonical d (parent_path p) = inl dir ->
  location d (join (parent_path p) n) = inl (dir ++ [n]).
Proof.
  intros Hn Hs Hdir. assert (Hp : parent_path p <> "").
  { intros He. by rewrite He in Hdir. }
  destruct (parent_sibling p n Hp Hn Hs) as (Hf & Hq & Hnames & Habs).
  rewrite <- Hf at 2. apply location_in_parent. unfold canonical, start_of in *. rewrite Hnames, Habs.
  destruct (parent_path p) eqn:E; [done|]. by destruct (parent_path (join _ n)).
Qed.

Lemma canonical_sibling d p n dir s :
  regular_name n -> contains_char slash n = false -> canonical d (parent_path p) = inl dir ->
  node_at d dir = Some Directory -> node_at d (dir ++ [n]) = Some (File s) ->
  canonical d (join (parent_path p) n) = inl (dir ++ [n]).
Proof.
  intros Hn Hs Hdir Hd Hf. assert (Hp : parent_path p <> "").
  { intros He. by rewrite He in Hdir. }
  destruct (parent_sibling p n Hp Hn Hs) as (Hname & Hq & Hnames & Habs).
  rewrite <- Hname. rewrite <- Hname in Hf, Hn. rewrite Hname at 1. eapply canonical_entry; [|done..].
  unfold canonical, start_of in *. rewrite Hnames, Habs.
  destruct (parent_path p) eqn:E; [done|]. by destruct (parent_path (join _ n)).
Qed.

(** ** Renaming and removing *)

Lemma remove_cwd `{IoErrors} p d : cwd (fst (remove p d)) = cwd d.
Proof.
  unfold remove. destruct (location d p) as [l|[]]; try done. destruct (node_at d l); [|done].
  destruct (io_error _ _ _); [done|]. by destruct (has_children _ _).
Qed.

(** The renaming of a file that is there. *)
Lemma rename_file `{IoErrors} p q la lb s d d' r :
  rename p q d = (d', r) -> location d p = inl la -> location d q = inl lb -> la <> lb ->
  node_at d la = Some (File s) ->
  (is_Some r /\ d' = d) \/
  (r = None /\ node_at d lb <> Some Directory /\ d' = set_node lb (File s) (delete_node la d)).
Proof.
  unfold rename. intros Hr Hp Hq Hne Hs. rewrite Hp, Hq, Hs in Hr.
  destruct (io_error _ _ _); [simplify_eq; left; by eauto|]. rewrite bool_decide_false in Hr by done.
  destruct (node_at d lb) as [[]|] eqn:Hlb; simplify_eq; eauto 10.
Qed.


Lemma rename_failed `{IoErrors} p q d d' e : rename p q d = (d', Some e) -> d' = d.
Proof.
  unfold rename. destruct (location d p) as [la|], (location d q) as [lb|]; try by intros [= -> _].
  destruct (node_at d la); [|by intros [= -> _]]. destruct (io_error _ _ _); [by intros [= -> _]|].
  destruct (node_at d lb) as [[]|]; try (by intros [= -> _]); destruct (bool_decide _); by intros [= -> _].
Qed.

(** A file that took the place of its entry, nothing else but files having
    changed. *)
Lemma read_entry d d' p dir s :
  canonical d (parent_path p) = inl dir -> node_at d dir = Some Directory -> regular_name (filename p) ->
  cwd d' = cwd d -> (forall loc n, node_at d loc = Some n -> (forall s, n <> File s) -> node_at d' loc = Some n) ->
  node_at d' (dir ++ [filename p]) = Some (File s) -> read_file p d' = Some s.
Proof.
  intros Hdir Hd Hf Hc Hk Hs. unfold read_file. rewrite (canonical_entry d' p dir s); [by rewrite Hs| |by apply Hk|done..].
  by apply (canonical_directory d).
Qed.

End DiskFacts.
