(* ===== verification/Png.v ===== *)
(** * [MiniPng] (source/thumbnails/MiniPng.h)

    The PNG writer: the two checksums, the zlib stream of stored blocks and
    the chunks, byte by byte. A byte is a [Z] between 0 and 255. The file it
    writes is that of [Filesystem.v]. The specification is a reader: a CRC
    computed bit by bit, an Adler-32 with unreduced sums, and a decoder of the
    part of PNG the writer uses. *)
From S2P Require Import Prelude Filesystem.

Module Checksum.

(** ** The code *)

Definition crc_entry_step (c : Z) : Z :=
  if Z.land c 1 =? 0 then Z.shiftr c 1 else Z.lxor 0xEDB88320 (Z.shiftr c 1).

(** The lambda that fills [table]. *)
Definition crc_table : list Z :=
  map (fun n => Nat.iter 8 crc_entry_step (Z.of_nat n)) (seq 0 256).

Definition crc_byte (c d : Z) : Z :=
  Z.lxor (crc_table !!! Z.to_nat (Z.land (Z.lxor c d) 0xFF)) (Z.shiftr c 8).

Definition Crc32 (data : list Z) : Z :=
  Z.lxor (foldl crc_byte 0xFFFFFFFF data) 0xFFFFFFFF.

Definition kMod : Z := 65521.

Definition adler_byte (ab : Z * Z) (d : Z) : Z * Z :=
  let a := u32 (fst ab + d) mod kMod in
  (a, u32 (snd ab + a) mod kMod).

Definition Adler32 (data : list Z) : Z :=
  let '(a, b) := foldl adler_byte (1, 0) data in Z.lor (u32 (Z.shiftl b 16)) a.

(** ** The reference *)

(** The shift register of the CRC, one bit of the message at a time. *)
Definition crc_bit (c : Z) (b : bool) : Z :=
  let c := Z.lxor c (Z.b2z b) in
  if Z.odd c then Z.lxor 0xEDB88320 (Z.div2 c) else Z.div2 c.

(** The bits of a byte, the lowest first. *)
Definition bits (d : Z) : list bool := map (fun i => Z.testbit d (Z.of_nat i)) (seq 0 8).

Definition crc_reference (data : list Z) : Z :=
  Z.lxor (foldl crc_bit 0xFFFFFFFF (concat (map bits data))) 0xFFFFFFFF.

Definition sum (l : list Z) : Z := foldr Z.add 0 l.

(** One more than the sums of the first [1], [2], ... bytes. *)
Fixpoint running_sums (s : Z) (data : list Z) : list Z :=
  match data with [] => [] | d :: rest => (s + d) :: running_sums (s + d) rest end.

(** RFC 1950: [s2 * 65536 + s1], with [s1] one more than the sum of the bytes
    and [s2] the sum of all values [s1] takes, both modulo 65521. *)
Definition adler_reference (data : list Z) : Z :=
  sum (running_sums 1 data) mod kMod * 65536 + (1 + sum data) mod kMod.

Definition is_byte (d : Z) : Prop := 0 <= d < 256.

Lemma all_bytes l : forallb (fun d => (0 <=? d) && (d <? 256)) l = true -> Forall is_byte l.
Proof.
  rewrite forallb_forall, Forall_forall. intros H d Hd. apply list_elem_of_In in Hd.
  apply H in Hd. unfold is_byte. lia.
Qed.

(** ** The CRC *)

Definition crc_shift (c : Z) : Z := crc_bit c false.

Lemma crc_entry_step_shift c : crc_entry_step c = crc_shift c.
Proof.
  unfold crc_entry_step, crc_shift, crc_bit. cbn [Z.b2z]. rewrite Z.lxor_0_r.
  change 1 with (Z.ones 1) at 1. rewrite Z.land_ones by done. rewrite Z.div2_spec.
  change (2 ^ 1) with 2. rewrite Zmod_odd. by destruct (Z.odd c).
Qed.

Lemma iter_entry_step k c : Nat.iter k crc_entry_step c = Nat.iter k crc_shift c.
Proof. induction k as [|k IH]; [done|]. cbn [Nat.iter nat_rect]. rewrite <- crc_entry_step_shift. f_equal. exact IH. Qed.

(** The register is linear over [xor]. *)
Lemma crc_shift_lxor a b : crc_shift (Z.lxor a b) = Z.lxor (crc_shift a) (crc_shift b).
Proof.
  unfold crc_shift, crc_bit. cbn [Z.b2z]. rewrite !Z.lxor_0_r, <- !Z.bit0_odd, Z.lxor_spec.
  rewrite !Z.div2_spec, Z.shiftr_lxor.
  destruct (Z.testbit a 0), (Z.testbit b 0); cbn [xorb];
    generalize (Z.shiftr a 1) (Z.shiftr b 1); intros x y; rewrite ?Z.lxor_assoc; try done.
  - rewrite (Z.lxor_comm 0xEDB88320 y), <- (Z.lxor_assoc x), (Z.lxor_comm (Z.lxor x y)), <- Z.lxor_assoc.
    by rewrite Z.lxor_nilpotent, Z.lxor_0_l.
  - by rewrite <- !Z.lxor_assoc, (Z.lxor_comm x 0xEDB88320).
Qed.

Lemma iter_shift_lxor k a b :
  Nat.iter k crc_shift (Z.lxor a b) = Z.lxor (Nat.iter k crc_shift a) (Nat.iter k crc_shift b).
Proof. induction k as [|k IH]; [done|]. cbn [Nat.iter nat_rect]. unfold Nat.iter in IH. by rewrite IH, crc_shift_lxor. Qed.

Lemma crc_bit_shift c b : crc_bit c b = crc_shift (Z.lxor c (Z.b2z b)).
Proof. unfold crc_shift, crc_bit. cbn [Z.b2z]. by rewrite Z.lxor_0_r. Qed.

(** Feeding bits and starting from a value are independent. *)
Lemma crc_bits_lxor l c :
  foldl crc_bit c l = Z.lxor (Nat.iter (length l) crc_shift c) (foldl crc_bit 0 l).
Proof.
  revert c. induction l as [|b l IH]; intros c; [by rewrite Z.lxor_0_r|].
  cbn [foldl length]. rewrite (IH (crc_bit c b)), (IH (crc_bit 0 b)), !crc_bit_shift, Z.lxor_0_l.
  rewrite crc_shift_lxor, iter_shift_lxor, Z.lxor_assoc. f_equal.
  symmetry. apply Nat.iter_succ_r.
Qed.

(** For the 256 bytes, by computation. *)
Lemma crc_bits_byte d : is_byte d -> foldl crc_bit 0 (bits d) = Nat.iter 8 crc_shift d.
Proof.
  intros Hd. assert (Hall : forallb (fun n => foldl crc_bit 0 (bits (Z.of_nat n)) =?
    Nat.iter 8 crc_shift (Z.of_nat n)) (seq 0 256) = true) by by vm_compute.
  rewrite forallb_forall in Hall. apply Z.eqb_eq. rewrite <- (Z2Nat.id d) by (unfold is_byte in Hd; lia).
  apply Hall, in_seq. unfold is_byte in Hd. lia.
Qed.

Lemma iter_shift_high y : Nat.iter 8 crc_shift (Z.shiftl y 8) = y.
Proof.
  assert (H : forall k z, 0 < k -> crc_shift (Z.shiftl z k) = Z.shiftl z (k - 1)).
  { intros k z Hk. unfold crc_shift, crc_bit. cbn [Z.b2z].
    rewrite Z.lxor_0_r, Z.div2_spec, <- Z.bit0_odd, Z.shiftl_spec_low by lia.
    rewrite Z.shiftr_shiftl_l by lia. done. }
  cbn [Nat.iter nat_rect]. rewrite !H by lia. apply Z.shiftl_0_r.
Qed.

Lemma table_lookup n : is_byte n -> crc_table !!! Z.to_nat n = Nat.iter 8 crc_shift n.
Proof.
  intros Hn. unfold is_byte in Hn. apply list_lookup_total_correct. unfold crc_table.
  rewrite list_lookup_fmap, lookup_seq_lt by lia. cbn [fmap option_fmap option_map].
  by rewrite iter_entry_step, Nat.add_0_l, Z2Nat.id by lia.
Qed.

Lemma split_low_byte x : x = Z.lxor (Z.land x 0xFF) (Z.shiftl (Z.shiftr x 8) 8).
Proof.
  change 0xFF with (Z.ones 8). apply Z.bits_inj'. intros i Hi.
  rewrite Z.lxor_spec, Z.land_spec, Z.testbit_ones_nonneg by lia.
  destruct (Z.ltb_spec i 8).
  - rewrite Z.shiftl_spec_low by lia. by rewrite andb_true_r, xorb_false_r.
  - rewrite Z.shiftl_spec, Z.shiftr_spec by lia. rewrite andb_false_r, xorb_false_l. f_equal. lia.
Qed.

Lemma crc_byte_bits c d : is_byte d -> crc_byte c d = foldl crc_bit c (bits d).
Proof.
  intros Hd. rewrite crc_bits_lxor. replace (length (bits d)) with 8%nat by done.
  rewrite crc_bits_byte, <- iter_shift_lxor by done. unfold crc_byte.
  assert (Hlow : is_byte (Z.land (Z.lxor c d) 0xFF)).
  { change 0xFF with (Z.ones 8). rewrite Z.land_ones by done. apply (Z.mod_pos_bound _ 256). done. }
  rewrite table_lookup by done. rewrite (split_low_byte (Z.lxor c d)) at 2.
  rewrite iter_shift_lxor, iter_shift_high. f_equal.
  rewrite Z.shiftr_lxor. assert (Z.shiftr d 8 = 0) as ->; [|by rewrite Z.lxor_0_r].
  rewrite Z.shiftr_div_pow2 by done. by apply Z.div_small.
Qed.

(** ** Adler-32 *)

Lemma running_sums_mod l s t :
  s mod kMod = t mod kMod -> sum (running_sums s l) mod kMod = sum (running_sums t l) mod kMod.
Proof.
  revert s t. induction l as [|x l IH]; intros s t Hst; [done|].
  assert (Hx : (s + x) mod kMod = (t + x) mod kMod).
  { by rewrite <- Zplus_mod_idemp_l, Hst, Zplus_mod_idemp_l. }
  cbn [running_sums sum foldr]. fold (sum (running_sums (s + x) l)) (sum (running_sums (t + x) l)).
  by rewrite Zplus_mod, Hx, (IH _ _ Hx), <- Zplus_mod.
Qed.

Lemma adler_loop data a b :
  Forall is_byte data -> 0 <= a < kMod -> 0 <= b < kMod ->
  foldl adler_byte (a, b) data =
  ((a + sum data) mod kMod, (b + sum (running_sums a data)) mod kMod).
Proof.
  intros Hall. revert a b. induction Hall as [|d data Hd Hall IH]; intros a b Ha Hb.
  - cbn. by rewrite !Z.add_0_r, !Z.mod_small.
  - cbn [foldl]. unfold adler_byte at 2. cbn [fst snd]. unfold is_byte, kMod in *.
    rewrite (wrap_small 32 (a + d)) by lia.
    set (a' := (a + d) mod 65521). assert (0 <= a' < 65521) by by apply Z.mod_pos_bound.
    rewrite (wrap_small 32) by lia.
    rewrite IH by (try done; by apply Z.mod_pos_bound).
    f_equal.
    + unfold a'. rewrite Zplus_mod_idemp_l. cbn [sum foldr]. f_equal. fold (sum data). lia.
    + rewrite Zplus_mod_idemp_l. cbn [running_sums sum foldr]. fold (sum (running_sums (a + d) data)).
      pose proof (running_sums_mod data a' (a + d)) as Hrun. unfold kMod in Hrun.
      rewrite Zplus_mod, Hrun by by (unfold a'; rewrite Zmod_mod).
      rewrite <- Zplus_mod, Z.add_assoc. unfold a'.
      by rewrite <- Zplus_mod_idemp_l, Zplus_mod_idemp_r, Zplus_mod_idemp_l.
Qed.

Lemma checksums data :
  Forall is_byte data -> Crc32 data = crc_reference data /\ Adler32 data = adler_reference data.
Proof.
  intros Hall. split.
  - unfold Crc32, crc_reference. f_equal. generalize 0xFFFFFFFF.
    induction Hall as [|d data Hd Hall IH]; intros c; [done|].
    cbn [map concat foldl]. by rewrite foldl_app, <- crc_byte_bits, IH.
  - unfold Adler32. rewrite adler_loop by done. cbn iota.
    unfold adler_reference. rewrite Z.add_0_l.
    set (b := sum (running_sums 1 data) mod kMod). set (a := (1 + sum data) mod kMod).
    assert (0 <= b < kMod) by by apply Z.mod_pos_bound.
    assert (0 <= a < kMod) by by apply Z.mod_pos_bound. unfold kMod in *.
    rewrite wrap_small by (rewrite Z.shiftl_mul_pow2; lia).
    by rewrite lor_shiftl by lia.
Qed.

(** C28. The checksums are the ones the formats ask for. On every sequence of
    bytes, the table-driven CRC-32 is the shift register of the PNG
    specification run over the bits of the message, and the Adler-32 with
    32-bit reduced sums is the RFC 1950 sum of unreduced ones: no intermediate
    result overflows. *)
Theorem checksums_match_reference data :
  Forall is_byte data ->
  Crc32 data = crc_reference data /\ Adler32 data = adler_reference data.
Proof. apply checksums. Qed.

Lemma checksums_match_reference_witness :
  Forall is_byte [73; 69; 78; 68] /\ Crc32 [73; 69; 78; 68] = 0xAE426082 /\
  crc_reference [73; 69; 78; 68] = 0xAE426082 /\ adler_reference [73; 69; 78; 68] = 0x02D70121.
Proof.
  assert (H : Forall is_byte [73; 69; 78; 68]) by by apply all_bytes.
  destruct (checksums_match_reference [73; 69; 78; 68] H) as [Hc Ha].
  split; [exact H|]. split; [vm_compute; reflexivity|].
  split; [rewrite <- Hc|rewrite <- Ha]; vm_compute; reflexivity.
Defined.

End Checksum.

(** ** The writer *)

Module MiniPng.
Import Checksum Disk.
Local Open Scope list_scope.

Definition be32 (x : Z) : list Z :=
  [u8 (Z.land (Z.shiftr x 24) 0xFF); u8 (Z.land (Z.shiftr x 16) 0xFF);
   u8 (Z.land (Z.shiftr x 8) 0xFF); u8 (Z.land (Z.shiftr x 0) 0xFF)].

Definition AppendBE32 (v : list Z) (x : Z) : list Z := v ++ be32 x.

Definition char_byte (c : ascii) : Z := Z.of_nat (nat_of_ascii c).
Definition chars (s : string) : list Z := map char_byte (String.list_ascii_of_string s).

(** The bytes of [data.size()] are those of a 32-bit value. *)
Definition WriteChunk (out : list Z) (type : string) (data : list Z) : list Z :=
  let out := AppendBE32 out (u32 (Z.of_nat (length data))) in
  let crc_start := length out in
  let out := out ++ chars type ++ data in
  AppendBE32 out (Crc32 (drop crc_start out)).

Definition kMax : nat := Z.to_nat 65535.

(** The loop from [offset] on. *)
Fixpoint stored_blocks (fuel : nat) (raw : list Z) (offset : nat) : option (list Z) :=
  match fuel with
  | O => None
  | S fuel =>
      let remaining := (length raw - offset)%nat in
      let chunk := if (kMax <? remaining)%nat then kMax else remaining in
      let last := (offset + chunk =? length raw)%nat in
      let len := u16 (Z.of_nat chunk) in
      let nlen := u16 (Z.lnot len) in
      let block :=
        [if last then 0x01 else 0x00; u8 (Z.land len 0xFF); u8 (Z.land (Z.shiftr len 8) 0xFF);
         u8 (Z.land nlen 0xFF); u8 (Z.land (Z.shiftr nlen 8) 0xFF)]
        ++ take chunk (drop offset raw) in
      if last then Some block
      else app block <$> stored_blocks fuel raw (offset + chunk)
  end.

Definition ZlibWrapStored (raw : list Z) : option (list Z) :=
  blocks ← stored_blocks (S (length raw)) raw 0;
  Some ([0x78; 0x01] ++ blocks ++ be32 (Adler32 raw)).

Definition kSig : list Z := [0x89; 80; 78; 71; 0x0D; 0x0A; 0x1A; 0x0A].

(** The scan lines, each after its filter byte. *)
Definition raw_rows (width height : Z) (rgb : list Z) : list Z :=
  concat (map (fun y => 0 :: take (Z.to_nat (u32 (width * 3)))
                               (drop (Z.to_nat (Z.of_nat y * width * 3)) rgb))
            (seq 0 (Z.to_nat height))).

Definition png_bytes (width height : Z) (rgb : list Z) : option (list Z) :=
  let ihdr := AppendBE32 (AppendBE32 [] width) height ++ [8; 2; 0; 0; 0] in
  let out := WriteChunk kSig "IHDR" ihdr in
  zlib_stream ← ZlibWrapStored (raw_rows width height rgb);
  let out := WriteChunk out "IDAT" zlib_stream in
  Some (WriteChunk out "IEND" []).

Definition byte_string (l : list Z) : string :=
  String.string_of_list_ascii (map (fun b => ascii_of_nat (Z.to_nat b)) l).

Section write.
Context `{IoErrors} `{ShortWrites}.

(** The error is [out_err]. [None] is a loop out of fuel. *)
Definition Write (path : string) (width height : Z) (rgb : list Z) (d : Disk) :
    option (Disk * (unit + string)) :=
  if (width =? 0) || (height =? 0) then Some (d, inr "invalid image dimensions"%string)
  else if negb (Z.of_nat (length rgb) =? u64 (u64 (width * height) * 3))
  then Some (d, inr "pixel buffer size does not match dimensions"%string)
  else
    bytes ← png_bytes width height rgb;
    Some (match stream_file path (byte_string bytes) d with
          | (d', Opened true) => (d', inl tt)
          | (d', Opened false) => (d', inr "failed to write image bytes"%string)
          | (d', NotOpened) => (d', inr "failed to open output file for writing"%string)
          end).
End write.

(** ** The reader *)

Definition read_bytes (n : nat) (l : list Z) : option (list Z * list Z) :=
  if (n <=? length l)%nat then Some (take n l, drop n l) else None.

Definition read_be32 (l : list Z) : option (Z * list Z) :=
  match l with
  | a :: b :: c :: d :: rest => Some (((a * 256 + b) * 256 + c) * 256 + d, rest)
  | _ => None
  end.

(** The type, the data and what follows the chunk. *)
Definition read_chunk (l : list Z) : option (list Z * list Z * list Z) :=
  '(n, l) ← read_be32 l;
  '(type, l) ← read_bytes 4 l;
  '(data, l) ← read_bytes (Z.to_nat n) l;
  '(crc, l) ← read_be32 l;
  if crc =? crc_reference (type ++ data) then Some (type, data, l) else None.

(** RFC 1951, stored blocks only: the data and what follows the last block. *)
Fixpoint read_blocks (fuel : nat) (l : list Z) : option (list Z * list Z) :=
  match fuel with
  | O => None
  | S fuel =>
      match l with
      | header :: l0 :: l1 :: n0 :: n1 :: rest =>
          let len := l0 + 256 * l1 in
          if (Z.land header 6 =? 0) && (len + (n0 + 256 * n1) =? 65535) then
            '(data, rest) ← read_bytes (Z.to_nat len) rest;
            if Z.odd header then Some (data, rest)
            else '(more, rest) ← read_blocks fuel rest; Some (data ++ more, rest)
          else None
      | _ => None
      end
  end.

(** RFC 1950. *)
Definition read_zlib (z : list Z) : option (list Z) :=
  match z with
  | cmf :: flg :: rest =>
      if (Z.land cmf 15 =? 8) && ((cmf * 256 + flg) mod 31 =? 0) && negb (Z.testbit flg 5) then
        '(data, rest) ← read_blocks (length rest) rest;
        '(adler, rest) ← read_be32 rest;
        if bool_decide (rest = []) && (adler =? adler_reference data) then Some data else None
      else None
  | _ => None
  end.

(** Lines of [n] bytes without a filter. *)
Fixpoint read_rows (height n : nat) (raw : list Z) : option (list Z) :=
  match height with
  | O => if bool_decide (raw = []) then Some [] else None
  | S height =>
      match raw with
      | 0 :: raw =>
          '(row, raw) ← read_bytes n raw;
          app row <$> read_rows height n raw
      | _ => None
      end
  end.

(** An 8-bit RGB image without interlace, in one IDAT chunk. *)
Definition decode_png (bytes : list Z) : option (Z * Z * list Z) :=
  '(sig, l) ← read_bytes 8 bytes;
  '(t0, ihdr, l) ← read_chunk l;
  '(width, h) ← read_be32 ihdr;
  '(height, h) ← read_be32 h;
  '(t1, idat, l) ← read_chunk l;
  '(t2, iend, l) ← read_chunk l;
  if bool_decide (sig = kSig /\ t0 = chars "IHDR" /\ h = [8; 2; 0; 0; 0] /\ t1 = chars "IDAT" /\
                  t2 = chars "IEND" /\ iend = [] /\ l = [])
  then
    raw ← read_zlib idat;
    rgb ← read_rows (Z.to_nat height) (Z.to_nat (width * 3)) raw;
    Some (width, height, rgb)
  else None.

(** ** Reading back *)

Lemma read_be32_spec x rest : 0 <= x < 2 ^ 32 -> read_be32 (be32 x ++ rest) = Some (x, rest).
Proof.
  intros Hx. unfold be32, read_be32, u8, wrap. cbn [app].
  change 0xFF with (Z.ones 8). rewrite !Z.land_ones, !Z.shiftr_div_pow2, !Zmod_mod by done.
  change (2 ^ 0) with 1. change (2 ^ 8) with 256. change (2 ^ 16) with (256 * 256).
  change (2 ^ 24) with (256 * 256 * 256). rewrite <- !Z.div_div, Z.div_1_r by done.
  do 2 f_equal.
  divlia.
Qed.

Lemma read_bytes_app n l rest : length l = n -> read_bytes n (l ++ rest) = Some (l, rest).
Proof.
  intros <-. unfold read_bytes. rewrite length_app, (proj2 (Nat.leb_le _ _)) by lia.
  by rewrite take_app_length, drop_app_length.
Qed.

Lemma lxor_bound n a b : 0 <= n -> 0 <= a < 2 ^ n -> 0 <= b < 2 ^ n -> 0 <= Z.lxor a b < 2 ^ n.
Proof.
  intros Hn Ha Hb. rewrite <- (Z.mod_small a (2 ^ n)), <- (Z.mod_small b (2 ^ n)) by done.
  rewrite <- !Z.land_ones by done.
  assert (Z.lxor (Z.land a (Z.ones n)) (Z.land b (Z.ones n)) = Z.land (Z.lxor a b) (Z.ones n)) as ->.
  { apply Z.bits_inj'. intros i _. rewrite !Z.lxor_spec, !Z.land_spec, Z.lxor_spec.
    by destruct (Z.testbit a i), (Z.testbit b i), (Z.testbit (Z.ones n) i). }
  rewrite Z.land_ones by done. apply Z.mod_pos_bound. by apply Z.pow_pos_nonneg.
Qed.

Lemma Crc32_bound data : 0 <= Crc32 data < 2 ^ 32.
Proof.
  assert (Htable : forall i, 0 <= crc_table !!! i < 2 ^ 32).
  { assert (Hall : forallb (fun x => (0 <=? x) && (x <? 2 ^ 32)) crc_table = true) by by vm_compute.
    rewrite forallb_forall in Hall. intros i. destruct (crc_table !! i) as [x|] eqn:Hx.
    - rewrite (list_lookup_total_correct _ _ _ Hx). apply list_elem_of_lookup_2, list_elem_of_In, Hall in Hx. lia.
    - rewrite list_lookup_total_alt, Hx. done. }
  unfold Crc32. apply lxor_bound; [done| |done].
  assert (Hc : 0 <= 0xFFFFFFFF < 2 ^ 32) by done. revert Hc. generalize 0xFFFFFFFF.
  induction data as [|d data IH]; intros c Hc; [done|]. cbn [foldl]. apply IH.
  unfold crc_byte. apply lxor_bound; [done|apply Htable|].
  rewrite Z.shiftr_div_pow2 by done. change (2 ^ 8) with 256. divlia.
Qed.

Lemma Adler32_bound data : Forall is_byte data -> 0 <= Adler32 data < 2 ^ 32.
Proof.
  intros Hall. destruct (checksums data Hall) as [_ ->]. unfold adler_reference.
  pose proof (Z.mod_pos_bound (sum (running_sums 1 data)) kMod eq_refl).
  pose proof (Z.mod_pos_bound (1 + sum data) kMod eq_refl). unfold kMod in *. lia.
Qed.

(** *** Chunks *)

Definition chunk (type : string) (data : list Z) : list Z :=
  be32 (u32 (Z.of_nat (length data))) ++ (chars type ++ data) ++ be32 (Crc32 (chars type ++ data)).

Lemma WriteChunk_app out type data : WriteChunk out type data = out ++ chunk type data.
Proof.
  unfold WriteChunk, AppendBE32, chunk. cbv zeta. rewrite drop_app_length. by rewrite <- !app_assoc.
Qed.

Lemma chars_bytes s : Forall is_byte (chars s).
Proof.
  unfold chars. apply Forall_fmap, Forall_true. intros c. unfold is_byte, char_byte.
  pose proof (nat_ascii_bounded c). cbn. lia.
Qed.

Lemma read_chunk_app type data rest :
  length (chars type) = 4%nat -> Forall is_byte data -> Z.of_nat (length data) < 2 ^ 32 ->
  read_chunk (chunk type data ++ rest) = Some (chars type, data, rest).
Proof.
  intros Ht Hd Hlen. unfold chunk, read_chunk. rewrite wrap_small by lia.
  rewrite <- !app_assoc, read_be32_spec by lia. cbn [mbind option_bind].
  rewrite read_bytes_app by done. cbn [mbind option_bind].
  rewrite read_bytes_app by lia. cbn [mbind option_bind].
  rewrite read_be32_spec by apply Crc32_bound. cbn [mbind option_bind].
  assert (Hall : Forall is_byte (chars type ++ data)) by (apply Forall_app; split; [apply chars_bytes|done]).
  destruct (checksums _ Hall) as [-> _]. by rewrite Z.eqb_refl.
Qed.

(** *** Stored blocks *)

Lemma u16_bytes x :
  0 <= x < 65536 -> u8 (Z.land x 0xFF) + 256 * u8 (Z.land (Z.shiftr x 8) 0xFF) = x.
Proof.
  intros Hx. unfold u8, wrap. change 0xFF with (Z.ones 8).
  rewrite !Z.land_ones, Z.shiftr_div_pow2, !Zmod_mod by done. change (2 ^ 8) with 256. divlia.
Qed.

Lemma u16_lnot x : 0 <= x < 65536 -> u16 (Z.lnot x) = 65535 - x.
Proof. intros Hx. unfold wrap. change (2 ^ 16) with 65536. unfold Z.lnot. divlia. Qed.

Lemma kMax_Z : Z.of_nat kMax = 65535.
Proof. unfold kMax. by rewrite Z2Nat.id. Qed.

Lemma block_header fuel (chunk : nat) (last : bool) payload rest :
  (chunk <= kMax)%nat -> length payload = chunk ->
  let len := u16 (Z.of_nat chunk) in
  let nlen := u16 (Z.lnot len) in
  read_blocks (S fuel)
    ([if last then 0x01 else 0x00; u8 (Z.land len 0xFF); u8 (Z.land (Z.shiftr len 8) 0xFF);
      u8 (Z.land nlen 0xFF); u8 (Z.land (Z.shiftr nlen 8) 0xFF)] ++ payload ++ rest) =
  if last then Some (payload, rest)
  else '(more, rest) ← read_blocks fuel rest; Some (payload ++ more, rest).
Proof.
  intros Hc Hp. pose proof kMax_Z. cbv zeta.
  rewrite (wrap_small 16 (Z.of_nat chunk)), u16_lnot by lia. cbn [app read_blocks].
  rewrite !u16_bytes by lia. replace (_ + _ =? 65535) with true by (symmetry; apply Z.eqb_eq; lia).
  rewrite Nat2Z.id. destruct last; cbn [Z.land Pos.land Z.eqb Z.of_N andb Z.odd];
    by rewrite read_bytes_app by done.
Qed.

(** The size of the block at an offset, and that it is the last one. *)
Lemma block_size (raw : list Z) offset :
  (offset <= length raw)%nat ->
  let remaining := (length raw - offset)%nat in
  let chunk := if (kMax <? remaining)%nat then kMax else remaining in
  (chunk <= kMax)%nat /\ length (take chunk (drop offset raw)) = chunk /\
  (offset + chunk <= length raw)%nat /\ ((offset + chunk)%nat <> length raw -> chunk = kMax).
Proof.
  intros Ho remaining chunk. rewrite length_take, length_drop.
  subst chunk. destruct (Nat.ltb_spec kMax remaining); subst remaining; lia.
Qed.

Lemma stored_blocks_total fuel raw offset :
  (offset <= length raw)%nat -> (length raw - offset < fuel)%nat ->
  is_Some (stored_blocks fuel raw offset).
Proof.
  revert offset. induction fuel as [|fuel IH]; intros offset Ho Hf; [lia|].
  destruct (block_size raw offset Ho) as (_ & _ & Hle & Hk). pose proof kMax_Z.
  cbn [stored_blocks]. cbv zeta.
  set (chunk := if (kMax <? length raw - offset)%nat then kMax else (length raw - offset)%nat) in *. clearbody chunk.
  destruct (Nat.eqb_spec (offset + chunk) (length raw)) as [|Hne]; [done|].
  apply fmap_is_Some, IH; [done|]. apply Hk in Hne. lia.
Qed.

Lemma read_stored_blocks fuel raw offset z fuel' rest :
  stored_blocks fuel raw offset = Some z -> (offset <= length raw)%nat -> (length z <= fuel')%nat ->
  read_blocks fuel' (z ++ rest) = Some (drop offset raw, rest).
Proof.
  revert offset z fuel'. induction fuel as [|fuel IH]; intros offset z fuel' Hz Ho Hf; [done|].
  destruct (block_size raw offset Ho) as (Hc & Hl & Hle & Hk). cbn [stored_blocks] in Hz.
  set (remaining := (length raw - offset)%nat) in *.
  set (chunk := if (kMax <? remaining)%nat then kMax else remaining) in *. cbv zeta in Hz.
  destruct (Nat.eqb_spec (offset + chunk) (length raw)) as [Heq|Hne].
  - apply (inj Some) in Hz as <-. destruct fuel' as [|fuel']; [cbn in Hf; lia|].
    rewrite <- app_assoc, (block_header fuel' chunk true) by done.
    rewrite take_ge by (rewrite length_drop; lia). done.
  - destruct (stored_blocks fuel raw (offset + chunk)) as [more|] eqn:Hmore; [|done].
    cbn [fmap option_fmap option_map] in Hz. apply (inj Some) in Hz as <-. destruct fuel' as [|fuel']; [cbn in Hf; lia|].
    rewrite <- !app_assoc, (block_header fuel' chunk false) by done.
    rewrite (IH (offset + chunk)%nat more) by (try done; cbn in Hf; rewrite length_app in Hf; lia).
    cbn [mbind option_bind]. by rewrite <- drop_drop, take_drop.
Qed.

Lemma read_zlib_wrap raw z :
  Forall is_byte raw -> ZlibWrapStored raw = Some z -> read_zlib z = Some raw.
Proof.
  intros Hraw. unfold ZlibWrapStored.
  destruct (stored_blocks (S (length raw)) raw 0) as [blocks|] eqn:Hb; [|done].
  cbn [mbind option_bind]. intros [= <-]. cbn [app]. unfold read_zlib.
  change ((Z.land 120 15 =? 8) && ((120 * 256 + 1) mod 31 =? 0) && negb (Z.testbit 1 5)) with true.
  cbv iota. rewrite (read_stored_blocks _ _ _ _ _ _ Hb) by (rewrite ?length_app; lia).
  cbn [mbind option_bind]. rewrite drop_0, <- (app_nil_r (be32 _)), read_be32_spec by by apply Adler32_bound.
  cbn [mbind option_bind]. destruct (checksums raw Hraw) as [_ <-].
  by rewrite Z.eqb_refl, bool_decide_true.
Qed.

(** *** Lines *)

Lemma raw_rows_S width height rgb :
  0 <= width -> 3 * width < 2 ^ 32 ->
  raw_rows width (Z.of_nat (S height)) rgb =
  0 :: take (Z.to_nat (width * 3)) rgb ++
       raw_rows width (Z.of_nat height) (drop (Z.to_nat (width * 3)) rgb).
Proof.
  intros Hw Hb. unfold raw_rows. rewrite wrap_small, !Nat2Z.id by lia.
  cbn [seq map concat app]. rewrite !Z.mul_0_l, drop_0. do 2 f_equal.
  rewrite <- seq_shift, map_map. f_equal. apply map_ext. intros y. do 2 f_equal.
  rewrite drop_drop. f_equal. rewrite <- Z2Nat.inj_add by lia. f_equal. lia.
Qed.

Lemma read_raw_rows width (height : nat) rgb :
  0 <= width -> 3 * width < 2 ^ 32 -> length rgb = (height * Z.to_nat (width * 3))%nat ->
  read_rows height (Z.to_nat (width * 3)) (raw_rows width (Z.of_nat height) rgb) = Some rgb.
Proof.
  intros Hw Hb. revert rgb. induction height as [|height IH]; intros rgb Hl.
  - destruct rgb; done.
  - rewrite raw_rows_S by done. cbn [read_rows].
    rewrite read_bytes_app by (rewrite length_take; lia). cbn [mbind option_bind].
    rewrite IH by (rewrite length_drop; lia). cbn. by rewrite take_drop.
Qed.

Lemma raw_rows_bytes width height rgb : Forall is_byte rgb -> Forall is_byte (raw_rows width height rgb).
Proof.
  intros Hrgb. unfold raw_rows. apply Forall_concat, Forall_fmap, Forall_true. intros y. cbn.
  apply Forall_cons; split; [by unfold is_byte|]. by apply Forall_take, Forall_drop.
Qed.

Lemma length_raw_rows width (height : nat) rgb :
  0 <= width -> 3 * width < 2 ^ 32 -> length rgb = (height * Z.to_nat (width * 3))%nat ->
  length (raw_rows width (Z.of_nat height) rgb) = (height * S (Z.to_nat (width * 3)))%nat.
Proof.
  intros Hw Hb. revert rgb. induction height as [|height IH]; intros rgb Hl; [done|].
  rewrite raw_rows_S by done. cbn [length]. rewrite length_app, IH by (rewrite length_drop; lia).
  rewrite length_take. lia.
Qed.

(** *** The bytes of the file *)

Lemma u8_byte x : is_byte (u8 x).
Proof. apply (wrap_bounds 8). done. Qed.

Lemma be32_bytes x : Forall is_byte (be32 x).
Proof. repeat apply Forall_cons_2; try apply u8_byte. apply Forall_nil_2. Qed.

Lemma chunk_bytes type data : Forall is_byte data -> Forall is_byte (chunk type data).
Proof.
  intros Hd. unfold chunk. rewrite !Forall_app. split_and!; try apply be32_bytes; [|done].
  apply chars_bytes.
Qed.

Lemma stored_blocks_bytes fuel raw offset z :
  Forall is_byte raw -> stored_blocks fuel raw offset = Some z -> Forall is_byte z.
Proof.
  intros Hraw. revert offset z. induction fuel as [|fuel IH]; intros offset z; [done|].
  cbn [stored_blocks]. cbv zeta. set (chunk := if (kMax <? _)%nat then kMax else _). clearbody chunk.
  assert (Hblock : forall b : bool, Forall is_byte
    ([if b then 0x01 else 0x00; u8 (Z.land (u16 (Z.of_nat chunk)) 0xFF);
      u8 (Z.land (Z.shiftr (u16 (Z.of_nat chunk)) 8) 0xFF);
      u8 (Z.land (u16 (Z.lnot (u16 (Z.of_nat chunk)))) 0xFF);
      u8 (Z.land (Z.shiftr (u16 (Z.lnot (u16 (Z.of_nat chunk)))) 8) 0xFF)]
     ++ take chunk (drop offset raw))).
  { intros b. apply Forall_app. split; [|by apply Forall_take, Forall_drop].
    repeat apply Forall_cons_2; try apply u8_byte; [by destruct b|apply Forall_nil_2]. }
  destruct (Nat.eqb_spec (offset + chunk) (length raw)) as [_|_]; intros Hz.
  - apply (inj Some) in Hz as <-. apply (Hblock true).
  - destruct (stored_blocks fuel raw (offset + chunk)) as [more|] eqn:Hmore; [|done].
    cbn [fmap option_fmap option_map] in Hz. apply (inj Some) in Hz as <-.
    apply Forall_app. split; [apply (Hblock false)|by eapply IH].
Qed.

Lemma stored_blocks_length fuel raw offset z :
  stored_blocks fuel raw offset = Some z -> (offset <= length raw)%nat ->
  65535 * (Z.of_nat (length z) - (Z.of_nat (length raw) - Z.of_nat offset)) <=
  5 * (Z.of_nat (length raw) - Z.of_nat offset + 65535).
Proof.
  revert offset z. induction fuel as [|fuel IH]; intros offset z Hz Ho; [done|].
  destruct (block_size raw offset Ho) as (Hc & Hl & Hle & Hk). pose proof kMax_Z. cbn [stored_blocks] in Hz.
  set (chunk := if (kMax <? length raw - offset)%nat then kMax else (length raw - offset)%nat) in *.
  cbv zeta in Hz. clearbody chunk. destruct (Nat.eqb_spec (offset + chunk) (length raw)) as [Heq|Hne].
  - apply (inj Some) in Hz as <-. rewrite length_app, Hl. cbn [length]. lia.
  - destruct (stored_blocks fuel raw (offset + chunk)) as [more|] eqn:Hmore; [|discriminate Hz].
    cbn [fmap option_fmap option_map] in Hz. apply (inj Some) in Hz as <-.
    specialize (IH _ _ Hmore Hle). specialize (Hk Hne). rewrite !length_app, Hl. cbn [length]. lia.
Qed.

Lemma chars_byte_string l : Forall is_byte l -> chars (byte_string l) = l.
Proof.
  intros Hl. unfold chars, byte_string. rewrite String.list_ascii_of_string_of_list_ascii, map_map.
  induction Hl as [|x l Hx Hl IH]; [done|]. cbn [map]. f_equal; [|exact IH].
  unfold char_byte. unfold is_byte in Hx. rewrite nat_ascii_embedding; lia.
Qed.

(** The result of writing a text to a file that may not open or take it all. *)
Definition written `{IoErrors} `{ShortWrites} (path content : string) (d : Disk) : Disk * (unit + string) :=
  match open_file path d, short_write path content d with
  | None, _ => (d, inr "failed to open output file for writing"%string)
  | Some loc, None => (set_node loc (File content) d, inl tt)
  | Some loc, Some (n, noticed) =>
      (set_node loc (File (Str.take_string n content)) d,
       if noticed : bool then inr "failed to write image bytes"%string else inl tt)
  end.

Definition header_data (width height : Z) : list Z := be32 width ++ be32 height ++ [8; 2; 0; 0; 0].

Definition png_file (width height : Z) (z : list Z) : list Z :=
  kSig ++ chunk "IHDR" (header_data width height) ++ chunk "IDAT" z ++ chunk "IEND" [].

Lemma header_bytes width height : Forall is_byte (header_data width height).
Proof. unfold header_data. rewrite !Forall_app. split_and!; [apply be32_bytes..|]. by apply all_bytes. Qed.

Lemma bind_some {A B} (m : option A) (f : A -> option B) x : m = Some x -> m ≫= f = f x.
Proof. by intros ->. Qed.

Lemma decode_png_file width height z :
  0 <= width < 2 ^ 32 -> 0 <= height < 2 ^ 32 -> Forall is_byte z -> Z.of_nat (length z) < 2 ^ 32 ->
  decode_png (png_file width height z) =
  (raw ← read_zlib z; rgb ← read_rows (Z.to_nat height) (Z.to_nat (width * 3)) raw;
   Some (width, height, rgb)).
Proof.
  intros Hw Hh Hz Hl. unfold decode_png, png_file.
  rewrite (bind_some _ _ _ (read_bytes_app 8 kSig _ eq_refl)).
  rewrite (bind_some _ _ _ (read_chunk_app "IHDR" _ _ eq_refl (header_bytes _ _) eq_refl)).
  cbv beta iota. unfold header_data.
  rewrite (bind_some _ _ _ (read_be32_spec _ _ Hw)). cbv beta iota.
  rewrite (bind_some _ _ _ (read_be32_spec _ _ Hh)). cbv beta iota.
  rewrite (bind_some _ _ _ (read_chunk_app "IDAT" _ _ eq_refl Hz Hl)).
  rewrite <- (app_nil_r (chunk "IEND" [])).
  rewrite (bind_some _ _ _ (read_chunk_app "IEND" [] [] eq_refl (Forall_nil_2 _) eq_refl)).
  by rewrite bool_decide_true.
Qed.

Lemma png_bytes_decode width height rgb :
  0 < width -> 0 < height -> (3 * width + 1) * height < 2 ^ 31 ->
  Z.of_nat (length rgb) = width * height * 3 -> Forall is_byte rgb ->
  exists bytes, png_bytes width height rgb = Some bytes /\ Forall is_byte bytes /\
    decode_png bytes = Some (width, height, rgb).
Proof.
  intros Hw Hh Hb Hlen Hrgb. set (h := Z.to_nat height).
  assert (Hheight : height = Z.of_nat h) by (subst h; lia).
  assert (H3 : 3 * width < 2 ^ 31) by nia. assert (Hh31 : height < 2 ^ 31) by nia.
  assert (Hl : length rgb = (h * Z.to_nat (width * 3))%nat) by nia.
  set (raw := raw_rows width height rgb). assert (Hraw : Forall is_byte raw) by by apply raw_rows_bytes.
  assert (Hrawlen : Z.of_nat (length raw) < 2 ^ 31).
  { subst raw. rewrite Hheight, length_raw_rows by (done || lia). nia. }
  destruct (stored_blocks_total (S (length raw)) raw 0) as [blocks Hblocks]; [lia..|].
  assert (Hz : ZlibWrapStored raw = Some ([0x78; 0x01] ++ blocks ++ be32 (Adler32 raw)))
    by (unfold ZlibWrapStored; by rewrite Hblocks).
  set (z := [0x78; 0x01] ++ blocks ++ be32 (Adler32 raw)) in Hz.
  assert (Hzb : Forall is_byte z).
  { subst z. rewrite !Forall_app. split_and!; [|by eapply stored_blocks_bytes|apply be32_bytes].
    by apply all_bytes. }
  assert (Hzl : Z.of_nat (length z) < 2 ^ 32).
  { pose proof (stored_blocks_length _ _ _ _ Hblocks ltac:(lia)). subst z. rewrite !length_app. cbn [length be32]. lia. }
  exists (png_file width height z). split_and!.
  - unfold png_bytes. fold raw. rewrite Hz. cbn [mbind option_bind].
    rewrite !WriteChunk_app. unfold AppendBE32, png_file, header_data. by rewrite app_nil_l, <- !app_assoc.
  - unfold png_file. rewrite !Forall_app. split_and!; [by apply all_bytes|by apply chunk_bytes, header_bytes|..];
      by apply chunk_bytes.
  - rewrite decode_png_file by (done || lia). rewrite (read_zlib_wrap raw) by done.
    cbn [mbind option_bind]. fold h. subst raw. rewrite Hheight, read_raw_rows by (done || lia). done.
Qed.

Lemma write_ok `{IoErrors} `{ShortWrites} path width height rgb d :
  0 < width -> 0 < height -> (3 * width + 1) * height < 2 ^ 31 ->
  Z.of_nat (length rgb) = width * height * 3 -> Forall is_byte rgb ->
  exists content, decode_png (chars content) = Some (width, height, rgb) /\
    Write path width height rgb d = Some (written path content d).
Proof.
  intros Hw Hh Hb Hlen Hrgb.
  destruct (png_bytes_decode width height rgb) as (bytes & Hbytes & Hall & Hdec); [done..|].
  exists (byte_string bytes). split; [by rewrite chars_byte_string|].
  unfold Write. replace ((width =? 0) || (height =? 0)) with false by (symmetry; apply orb_false_iff; lia).
  assert (0 < width * height < 2 ^ 31) by nia.
  rewrite (wrap_small 64 (width * height)), wrap_small, Hlen, Z.eqb_refl by lia. cbn [negb].
  rewrite Hbytes. cbn [mbind option_bind]. unfold stream_file, written.
  destruct (open_file path d); [|done]. by destruct (short_write path _ d) as [[n []]|].
Qed.

(** C29. What the writer writes is the picture it was given. For every picture
    that a PNG can hold, the call ends and the text it writes is a well-formed PNG,
    with both checksums right and every block length consistent, that decodes to
    the same dimensions and pixels. The file holds that text unless it cannot be
    opened or the write falls short, which is reported if the stream notices, and
    nothing else on the disk changes. *)
Theorem written_png_decodes `{IoErrors} `{ShortWrites} path width height rgb d :
  0 < width -> 0 < height -> (3 * width + 1) * height < 2 ^ 31 ->
  Z.of_nat (length rgb) = width * height * 3 -> Forall is_byte rgb ->
  exists content, decode_png (chars content) = Some (width, height, rgb) /\
    Write path width height rgb d = Some (written path content d).
Proof. apply write_ok. Qed.

Lemma written_png_decodes_witness :
  let rgb := map Z.of_nat (seq 1 12) in
  let io : IoErrors := fun _ _ _ => None in
  let short : ShortWrites := fun _ _ _ => None in
  (3 * 2 + 1) * 2 < 2 ^ 31 /\
  exists content, decode_png (chars content) = Some (2, 2, rgb) /\
    Write "a.png" 2 2 rgb (mkDisk ∅ []) = Some (mkDisk {[["a.png"%string] := File content]} [], inl tt).
Proof.
  intros rgb io short. split; [done|].
  destruct (written_png_decodes "a.png" 2 2 rgb (mkDisk ∅ [])) as (content & Hdec & Hw);
    [reflexivity..| | |]; [reflexivity|by apply all_bytes|].
  exists content. split; [exact Hdec|]. rewrite Hw. reflexivity.
Defined.

End MiniPng.
