(* ===== verification/Placeholder.v ===== *)
(** * [PlaceholderThumbnailGenerator] (source/thumbnails/PlaceholderThumbnailGenerator.cpp)

    The picture drawn for a file: a gradient in a colour that depends on the
    name, a frame and two lines of text in a 3x5 font. The pixel buffer is a
    list of bytes; a write outside of it, a division by zero and a signed
    overflow, which the language leaves undefined, are [None]. Unsigned
    arithmetic wraps at its width. *)
From S2P Require Import Prelude Filesystem Png.

Module Placeholder.
Import Checksum Path.
Local Open Scope list_scope.

(** ** Integers and loops *)

Definition to_int32 (x : Z) : Z := if x <? 2 ^ 31 then x else x - 2 ^ 32.

(** The result of a signed operation. *)
Definition int32 (x : Z) : option Z := if (- 2 ^ 31 <=? x) && (x <? 2 ^ 31) then Some x else None.

Definition div_int (a b : Z) : option Z := if b =? 0 then None else int32 (Z.quot a b).

Definition poke (i v : Z) (rgb : list Z) : option (list Z) :=
  if (0 <=? i) && (i <? Z.of_nat (length rgb)) then Some (<[Z.to_nat i := v]> rgb) else None.

Definition range (lo hi : Z) : list Z := map (fun k => lo + Z.of_nat k) (seq 0 (Z.to_nat (hi - lo))).

Fixpoint for_option {X A} (l : list X) (body : X -> A -> option A) (a : A) : option A :=
  match l with
  | [] => Some a
  | x :: l => a ← body x a; for_option l body a
  end.

(** ** Colours *)

Definition Fnv1aHash (s : string) : Z :=
  foldl (fun h c => u32 (Z.lxor h (MiniPng.char_byte c) * 0x01000193)) 0x811C9DC5
    (String.list_ascii_of_string s).

Definition HashToTint (h : Z) : Z * Z * Z :=
  (u8 (80 + Z.land (Z.shiftr h 0) 0x7F), u8 (80 + Z.land (Z.shiftr h 8) 0x7F),
   u8 (80 + Z.land (Z.shiftr h 16) 0x7F)).

(** ** The font *)

(** The five rows; bit 2 is the left column. *)
Definition GlyphFor (ch : ascii) : list Z :=
  match ch with
  | " " => [0; 0; 0; 0; 0]
  | "." => [0; 0; 0; 0; 2]
  | "-" => [0; 0; 7; 0; 0]
  | "_" => [0; 0; 0; 0; 7]
  | "0" => [7; 5; 5; 5; 7]
  | "1" => [2; 6; 2; 2; 7]
  | "2" => [7; 1; 7; 4; 7]
  | "3" => [7; 1; 7; 1; 7]
  | "4" => [5; 5; 7; 1; 1]
  | "5" => [7; 4; 7; 1; 7]
  | "6" => [7; 4; 7; 5; 7]
  | "7" => [7; 1; 2; 2; 2]
  | "8" => [7; 5; 7; 5; 7]
  | "9" => [7; 5; 7; 1; 7]
  | "a" | "A" => [2; 5; 7; 5; 5]
  | "b" | "B" => [6; 5; 6; 5; 6]
  | "c" | "C" => [7; 4; 4; 4; 7]
  | "d" | "D" => [6; 5; 5; 5; 6]
  | "e" | "E" => [7; 4; 6; 4; 7]
  | "f" | "F" => [7; 4; 6; 4; 4]
  | "g" | "G" => [7; 4; 5; 5; 7]
  | "h" | "H" => [5; 5; 7; 5; 5]
  | "i" | "I" => [7; 2; 2; 2; 7]
  | "j" | "J" => [7; 1; 1; 5; 7]
  | "k" | "K" => [5; 6; 4; 6; 5]
  | "l" | "L" => [4; 4; 4; 4; 7]
  | "m" | "M" => [5; 7; 7; 5; 5]
  | "n" | "N" => [5; 7; 7; 7; 5]
  | "o" | "O" => [7; 5; 5; 5; 7]
  | "p" | "P" => [7; 5; 7; 4; 4]
  | "q" | "Q" => [7; 5; 5; 7; 3]
  | "r" | "R" => [7; 5; 6; 5; 5]
  | "s" | "S" => [7; 4; 7; 1; 7]
  | "t" | "T" => [7; 2; 2; 2; 2]
  | "u" | "U" => [5; 5; 5; 5; 7]
  | "v" | "V" => [5; 5; 5; 5; 2]
  | "w" | "W" => [5; 5; 7; 7; 5]
  | "x" | "X" => [5; 5; 2; 5; 5]
  | "y" | "Y" => [5; 5; 2; 2; 2]
  | "z" | "Z" => [7; 1; 2; 4; 7]
  | _ => [7; 7; 7; 7; 7]
  end%char.

(** ** Drawing *)

Definition put_pixel (row r g b : Z) (rgb : list Z) : option (list Z) :=
  rgb ← poke row r rgb; rgb ← poke (row + 1) g rgb; poke (row + 2) b rgb.

(** [row] starts at [x0] and moves with [x]. *)
Definition FillRect (w h x0 y0 rw rh r g b : Z) (rgb : list Z) : option (list Z) :=
  let x1 := Z.min w (u32 (x0 + rw)) in
  let y1 := Z.min h (u32 (y0 + rh)) in
  for_option (range y0 y1) (fun y rgb =>
    let row := u64 (u64 (y * w + x0) * 3) in
    for_option (range x0 x1) (fun x rgb => put_pixel (row + 3 * (x - x0)) r g b rgb) rgb) rgb.

Definition DrawChar (w h x0 y0 scale : Z) (ch : ascii) (r g b : Z) (rgb : list Z) : option (list Z) :=
  let glyph := GlyphFor ch in
  for_option (range 0 5) (fun row rgb =>
    for_option (range 0 3) (fun col rgb =>
      bits ← glyph !! Z.to_nat row;
      if negb (Z.land bits (Z.shiftl 1 (2 - col)) =? 0)
      then FillRect w h (u32 (x0 + u32 (col * scale))) (u32 (y0 + u32 (row * scale)))
             scale scale r g b rgb
      else Some rgb) rgb) rgb.

Definition DrawStringCentered (w h y0 scale : Z) (text : string) (r g b : Z) (rgb : list Z) :
    option (list Z) :=
  if Str.is_empty text then Some rgb
  else
    let size := Z.of_nat (String.length text) in
    let char_w := u32 (3 * scale) in
    let spacing := scale in
    let total_w := u32 (u32 (u32 size * char_w) + u32 (u32 (size - 1) * spacing)) in
    if w <=? total_w then Some rgb
    else
      let x := (w - total_w) / 2 in
      snd <$> for_option (String.list_ascii_of_string text) (fun ch '(x, rgb) =>
        rgb ← DrawChar w h x y0 scale ch r g b rgb;
        Some (u32 (x + u32 (char_w + spacing)), rgb)) (x, rgb).

Definition clamp (v : Z) : Z := Z.max 0 (Z.min 255 v).

(** One channel of the gradient. *)
Definition shade (d t axis tint : Z) : option Z :=
  p ← int32 ((tint - d) * t); q ← div_int p axis; v ← int32 (d + q); Some (u8 (clamp v)).

Definition PaintGradient (w h tr tg tb : Z) (rgb : list Z) : option (list Z) :=
  let dr := Z.quot tr 6 in
  let dg := Z.quot tg 6 in
  let db := Z.quot tb 6 in
  let max_axis := to_int32 (u32 (w + h)) in
  for_option (range 0 h) (fun y rgb =>
    for_option (range 0 w) (fun x rgb =>
      let t := to_int32 (u32 (x + y)) in
      r ← shade dr t max_axis tr;
      g ← shade dg t max_axis tg;
      b ← shade db t max_axis tb;
      put_pixel (u64 (u64 (y * w + x) * 3)) r g b rgb) rgb) rgb.

(** ** The labels *)

(** What opening the layer gives: an exception, no layer, or the name of its
    default prim ([""] if it has none) and of its root prims. *)
Inductive opened_layer := LayerThrows | NoLayer | Layer (default_prim : string) (root_prims : list string).

Definition DescribeUsdFile (l : opened_layer) : string :=
  match l with
  | LayerThrows | NoLayer => "USD"
  | Layer default_prim root_prims =>
      if negb (Str.is_empty default_prim) then default_prim
      else match root_prims with name :: _ => name | [] => "USD" end
  end.

Definition in_range (lo hi c : ascii) : bool :=
  (MiniPng.char_byte lo <=? MiniPng.char_byte c) && (MiniPng.char_byte c <=? MiniPng.char_byte hi).

Definition label_char (c : ascii) : bool :=
  in_range "a" "z" c || in_range "A" "Z" c || in_range "0" "9" c
  || Ascii.eqb c "." || Ascii.eqb c "-" || Ascii.eqb c "_" || Ascii.eqb c " ".

Definition PrepareLabel (s : string) (max_chars : nat) : string :=
  let out := List.filter label_char (String.list_ascii_of_string s) in
  String.string_of_list_ascii (if (max_chars <? length out)%nat then take max_chars out else out).

(** ** The picture *)

(** The lambda [max_scale]. *)
Definition max_scale (w : Z) (s : string) : Z :=
  if Str.is_empty s then 0
  else
    let denom := u32 (4 * Z.of_nat (String.length s) - 1) in
    let avail := u32 (w * 4) / 5 in
    Z.max 1 (avail / denom).

(** The scale and the top of each line. *)
Definition layout (w h : Z) (stem label : string) : Z * Z * Z * Z :=
  let s1 := max_scale w stem in
  let s2 := max_scale w label in
  let line1_h := u32 (5 * s1) in
  let line2_h := u32 (5 * s2) in
  let gap := Z.max s1 s2 in
  let y1 := u32 (h - line1_h - line2_h - gap) / 2 in
  let y2 := u32 (y1 + line1_h + gap) in
  (s1, s2, y1, y2).

Definition paint (w h : Z) (basename stem label : string) : option (list Z) :=
  let rgb := replicate (Z.to_nat (u64 (u64 (w * h) * 3))) 0 in
  let '(tr, tg, tb) := HashToTint (Fnv1aHash basename) in
  rgb ← PaintGradient w h tr tg tb rgb;
  let border := Z.max 2 (w / 64) in
  rgb ← FillRect w h 0 0 w border 20 20 20 rgb;
  rgb ← FillRect w h 0 (u32 (h - border)) w border 20 20 20 rgb;
  rgb ← FillRect w h 0 0 border h 20 20 20 rgb;
  rgb ← FillRect w h (u32 (w - border)) 0 border h 20 20 20 rgb;
  let '(s1, s2, y1, y2) := layout w h stem label in
  rgb ← DrawStringCentered w h y1 s1 stem 255 255 255 rgb;
  DrawStringCentered w h y2 s2 label 220 220 220 rgb.

(** The constructor. *)
Definition m_size_ (size : Z) : Z := if size =? 0 then 256 else size.

Section generate.
Context `{Disk.IoErrors} `{Disk.ShortWrites}.

(** The error is [out_error]. *)
Definition Generate (size : Z) (layer : opened_layer) (usd_file out_path : string) (d : Disk.Disk) :
    option (Disk.Disk * (unit + string)) :=
  let w := m_size_ size in
  let h := m_size_ size in
  rgb ← paint w h (filename usd_file) (PrepareLabel (stem usd_file) 16)
          (PrepareLabel (DescribeUsdFile layer) 16);
  '(d', r) ← MiniPng.Write out_path w h rgb d;
  Some (d', match r with
            | inl _ => inl tt
            | inr png_err => inr ("PNG write failed: " ++ png_err)%string
            end).
End generate.

(** ** Nothing undefined happens *)

(** A buffer of [w] by [h] pixels. *)
Definition picture (w h : Z) (rgb : list Z) : Prop :=
  Z.of_nat (length rgb) = w * h * 3 /\ Forall is_byte rgb.

(** A defined result that satisfies [P]. *)
Definition defined {A} (P : A -> Prop) (o : option A) : Prop := exists a, o = Some a /\ P a.

Lemma defined_some {A} (P : A -> Prop) a : P a -> defined P (Some a).
Proof. by exists a. Qed.

Lemma defined_bind {A B} (P : A -> Prop) (Q : B -> Prop) (o : option A) (f : A -> option B) :
  defined P o -> (forall a, P a -> defined Q (f a)) -> defined Q (o ≫= f).
Proof. intros (a & -> & Ha) Hf. by apply Hf. Qed.

Lemma defined_for {X A} (P : A -> Prop) (l : list X) body a :
  (forall x a, x ∈ l -> P a -> defined P (body x a)) -> P a -> defined P (for_option l body a).
Proof.
  intros Hb. revert a. induction l as [|x l IH]; intros a Ha; [by apply defined_some|].
  cbn [for_option]. apply (defined_bind P); [apply Hb; [left|done]|].
  intros a' Ha'. apply IH; [|done]. intros y b Hy. apply Hb. by right.
Qed.

Lemma elem_of_range lo hi x : x ∈ range lo hi -> lo <= x < hi.
Proof. unfold range. intros (k & -> & Hk)%list_elem_of_fmap. apply elem_of_seq in Hk. lia. Qed.

Lemma int32_ok x : - 2 ^ 31 <= x < 2 ^ 31 -> int32 x = Some x.
Proof.
  intros Hx. unfold int32. rewrite (proj2 (andb_true_iff _ _)); [done|]. rewrite Z.leb_le, Z.ltb_lt. lia.
Qed.

Section picture.
Context (w h : Z).
Hypothesis Hw : 0 < w < 2 ^ 20.
Hypothesis Hh : 0 < h < 2 ^ 20.

Lemma poke_ok i v rgb :
  0 <= i < w * h * 3 -> is_byte v -> picture w h rgb -> defined (picture w h) (poke i v rgb).
Proof.
  intros Hi Hv [Hl Hb]. unfold poke.
  replace ((0 <=? i) && (i <? Z.of_nat (length rgb))) with true
    by (symmetry; apply andb_true_iff; rewrite Z.leb_le, Z.ltb_lt; lia).
  apply defined_some. split; [by rewrite length_insert|by apply Forall_insert].
Qed.

Lemma put_pixel_ok i r g b rgb :
  0 <= i -> i + 2 < w * h * 3 -> is_byte r -> is_byte g -> is_byte b -> picture w h rgb ->
  defined (picture w h) (put_pixel i r g b rgb).
Proof.
  intros Hi Hi2 Hr Hg Hb Hp. unfold put_pixel.
  apply (defined_bind (picture w h)); [apply poke_ok; (done || lia)|]. intros rgb1 H1.
  apply (defined_bind (picture w h)); [apply poke_ok; (done || lia)|]. intros rgb2 H2.
  apply poke_ok; (done || lia).
Qed.

(** The pixel in column [x] of row [y]. *)
Lemma pixel_address x y :
  0 <= x < w -> 0 <= y < h -> u64 (u64 (y * w + x) * 3) = (y * w + x) * 3 /\
  0 <= (y * w + x) * 3 /\ (y * w + x) * 3 + 2 < w * h * 3.
Proof.
  intros Hx Hy. assert (Hyw : 0 <= y * w) by nia. assert (Hlt : y * w + x < w * h) by nia.
  assert (w * h < 2 ^ 40) by nia. rewrite (wrap_small 64 (y * w + x)), wrap_small by lia. lia.
Qed.

Lemma FillRect_ok x0 y0 rw rh r g b rgb :
  0 <= x0 -> 0 <= y0 -> is_byte r -> is_byte g -> is_byte b -> picture w h rgb ->
  defined (picture w h) (FillRect w h x0 y0 rw rh r g b rgb).
Proof.
  intros Hx0 Hy0 Hr Hg Hb Hp. apply defined_for; [|done]. intros y rgb1 Hy%elem_of_range H1.
  apply defined_for; [|done]. intros x rgb2 Hx%elem_of_range H2.
  destruct (pixel_address x0 y) as (-> & _ & _); [lia..|].
  destruct (pixel_address x y) as (_ & Hlo & Hhi); [lia..|].
  apply put_pixel_ok; (done || lia).
Qed.

Lemma glyph_rows ch row : 0 <= row < 5 -> is_Some (GlyphFor ch !! Z.to_nat row).
Proof.
  intros Hrow. apply lookup_lt_is_Some.
  assert (length (GlyphFor ch) = 5%nat) as -> by by destruct ch as [[] [] [] [] [] [] [] []]. lia.
Qed.

Lemma DrawChar_ok x0 y0 scale ch r g b rgb :
  is_byte r -> is_byte g -> is_byte b -> picture w h rgb ->
  defined (picture w h) (DrawChar w h x0 y0 scale ch r g b rgb).
Proof.
  intros Hr Hg Hb Hp. apply defined_for; [|done]. intros row rgb1 Hrow%elem_of_range H1.
  apply defined_for; [|done]. intros col rgb2 _ H2.
  destruct (glyph_rows ch row Hrow) as [bits ->]. cbn [mbind option_bind].
  destruct (negb _); [|by apply defined_some].
  apply FillRect_ok; try done; by apply wrap_bounds.
Qed.

Lemma DrawStringCentered_ok y0 scale text r g b rgb :
  is_byte r -> is_byte g -> is_byte b -> picture w h rgb ->
  defined (picture w h) (DrawStringCentered w h y0 scale text r g b rgb).
Proof.
  intros Hr Hg Hb Hp. unfold DrawStringCentered. destruct (Str.is_empty text); [by apply defined_some|].
  destruct (w <=? _); [by apply defined_some|]. cbv zeta.
  destruct (defined_for (fun s : Z * list Z => picture w h (snd s)) (String.list_ascii_of_string text)
    (fun ch '(x, rgb) => rgb ← DrawChar w h x y0 scale ch r g b rgb;
       Some (u32 (x + u32 (u32 (3 * scale) + scale)), rgb))
    ((w - u32 (u32 (u32 (Z.of_nat (String.length text)) * u32 (3 * scale)) +
       u32 (u32 (Z.of_nat (String.length text) - 1) * scale))) / 2, rgb)) as (s & -> & Hs); [|done|by exists (snd s)].
  intros ch [x rgb1] _ H1. cbn in H1. apply (defined_bind (picture w h)); [by apply DrawChar_ok|].
  intros rgb2 H2. by apply defined_some.
Qed.

Lemma shade_ok t tint :
  0 <= t < w + h -> is_byte tint -> defined is_byte (shade (Z.quot tint 6) t (w + h) tint).
Proof.
  intros Ht Htint. unfold is_byte in Htint. unfold shade.
  rewrite Z.quot_div_nonneg by lia. set (d := tint / 6).
  assert (Hd : 0 <= d <= tint) by (subst d; divlia).
  assert (Hp : 0 <= (tint - d) * t <= 256 * (w + h)) by nia.
  rewrite int32_ok by lia. cbn [mbind option_bind]. unfold div_int.
  destruct (Z.eqb_spec (w + h) 0) as [|_]; [lia|].
  rewrite Z.quot_div_nonneg by lia. set (q := (tint - d) * t / (w + h)).
  assert (Hq : 0 <= q <= 256).
  { subst q. split; [apply Z.div_pos; lia|]. apply Z.div_le_upper_bound; nia. }
  rewrite int32_ok by lia. cbn [mbind option_bind]. rewrite int32_ok by lia. cbn [mbind option_bind].
  apply defined_some. by apply (wrap_bounds 8).
Qed.

Lemma to_int32_small x : 0 <= x < 2 ^ 31 -> to_int32 (u32 x) = x.
Proof.
  intros Hx. unfold to_int32. rewrite wrap_small by lia. destruct (Z.ltb_spec x (2 ^ 31)); lia.
Qed.

Lemma PaintGradient_ok tr tg tb rgb :
  is_byte tr -> is_byte tg -> is_byte tb -> picture w h rgb ->
  defined (picture w h) (PaintGradient w h tr tg tb rgb).
Proof.
  intros Hr Hg Hb Hp. unfold PaintGradient. cbv zeta. apply defined_for; [|done]. intros y rgb1 Hy%elem_of_range H1.
  apply defined_for; [|done]. intros x rgb2 Hx%elem_of_range H2.
  rewrite !to_int32_small by lia.
  apply (defined_bind is_byte); [apply shade_ok; (done || lia)|]. intros r Hr'.
  apply (defined_bind is_byte); [apply shade_ok; (done || lia)|]. intros g Hg'.
  apply (defined_bind is_byte); [apply shade_ok; (done || lia)|]. intros b Hb'.
  destruct (pixel_address x y) as (-> & Hlo & Hhi); [done..|]. by apply put_pixel_ok.
Qed.

Lemma paint_ok basename stem label : defined (picture w h) (paint w h basename stem label).
Proof.
  unfold paint. destruct (HashToTint (Fnv1aHash basename)) as [[tr tg] tb] eqn:Ht.
  assert (is_byte tr /\ is_byte tg /\ is_byte tb) as (Hr & Hg & Hb).
  { unfold HashToTint in Ht. injection Ht as <- <- <-. split_and!; by apply (wrap_bounds 8). }
  assert (w * h < 2 ^ 40) by nia.
  assert (Hstart : picture w h (replicate (Z.to_nat (u64 (u64 (w * h) * 3))) 0)).
  { rewrite (wrap_small 64 (w * h)), wrap_small by nia. split.
    - rewrite length_replicate, Z2Nat.id by nia. done.
    - by apply Forall_replicate. }
  assert (Hu : forall x, 0 <= u32 x) by (intros x; by apply (wrap_bounds 32)).
  apply (defined_bind (picture w h)); [by apply PaintGradient_ok|]. intros rgb1 Hrgb1. cbv zeta.
  do 4 (apply (defined_bind (picture w h)); [by apply FillRect_ok|]; intros ? ?).
  destruct (layout w h stem label) as [[[s1 s2] y1] y2].
  apply (defined_bind (picture w h)); [by apply DrawStringCentered_ok|]. intros rgb2 Hrgb2.
  by apply DrawStringCentered_ok.
Qed.
End picture.

Lemma m_size_bounds size : 0 <= size < 2 ^ 14 -> 0 < m_size_ size < 2 ^ 14.
Proof. unfold m_size_. destruct (Z.eqb_spec size 0); lia. Qed.

(** Drawing and encoding have a result. *)
Lemma generate_defined `{Disk.IoErrors} `{Disk.ShortWrites} size layer usd_file out_path d :
  0 <= size < 2 ^ 14 -> exists d' r, Generate size layer usd_file out_path d = Some (d', r).
Proof.
  intros Hb%m_size_bounds. set (s := m_size_ size) in *.
  destruct (paint_ok s s ltac:(lia) ltac:(lia) (filename usd_file) (PrepareLabel (stem usd_file) 16)
    (PrepareLabel (DescribeUsdFile layer) 16)) as (rgb & Hrgb & Hl & Hbytes).
  destruct (MiniPng.write_ok out_path s s rgb d) as (content & _ & Hw); [lia|lia|nia|done|done|].
  unfold Generate. fold s. rewrite Hrgb. cbn [mbind option_bind]. rewrite Hw. cbn [mbind option_bind].
  destruct (MiniPng.written out_path content d). by eexists _, _.
Qed.

(** C30. A thumbnail is always drawn. For every file name, whatever the layer
    contains and for every size below 2^14 pixels, drawing never writes outside the
    pixel buffer, never divides by zero and never overflows a signed integer;
    and the text written to the output file is a PNG of the requested size that
    decodes to the picture drawn. *)
Theorem thumbnail_always_drawn `{Disk.IoErrors} `{Disk.ShortWrites} size layer usd_file out_path d :
  0 <= size < 2 ^ 14 ->
  let s := m_size_ size in
  exists rgb content,
    paint s s (filename usd_file) (PrepareLabel (stem usd_file) 16)
      (PrepareLabel (DescribeUsdFile layer) 16) = Some rgb /\
    MiniPng.decode_png (MiniPng.chars content) = Some (s, s, rgb) /\
    Generate size layer usd_file out_path d =
      Some (let '(d', r) := MiniPng.written out_path content d in
            (d', match r with inl _ => inl tt | inr e => inr ("PNG write failed: " ++ e)%string end)).
Proof.
  intros Hs s. pose proof (m_size_bounds size Hs) as Hb. fold s in Hb.
  destruct (paint_ok s s ltac:(lia) ltac:(lia) (filename usd_file) (PrepareLabel (stem usd_file) 16)
    (PrepareLabel (DescribeUsdFile layer) 16)) as (rgb & Hrgb & Hl & Hbytes).
  destruct (MiniPng.write_ok out_path s s rgb d) as (content & Hdec & Hw); [lia|lia|nia|done|done|].
  exists rgb, content. split_and!; [done..|]. unfold Generate. fold s. rewrite Hrgb.
  cbn [mbind option_bind]. rewrite Hw. cbn [mbind option_bind].
  by destruct (MiniPng.written out_path content d).
Qed.

Lemma thumbnail_always_drawn_witness :
  let io : Disk.IoErrors := fun _ _ _ => None in
  let short : Disk.ShortWrites := fun _ _ _ => None in
  0 <= 3 < 2 ^ 14 /\
  exists rgb content,
    MiniPng.decode_png (MiniPng.chars content) = Some (3, 3, rgb) /\
    Generate 3 (Layer "" ["World"%string]) "models/cup.usd" "t.png" (Disk.mkDisk ∅ []) =
      Some (Disk.mkDisk {[["t.png"%string] := Disk.File content]} [], inl tt).
Proof.
  intros io short. split; [lia|].
  destruct (thumbnail_always_drawn 3 (Layer "" ["World"%string]) "models/cup.usd" "t.png" (Disk.mkDisk ∅ []))
    as (rgb & content & _ & Hdec & Hgen); [lia|].
  exists rgb, content. split; [exact Hdec|]. rewrite Hgen. reflexivity.
Defined.

(** ** Text that is too tall

    The scales are chosen by the width only. When the two lines and the gap
    are higher than the picture, the height left over wraps around and both
    lines end up far below the bottom. *)

Lemma for_option_same {X A} (l : list X) body (a : A) :
  (forall x, x ∈ l -> body x a = Some a) -> for_option l body a = Some a.
Proof.
  induction l as [|x l IH]; intros Hb; [done|]. cbn [for_option]. rewrite (Hb x) by left.
  apply IH. intros y Hy. apply Hb. by right.
Qed.

Lemma DrawChar_below w h x0 y0 scale ch r g b rgb :
  0 <= h <= y0 -> 0 <= scale -> y0 + 4 * scale < 2 ^ 32 ->
  DrawChar w h x0 y0 scale ch r g b rgb = Some rgb.
Proof.
  intros Hh Hs Hb. apply for_option_same. intros row Hrow%elem_of_range.
  apply for_option_same. intros col _. destruct (glyph_rows ch row Hrow) as [bits ->].
  cbn [mbind option_bind]. destruct (negb _); [|done]. unfold FillRect.
  assert (0 <= row * scale <= 4 * scale) by nia. rewrite (wrap_small 32 (row * scale)) by lia.
  rewrite (wrap_small 32 (y0 + row * scale)) by lia. unfold range at 1.
  replace (Z.to_nat (Z.min h _ - _)) with 0%nat by lia. done.
Qed.

Lemma DrawStringCentered_below w h y0 scale text r g b rgb :
  0 <= h <= y0 -> 0 <= scale -> y0 + 4 * scale < 2 ^ 32 ->
  DrawStringCentered w h y0 scale text r g b rgb = Some rgb.
Proof.
  intros Hh Hs Hb. unfold DrawStringCentered. destruct (Str.is_empty text); [done|].
  destruct (w <=? _); [done|]. cbv zeta. generalize ((w - u32 (u32 (u32 (Z.of_nat (String.length text)) *
    u32 (3 * scale)) + u32 (u32 (Z.of_nat (String.length text) - 1) * scale))) / 2).
  induction (String.list_ascii_of_string text) as [|ch l IH]; intros x; [done|]. cbn [for_option].
  rewrite DrawChar_below by done. cbn [mbind option_bind]. apply IH.
Qed.

Lemma max_scale_bounds w s : 0 <= w < 2 ^ 20 -> 0 <= max_scale w s <= Z.max 1 w.
Proof.
  intros Hw. unfold max_scale. destruct (Str.is_empty s); [lia|]. rewrite (wrap_small 32 (w * 4)) by lia.
  set (denom := u32 _). set (avail := w * 4 / 5).
  assert (0 <= avail <= w) by (subst avail; divlia).
  assert (0 <= avail / denom <= avail); [|lia]. assert (0 <= denom) by by apply (wrap_bounds 32).
  destruct (Z.eq_dec denom 0) as [->|]; [rewrite Z.div_0_r; lia|].
  split; [apply Z.div_pos; lia|]. apply Z.div_le_upper_bound; nia.
Qed.

Lemma tall_text_not_drawn w h basename stem label :
  0 < w < 2 ^ 20 -> 0 < h < 2 ^ 20 ->
  let s1 := max_scale w stem in let s2 := max_scale w label in
  h < 5 * s1 + 5 * s2 + Z.max s1 s2 ->
  paint w h basename stem label = paint w h basename "" "".
Proof.
  intros Hw Hh s1 s2 Htall. pose proof (max_scale_bounds w stem ltac:(lia)) as H1.
  pose proof (max_scale_bounds w label ltac:(lia)) as H2. fold s1 in H1. fold s2 in H2.
  assert (Hy : exists y1 y2, layout w h stem label = (s1, s2, y1, y2) /\
    h <= y1 < 2 ^ 31 /\ h <= y2 < 2 ^ 31 + 2 ^ 24).
  { unfold layout. fold s1 s2. rewrite (wrap_small 32 (5 * s1)), (wrap_small 32 (5 * s2)) by lia.
    set (left := h - 5 * s1 - 5 * s2 - Z.max s1 s2).
    assert (u32 left = left + 2 ^ 32) as ->.
    { unfold wrap. symmetry. apply (Z.mod_unique _ _ (-1)); subst left; lia. }
    assert (2 ^ 31 - 2 ^ 23 <= (left + 2 ^ 32) / 2 < 2 ^ 31).
    { split; [apply Z.div_le_lower_bound|apply Z.div_lt_upper_bound]; subst left; lia. }
    rewrite (wrap_small 32) by lia. do 2 eexists. split; [reflexivity|]. lia. }
  destruct Hy as (y1 & y2 & Hlayout & Hy1 & Hy2). unfold paint.
  destruct (HashToTint (Fnv1aHash basename)) as [[tr tg] tb]. rewrite Hlayout.
  destruct (PaintGradient _ _ _ _ _ _) as [rgb|]; [|done]. cbn [mbind option_bind]. cbv zeta.
  do 4 (destruct (FillRect _ _ _ _ _ _ _ _ _ _) as [?|]; [|done]; cbn [mbind option_bind]).
  rewrite DrawStringCentered_below by lia. cbn [mbind option_bind].
  by rewrite DrawStringCentered_below by lia.
Qed.

(** At the default size a name of two characters leaves the picture without
    any text, if the layer has no default prim. *)
Example short_names_are_not_drawn basename :
  paint (m_size_ 0) (m_size_ 0) basename (PrepareLabel (stem "ab.usd") 16)
    (PrepareLabel (DescribeUsdFile (Layer "" [])) 16) =
  paint (m_size_ 0) (m_size_ 0) basename "" "".
Proof. apply tall_text_not_drawn; [done..|]. vm_compute. reflexivity. Qed.

End Placeholder.
