(* ===== verification/Locator.v ===== *)
(** * [UsdFileLocator] and session ids (source/utils/UsdFileLocator.h, Uuid.h)

    The checks between a path a client sends and the file system: percent
    decoding, the allowed characters, canonicalisation below the uploads root,
    and the target of an upload. The calls on the disk are those of
    [Filesystem.v]. *)
From S2P Require Import Prelude Filesystem PathFacts.

Module Locator.
Import Str Path Disk PathFacts.
Local Open Scope string_scope.
Local Open Scope list_scope.
Local Open Scope Z_scope.

Inductive Status :=
| Ok | InvalidEncoding | InvalidPath | NotFound | NotAUsdFile | OutsideRoot | PermissionDenied.

#[global] Instance Status_eq_dec : EqDecision Status.
Proof. solve_decision. Defined.

Record UsdFileLocator := mkLocator { m_root_ : string; m_session_root_ : string }.

Definition default_locator : UsdFileLocator := mkLocator "uploads" "sessions".

Definition GetRoot (l : UsdFileLocator) : string := m_root_ l.
Definition GetSessionRoot (l : UsdFileLocator) : string := m_session_root_ l.

(** ** Characters *)

Definition code (c : ascii) : Z := Z.of_nat (nat_of_ascii c).

Definition in_range (lo hi : ascii) (c : ascii) : bool := (code lo <=? code c) && (code c <=? code hi).

(** The lambda [hex] of [PercentDecode]. *)
Definition hex (c : ascii) : Z :=
  if in_range "0" "9" c then code c - code "0"
  else if in_range "A" "F" c then 10 + (code c - code "A")
  else if in_range "a" "f" c then 10 + (code c - code "a")
  else -1.

Definition byte_char (n : Z) : ascii := ascii_of_nat (Z.to_nat (u8 n)).

(** [None] is the [false] of the code. *)
Fixpoint PercentDecode (decode_plus_as_space reject_encoded_slash : bool) (s : string) :
    option string :=
  match s with
  | EmptyString => Some EmptyString
  | String c rest =>
      if Ascii.eqb c "%" then
        match rest with
        | String h (String l rest') =>
            let hi := hex h in
            let lo := hex l in
            if (hi <? 0) || (lo <? 0) then None
            else
              let byte := byte_char (Z.lor (Z.shiftl hi 4) lo) in
              if reject_encoded_slash && Ascii.eqb byte "/" then None
              else String byte <$> PercentDecode decode_plus_as_space reject_encoded_slash rest'
        | _ => None
        end
      else if Ascii.eqb c "+" && decode_plus_as_space then
        String " " <$> PercentDecode decode_plus_as_space reject_encoded_slash rest
      else String c <$> PercentDecode decode_plus_as_space reject_encoded_slash rest
  end.

(** The character classes of the three regular expressions. *)
Definition name_char (c : ascii) : bool :=
  Ascii.eqb c " " || in_range "a" "z" c || in_range "A" "Z" c || in_range "0" "9" c
  || Ascii.eqb c "." || Ascii.eqb c "_" || Ascii.eqb c "-".

Definition path_char (c : ascii) : bool := name_char c || Ascii.eqb c "/".

Definition valid_path_regex (s : string) : bool := negb (is_empty s) && all_chars path_char s.
Definition valid_name_regex (s : string) : bool := negb (is_empty s) && all_chars name_char s.
Definition valid_dir_regex (s : string) : bool := valid_path_regex s.

Definition IsUsdFilename (filename : string) : bool :=
  ends_with ".usd" filename || ends_with ".usda" filename || ends_with ".usdc" filename
  || ends_with ".usdz" filename.

Definition StatusToString (s : Status) : string :=
  match s with
  | Ok => "Ok"
  | InvalidEncoding => "InvalidEncoding"
  | InvalidPath => "InvalidPath"
  | NotFound => "NotFound"
  | NotAUsdFile => "NotAUsdFile"
  | OutsideRoot => "OutsideRoot"
  | PermissionDenied => "PermissionDenied"
  end.

Definition ClassifyFilesystemError (ec : errc) : Status :=
  if bool_decide (ec = permission_denied) || bool_decide (ec = operation_not_permitted)
     || bool_decide (ec = read_only_file_system)
  then PermissionDenied else NotFound.

(** ** Paths of existing files *)

(** The status, and [out_decoded] (meaningful on [Ok]). *)
Definition ValidatePath (filepath : string) : Status * string :=
  match PercentDecode false false filepath with
  | None => (InvalidEncoding, "")
  | Some decoded =>
      if contains ".." decoded then (InvalidPath, decoded)
      else if negb (valid_path_regex decoded) then (InvalidPath, decoded)
      else (Ok, decoded)
  end.

(** The status and [out_resolved], set on [Ok] only. *)
Definition Resolve (l : UsdFileLocator) (filepath : string) (d : Disk) : Status * option string :=
  let '(s, decoded) := ValidatePath filepath in
  if negb (bool_decide (s = Ok)) then (s, None)
  else
    let candidate := join (m_root_ l) decoded in
    match canonical d (m_root_ l) with
    | inr _ => (NotFound, None)
    | inl canonical_root =>
        match canonical d candidate with
        | inr _ => (NotFound, None)
        | inl canonical_file =>
            if negb (is_prefix canonical_root canonical_file) then (OutsideRoot, None)
            else if negb (exists_ d candidate) then (NotFound, None)
            else if negb (IsUsdFilename (filename candidate)) then (NotAUsdFile, None)
            else (Ok, Some candidate)
        end
    end.

Definition IsValid (l : UsdFileLocator) (filepath : string) (d : Disk) : bool :=
  bool_decide (fst (Resolve l filepath d) = Ok).

(** ** Upload targets *)

Definition is_separator (c : ascii) : bool := Ascii.eqb c "/" || Ascii.eqb c "\".

Definition trim_separators (s : string) : string := drop_back is_separator (drop_front is_separator s).

(** The status, and on [Ok] the path to write and the path below the root. *)
Definition ValidateUploadTarget (l : UsdFileLocator) (raw_relative_dir raw_filename : string) :
    Status * option (string * string) :=
  match PercentDecode false true raw_filename with
  | None => (InvalidEncoding, None)
  | Some decoded_filename =>
      if is_empty decoded_filename || contains ".." decoded_filename || contains ".." raw_filename
         || contains_char "/" decoded_filename || contains_char "\" decoded_filename
      then (InvalidPath, None)
      else if negb (valid_name_regex decoded_filename) then (InvalidPath, None)
      else if negb (IsUsdFilename decoded_filename) then (NotAUsdFile, None)
      else
        match PercentDecode false false raw_relative_dir with
        | None => (InvalidEncoding, None)
        | Some decoded =>
            let decoded_dir := trim_separators decoded in
            if contains ".." decoded_dir || contains ".." raw_relative_dir
               || contains_char "\" decoded_dir
            then (InvalidPath, None)
            else if negb (is_empty decoded_dir) && negb (valid_dir_regex decoded_dir)
            then (InvalidPath, None)
            else
              let root := m_root_ l in
              let relative :=
                if is_empty decoded_dir then decoded_filename
                else join decoded_dir decoded_filename in
              let candidate := normal_components (join root relative) in
              if negb (is_prefix (normal_components root) candidate) then (OutsideRoot, None)
              else if existsb (fun part => String.eqb part "..") (components relative)
              then (OutsideRoot, None)
              else (Ok, Some (lexically_normal (join root relative), relative))
        end
  end.

Section calls.
Context `{IoErrors}.

Definition write_test (p : string) (d : Disk) : Disk * bool := write_file p "" d.

Definition EnsureRootExists (l : UsdFileLocator) (d : Disk) : Disk * Status :=
  match create_directories (m_root_ l) d with
  | (d, Some ec) => (d, ClassifyFilesystemError ec)
  | (d, None) =>
      let probe := join (m_root_ l) ".idtx-write-test" in
      let d := fst (remove probe d) in
      match write_test probe d with
      | (d, false) => (d, PermissionDenied)
      | (d, true) => (fst (remove probe d), Ok)
      end
  end.

Definition EnsureDirectoryInsideRoot (l : UsdFileLocator) (dir : string) (d : Disk) : Disk * Status :=
  match create_directories dir d with
  | (d, Some ec) => (d, ClassifyFilesystemError ec)
  | (d, None) =>
      match canonical d (m_root_ l) with
      | inr ec => (d, ClassifyFilesystemError ec)
      | inl canonical_root =>
          match canonical d dir with
          | inr ec => (d, ClassifyFilesystemError ec)
          | inl canonical_dir =>
              if negb (is_prefix canonical_root canonical_dir) then (d, OutsideRoot) else (d, Ok)
          end
      end
  end.
End calls.

(** ** Session ids *)

(** The bytes of two 64-bit random numbers, least significant first. *)
Definition le_bytes (a : Z) : list Z :=
  (fun i => Z.land (Z.shiftr a (8 * Z.of_nat i)) 255) <$> seq 0 8.

Definition hex_digit (n : Z) : ascii :=
  default "0"%char (String.get (Z.to_nat n) "0123456789abcdef").

(** The loop over the sixteen bytes from index [i]. *)
Fixpoint uuid_chars (i : nat) (bytes : list Z) : string :=
  match bytes with
  | [] => EmptyString
  | b :: bytes =>
      let s := String (hex_digit (Z.land (Z.shiftr b 4) 15))
                 (String (hex_digit (Z.land b 15)) (uuid_chars (S i) bytes)) in
      if existsb (Nat.eqb i) [4; 6; 8; 10]%nat then String "-" s else s
  end.

Definition uuid_bytes (a b : Z) : list Z :=
  let bytes := le_bytes a ++ le_bytes b in
  let bytes := <[6%nat := Z.lor (Z.land (default 0 (bytes !! 6%nat)) 15) 64]> bytes in
  <[8%nat := Z.lor (Z.land (default 0 (bytes !! 8%nat)) 63) 128]> bytes.

(** [a] and [b] are the two draws of the generator. *)
Definition GenerateUuidV4 (a b : Z) : string := uuid_chars 0 (uuid_bytes a b).

Example uuid1 : GenerateUuidV4 0 (2 ^ 64 - 1) = "00000000-0000-4000-bfff-ffffffffffff".
Proof. reflexivity. Qed.

Example upload1 : ValidateUploadTarget default_locator "/sub%20dir/" "a.usda" =
  (Ok, Some ("uploads/sub dir/a.usda", "sub dir/a.usda")).
Proof. reflexivity. Qed.

(** ** Percent encoding *)

Definition hex_upper (n : Z) : ascii := default "0"%char (String.get (Z.to_nat n) "0123456789ABCDEF").

Definition encode_char (c : ascii) : string :=
  String "%" (String (hex_upper (Z.shiftr (code c) 4)) (String (hex_upper (Z.land (code c) 15)) "")).

(** RFC 3986: the characters of [keep] stand for themselves, the others are
    escaped. *)
Fixpoint percent_encode (keep : ascii -> bool) (s : string) : string :=
  match s with
  | EmptyString => EmptyString
  | String c s' =>
      if keep c then String c (percent_encode keep s')
      else (encode_char c +:+ percent_encode keep s')%string
  end.

Lemma decode_escape plus slash c rest :
  slash && Ascii.eqb c "/" = false ->
  PercentDecode plus slash (encode_char c +:+ rest)%string = String c <$> PercentDecode plus slash rest.
Proof.
  destruct c as [[] [] [] [] [] [] [] []]; intros Hs; cbn; try done;
    destruct slash; by cbn in *.
Qed.

(** Percent decoding undoes percent encoding. Whatever characters the
    client leaves unescaped, as long as [%] is not one of them (nor [+] where
    it stands for a space), the decoded string is the one that was encoded;
    with encoded slashes rejected, as long as no slash was escaped. *)
Theorem percent_decode_encode keep plus slash s :
  keep "%"%char = false -> (plus = true -> keep "+"%char = false) ->
  (slash = true -> contains_char "/" s = false \/ keep "/"%char = true) ->
  PercentDecode plus slash (percent_encode keep s) = Some s.
Proof.
  intros Hp Hplus. induction s as [|c s IH]; intros Hslash; [done|].
  assert (Hs : PercentDecode plus slash (percent_encode keep s) = Some s).
  { apply IH. intros Hs. destruct (Hslash Hs) as [Hc|]; [left|by right].
    cbn in Hc. by apply orb_false_iff in Hc as [_ ?]. }
  cbn [percent_encode]. destruct (keep c) eqn:Hk.
  - cbn [PercentDecode]. destruct (Ascii.eqb_spec c "%"); [congruence|].
    destruct (Ascii.eqb_spec c "+") as [->|]; [|by rewrite Hs].
    destruct plus; [by rewrite Hplus in Hk|]. by rewrite Hs.
  - rewrite decode_escape; [by rewrite Hs|]. destruct slash; [|done]. cbn [andb].
    destruct (Hslash eq_refl) as [Hc|Hc].
    + cbn in Hc. apply orb_false_iff in Hc as [Hc _]. by rewrite Ascii.eqb_sym.
    + destruct (Ascii.eqb_spec c "/") as [->|]; [congruence|done].
Qed.

(** ** Paths below the root *)

(** C23. A resolved path is inside the uploads root. [Resolve] hands out a path
    exactly when it reports [Ok], and then the path is the decoded request
    below the root, names a USD file, and its canonical location, with every
    symbolic link followed, is below the canonical root. *)
Theorem resolve_inside_root l filepath d s r :
  Resolve l filepath d = (s, r) ->
  (s = Ok <-> is_Some r) /\
  forall p, r = Some p ->
    exists decoded root loc,
      PercentDecode false false filepath = Some decoded /\ p = join (m_root_ l) decoded /\
      contains ".." decoded = false /\ all_chars path_char decoded = true /\
      canonical d (m_root_ l) = inl root /\ canonical d p = inl loc /\ root `prefix_of` loc /\
      IsUsdFilename (filename p) = true.
Proof.
  assert (Hno : forall s' (P : string -> Prop), s' <> Ok -> (s', None) = (s, r) ->
    (s = Ok <-> is_Some r) /\ forall p, r = Some p -> P p).
  { intros s' P Hs [= <- <-]. split; [|congruence]. split; [congruence|]. intros [? ?]. congruence. }
  unfold Resolve, ValidatePath.
  destruct (PercentDecode false false filepath) as [decoded|] eqn:Hdec; [|by apply Hno].
  destruct (contains ".." decoded) eqn:Hdots; [by apply Hno|].
  destruct (valid_path_regex decoded) eqn:Hchars; [|by apply Hno]. cbn.
  destruct (canonical d (m_root_ l)) as [root|] eqn:Hroot; [|by apply Hno].
  destruct (canonical d (join (m_root_ l) decoded)) as [loc|] eqn:Hloc; [|by apply Hno].
  destruct (is_prefix root loc) eqn:Hpre; [|by apply Hno].
  destruct (exists_ d (join (m_root_ l) decoded)) eqn:Hex; [|by apply Hno].
  destruct (IsUsdFilename (filename (join (m_root_ l) decoded))) eqn:Husd; [|by apply Hno]. cbn.
  intros [= <- <-]. split; [split; [by eexists|done]|]. intros p [= <-].
  exists decoded, root, loc. split_and!; try done.
  - by apply andb_true_iff in Hchars as [_ ?].
  - by apply is_prefix_spec.
Qed.

(** ** Upload targets *)

Lemma name_chars_no_slash s : all_chars name_char s = true -> contains_char "/" s = false.
Proof.
  induction s as [|c s IH]; [done|].
  change (all_chars name_char (String c s)) with (name_char c && all_chars name_char s).
  change (contains_char "/" (String c s)) with (Ascii.eqb "/" c || contains_char "/" s).
  intros [Hc Hs]%andb_true_iff. rewrite IH, orb_false_r by done.
  destruct (Ascii.eqb_spec "/" c) as [<-|]; [by vm_compute in Hc|done].
Qed.

Lemma all_chars_app f a b : all_chars f (a +:+ b)%string = all_chars f a && all_chars f b.
Proof. induction a as [|x a IH]; [done|]. rewrite append_cons. cbn [all_chars]. by rewrite IH, andb_assoc. Qed.

(** No [..] arises where two names meet at a slash. *)
Lemma dots_app a b : contains ".." (a +:+ String "/" b)%string = contains ".." a || contains ".." b.
Proof.
  induction a as [|x a IH]; [done|]. rewrite append_cons.
  change (contains ".." (String x (a +:+ String "/" b)%string)) with
    (String.prefix ".." (String x (a +:+ String "/" b)%string) || contains ".." (a +:+ String "/" b)%string).
  change (contains ".." (String x a)) with (String.prefix ".." (String x a) || contains ".." a).
  rewrite IH, orb_assoc. f_equal. f_equal. cbn [String.prefix]. destruct (ascii_dec "." x); [|done].
  destruct a as [|y a]; [done|]. rewrite append_cons. cbn [String.prefix]. by destruct (ascii_dec "." y), a.
Qed.

Lemma trimmed_relative s : is_absolute (trim_separators s) = false.
Proof.
  unfold trim_separators. destruct (drop_back_split is_separator (drop_front is_separator s)) as (z & Hs & _).
  destruct (drop_back _ _) as [|c r]; [done|]. rewrite append_cons in Hs. apply drop_front_head in Hs.
  unfold is_separator in Hs. apply orb_false_iff in Hs as [Hs _]. unfold is_absolute, starts_with.
  by rewrite prefix_slash, Ascii.eqb_sym.
Qed.

(** What an accepted upload target is. *)
Lemma accepted_target l dir name full relative :
  ValidateUploadTarget l dir name = (Ok, Some (full, relative)) ->
  exists dname ddir rest,
    PercentDecode false true name = Some dname /\ dname <> "" /\ all_chars name_char dname = true /\
    IsUsdFilename dname = true /\ contains ".." dname = false /\
    (is_empty ddir = false -> all_chars path_char ddir = true) /\ contains ".." ddir = false /\
    is_absolute ddir = false /\ relative = (if is_empty ddir then dname else join ddir dname) /\
    (".." ∉ components relative) /\ full = lexically_normal (join (m_root_ l) relative) /\
    normal_components (join (m_root_ l) relative) = normal_components (m_root_ l) ++ rest.
Proof.
  unfold ValidateUploadTarget. destruct (PercentDecode false true name) as [dname|]; [|done].
  destruct (is_empty dname || contains ".." dname || contains ".." name || contains_char "/" dname
    || contains_char "\" dname) eqn:H1; [done|].
  destruct (valid_name_regex dname) eqn:H2; [|done]. cbn [negb].
  destruct (IsUsdFilename dname) eqn:H3; [|done]. cbn [negb].
  destruct (PercentDecode false false dir) as [d0|]; [|done].
  pose proof (trimmed_relative d0) as Habs. set (ddir := trim_separators d0) in *.
  destruct (contains ".." ddir || contains ".." dir || contains_char "\" ddir) eqn:H6; [done|].
  destruct (negb (is_empty ddir) && negb (valid_dir_regex ddir)) eqn:H7; [done|]. cbv zeta.
  set (rel := if is_empty ddir then dname else join ddir dname).
  destruct (is_prefix _ _) eqn:H4; [|done]. cbn [negb].
  destruct (existsb _ _) eqn:H5; [done|]. intros [= <- <-].
  apply andb_true_iff in H2 as [Hne Hchars].
  apply is_prefix_spec in H4 as [rest Hrest]. rewrite !orb_false_iff in H6. destruct_hyps.
  repeat match type of H1 with _ || _ = _ => apply orb_false_iff in H1 as [H1 ?] end.
  exists dname, ddir, rest. split_and!; try done.
  - by intros ->.
  - intros He. rewrite He in H7. cbn in H7. apply negb_false_iff in H7. unfold valid_dir_regex, valid_path_regex in H7.
    by apply andb_true_iff in H7 as [_ ?].
  - intros Hin. apply not_true_iff_false in H5. apply H5, existsb_exists. exists "..".
    split; [by apply list_elem_of_In|done].
Qed.

Lemma target_filename dname ddir :
  all_chars name_char dname = true -> filename (if is_empty ddir then dname else join ddir dname) = dname.
Proof.
  intros Hslash%name_chars_no_slash. destruct (is_empty ddir) eqn:He.
  - unfold filename. by rewrite split_last_none.
  - apply filename_join; [done|by apply not_absolute|]. by intros Heq; rewrite Heq in He.
Qed.

(** An upload can only be written below the uploads root. When
    [ValidateUploadTarget] accepts a directory and a file name, the file name
    is a bare name of allowed characters with a USD extension, the path
    relative to the root ends in that name and has no [..] component, and the
    normalised path to write is the normalised root followed by further
    components. *)
Theorem upload_target_below_root l dir name full relative :
  ValidateUploadTarget l dir name = (Ok, Some (full, relative)) ->
  exists decoded_name rest,
    PercentDecode false true name = Some decoded_name /\
    decoded_name <> "" /\ all_chars name_char decoded_name = true /\
    IsUsdFilename decoded_name = true /\ filename relative = decoded_name /\
    (".." ∉ components relative) /\
    full = lexically_normal (join (m_root_ l) relative) /\
    normal_components (join (m_root_ l) relative) = normal_components (m_root_ l) ++ rest.
Proof.
  intros (dname & ddir & rest & Hd & Hne & Hchars & Husd & _ & _ & _ & _ & -> & Hno & Hfull & Hrest)%accepted_target.
  exists dname, rest. split_and!; try done. by apply target_filename.
Qed.

(** The path of an accepted target below the root is one that downloads accept,
    as it is. *)
Lemma plain_decode slash s : all_chars path_char s = true -> PercentDecode false slash s = Some s.
Proof.
  induction s as [|c s IH]; [done|]. cbn [all_chars]. intros [Hc Hs]%andb_true_iff. cbn [PercentDecode].
  destruct (Ascii.eqb_spec c "%") as [->|]; [by vm_compute in Hc|]. rewrite andb_false_r. by rewrite IH.
Qed.

Lemma name_path_chars s : all_chars name_char s = true -> all_chars path_char s = true.
Proof.
  induction s as [|c s IH]; [done|]. cbn [all_chars]. intros [Hc Hs]%andb_true_iff. unfold path_char at 1.
  by rewrite Hc, IH.
Qed.

Lemma accepted_target_path l dir name full relative :
  ValidateUploadTarget l dir name = (Ok, Some (full, relative)) ->
  ValidatePath relative = (Ok, relative) /\ relative <> "" /\ is_absolute relative = false /\
  IsUsdFilename (filename relative) = true /\ regular_name (filename relative) /\ (".." ∉ names relative) /\
  full = lexically_normal (join (m_root_ l) relative).
Proof.
  intros (dname & ddir & rest & Hd & Hne & Hchars & Husd & Hdd & Hdchars & Hddir & Habs & Hrel & Hno & Hfull & _)
    %accepted_target.
  pose proof (target_filename dname ddir Hchars) as Hname. rewrite <- Hrel in Hname. rewrite Hname.
  assert (Hpath : all_chars path_char relative = true /\ contains ".." relative = false /\
    is_absolute relative = false /\ relative <> "").
  { rewrite Hrel. destruct (is_empty ddir) eqn:He.
    - split_and!; [by apply name_path_chars|done|by apply not_absolute, name_chars_no_slash|done].
    - assert (Hne' : ddir <> "") by (intros ->; done). rewrite absolute_join; [|done|by apply not_absolute, name_chars_no_slash].
      unfold join. rewrite He, (not_absolute dname) by by apply name_chars_no_slash. cbn [orb].
      destruct (ends_with "/" ddir) eqn:Hs.
      + apply ends_with_slash in Hs as [a Ha]. rewrite Ha in Hddir, Hdchars |- *.
        change "/" with (String "/" "") in Hddir |- *. rewrite string_app_assoc.
        change (String "/" "" +:+ dname)%string with (String "/" dname). rewrite dots_app in *.
        specialize (Hdchars eq_refl). rewrite all_chars_app in Hdchars |- *.
        apply andb_true_iff in Hdchars as [Hac _]. cbn [all_chars]. rewrite Hac, (name_path_chars dname) by done.
        apply orb_false_iff in Hddir as [-> _]. split_and!; [done|done|by rewrite <- Ha|by destruct a].
      + change ("/" +:+ dname)%string with (String "/" dname). rewrite dots_app, all_chars_app. cbn [all_chars].
        rewrite (Hdchars eq_refl), (name_path_chars dname), Hddir by done. split_and!; [done..|by destruct ddir]. }
  destruct Hpath as (Hpc & Hpd & Hpa & Hpne). split_and!; try done.
  - unfold ValidatePath. rewrite plain_decode by done. rewrite Hpd. unfold valid_path_regex. rewrite Hpc.
    by destruct relative.
  - split; [exact Hne|]. split; by intros ->.
  - intros Hin. apply Hno. unfold components. rewrite !elem_of_app. right. left. exact Hin.
Qed.

(** A directory that was prepared for an upload is inside the root. When
    [EnsureDirectoryInsideRoot] reports [Ok], root and directory both exist on
    the disk it leaves and the canonical directory, with every symbolic link
    followed, is below the canonical root. *)
Theorem ensured_directory_inside_root `{IoErrors} l dir d d' :
  EnsureDirectoryInsideRoot l dir d = (d', Ok) ->
  exists root loc, canonical d' (m_root_ l) = inl root /\ canonical d' dir = inl loc /\
    root `prefix_of` loc.
Proof.
  assert (Hc : forall ec, ClassifyFilesystemError ec <> Ok).
  { intros ec. unfold ClassifyFilesystemError. by destruct (_ || _). }
  unfold EnsureDirectoryInsideRoot. destruct (create_directories dir d) as [d1 [ec|]].
  { intros [= _ Hec]. by apply Hc in Hec. }
  destruct (canonical d1 (m_root_ l)) as [root|ec] eqn:Hr; [|intros [= _ Hec]; by apply Hc in Hec].
  destruct (canonical d1 dir) as [loc|ec] eqn:Hl; [|intros [= _ Hec]; by apply Hc in Hec].
  destruct (is_prefix root loc) eqn:Hp; [|done]. intros [= <-].
  exists root, loc. split_and!; try done. by apply is_prefix_spec.
Qed.

(** ** Session ids *)

Definition lower_hex (c : ascii) : bool := in_range "0" "9" c || in_range "a" "f" c.

(** The shape of a version 4 UUID: [x] a hexadecimal digit, [y] one of 8, 9, a
    and b, everything else itself. *)
Fixpoint matches (shape s : string) : bool :=
  match shape, s with
  | EmptyString, EmptyString => true
  | String p shape, String c s =>
      (if Ascii.eqb p "x" then lower_hex c
       else if Ascii.eqb p "y" then contains_char c "89ab"
       else Ascii.eqb p c) && matches shape s
  | _, _ => false
  end.

Lemma nibble_hex n : 0 <= n < 16 -> lower_hex (hex_digit n) = true.
Proof.
  intros Hn. cut (forallb (fun n => lower_hex (hex_digit n)) (seqZ 0 16) = true); [|reflexivity].
  intros Hf. rewrite forallb_forall in Hf. apply Hf, list_elem_of_In, elem_of_seqZ. lia.
Qed.

Lemma byte_nibbles b : 0 <= b < 256 -> 0 <= Z.land (Z.shiftr b 4) 15 < 16 /\ 0 <= Z.land b 15 < 16.
Proof.
  intros Hb. change 15 with (Z.ones 4). rewrite !Z.land_ones by done.
  split; by apply Z.mod_pos_bound.
Qed.

Lemma le_bytes_bound a b : b ∈ le_bytes a -> 0 <= b < 256.
Proof.
  intros (i & -> & _)%list_elem_of_fmap. change 255 with (Z.ones 8). rewrite Z.land_ones by done.
  by apply Z.mod_pos_bound.
Qed.

(** The two bytes that carry the version and the variant. *)
Lemma version_byte x : let b := Z.lor (Z.land x 15) 64 in
  hex_digit (Z.land (Z.shiftr b 4) 15) = "4"%char /\ lower_hex (hex_digit (Z.land b 15)) = true.
Proof.
  cbv zeta. assert (Hx : 0 <= Z.land x 15 < 16)
    by (change 15 with (Z.ones 4); rewrite Z.land_ones by done; by apply Z.mod_pos_bound).
  cut (forallb (fun y => Ascii.eqb (hex_digit (Z.land (Z.shiftr (Z.lor y 64) 4) 15)) "4"
    && lower_hex (hex_digit (Z.land (Z.lor y 64) 15))) (seqZ 0 16) = true); [|reflexivity].
  intros Hf. rewrite forallb_forall in Hf.
  assert (Hy : In (Z.land x 15) (seqZ 0 16)) by (apply list_elem_of_In, elem_of_seqZ; lia).
  apply Hf, andb_true_iff in Hy as [Hy ?]. split; [|done]. by apply Ascii.eqb_eq.
Qed.

Lemma variant_byte x : let b := Z.lor (Z.land x 63) 128 in
  contains_char (hex_digit (Z.land (Z.shiftr b 4) 15)) "89ab" = true /\
  lower_hex (hex_digit (Z.land b 15)) = true.
Proof.
  cbv zeta. assert (Hx : 0 <= Z.land x 63 < 64)
    by (change 63 with (Z.ones 6); rewrite Z.land_ones by done; by apply Z.mod_pos_bound).
  cut (forallb (fun y => contains_char (hex_digit (Z.land (Z.shiftr (Z.lor y 128) 4) 15)) "89ab"
    && lower_hex (hex_digit (Z.land (Z.lor y 128) 15))) (seqZ 0 64) = true); [|reflexivity].
  intros Hf. rewrite forallb_forall in Hf.
  assert (Hy : In (Z.land x 63) (seqZ 0 64)) by (apply list_elem_of_In, elem_of_seqZ; lia).
  by apply Hf, andb_true_iff in Hy.
Qed.

(** C24. Session ids are version 4 UUIDs. Whatever the random numbers, a
    generated id has the canonical shape: 32 lower-case hexadecimal digits in
    groups of 8, 4, 4, 4 and 12, with the version digit 4 and a variant digit
    of 8, 9, a or b. *)
Theorem session_ids_are_uuids a b :
  matches "xxxxxxxx-xxxx-4xxx-yxxx-xxxxxxxxxxxx" (GenerateUuidV4 a b) = true.
Proof.
  pose proof (le_bytes_bound a) as Ha. pose proof (le_bytes_bound b) as Hb.
  unfold GenerateUuidV4, uuid_bytes. cbv zeta.
  destruct (le_bytes a) as [|a0 [|a1 [|a2 [|a3 [|a4 [|a5 [|a6 [|a7 [|]]]]]]]]] eqn:Hla; try done.
  destruct (le_bytes b) as [|b0 [|b1 [|b2 [|b3 [|b4 [|b5 [|b6 [|b7 [|]]]]]]]]] eqn:Hlb; try done.
  cbn [app list_insert insert lookup list_lookup default].
  unfold id. destruct (version_byte a6) as [Hv1 Hv2], (variant_byte b0) as [Hw1 Hw2].
  revert Hv1 Hv2 Hw1 Hw2. generalize (Z.lor (Z.land a6 15) 64), (Z.lor (Z.land b0 63) 128).
  intros v y Hv1 Hv2 Hw1 Hw2.
  assert (Hh : forall l : list Z, (forall x, x ∈ l -> 0 <= x < 256) ->
    Forall (fun x => lower_hex (hex_digit (Z.land (Z.shiftr x 4) 15)) = true /\
                     lower_hex (hex_digit (Z.land x 15)) = true) l).
  { intros l Hl. apply Forall_forall. intros x Hx.
    destruct (byte_nibbles x (Hl x Hx)). split; by apply nibble_hex. }
  apply Hh in Ha, Hb. rewrite !Forall_cons in Ha, Hb. destruct_hyps.
  cbn [uuid_chars existsb Nat.eqb orb matches Ascii.eqb Bool.eqb].
  repeat match goal with H : _ = true |- _ => rewrite H; clear H end.
  by rewrite Hv1.
Qed.

(** ** Concrete paths *)

Definition disk1 : Disk :=
  mkDisk {[ ["srv"] := Directory; ["srv"; "uploads"] := Directory;
            ["srv"; "uploads"; "a.usda"] := File "x";
            ["srv"; "uploads"; "out.usd"] := Symlink "/etc/secret.usd";
            ["etc"] := Directory; ["etc"; "secret.usd"] := File "s" ]} ["srv"].

Lemma percent_decode_encode_witness :
  PercentDecode false true (percent_encode (fun c => in_range "a" "z" c) "my %file.usda") =
  Some "my %file.usda".
Proof. apply percent_decode_encode; [reflexivity|done|]. intros _. left. reflexivity. Defined.

Lemma resolve_inside_root_witness :
  exists loc, canonical disk1 "uploads/a.usda" = inl loc /\ ["srv"; "uploads"] `prefix_of` loc.
Proof.
  destruct (resolve_inside_root default_locator "a%2Eusda" disk1 Ok (Some "uploads/a.usda"))
    as [_ Hp]; [vm_compute; reflexivity|].
  destruct (Hp _ eq_refl) as (dec & root & loc & Hd & _ & _ & _ & Hr & Hl & Hpre & _).
  exists loc. split; [exact Hl|]. vm_compute in Hr. injection Hr as <-. exact Hpre.
Defined.

Example link_out_of_root : Resolve default_locator "out.usd" disk1 = (OutsideRoot, None).
Proof. vm_compute. reflexivity. Qed.

Lemma upload_target_below_root_witness :
  exists rest, normal_components (join "uploads" "sub dir/a.usda") = ["uploads"] ++ rest.
Proof.
  destruct (upload_target_below_root default_locator "/sub%20dir/" "a.usda" "uploads/sub dir/a.usda"
    "sub dir/a.usda") as (name & rest & Hd & _ & _ & _ & _ & _ & _ & Hrest);
    [vm_compute; reflexivity|].
  exists rest. exact Hrest.
Defined.

#[local] Instance no_error : IoErrors := fun _ _ _ => None.

Lemma ensured_directory_inside_root_witness :
  exists root loc d', EnsureDirectoryInsideRoot default_locator "uploads/new" disk1 = (d', Ok) /\
    canonical d' "uploads" = inl root /\ canonical d' "uploads/new" = inl loc /\ root `prefix_of` loc.
Proof.
  assert (Hs : snd (EnsureDirectoryInsideRoot default_locator "uploads/new" disk1) = Ok)
    by (vm_compute; reflexivity).
  destruct (EnsureDirectoryInsideRoot default_locator "uploads/new" disk1) as [d' s] eqn:He.
  cbn [snd] in Hs. rewrite Hs in He.
  destruct (ensured_directory_inside_root default_locator "uploads/new" disk1 d' He)
    as (root & loc & ? & ? & ?).
  exists root, loc, d'. rewrite Hs. split_and!; done.
Defined.

(** A root that is not in normal form makes every upload fail. *)
Example upload_root_with_trailing_slash :
  ValidateUploadTarget (mkLocator "uploads/" "sessions") "" "a.usda" = (OutsideRoot, None).
Proof. reflexivity. Qed.

Example upload_root_dot :
  ValidateUploadTarget (mkLocator "." "sessions") "" "a.usda" = (OutsideRoot, None).
Proof. reflexivity. Qed.
End Locator.
