(* ===== verification/Environment.v ===== *)
(** * Environment variables (source/utils/Environment.h)

    The environment of the process, the [.env] file that completes it, and the
    variables read as text or as a number. [Text]: the conversions of the
    standard library the server uses, on strings. *)
From S2P Require Import Prelude Filesystem.

Module Text.
Import Str.
Local Open Scope string_scope.
Local Open Scope Z_scope.

(** [std::isspace], [std::tolower] and the digits, in the "C" locale. *)
Definition code (c : ascii) : Z := Z.of_nat (nat_of_ascii c).
Definition isspace (c : ascii) : bool := (code c =? 32) || ((9 <=? code c) && (code c <=? 13)).
Definition tolower (c : ascii) : ascii :=
  if (65 <=? code c) && (code c <=? 90) then ascii_of_nat (Z.to_nat (code c + 32)) else c.
Definition digit (c : ascii) : option Z :=
  if (48 <=? code c) && (code c <=? 57) then Some (code c - 48) else None.

Fixpoint lower (s : string) : string :=
  match s with EmptyString => "" | String c s' => String (tolower c) (lower s') end.

(** The part of [s] before the first [c], and after it. *)
Fixpoint cut (c : ascii) (s : string) : option (string * string) :=
  match s with
  | EmptyString => None
  | String d s' =>
      if Ascii.eqb d c then Some ("", s')
      else '(a, b) ← cut c s'; Some (String d a, b)
  end.

(** What a C function sees of a string. *)
Definition c_str (s : string) : string := match cut Ascii.zero s with Some (a, _) => a | None => s end.

(** The digits a number starts with, added to [n], and the rest. *)
Fixpoint read_digits (n : Z) (s : string) : Z * string :=
  match s with
  | EmptyString => (n, "")
  | String c s' => match digit c with Some k => read_digits (10 * n + k) s' | None => (n, s) end
  end.

Definition starts_with_digit (s : string) : bool :=
  match s with String c _ => bool_decide (is_Some (digit c)) | EmptyString => false end.

(** [std::from_chars] of a [uint64_t]: the value and what is left, or an error. *)
Definition from_chars_u64 (s : string) : option (Z * string) :=
  if starts_with_digit s then
    let '(n, rest) := read_digits 0 s in if n <? 2 ^ 64 then Some (n, rest) else None
  else None.

(** Blanks and a sign are skipped: whether it is negative, and the rest. *)
Definition read_sign (s : string) : bool * string :=
  let t := drop_front isspace (c_str s) in
  match t with
  | String c t' => if Ascii.eqb c "-" then (true, t') else if Ascii.eqb c "+" then (false, t') else (false, t)
  | EmptyString => (false, t)
  end.

(** [atoi]: 0 for a text without a number; [None], undefined behaviour, for a
    number that is not an [int]. *)
Definition atoi (s : string) : option Z :=
  let '(negative, t) := read_sign s in
  let n := fst (read_digits 0 t) in
  let n := if negative : bool then - n else n in
  if (- 2 ^ 31 <=? n) && (n <? 2 ^ 31) then Some n else None.

(** [std::stoull]: blanks and a sign are allowed, a negative number is reduced
    modulo 2^64, what follows the digits is ignored; [None] is the exception. *)
Definition stoull (s : string) : option Z :=
  let '(negative, t) := read_sign s in
  if starts_with_digit t then
    let n := fst (read_digits 0 t) in
    if n <? 2 ^ 64 then Some (if negative : bool then u64 (- n) else n) else None
  else None.

Example stoull1 : map stoull [" 12abc"; "-1"; "x"; "18446744073709551616"; ""] =
  [Some 12; Some (2 ^ 64 - 1); None; None; None].
Proof. reflexivity. Qed.

Example atoi1 : map atoi [" -12abc"; "x"; ""; "2147483648"] = [Some (-12); Some 0; Some 0; None].
Proof. reflexivity. Qed.
End Text.

Module Environment.
Import Str Disk Text.
Local Open Scope string_scope.
Local Open Scope Z_scope.

Abbreviation environment := (gmap string string).

(** [std::getline] until the end of the file. *)
Definition lines (text : string) : list string :=
  let ls := split "010"%char text in
  match last ls with Some "" => removelast ls | _ => ls end.

Definition strip_cr (line : string) : string :=
  match rev_append line "" with
  | String c r => if Ascii.eqb c "013" then rev_append r "" else line
  | EmptyString => line
  end.

(** [setenv] without overwriting; an empty name is an error. *)
Definition setenv (key value : string) (env : environment) : environment :=
  if is_empty (c_str key) then env
  else match env !! c_str key with
       | Some _ => env
       | None => <[c_str key := c_str value]> env
       end.

Definition load_line (env : environment) (line : string) : environment :=
  let line := strip_cr line in
  match line with
  | EmptyString => env
  | String c _ =>
      if Ascii.eqb c "#" then env
      else match cut "=" line with
           | None => env
           | Some (key, value) => setenv key value env
           end
  end.

Definition load_dotenv (path : string) (d : Disk) (env : environment) : environment :=
  match read_file path d with
  | None => env
  | Some text => foldl load_line env (lines text)
  end.

Definition get_env (name : string) (env : environment) : option string :=
  match env !! name with
  | Some v => if is_empty v then None else Some v
  | None => None
  end.

Definition get_env_u64 (name : string) (fallback : Z) (env : environment) : Z :=
  match get_env name env with
  | None => fallback
  | Some v =>
      match from_chars_u64 v with
      | Some (n, rest) => if is_empty rest then n else fallback
      | None => fallback
      end
  end.

(** ** The file only completes the environment *)

(** What a line assigns. *)
Definition assignment (line : string) : option (string * string) :=
  let line := strip_cr line in
  match line with
  | EmptyString => None
  | String c _ =>
      if Ascii.eqb c "#" then None
      else '(key, value) ← cut "=" line;
           if is_empty (c_str key) then None else Some (c_str key, c_str value)
  end.

Fixpoint first_assignment (name : string) (ls : list string) : option string :=
  match ls with
  | [] => None
  | l :: ls =>
      match assignment l with
      | Some (k, v) => if decide (k = name) then Some v else first_assignment name ls
      | None => first_assignment name ls
      end
  end.

Lemma load_line_assignment line env name :
  load_line env line !! name =
  match env !! name, assignment line with
  | Some v, _ => Some v
  | None, Some (k, v) => if decide (k = name) then Some v else None
  | None, None => None
  end.
Proof.
  unfold load_line, assignment. destruct (strip_cr line) as [|c l]; [by destruct (env !! name)|].
  destruct (Ascii.eqb c "#"); [by destruct (env !! name)|].
  destruct (cut "=" (String c l)) as [[key value]|]; [|by destruct (env !! name)].
  cbn [mbind option_bind]. unfold setenv. destruct (is_empty (c_str key)); [by destruct (env !! name)|].
  destruct (env !! c_str key) as [v|] eqn:He, (decide (c_str key = name)) as [<-|Hk]; rewrite ?He; try done;
    [by destruct (env !! name)|by rewrite lookup_insert_eq|].
  rewrite lookup_insert_ne by done. by destruct (env !! name).
Qed.

Lemma load_lines ls env name :
  foldl load_line env ls !! name = match env !! name with Some v => Some v | None => first_assignment name ls end.
Proof.
  revert env. induction ls as [|l ls IH]; intros env; cbn [foldl first_assignment]; [by destruct (env !! name)|].
  rewrite IH, load_line_assignment. destruct (env !! name); [done|].
  destruct (assignment l) as [[k v]|]; [|done]. by destruct (decide (k = name)).
Qed.

(** A [.env] file only completes the environment: a variable that was set keeps
    its value, and another one gets the value of its first assignment in the
    file. *)
Theorem dotenv_never_overrides path d env text name :
  read_file path d = Some text ->
  load_dotenv path d env !! name =
  match env !! name with Some v => Some v | None => first_assignment name (lines text) end.
Proof. unfold load_dotenv. intros ->. apply load_lines. Qed.

Definition demo_text : string := String.concat (String "010" "") ["# comment"; "A=1"; "B=x=y"; "A=2"; "=z"; "C"].

Lemma dotenv_never_overrides_witness :
  let d := mkDisk {[ [".env"] := File demo_text ]} [] in
  map (fun k => load_dotenv ".env" d {["B" := "set"]} !! k) ["A"; "B"; "C"] = [Some "1"; Some "set"; None].
Proof.
  cbv zeta. cbn [map]. rewrite !(dotenv_never_overrides ".env" _ _ demo_text) by reflexivity. reflexivity.
Defined.

Example u64_settings :
  map (fun v => get_env_u64 "N" 7 {["N" := v]}) ["12"; ""; " 12"; "12s"; "-1"; "18446744073709551616"] =
  [12; 7; 7; 7; 7; 7].
Proof. reflexivity. Qed.

End Environment.
