(* ===== verification/Logging.v ===== *)
(** * Logging (shared/include/idtx/utils/Logger.h, source/utils/IDTXCoreLogger.h)

    A log line and where it goes. The other files leave their calls of the
    logger out: a line has no effect on the server. *)
From S2P Require Import Prelude Filesystem.

Module Logging.
Local Open Scope string_scope.
Local Open Scope list_scope.

Inductive LogLevel := Error | Warn | Info | Debug.

Definition to_string (level : LogLevel) : string :=
  match level with Error => "ERROR" | Warn => "WARN" | Info => "INFO" | Debug => "DEBUG" end.

Record ILogger := mkLogger { prefix_ : string; module_name_ : string }.

Definition new_logger : ILogger := mkLogger "IDTXCore" "".
Definition set_prefix (prefix : string) (l : ILogger) : ILogger := mkLogger prefix (module_name_ l).
Definition set_module_name (name : string) (l : ILogger) : ILogger := mkLogger (prefix_ l) name.

Inductive stream := cerr | cout.

(** [IDTXCoreLogger::log]: the stream and the text. *)
Definition IDTXCoreLogger_log (formatted_line : string) (level : LogLevel) : stream * string :=
  (match level with Error => cerr | Warn | Info | Debug => cout end, formatted_line +:+ String "010" "").

Definition bracketed (s : string) : string := "[" +:+ s +:+ "] ".

Definition format_line (l : ILogger) (category message : string) (level : LogLevel) : string :=
  if Str.is_empty (module_name_ l)
  then bracketed (prefix_ l) +:+ bracketed (to_string level) +:+ bracketed category +:+ message
  else bracketed (prefix_ l) +:+ bracketed (module_name_ l) +:+ bracketed (to_string level) +:+ bracketed category
       +:+ message.

(** [Log::log] of a formatted message; nothing happens before [set_logger]. *)
Definition log (instance : option ILogger) (level : LogLevel) (category message : string) : list (stream * string) :=
  match instance with
  | Some l => [IDTXCoreLogger_log (format_line l category message level) level]
  | None => []
  end.

(** [IDTX_LOGF]. *)
Definition logf (instance : option ILogger) (level : LogLevel) (message : string) : list (stream * string) :=
  log instance level "General" message.

Example error_line :
  logf (Some new_logger) Error "no" = [(cerr, "[IDTXCore] [ERROR] [General] no" +:+ String "010" "")].
Proof. reflexivity. Qed.
End Logging.
