(* ===== verification/Http.v ===== *)
(** * HTTP messages and JSON (source/dto/ErrorResponse.h, JsonDto.h)

    What the controllers and the middleware see of a request and a response of
    the HTTP framework, JSON values, and the two helpers every controller uses:
    the error response and the typed parsing of a body. Reading and printing
    JSON text is the JSON library's: the class [JsonText]. *)
From S2P Require Import Prelude.

Module Http.
Local Open Scope string_scope.

(** ** JSON *)

Inductive json :=
| JNull
| JBool (b : bool)
| JNumber (n : Z)
| JString (s : string)
| JArray (l : list json)
| JObject (fields : list (string * json)).

(** [find]. *)
Definition field (name : string) (j : json) : option json :=
  match j with JObject fields => (list_to_map fields : gmap string json) !! name | _ => None end.

(** The texts are those of [e.what()]. *)
Class JsonText := {
  dump : json -> string;
  parse : string -> json + string;
  missing_field : string -> string;
  wrong_type : string -> json -> string }.

(** ** Messages *)

(** A header that is absent reads as the empty string. *)
Record request := mkRequest {
  method : string;
  url : string;
  header : string -> string;
  body : string;
  remote_ip_address : string }.

Definition body_size (req : request) : Z := Z.of_nat (String.length (body req)).

Record response := mkResponse {
  code : Z;
  headers : list (string * string);
  text : string }.

Definition set_header (name value : string) (res : response) : response :=
  mkResponse (code res) (filter (fun h => h.1 <> name) (headers res) ++ [(name, value)])%list (text res).

Section json.
Context `{JsonText}.

Definition make_error (code : Z) (error message : string) : response :=
  set_header "Content-Type" "application/json"
    (mkResponse code [] (dump (JObject [("error", JString error); ("message", JString message)]))).

(** The exceptions of the [from_json] of a type. *)
Inductive json_exn := OutOfRange (what : string) | TypeError (what : string) | OtherError (what : string).

Definition parse_json_dto {T} (from_json : json -> T + json_exn) (req : request) : T + response :=
  match parse (body req) with
  | inr what => inr (make_error 400 "invalid_request" ("Request body is not valid JSON: " ++ what))
  | inl j =>
      match j with
      | JObject _ =>
          match from_json j with
          | inl dto => inl dto
          | inr (OutOfRange what) => inr (make_error 400 "invalid_request" ("Missing required field: " ++ what))
          | inr (TypeError what) => inr (make_error 400 "invalid_request" ("Invalid field type: " ++ what))
          | inr (OtherError what) => inr (make_error 400 "invalid_request" ("Invalid request body: " ++ what))
          end
      | _ => inr (make_error 400 "invalid_request" "Request body must be a JSON object.")
      end
  end.

(** [j.at(name).get_to(s)]. *)
Definition get_string (name : string) (j : json) : string + json_exn :=
  match field name j with
  | None => inr (OutOfRange (missing_field name))
  | Some (JString s) => inl s
  | Some v => inr (TypeError (wrong_type name v))
  end.
End json.
End Http.
