(* ===== verification/Health.v ===== *)
(** * [HealthController] (source/controller/HealthController.cpp)

    The health answer with the time in UTC. [gmtime] is that of the C library:
    the proleptic Gregorian calendar, a day having 86400 seconds. *)
From stdpp Require Import pretty.
From S2P Require Import Prelude Filesystem Http.

Module Health.
Import Http.
Local Open Scope string_scope.
Local Open Scope Z_scope.

(** [std::tm], as far as it is printed. *)
Record tm := mkTm { year : Z; mon : Z; mday : Z; hour : Z; min : Z; sec : Z }.

Definition leap (y : Z) : bool := (y mod 4 =? 0) && (negb (y mod 100 =? 0) || (y mod 400 =? 0)).

Definition month_length (y m : Z) : Z :=
  match m with
  | 2 => if leap y then 29 else 28
  | 4 | 6 | 9 | 11 => 30
  | _ => 31
  end.

(** The day after a date. *)
Definition next_day (d : Z * Z * Z) : Z * Z * Z :=
  let '(y, m, d) := d in
  if d <? month_length y m then (y, m, d + 1)
  else if m <? 12 then (y, m + 1, 1) else (y + 1, 1, 1).

(** The date of a day, counted from 1970-01-01; the calendar repeats after 400
    years, which have 146097 days. *)
Definition civil (days : Z) : Z * Z * Z :=
  let '(y, m, d) := Nat.iter (Z.to_nat (days mod 146097)) next_day (1970, 1, 1) in
  (y + days / 146097 * 400, m, d).

Definition gmtime (t : Z) : tm :=
  let '(y, m, d) := civil (t / 86400) in
  let s := t mod 86400 in
  mkTm y m d (s / 3600) (s mod 3600 / 60) (s mod 60).

(** [%m] and the like: two digits. *)
Definition two_digits (n : Z) : string := if n <? 10 then "0" +:+ pretty n else pretty n.

(** [%Y-%m-%dT%H:%M:%SZ]. *)
Definition put_time (t : tm) : string :=
  pretty (year t) +:+ "-" +:+ two_digits (mon t) +:+ "-" +:+ two_digits (mday t) +:+ "T" +:+ two_digits (hour t)
  +:+ ":" +:+ two_digits (min t) +:+ ":" +:+ two_digits (sec t) +:+ "Z".

(** [now]: seconds since the epoch. *)
Definition get_current_timestamp (now : Z) : string := put_time (gmtime now).

Section health.
Context `{JsonText}.

Definition GetHealth (now : Z) (req : request) : response :=
  mkResponse 200 [] (dump (JObject [("status", JString "ok"); ("timestamp", JString (get_current_timestamp now))])).
End health.

(** ** Dates are dates *)

Definition date_ok (d : Z * Z * Z) : Prop :=
  let '(y, m, d) := d in 1 <= m <= 12 /\ 1 <= d <= month_length y m.

Lemma next_day_ok d : date_ok d -> date_ok (next_day d).
Proof.
  destruct d as [[y m] d]. unfold date_ok, next_day. intros [Hm Hd]. destruct (Z.ltb_spec d (month_length y m)); [lia|].
  assert (Hlen : forall y m, 1 <= month_length y m)
    by (intros y' m'; unfold month_length; repeat case_match; lia).
  destruct (Z.ltb_spec m 12); split; try lia; split; try lia; apply Hlen.
Qed.

Lemma month_length_period y n m : month_length (y + n * 400) m = month_length y m.
Proof.
  assert (leap (y + n * 400) = leap y) as Hleap.
  { unfold leap. replace (y + n * 400) with (y + n * 100 * 4) at 1 by lia. rewrite Z.mod_add by done.
    replace (y + n * 400) with (y + n * 4 * 100) at 1 by lia. by rewrite !Z.mod_add by done. }
  unfold month_length. by rewrite Hleap.
Qed.

Lemma civil_ok days : date_ok (civil days).
Proof.
  assert (Hi : forall n, date_ok (Nat.iter n next_day (1970, 1, 1))).
  { induction n as [|n IH]; [done|]. by apply next_day_ok. }
  unfold civil. specialize (Hi (Z.to_nat (days mod 146097))). destruct (Nat.iter _ _ _) as [[y m] d].
  unfold date_ok in *. by rewrite month_length_period.
Qed.

(** Every field of a time is in its range. *)
Lemma gmtime_ok t :
  let u := gmtime t in
  1 <= mon u <= 12 /\ 1 <= mday u <= month_length (year u) (mon u) /\
  0 <= hour u < 24 /\ 0 <= min u < 60 /\ 0 <= sec u < 60.
Proof.
  unfold gmtime. pose proof (civil_ok (t / 86400)) as Hc. destruct (civil _) as [[y m] d]. cbn.
  destruct Hc as [Hm Hd]. split_and!; divlia.
Qed.

Example leap_day : get_current_timestamp 68255999 = "1972-02-29T23:59:59Z".
Proof. by vm_compute. Qed.
End Health.
