(* ===== verification/Gateway.v ===== *)
(** * The middleware in front of the routes and the login
    (source/middleware/RateLimitHandler.h, utils/SecurityAuditLog.h,
    controller/AuthController.cpp)

    [RateLimitHandler]: the checks every request passes before its route runs,
    with the limiters of [RateLimit.v]. [AuthController]: the login, which
    reports to the same throttler. An audit event is a value; the identity
    provider is a function from the form that is sent to its answer. *)
From stdpp Require Import pretty.
From S2P Require Import Prelude Filesystem Http RateLimit.

Module Audit.

Inductive AuditEvent :=
| RateLimitExceeded | LoginRateLimitExceeded | LoginFailed | LoginLockout | BodyTooLarge
| ConcurrencyLimited | Unauthorized | AuthenticationDisabled.

#[global] Instance AuditEvent_eq_dec : EqDecision AuditEvent.
Proof. solve_decision. Defined.

Definition to_string (e : AuditEvent) : string :=
  match e with
  | RateLimitExceeded => "rate_limit_exceeded"
  | LoginRateLimitExceeded => "login_rate_limit_exceeded"
  | LoginFailed => "login_failed"
  | LoginLockout => "login_lockout"
  | BodyTooLarge => "body_too_large"
  | ConcurrencyLimited => "concurrency_limited"
  | Unauthorized => "unauthorized"
  | AuthenticationDisabled => "authentication_disabled"
  end.

Record AuditRecord := mkAudit {
  event : AuditEvent;
  clientIp : string;
  method : string;
  path : string;
  userAgent : string;
  username : option string;
  statusCode : option Z;
  detail : option string;
  limit : option Z;
  observed : option Z }.

(** The object [Record] logs. *)
Definition record_json (r : AuditRecord) : Http.json :=
  let text (name value : string) := if Str.is_empty value then [] else [(name, Http.JString value)] in
  let words (name : string) (v : option string) := match v with Some s => [(name, Http.JString s)] | None => [] end in
  let number (name : string) (v : option Z) := match v with Some n => [(name, Http.JNumber n)] | None => [] end in
  Http.JObject ([("audit"%string, Http.JNumber 1); ("event"%string, Http.JString (to_string (event r)))]
    ++ text "client_ip" (clientIp r) ++ text "method" (method r) ++ text "path" (path r)
    ++ text "user_agent" (userAgent r) ++ words "username" (username r) ++ number "status" (statusCode r)
    ++ words "detail" (detail r) ++ number "limit" (limit r) ++ number "observed" (observed r)).
End Audit.

Module RateLimitHandler.
Import Audit Http.
Local Open Scope string_scope.
Local Open Scope list_scope.
Local Open Scope Z_scope.

Record Config := mkConfig {
  globalMaxRequests : Z; globalWindow : Z;
  loginMaxRequests : Z; loginWindow : Z;
  loginMaxFailures : Z; loginFailureWindow : Z; loginLockout : Z;
  loginMaxBodyBytes : Z; uploadMaxBodyBytes : Z; globalMaxBodyBytes : Z;
  trustForwardedFor : bool }.

Definition default_config : Config :=
  mkConfig 300 60 10 60 5 300 300 (4 * 1024) (8 * 1024 * 1024 * 1024) (8 * 1024 * 1024) true.

Record RateLimitHandler := mkHandler {
  m_enabled_ : bool;
  m_config_ : Config;
  m_globalLimiter_ : option SlidingWindow.SlidingWindowLimiter;
  m_loginLimiter_ : option SlidingWindow.SlidingWindowLimiter;
  m_loginThrottler_ : option LoginThrottler.LoginThrottler }.

Definition new_handler : RateLimitHandler := mkHandler false default_config None None None.

Definition configure (cfg : Config) (now : Z) (h : RateLimitHandler) : RateLimitHandler :=
  mkHandler true cfg
    (Some (SlidingWindow.new_limiter (globalMaxRequests cfg) (globalWindow cfg) now))
    (Some (SlidingWindow.new_limiter (loginMaxRequests cfg) (loginWindow cfg) now))
    (Some (LoginThrottler.new_throttler (loginMaxFailures cfg) (loginFailureWindow cfg) (loginLockout cfg) now)).

(** The text before the first [c], the whole text if there is none. *)
Fixpoint before (c : ascii) (s : string) : string :=
  match s with
  | EmptyString => EmptyString
  | String d s' => if Ascii.eqb d c then EmptyString else String d (before c s')
  end.

Definition blank (c : ascii) : bool := Ascii.eqb c " " || Ascii.eqb c "009".

Definition trim (s : string) : string := Str.drop_back blank (Str.drop_front blank s).

Definition ResolveClientIp (req : request) (trustForwarded : bool) : string :=
  let remote := if Str.is_empty (remote_ip_address req) then "unknown" else remote_ip_address req in
  if trustForwarded then
    let xff := header req "X-Forwarded-For" in
    if Str.is_empty xff then remote
    else
      let first := trim (before "," xff) in
      if Str.is_empty first then remote else first
  else remote.

Definition NormalisePath (url : string) : string := before "?" url.

Definition c_loginPath_ : string := "/api/v1/auth/login".
Definition c_uploadPath_ : string := "/api/v1/upload".

Definition quote : string := String (ascii_of_nat 34) "".
Definition quoted (s : string) : string := quote +:+ s +:+ quote.

(** [blocked] of the context, and the response if it is ended here. *)
Definition Reject (res : response) (code : Z) (error message : string) : response :=
  let res := set_header "Content-Type" "application/json" res in
  mkResponse code (headers res)
    ("{" +:+ quoted "error" +:+ ":" +:+ quoted error +:+ "," +:+ quoted "message" +:+ ":" +:+ quoted message +:+ "}").

Definition new_response : response := mkResponse 200 [] "".

Definition is_login (req : request) : bool :=
  String.eqb (method req) "POST" && String.eqb (NormalisePath (url req)) c_loginPath_.

Definition is_upload (req : request) : bool :=
  String.eqb (method req) "POST" && String.eqb (NormalisePath (url req)) c_uploadPath_.

Definition max_body (cfg : Config) (req : request) : Z :=
  if is_login req then loginMaxBodyBytes cfg
  else if is_upload req then uploadMaxBodyBytes cfg else globalMaxBodyBytes cfg.
(** The result of a check: the request goes on, or its response and the event
    that is logged. *)
Inductive verdict := Pass | Block (res : response) (event : AuditRecord).

Definition too_many (retry_after : Z) (error message : string) (res : response) : response :=
  Reject (set_header "Retry-After" (pretty retry_after) res) 429 error message.

(** A limiter that may not exist. *)
Definition ask (key : string) (now : Z) (l : option SlidingWindow.SlidingWindowLimiter) :
    option SlidingWindow.SlidingWindowLimiter * option SlidingWindow.Decision :=
  match l with
  | None => (None, None)
  | Some l => let '(l, d) := SlidingWindow.Allow key now l in (Some l, Some d)
  end.

(** The four checks in order; [t_lock], [t_login] and [t_global] are the times the
    throttler and the two limiters read. *)
Definition before_handle (req : request) (t_lock t_login t_global : Z) (h : RateLimitHandler) :
    RateLimitHandler * verdict :=
  if negb (m_enabled_ h) then (h, Pass)
  else if String.eqb (method req) "OPTIONS" then (h, Pass)
  else
    let cfg := m_config_ h in
    let ip := ResolveClientIp req true in
    let path := NormalisePath (url req) in
    let audit event status detail limit observed :=
      mkAudit event ip (method req) path (header req "User-Agent") None (Some status) (Some detail)
        limit observed in
    if body_size req >? max_body cfg req then
      (h, Block (Reject new_response 413 "payload_too_large" "Request body exceeds the permitted size.")
            (audit BodyTooLarge 413 "request body exceeds cap" (Some (max_body cfg req)) (Some (body_size req))))
    else
      let lockedFor := match m_loginThrottler_ h with
                       | Some t => LoginThrottler.LockedFor ip t_lock t | None => 0 end in
      if is_login req && (0 <? lockedFor) then
        (h, Block (too_many lockedFor "too_many_attempts" "Too many failed login attempts. Try again later." new_response)
              (audit LoginLockout 429 "source temporarily locked out" (Some (loginMaxFailures cfg)) None))
      else
        let '(login_limiter, login_decision) :=
          if is_login req then ask ("login:" +:+ ip) t_login (m_loginLimiter_ h) else (m_loginLimiter_ h, None) in
        let h := mkHandler (m_enabled_ h) cfg (m_globalLimiter_ h) login_limiter (m_loginThrottler_ h) in
        match login_decision with
        | Some (SlidingWindow.mkDecision false observed limit retry) =>
            (h, Block (too_many retry "rate_limited" "Too many login attempts. Slow down." new_response)
                  (audit LoginRateLimitExceeded 429 "login rate limit exceeded" (Some limit) (Some observed)))
        | _ =>
            let '(global_limiter, global_decision) := ask ("global:" +:+ ip) t_global (m_globalLimiter_ h) in
            let h := mkHandler (m_enabled_ h) cfg global_limiter (m_loginLimiter_ h) (m_loginThrottler_ h) in
            match global_decision with
            | Some (SlidingWindow.mkDecision false observed limit retry) =>
                (h, Block (too_many retry "rate_limited" "Too many requests. Slow down." new_response)
                      (audit RateLimitExceeded 429 "request rate limit exceeded" (Some limit) (Some observed)))
            | _ => (h, Pass)
            end
        end.
(** ** How many logins a source can attempt *)

(** Requests in the order the checks run, each with its three times. *)
Fixpoint serve (rs : list (request * (Z * Z * Z))) (h : RateLimitHandler) : RateLimitHandler * list verdict :=
  match rs with
  | [] => (h, [])
  | (req, (t1, t2, t3)) :: rs =>
      let '(h, v) := before_handle req t1 t2 t3 h in
      let '(h, vs) := serve rs h in
      (h, v :: vs)
  end.

Definition passed (v : verdict) : bool := match v with Pass => true | Block _ _ => false end.

(** The times of the logins of a source that reach the controller, the latest
    first, added to [times]. *)
Fixpoint logins (ip : string) (rs : list (request * (Z * Z * Z))) (vs : list verdict) (times : list Z) : list Z :=
  match rs, vs with
  | (req, (_, t, _)) :: rs, v :: vs =>
      logins ip rs vs
        (if decide (is_login req = true /\ ResolveClientIp req true = ip /\ passed v = true)
         then t :: times else times)
  | _, _ => times
  end.

Definition login_times (rs : list (request * (Z * Z * Z))) : list (request * Z) :=
  map (fun '(req, (_, t, _)) => (req, t)) rs.

Definition enabled_with (cfg : Config) (l : SlidingWindow.SlidingWindowLimiter) (h : RateLimitHandler) : Prop :=
  m_enabled_ h = true /\ m_config_ h = cfg /\ m_loginLimiter_ h = Some l.

(** A request either leaves the login limiter alone, and is then not a login that
    passes, or asks it once, and passes only if it is allowed. *)
Lemma before_handle_login req t1 t2 t3 cfg l h :
  enabled_with cfg l h ->
  let h' := fst (before_handle req t1 t2 t3 h) in
  let v := snd (before_handle req t1 t2 t3 h) in
  (enabled_with cfg l h' /\ (is_login req = true -> passed v = false)) \/
  (exists d, enabled_with cfg (fst (SlidingWindow.Allow ("login:" +:+ ResolveClientIp req true) t2 l)) h' /\
     snd (SlidingWindow.Allow ("login:" +:+ ResolveClientIp req true) t2 l) = d /\
     is_login req = true /\ (passed v = true -> SlidingWindow.allowed d = true)).
Proof.
  intros (He & Hc & Hl). cbv zeta. unfold before_handle. rewrite He. cbn [negb].
  destruct (String.eqb (method req) "OPTIONS") eqn:Hopt.
  { left. split; [done|]. unfold is_login. apply String.eqb_eq in Hopt. by rewrite Hopt. }
  cbv zeta. destruct (body_size req >? max_body (m_config_ h) req); [by left|].
  destruct (is_login req) eqn:Hlogin; cbn [andb].
  - destruct (0 <? _); [by left|]. rewrite Hl. cbn [ask].
    destruct (SlidingWindow.Allow _ t2 l) as [l' [allowed observed limit retry]] eqn:Ha.
    right. exists (SlidingWindow.mkDecision allowed observed limit retry).
    destruct allowed; [|by split_and!]. cbn [m_globalLimiter_ m_loginLimiter_ m_loginThrottler_ m_enabled_].
    destruct (ask _ t3 (m_globalLimiter_ h)) as [g [[[] ? ? ?]|]]; by split_and!.
  - destruct (ask _ t3 _) as [g [[[] ? ? ?]|]]; left; by split_and!.
Qed.

Lemma within_sublist T w l1 l2 : l1 `sublist_of` l2 -> SlidingWindow.within T w l1 <= SlidingWindow.within T w l2.
Proof.
  induction 1 as [|x l1 l2 _ IH|x l1 l2 _ IH]; cbn [SlidingWindow.within]; [lia| |];
    destruct ((T <=? x) && (x <? T + w)); lia.
Qed.

(** The calls the login limiter gets, and what it says. *)
Lemma serve_calls ip rs cfg l h t times1 times2 :
  enabled_with cfg l h -> SlidingWindow.ordered_from t (login_times rs) -> times1 `sublist_of` times2 ->
  exists calls,
    SlidingWindow.ordered_from t calls /\ (length calls <= length rs)%nat /\
    logins ip rs (snd (serve rs h)) times1 `sublist_of`
      SlidingWindow.admissions ("login:" +:+ ip) calls (snd (SlidingWindow.serve calls l)) times2.
Proof.
  revert l h t times1 times2. induction rs as [|[req [[t1 t2] t3]] rs IH]; intros l h t times1 times2 He Hord Hsub.
  - exists []. by split_and!.
  - destruct Hord as [Ht Hord]. cbn [serve].
    pose proof (before_handle_login req t1 t2 t3 cfg l h He) as Hstep.
    destruct (before_handle req t1 t2 t3 h) as [h' v]. cbv zeta in Hstep. cbn [fst snd] in Hstep.
    destruct Hstep as [[He' Hv]|(d & He' & Hd & Hlogin & Hv)].
    + destruct (IH l h' t2 times1 times2 He' Hord Hsub) as (calls & Hcalls & Hlen & Hlog). exists calls.
      split_and!; [by eapply SlidingWindow.ordered_from_mono|cbn; lia|].
      destruct (serve rs h') as [h2 vs]. cbn [snd logins] in *.
      rewrite decide_False; [done|]. intros (Hl & _ & Hp). rewrite (Hv Hl) in Hp. done.
    + set (key := "login:" +:+ ResolveClientIp req true) in *.
      destruct (SlidingWindow.Allow key t2 l) as [l' d'] eqn:Ha. cbn [fst snd] in He', Hd. subst d.
      set (times1' := if decide (is_login req = true /\ ResolveClientIp req true = ip /\ passed v = true)
                      then t2 :: times1 else times1).
      set (times2' := if decide (key = "login:" +:+ ip)
                      then if SlidingWindow.allowed d' then t2 :: times2 else times2 else times2).
      assert (Hsub' : times1' `sublist_of` times2').
      { unfold times1', times2'. destruct (decide _) as [(_ & Hip & Hp)|_].
        - rewrite decide_True by (subst key; by rewrite Hip). rewrite (Hv Hp). by constructor.
        - destruct (decide _); [|done]. destruct (SlidingWindow.allowed d'); [by constructor|done]. }
      destruct (IH l' h' t2 times1' times2' He' Hord Hsub') as (calls & Hcalls & Hlen & Hlog).
      exists ((key, t2) :: calls). split_and!; [done|cbn; lia|].
      cbn [SlidingWindow.serve]. rewrite Ha.
      destruct (serve rs h') as [h2 vs]. destruct (SlidingWindow.serve calls l') as [l2 ds].
      cbn [snd logins SlidingWindow.admissions] in *. exact Hlog.
Qed.

(** C33. The login endpoint cannot be flooded. However many requests arrive,
    in every interval as long as the login window at most twice the configured
    number of login requests of one source get past the middleware, whatever
    their bodies, headers and query strings are: twice, because a window that ends
    and the next one can both be used up. *)
Theorem login_attempts_bounded cfg t rs ip T :
  0 <= t -> 0 <= loginMaxRequests cfg -> 0 < loginWindow cfg ->
  SlidingWindow.ordered_from t (login_times rs) -> Z.of_nat (length rs) < 2 ^ 64 ->
  SlidingWindow.within T (duration (loginWindow cfg))
    (logins ip rs (snd (serve rs (configure cfg t new_handler))) []) <= 2 * loginMaxRequests cfg.
Proof.
  intros Ht Hm Hw Hord Hlen.
  destruct (serve_calls ip rs cfg (SlidingWindow.new_limiter (loginMaxRequests cfg) (loginWindow cfg) t)
    (configure cfg t new_handler) t [] []) as (calls & Hcalls & Hlen' & Hsub); [done..|].
  etrans; [by apply within_sublist|]. apply SlidingWindow.limiter_bound; (done || lia).
Qed.

Definition no_headers : string -> string := fun _ => "".

Definition login_from (xff remote : string) : request :=
  mkRequest "POST" "/api/v1/auth/login?x=1" (fun h => if String.eqb h "X-Forwarded-For" then xff else "") "{}" remote.

(** With a quota of 2 per minute, four logins pass within two seconds. *)
Definition burst : list (request * (Z * Z * Z)) :=
  map (fun s => (login_from "" "10.0.0.9", (duration s, duration s, duration s))) [100; 159; 159; 160; 160; 161].

Definition small_config : Config := mkConfig 300 60 2 60 5 300 300 4096 1000000 1000000 true.

Lemma login_attempts_bounded_witness :
  SlidingWindow.ordered_from 0 (login_times burst) /\
  map passed (snd (serve burst (configure small_config 0 new_handler))) = [true; true; false; true; true; false] /\
  SlidingWindow.within (duration 110) (duration 60)
    (logins "10.0.0.9" burst (snd (serve burst (configure small_config 0 new_handler))) []) <= 2 * 2.
Proof.
  assert (H : SlidingWindow.ordered_from 0 (login_times burst)) by (cbn; unfold duration, second; lia).
  split; [exact H|]. split; [vm_compute; reflexivity|].
  apply (login_attempts_bounded small_config 0 burst "10.0.0.9" (duration 110)); [lia|cbn; lia|cbn; lia|exact H|done].
Defined.

(** The middleware trusts the header whatever [trustForwardedFor] says: the
    failures the controller counts for the remote address do not stop a request
    that carries a header. *)
Example forwarded_for_bypasses_lockout :
  let cfg := mkConfig 300 60 10 60 1 300 300 4096 1000000 1000000 false in
  let h := configure cfg 0 new_handler in
  let ip := ResolveClientIp (login_from "1.2.3.4" "10.0.0.9") (trustForwardedFor cfg) in
  let locked := mkHandler true cfg (m_globalLimiter_ h) (m_loginLimiter_ h)
    (fst <$> (LoginThrottler.RecordFailure ip (duration 5) <$> m_loginThrottler_ h)) in
  ip = "10.0.0.9" /\
  passed (snd (before_handle (login_from "" "10.0.0.9") (duration 6) (duration 6) (duration 6) locked)) = false /\
  passed (snd (before_handle (login_from "1.2.3.4" "10.0.0.9") (duration 6) (duration 6) (duration 6) locked)) = true.
Proof. vm_compute. done. Qed.

End RateLimitHandler.

Module AuthController.
Import Audit Http.
Local Open Scope string_scope.
Local Open Scope list_scope.
Local Open Scope Z_scope.

Record AuthController := mkAuth {
  m_tokenUrl_ : string;
  m_clientId_ : string;
  m_clientSecret_ : string;
  m_scope_ : string;
  m_trustForwardedFor_ : bool }.

(** The answer of the identity provider to a form. *)
Record IdpResponse := mkIdp { ok : bool; status : Z; idp_body : string }.

Record OAuthTokenResponse := mkToken {
  access_token : string;
  token_type : option string;
  expires_in : option Z;
  refresh_token : option string;
  scope : option string;
  id_token : option string }.

(** [record_failure] and [record_success] of the shared throttler. *)
Inductive outcome := NoReport | ReportFailure (ip : string) | ReportSuccess (ip : string).

Section auth.
Context `{JsonText}.

(** The two required fields. *)
Definition LoginRequest_from_json (j : json) : (string * string) + json_exn :=
  match get_string "username" j with
  | inr e => inr e
  | inl username =>
      match get_string "password" j with
      | inr e => inr e
      | inl password => inl (username, password)
      end
  end.

(** An optional field of another type counts as absent. *)
Definition optional_string (name : string) (j : json) : option string :=
  match field name j with Some (JString s) => Some s | _ => None end.

Definition optional_int (name : string) (j : json) : option Z :=
  match field name j with Some (JNumber n) => Some n | _ => None end.

Definition OAuthTokenResponse_from_json (j : json) : OAuthTokenResponse + json_exn :=
  match get_string "access_token" j with
  | inr e => inr e
  | inl token =>
      inl (mkToken token (optional_string "token_type" j) (optional_int "expires_in" j)
             (optional_string "refresh_token" j) (optional_string "scope" j) (optional_string "id_token" j))
  end.

Definition LoginResponse_json (t : OAuthTokenResponse) : json :=
  let words name v := match v with Some s => [(name, JString s)] | None => [] end in
  let number name v := match v with Some n => [(name, JNumber n)] | None => [] end in
  JObject ([("access_token", JString (access_token t)); ("token_type", JString (default "Bearer" (token_type t)))]
    ++ number "expires_in" (expires_in t) ++ words "refresh_token" (refresh_token t)
    ++ words "scope" (scope t)).

(** The form of the password grant. *)
Definition token_request (a : AuthController) (username password : string) : list (string * string) :=
  [("grant_type", "password"); ("username", username); ("password", password); ("client_id", m_clientId_ a)]
  ++ (if Str.is_empty (m_clientSecret_ a) then [] else [("client_secret", m_clientSecret_ a)])
  ++ (if Str.is_empty (m_scope_ a) then [] else [("scope", m_scope_ a)]).

Definition login_audit (event : AuditEvent) (ip : string) (req : request) (user : option string)
    (status : Z) (detail : string) : AuditRecord :=
  mkAudit event ip "POST" "/api/v1/auth/login" (header req "User-Agent") user (Some status) (Some detail) None None.

Definition token_headers (res : response) : response :=
  set_header "Pragma" "no-cache" (set_header "Cache-Control" "no-store"
    (set_header "Content-Type" "application/json" res)).

(** [post] is the HTTP request to the provider, [now] the time of a report to
    the throttler. The new throttler, the response and the logged events. *)
Definition Login (a : AuthController) (post : string -> list (string * string) -> IdpResponse) (now : Z)
    (req : request) (throttler : option LoginThrottler.LoginThrottler) :
    option LoginThrottler.LoginThrottler * response * list AuditRecord :=
  let ip := RateLimitHandler.ResolveClientIp req (m_trustForwardedFor_ a) in
  if Str.is_empty (m_tokenUrl_ a) || Str.is_empty (m_clientId_ a)
  then (throttler, make_error 503 "auth_unavailable" "Authentication is not configured on the server.", [])
  else
    match parse_json_dto LoginRequest_from_json req with
    | inr err => (throttler, err, [])
    | inl (username, password) =>
        if Str.is_empty username || Str.is_empty password
        then (throttler, make_error 400 "invalid_request" "'username' and 'password' must not be empty.",
               [login_audit LoginFailed ip req None 400 "missing username or password"])
        else
          let answer := post (m_tokenUrl_ a) (token_request a username password) in
          if negb (ok answer) then
            if (400 <=? status answer) && (status answer <? 500) then
              let '(throttler, lockedOut) :=
                match throttler with
                | Some t => let '(t, locked) := LoginThrottler.RecordFailure ip now t in (Some t, locked)
                | None => (None, false)
                end in
              (throttler, make_error 401 "invalid_credentials" "Authentication failed.",
                login_audit LoginFailed ip req (Some username) 401 "invalid credentials" ::
                if lockedOut
                then [login_audit LoginLockout ip req (Some username) 401
                        "source locked out after repeated failures"]
                else [])
            else (throttler, make_error 502 "idp_unreachable" "Failed to contact the identity provider.", [])
          else
            let invalid := make_error 502 "idp_invalid_response" "Identity provider returned an invalid response." in
            match parse (idp_body answer) with
            | inr _ => (throttler, invalid, [])
            | inl j =>
                match OAuthTokenResponse_from_json j with
                | inr _ => (throttler, invalid, [])
                | inl token =>
                    (LoginThrottler.RecordSuccess ip <$> throttler,
                     token_headers (mkResponse 200 [] (dump (LoginResponse_json token))), [])
                end
            end
    end.

(** Only the provider's verdict on a complete request moves the throttler. *)
Lemma login_reports a post now req t :
  let '(t', res, _) := Login a post now req (Some t) in
  (t' = Some (fst (LoginThrottler.RecordFailure (RateLimitHandler.ResolveClientIp req (m_trustForwardedFor_ a)) now t)) /\
   code res = 401) \/
  (t' = Some (LoginThrottler.RecordSuccess (RateLimitHandler.ResolveClientIp req (m_trustForwardedFor_ a)) t) /\
   code res = 200) \/
  (t' = Some t /\ code res <> 401 /\ code res <> 200).
Proof.
  unfold Login. destruct (_ || _); [right; right; done|].
  destruct (parse_json_dto LoginRequest_from_json req) as [[username password]|err] eqn:Hp.
  - destruct (_ || _); [right; right; done|].
    destruct (negb _).
    + destruct (_ && _); [|right; right; done].
      destruct (LoginThrottler.RecordFailure _ now t) as [t' locked]. left. by split.
    + destruct (parse _) as [j|]; [|right; right; done].
      destruct (OAuthTokenResponse_from_json j) as [token|]; [|right; right; done]. right; left; done.
  - right; right. split; [done|]. unfold parse_json_dto in Hp.
    assert (code err = 400) as ->; [|done].
    destruct (parse (body req)) as [[]|]; try by simplify_eq.
    destruct (LoginRequest_from_json _) as [|[]]; by simplify_eq.
Qed.
End auth.
End AuthController.
