(* ===== verification/Jwt.v ===== *)
(** * Authentication (source/middleware/JwtAuthHandler.cpp, OidcConfiguration.cpp,
    utils/HttpClient.cpp)

    [Oidc]: the configuration read from the environment. [HttpClient]: what the
    server makes of an answer of the HTTP library. [JwtAuthHandler]: the key
    cache, the verification of a token and the middleware that lets a request
    pass. Decoding a token, building a key and checking a signature are the JWT
    library's (class [JwtLib]); the network is a function from a URL to an
    answer. *)
From stdpp Require Import pretty.
From S2P Require Import Prelude Filesystem Environment Http Gateway.

Module Oidc.
Import Str Text Environment Audit.
Local Open Scope string_scope.
Local Open Scope list_scope.

Record OidcConfiguration := mkOidc { wellKnownUrl : string; audiences : list string; enabled : bool }.

Definition trim_space (s : string) : string := drop_back isspace (drop_front isspace s).

Definition split_env (s : string) : list string :=
  filter (fun t => t <> "") (trim_space <$> split "," s).

Definition disabled_record : AuditRecord :=
  mkAudit AuthenticationDisabled "" "" "" "" None None (Some "IDTX_INSECURE_DISABLE_AUTH is enabled") None None.

(** The configuration and what is audited, or what is thrown. *)
Definition create (wellknownVar audiencesVar : string) (env : environment) :
    OidcConfiguration * list AuditRecord + string :=
  let disable_auth := default "false" (get_env "IDTX_INSECURE_DISABLE_AUTH" env) in
  if negb (bool_decide (disable_auth <> "true") && bool_decide (disable_auth <> "1"))
  then inl (mkOidc "" [] false, [disabled_record])
  else
    match get_env wellknownVar env with
    | None => inr ("Missing required environment variable: " +:+ wellknownVar)
    | Some url =>
        match get_env audiencesVar env with
        | None => inr ("Missing required environment variable: " +:+ audiencesVar)
        | Some text =>
            match split_env text with
            | [] => inr (audiencesVar +:+ " parsed to an empty list.")
            | auds => inl (mkOidc url auds true, [])
            end
        end
    end.

Lemma split_env_nonempty s : Forall (fun t => t <> "") (split_env s).
Proof. apply Forall_forall. by intros t [? _]%list_elem_of_filter. Qed.

(** Authentication is only off when that was asked for, and complete when it
    is on. A configuration that is read without an error is disabled exactly if
    the environment says [true] or [1], which is then audited; otherwise it has
    a URL and at least one audience, none of them empty. *)
Theorem configuration_complete wellknownVar audiencesVar env cfg records :
  create wellknownVar audiencesVar env = inl (cfg, records) ->
  (enabled cfg = false <->
     env !! "IDTX_INSECURE_DISABLE_AUTH" = Some "true" \/ env !! "IDTX_INSECURE_DISABLE_AUTH" = Some "1") /\
  (enabled cfg = false -> records = [disabled_record]) /\
  (enabled cfg = true ->
     env !! wellknownVar = Some (wellKnownUrl cfg) /\ wellKnownUrl cfg <> "" /\ records = [] /\
     audiences cfg <> [] /\ Forall (fun t => t <> "") (audiences cfg)).
Proof.
  assert (Henv : forall name v, get_env name env = Some v -> env !! name = Some v /\ v <> "").
  { intros name v. unfold get_env. destruct (env !! name) as [w|]; [|done]. destruct (is_empty w) eqn:He; [done|].
    intros [= <-]. split; [done|]. by intros ->. }
  assert (Hoff : forall v, v = "true" \/ v = "1" ->
    get_env "IDTX_INSECURE_DISABLE_AUTH" env = Some v <-> env !! "IDTX_INSECURE_DISABLE_AUTH" = Some v).
  { intros v Hv. unfold get_env. destruct (env !! _) as [w|]; [|done]. destruct (is_empty w) eqn:He; [|done].
    destruct w; [|done]. split; [done|]. intros [= <-]. by destruct Hv. }
  unfold create. set (v := get_env "IDTX_INSECURE_DISABLE_AUTH" env) in *.
  destruct (decide (v = Some "true" \/ v = Some "1")) as [Hd|Hd].
  - assert (negb (bool_decide (default "false" v <> "true") && bool_decide (default "false" v <> "1")) = true) as ->
      by by destruct Hd as [-> | ->].
    intros [= <- <-]. cbn [enabled]. split_and!; [|done..]. split; [|done]. intros _.
    destruct Hd as [Hd|Hd]; [left|right]; apply Hoff; auto.
  - assert (negb (bool_decide (default "false" v <> "true") && bool_decide (default "false" v <> "1")) = false) as ->.
    { apply negb_false_iff, andb_true_iff. rewrite !bool_decide_eq_true.
      destruct v as [w|]; [|done]. cbn [default]. naive_solver. }
    destruct (get_env wellknownVar env) as [url|] eqn:Hu; [|done].
    destruct (get_env audiencesVar env) as [text|] eqn:Ha; [|done].
    pose proof (split_env_nonempty text) as Hall. destruct (split_env text) as [|a l]; [done|].
    intros [= <- <-]. cbn [enabled wellKnownUrl audiences]. apply Henv in Hu as [Hu Hne]. split_and!; [|done..].
    split; [done|]. intros Ho. destruct Hd. destruct Ho; [left|right]; apply Hoff; auto.
Qed.

Definition demo_env : environment :=
  {[ "WELL_KNOWN" := "https://idp/.well-known"; "AUDIENCES" := " core, ,web ,"; "IDTX_INSECURE_DISABLE_AUTH" := "yes" ]}.

Lemma configuration_complete_witness :
  create "WELL_KNOWN" "AUDIENCES" demo_env = inl (mkOidc "https://idp/.well-known" ["core"; "web"] true, []) /\
  Forall (fun t => t <> "") ["core"; "web"].
Proof.
  assert (Hc : create "WELL_KNOWN" "AUDIENCES" demo_env = inl (mkOidc "https://idp/.well-known" ["core"; "web"] true, []))
    by (vm_compute; reflexivity).
  split; [exact Hc|]. destruct (configuration_complete _ _ _ _ _ Hc) as (_ & _ & H). apply H. reflexivity.
Defined.
End Oidc.

Module HttpClient.
Local Open Scope string_scope.
Local Open Scope Z_scope.

(** An answer of the library: [error] is its error message, if it failed. *)
Record cpr_response := mkCpr { status_code : Z; text : string; error : option string }.
Record Response := mkResponse { ok : bool; body : string; code : Z; err : string }.

(** The end of [get] and of [post]. *)
Definition to_response (r : cpr_response) : Response :=
  let http_ok := (200 <=? status_code r) && (status_code r <? 300) in
  let curl_ok := match error r with None => true | Some _ => false end in
  let err :=
    match error r with
    | Some message => message
    | None => if http_ok then "" else "HTTP " +:+ pretty (status_code r)
    end in
  mkResponse (curl_ok && http_ok) (text r) (status_code r) err.

(** A session as it is set up: an option that is not set is empty or [None]. *)
Record cpr_session := mkSession {
  session_url : string;
  session_timeout : Z;
  session_redirect : bool;
  session_headers : list (string * string);
  session_user_agent : option string;
  session_payload : list (string * string) }.

Section exchange.
(** [session.Get()] and [session.Post()]. *)
Context (Get Post : cpr_session -> cpr_response).

Definition get (url : string) (timeout_ms : Z) (headers : list (string * string)) (user_agent : option string) : Response :=
  to_response (Get (mkSession url timeout_ms true headers user_agent [])).

Definition post (url : string) (payload headers : list (string * string)) (user_agent : option string) (timeout_ms : Z) :
    Response :=
  to_response (Post (mkSession url timeout_ms true headers user_agent payload)).
End exchange.
End HttpClient.

Module JwtAuthHandler.
Import Http Oidc.
Local Open Scope string_scope.
Local Open Scope list_scope.
Local Open Scope Z_scope.

(** A verifier of the library, as it is built: the calls of [with_audience] in
    their order and the one algorithm allowed, with its key. *)
Record verifier := mkVerifier {
  ver_leeway : Z;
  with_issuer : option string;
  with_audience : list string;
  algorithm : string;
  public_key : string }.

(** Every right injection is the text of an exception. A claim is absent or
    read as a string; [verify] returns what it throws. *)
Class JwtLib := {
  decoded_jwt : Type;
  decode : string -> decoded_jwt + string;
  header_claim : decoded_jwt -> string -> option (string + string);
  payload_claim : decoded_jwt -> string -> string + string;
  key_from_components : string -> string -> string + string;
  algorithm_error : string -> string -> option string;
  verify : verifier -> decoded_jwt -> option string }.

Record KeyEntry := mkKey { pem : string; kid : string; kty : string; use : string; alg : string }.

Record JwtAuthHandler := mkHandler {
  is_enabled : bool;
  well_known_url : string;
  issuer_ : string;
  jwks_uri : string;
  audiences_ : list string;
  allowed_algs : gset string;
  leeway_ : Z;
  last_error_ : string;
  cache_ : option (gmap string KeyEntry) }.

Definition new_handler : JwtAuthHandler := mkHandler false "" "" "" [] ∅ 60 "" None.

Definition set_issuer (v : string) (h : JwtAuthHandler) : JwtAuthHandler :=
  mkHandler (is_enabled h) (well_known_url h) v (jwks_uri h) (audiences_ h) (allowed_algs h) (leeway_ h)
    (last_error_ h) (cache_ h).
Definition set_jwks_uri (v : string) (h : JwtAuthHandler) : JwtAuthHandler :=
  mkHandler (is_enabled h) (well_known_url h) (issuer_ h) v (audiences_ h) (allowed_algs h) (leeway_ h)
    (last_error_ h) (cache_ h).
Definition set_last_error (v : string) (h : JwtAuthHandler) : JwtAuthHandler :=
  mkHandler (is_enabled h) (well_known_url h) (issuer_ h) (jwks_uri h) (audiences_ h) (allowed_algs h) (leeway_ h)
    v (cache_ h).
Definition set_cache (v : option (gmap string KeyEntry)) (h : JwtAuthHandler) : JwtAuthHandler :=
  mkHandler (is_enabled h) (well_known_url h) (issuer_ h) (jwks_uri h) (audiences_ h) (allowed_algs h) (leeway_ h)
    (last_error_ h) v.

Record AuthResult := mkResult { success : bool; message : string; sub : string }.
Record context := mkContext { authenticated : bool; ctx_message : string; ctx_sub : string }.

Section jwt.
Context `{JT : JsonText} `{JL : JwtLib}.

(** ** The key cache *)

(** [j.value(name, fallback)] and [j.at(name).get<std::string>()]. *)
Definition value (name fallback : string) (j : json) : string + string :=
  match j with
  | JObject _ =>
      match field name j with
      | None => inl fallback
      | Some (JString s) => inl s
      | Some v => inr (wrong_type name v)
      end
  | _ => inr (wrong_type name j)
  end.

Definition at_string (name : string) (j : json) : string + string :=
  match get_string name j with
  | inl s => inl s
  | inr (OutOfRange what) | inr (TypeError what) | inr (OtherError what) => inr what
  end.

Definition has_field (name : string) (j : json) : bool := bool_decide (is_Some (field name j)).

(** What a [for] loop over a JSON value visits. *)
Definition elements (j : json) : list json :=
  match j with
  | JNull => []
  | JArray l => l
  | JObject fields => snd <$> fields
  | _ => [j]
  end.

(** The body of the loop: the entry to add, if any, or what is thrown. *)
Definition load_key (publicKey : json) : option KeyEntry + string :=
  match value "kty" "" publicKey, value "use" "sig" publicKey, value "kid" "" publicKey, value "alg" "" publicKey with
  | inl kty, inl use, inl kid, inl alg =>
      if bool_decide (kid = "") || bool_decide (use <> "sig") then inl None
      else if negb (bool_decide (kty = "RSA")) then inl None
      else if negb (has_field "n" publicKey) || negb (has_field "e" publicKey) then inl None
      else
        match at_string "n" publicKey, at_string "e" publicKey with
        | inl n, inl e =>
            match key_from_components n e with
            | inl pem => inl (Some (mkKey pem kid kty use alg))
            | inr what => inr what
            end
        | inr what, _ | _, inr what => inr what
        end
  | inr what, _, _, _ | _, inr what, _, _ | _, _, inr what, _ | _, _, _, inr what => inr what
  end.

(** [emplace] keeps the first entry of a key id. *)
Fixpoint load_keys (l : list json) (entries : gmap string KeyEntry) : gmap string KeyEntry + string :=
  match l with
  | [] => inl entries
  | j :: l =>
      match load_key j with
      | inr what => inr what
      | inl None => load_keys l entries
      | inl (Some k) =>
          load_keys l (match entries !! kid k with Some _ => entries | None => <[kid k := k]> entries end)
      end
  end.

(** The new cache; a missing [keys] is only logged. *)
Definition loadJwksJson (jwks_json : string) : gmap string KeyEntry + string :=
  match parse jwks_json with
  | inr what => inr what
  | inl publicKeys =>
      match publicKeys with
      | JNull | JObject _ => load_keys (elements (default JNull (field "keys" publicKeys))) ∅
      | j => inr (wrong_type "keys" j)
      end
  end.

Definition getKeyEntry (key_id : string) (h : JwtAuthHandler) : option KeyEntry :=
  entries ← cache_ h; entries !! key_id.

(** ** Configuration *)

Section fetch.
Variable fetch : string -> HttpClient.Response.

Definition refreshJwks (h : JwtAuthHandler) : JwtAuthHandler * bool :=
  if Str.is_empty (jwks_uri h) then (set_last_error "jwks_uri not set" h, false)
  else
    let response := fetch (jwks_uri h) in
    if negb (HttpClient.ok response)
    then (set_last_error ("Failed to GET jwks: HTTP " +:+ pretty (HttpClient.code response) +:+ " "
            +:+ HttpClient.err response) h, false)
    else
      match loadJwksJson (HttpClient.body response) with
      | inl entries => (set_cache (Some entries) h, true)
      | inr what => (set_last_error ("Failed to load JWKS: " +:+ what) h, false)
      end.

Definition configure (oidcConfig : OidcConfiguration) (allowedAlgs : gset string) (leeway : Z)
    (h : JwtAuthHandler) : JwtAuthHandler :=
  let h := mkHandler (enabled oidcConfig) (wellKnownUrl oidcConfig) (issuer_ h) (jwks_uri h)
             (audiences oidcConfig) allowedAlgs leeway (last_error_ h) (cache_ h) in
  if negb (is_enabled h) then h
  else
    let h := set_cache (Some ∅) h in
    let response := fetch (well_known_url h) in
    if negb (HttpClient.ok response) then h
    else
      match parse (HttpClient.body response) with
      | inr _ => h
      | inl j =>
          match at_string "issuer" j with
          | inr _ => h
          | inl issuer =>
              let h := set_issuer issuer h in
              match at_string "jwks_uri" j with
              | inr _ => h
              | inl uri => fst (refreshJwks (set_jwks_uri uri h))
              end
          end
      end.

Definition default_algs : gset string := {[ "RS256"; "PS256" ]}.

(** ** Tokens *)

Definition supported : list string := ["RS256"; "RS384"; "RS512"; "PS256"; "PS384"; "PS512"].

(** [None] for true, or [out_error]; the right injection is an exception. *)
Definition tryVerify (d : decoded_jwt) (token_alg key_id : string) (h : JwtAuthHandler) : option string + string :=
  match getKeyEntry key_id h with
  | None => inl (Some "Unknown key id kid")
  | Some key =>
      if negb (bool_decide (use key = "sig")) then inl (Some "jwk not for signing")
      else if negb (bool_decide (kty key = "RSA")) then inl (Some "Unsupported key type")
      else if negb (bool_decide (alg key = "")) && negb (bool_decide (alg key = token_alg))
      then inl (Some "jwk alg mismatch")
      else if negb (bool_decide (token_alg ∈ supported)) then inl (Some "Unsupported algorithm")
      else
        match algorithm_error token_alg (pem key) with
        | Some what => inr what
        | None =>
            let v := mkVerifier (u64 (leeway_ h)) (if Str.is_empty (issuer_ h) then None else Some (issuer_ h))
                       (audiences_ h) token_alg (pem key) in
            match verify v d with
            | None => inl None
            | Some what => inl (Some ("Token verification failed: " +:+ what))
            end
        end
  end.

Definition string_claim (d : decoded_jwt) (name : string) : string + string :=
  match header_claim d name with Some r => r | None => inl "" end.

Definition authenticate_token (token : string) (h : JwtAuthHandler) : JwtAuthHandler * (AuthResult + string) :=
  if Str.is_empty token then (h, inl (mkResult false "Missing token" ""))
  else if Str.is_empty (issuer_ h) || Str.is_empty (jwks_uri h)
  then (h, inl (mkResult false "JwtAuth not initialized" ""))
  else
    match decode token with
    | inr what => (h, inl (mkResult false ("Invalid token format: " +:+ what) ""))
    | inl d =>
        match string_claim d "kid", string_claim d "alg", payload_claim d "sub" with
        | inl key_id, inl token_alg, inl subject =>
            if Str.is_empty key_id then (h, inl (mkResult false "Token missing 'kid'" subject))
            else if Str.is_empty token_alg then (h, inl (mkResult false "Token missing 'alg'" subject))
            else if negb (bool_decide (allowed_algs h = ∅)) && negb (bool_decide (token_alg ∈ allowed_algs h))
            then (h, inl (mkResult false ("Disallowed algorithm: " +:+ token_alg) subject))
            else
              match tryVerify d token_alg key_id h with
              | inr what => (h, inr what)
              | inl None => (h, inl (mkResult true "OK" subject))
              | inl (Some err) =>
                  if bool_decide (err = "Unknown kid") then
                    match refreshJwks h with
                    | (h, true) =>
                        match tryVerify d token_alg key_id h with
                        | inr what => (h, inr what)
                        | inl None => (h, inl (mkResult true "OK" subject))
                        | inl (Some err) => (h, inl (mkResult false err subject))
                        end
                    | (h, false) => (h, inl (mkResult false err subject))
                    end
                  else (h, inl (mkResult false err subject))
              end
        | inr what, _, _ | _, inr what, _ | _, _, inr what => (h, inr what)
        end
    end.

(** ** Requests *)

Definition bearer : string := "Bearer ".

Definition getBearerToken (req : request) : option string :=
  let auth := header req "Authorization" in
  if String.prefix bearer auth then Some (Str.drop_string 7 auth) else None.

Definition authenticate (req : request) (h : JwtAuthHandler) : JwtAuthHandler * (AuthResult + string) :=
  match getBearerToken req with
  | None => (h, inl (mkResult false "Unauthorized: No Bearer token" ""))
  | Some token => authenticate_token token h
  end.

Inductive verdict :=
| Pass (ctx : option context)
| Reject (ctx : context) (res : response)
| Throw (what : string).

Definition unprotected (req : request) : bool :=
  bool_decide (method req = "OPTIONS") || bool_decide (url req = "/api/v1/health")
  || bool_decide (url req = "/api/v1/auth/login").

Definition before_handle (req : request) (h : JwtAuthHandler) : JwtAuthHandler * verdict :=
  if negb (is_enabled h) || unprotected req then (h, Pass None)
  else
    match authenticate req h with
    | (h, inr what) => (h, Throw what)
    | (h, inl r) =>
        if success r then (h, Pass (Some (mkContext true (message r) (sub r))))
        else (h, Reject (mkContext false (message r) (sub r))
                   (set_header "WWW-Authenticate" "Bearer" (mkResponse 401 [] (message r))))
    end.
End fetch.

(** ** The keys *)

Lemma load_keys_entries l entries m key_id key :
  load_keys l entries = inl m -> m !! key_id = Some key ->
  entries !! key_id = Some key \/ (kid key = key_id /\ exists j, j ∈ l /\ load_key j = inl (Some key)).
Proof.
  revert entries. induction l as [|j l IH]; intros entries; cbn [load_keys]; [by intros [= <-]; left|].
  destruct (load_key j) as [[k|]|] eqn:Hk; [..|done].
  - intros Hl Hm. destruct (IH _ Hl Hm) as [He|(? & j' & ? & ?)]; [|right; split; [done|exists j'; split; [by right|done]]].
    destruct (entries !! kid k) as [old|] eqn:Hold; [by left|]. destruct (decide (kid k = key_id)) as [<-|Hne].
    + rewrite lookup_insert_eq in He. injection He as <-. right. split; [done|]. exists j. split; [by left|done].
    + rewrite lookup_insert_ne in He by done. by left.
  - intros Hl Hm. destruct (IH _ Hl Hm) as [He|(? & j' & ? & ?)]; [by left|right; split; [done|]].
    exists j'. split; [by right|done].
Qed.

Definition document_keys (text : string) (key : KeyEntry) : Prop :=
  exists doc j, parse text = inl doc /\ j ∈ elements (default JNull (field "keys" doc)) /\ load_key j = inl (Some key).

Lemma loaded_keys text m key_id key :
  loadJwksJson text = inl m -> m !! key_id = Some key -> kid key = key_id /\ document_keys text key.
Proof.
  unfold loadJwksJson, document_keys. destruct (parse text) as [doc|]; [|done].
  destruct doc; try done; intros Hl Hm;
    destruct (load_keys_entries _ _ _ _ _ Hl Hm) as [He|(? & j & ? & ?)]; try done; eauto 10.
Qed.

Lemma prefix_drop p s : String.prefix p s = true -> s = (p +:+ Str.drop_string (String.length p) s)%string.
Proof.
  revert s. induction p as [|c p IH]; intros s; [by destruct s|]. destruct s as [|c' s]; [done|].
  cbn [String.prefix]. destruct (ascii_dec c c') as [<-|]; [|done]. intros Hs.
  change (String c s = String c (p +:+ Str.drop_string (String.length p) s)%string). f_equal. by apply IH.
Qed.

(** What [configure] leaves: the configured values, and a cache that is empty or
    the loaded document. *)
Record configured (fetch : string -> HttpClient.Response) (cfg : OidcConfiguration) (algs : gset string)
    (leeway : Z) (h : JwtAuthHandler) : Prop := {
  conf_enabled : is_enabled h = enabled cfg;
  conf_audiences : audiences_ h = audiences cfg;
  conf_algs : allowed_algs h = algs;
  conf_leeway : leeway_ h = leeway;
  conf_cache : forall key_id key, getKeyEntry key_id h = Some key ->
    kid key = key_id /\ document_keys (HttpClient.body (fetch (jwks_uri h))) key }.

Lemma configure_configured fetch cfg algs leeway :
  configured fetch cfg algs leeway (configure fetch cfg algs leeway new_handler).
Proof.
  unfold configure. cbv zeta. cbn [is_enabled well_known_url set_cache].
  destruct (enabled cfg) eqn:He; cbn [negb]; [|by split].
  destruct (HttpClient.ok (fetch (wellKnownUrl cfg))); [|by split]. cbn [negb].
  destruct (parse _) as [j|]; [|by split]. destruct (at_string "issuer" j) as [issuer|]; [|by split].
  destruct (at_string "jwks_uri" j) as [uri|]; [|by split].
  unfold refreshJwks. cbn [jwks_uri set_jwks_uri set_issuer set_cache].
  destruct (Str.is_empty uri); [by split|]. destruct (HttpClient.ok (fetch uri)); [|by split]. cbn [negb].
  destruct (loadJwksJson _) as [m|] eqn:Hl; [|by split]. cbn [fst].
  split; [done..|]. intros key_id key Hk. by apply (loaded_keys _ m).
Qed.

(** ** Who passes *)

Lemma tryVerify_ok d token_alg key_id h :
  tryVerify d token_alg key_id h = inl None ->
  exists key, getKeyEntry key_id h = Some key /\ token_alg ∈ supported /\ (alg key = "" \/ alg key = token_alg) /\
    verify (mkVerifier (u64 (leeway_ h)) (if Str.is_empty (issuer_ h) then None else Some (issuer_ h))
              (audiences_ h) token_alg (pem key)) d = None.
Proof.
  unfold tryVerify. destruct (getKeyEntry key_id h) as [key|]; [|done].
  destruct (negb (bool_decide (use key = "sig"))); [done|]. destruct (negb (bool_decide (kty key = "RSA"))); [done|].
  destruct (negb (bool_decide (alg key = "")) && negb (bool_decide (alg key = token_alg))) eqn:Ha; [done|].
  destruct (bool_decide (token_alg ∈ supported)) eqn:Hs; [|done]. cbn [negb].
  destruct (algorithm_error _ _); [done|]. destruct (verify _ d) eqn:Hv; [done|]. intros _.
  exists key. apply bool_decide_eq_true in Hs. split_and!; [done..| |done].
  destruct (decide (alg key = "")); [by left|right]. rewrite (bool_decide_false (alg key = "")) in Ha by done.
  cbn in Ha. apply negb_false_iff, bool_decide_eq_true in Ha. done.
Qed.

Lemma tryVerify_unknown d token_alg key_id h err :
  tryVerify d token_alg key_id h = inl (Some err) -> err <> "Unknown kid".
Proof.
  unfold tryVerify. destruct (getKeyEntry key_id h) as [key|]; [|by intros [= <-]].
  destruct (negb (bool_decide (use key = "sig"))); [by intros [= <-]|].
  destruct (negb (bool_decide (kty key = "RSA"))); [by intros [= <-]|].
  destruct (negb _ && negb _); [by intros [= <-]|]. destruct (negb _); [by intros [= <-]|].
  destruct (algorithm_error _ _); [done|]. destruct (verify _ d); [by intros [= <-]|done].
Qed.

(** The retry after a refresh is never reached. *)
Definition authenticate_once (token : string) (h : JwtAuthHandler) : AuthResult + string :=
  if Str.is_empty token then inl (mkResult false "Missing token" "")
  else if Str.is_empty (issuer_ h) || Str.is_empty (jwks_uri h) then inl (mkResult false "JwtAuth not initialized" "")
  else
    match decode token with
    | inr what => inl (mkResult false ("Invalid token format: " +:+ what) "")
    | inl d =>
        match string_claim d "kid", string_claim d "alg", payload_claim d "sub" with
        | inl key_id, inl token_alg, inl subject =>
            if Str.is_empty key_id then inl (mkResult false "Token missing 'kid'" subject)
            else if Str.is_empty token_alg then inl (mkResult false "Token missing 'alg'" subject)
            else if negb (bool_decide (allowed_algs h = ∅)) && negb (bool_decide (token_alg ∈ allowed_algs h))
            then inl (mkResult false ("Disallowed algorithm: " +:+ token_alg) subject)
            else
              match tryVerify d token_alg key_id h with
              | inr what => inr what
              | inl None => inl (mkResult true "OK" subject)
              | inl (Some err) => inl (mkResult false err subject)
              end
        | inr what, _, _ | _, inr what, _ | _, _, inr what => inr what
        end
    end.

Lemma authenticate_token_once fetch token h : authenticate_token fetch token h = (h, authenticate_once token h).
Proof.
  unfold authenticate_token, authenticate_once. destruct (Str.is_empty token); [done|].
  destruct (_ || _); [done|]. destruct (decode token) as [d|]; [|done].
  destruct (string_claim d "kid") as [key_id|]; [|done]. destruct (string_claim d "alg") as [a|]; [|done].
  destruct (payload_claim d "sub") as [subject|]; [|done]. destruct (Str.is_empty key_id); [done|].
  destruct (Str.is_empty a); [done|]. destruct (negb _ && negb _); [done|].
  destruct (tryVerify d a key_id h) as [[err|]|] eqn:Ht; [|done..].
  rewrite bool_decide_false by by eapply tryVerify_unknown. done.
Qed.

(** A protected request only passes with a token the identity provider's keys
    vouch for. After [configure], whatever the network answered, if a request for
    anything but the health and login routes passes, then it carries a bearer
    token whose key id names a key of the document fetched from the provider's
    key URL, an RSA key for signing; the token's algorithm is supported, allowed
    by the configuration and not in conflict with the key's own; and the library
    verified the token with that key, the provider's issuer and every configured
    audience. The subject the request runs under is the token's. *)
Theorem passed_requests_are_signed fetch fetch' cfg algs leeway req ctx :
  let h := configure fetch cfg algs leeway new_handler in
  enabled cfg = true -> unprotected req = false -> snd (before_handle fetch' req h) = Pass ctx ->
  exists token d key token_alg subject,
    header req "Authorization" = (bearer +:+ token)%string /\ decode token = inl d /\
    string_claim d "kid" = inl (kid key) /\ kid key <> "" /\
    document_keys (HttpClient.body (fetch (jwks_uri h))) key /\
    string_claim d "alg" = inl token_alg /\ token_alg ∈ supported /\ (algs = ∅ \/ token_alg ∈ algs) /\
    (alg key = "" \/ alg key = token_alg) /\
    verify (mkVerifier (u64 leeway) (Some (issuer_ h)) (audiences cfg) token_alg (pem key)) d = None /\
    payload_claim d "sub" = inl subject /\ ctx = Some (mkContext true "OK" subject).
Proof.
  intros h Hen Hup. pose proof (configure_configured fetch cfg algs leeway) as Hconf.
  change (configured fetch cfg algs leeway h) in Hconf. clearbody h. destruct Hconf as [He Ha Hal Hle Hc].
  unfold before_handle. rewrite He, Hen, Hup. cbn [negb orb]. unfold authenticate, getBearerToken.
  destruct (String.prefix bearer (header req "Authorization")) eqn:Hp; [|done].
  set (token := Str.drop_string 7 (header req "Authorization")).
  assert (Htok : header req "Authorization" = (bearer +:+ token)%string) by by apply (prefix_drop bearer).
  rewrite authenticate_token_once. unfold authenticate_once.
  destruct (Str.is_empty token); [done|]. destruct (Str.is_empty (issuer_ h)) eqn:Hi; [done|]. cbn [orb].
  destruct (Str.is_empty (jwks_uri h)); [done|]. destruct (decode token) as [d|] eqn:Hd; [|done].
  destruct (string_claim d "kid") as [key_id|] eqn:Hk; [|done].
  destruct (string_claim d "alg") as [token_alg|] eqn:Halg; [|done].
  destruct (payload_claim d "sub") as [subject|] eqn:Hs; [|done].
  destruct (Str.is_empty key_id) eqn:Hne; [done|]. destruct (Str.is_empty token_alg); [done|].
  destruct (negb _ && negb _) eqn:Hallowed; [done|].
  destruct (tryVerify d token_alg key_id h) as [[err|]|] eqn:Ht; [done| |done]. intros [= <-].
  apply tryVerify_ok in Ht as (key & Hkey & Hsup & Hmatch & Hv). destruct (Hc _ _ Hkey) as [<- Hdoc].
  rewrite Hi, Ha, Hle in Hv. rewrite Hal in Hallowed.
  exists token, d, key, token_alg, subject. split_and!; try done.
  - by intros Hz; rewrite Hz in Hne.
  - destruct (decide (algs = ∅)); [by left|right]. rewrite (bool_decide_false (algs = ∅)) in Hallowed by done.
    cbn in Hallowed. by apply negb_false_iff, bool_decide_eq_true in Hallowed.
Qed.

Lemma before_handle_keeps fetch req h : fst (before_handle fetch req h) = h.
Proof.
  unfold before_handle, authenticate. destruct (_ || _); [done|]. destruct (getBearerToken req) as [token|]; [|done].
  rewrite authenticate_token_once. destruct (authenticate_once token h) as [r|]; [|done]. by destruct (success r).
Qed.

(** No request refreshes the keys. Whatever a request carries, handling it
    contacts nobody (the verdict does not depend on the network) and leaves the
    handler as it was; so a token signed with a key that was not in the document
    fetched at startup is refused, with the same message, until the server is
    restarted. *)
Theorem keys_are_never_refreshed fetch fetch' req h :
  before_handle fetch req h = (h, snd (before_handle fetch' req h)).
Proof.
  unfold before_handle. destruct (negb (is_enabled h) || unprotected req); [done|].
  unfold authenticate. destruct (getBearerToken req) as [token|]; [|done].
  rewrite !authenticate_token_once. destruct (authenticate_once token h) as [r|]; [|done].
  by destruct (success r).
Qed.
End jwt.

(** ** A concrete provider *)

Definition jwk : json :=
  JObject [("kty", JString "RSA"); ("use", JString "sig"); ("kid", JString "k1"); ("alg", JString "RS256");
           ("n", JString "N"); ("e", JString "AQAB")].

#[local] Instance provider_json : JsonText :=
  {| dump := fun _ => "{}";
     parse := fun s =>
       if bool_decide (s = "well-known") then inl (JObject [("issuer", JString "idp"); ("jwks_uri", JString "keys-url")])
       else if bool_decide (s = "jwks") then inl (JObject [("keys", JArray [jwk])]) else inr "bad";
     missing_field := fun n => n; wrong_type := fun n _ => n |}.

(** A token is its key id. *)
#[local] Instance demo_lib : JwtLib :=
  {| decoded_jwt := string;
     decode := fun s => inl s;
     header_claim := fun d name => if bool_decide (name = "kid") then Some (inl d) else Some (inl "RS256");
     payload_claim := fun _ _ => inl "alice";
     key_from_components := fun n e => inl (n +:+ e);
     algorithm_error := fun _ _ => None;
     verify := fun v _ => if bool_decide (public_key v = "NAQAB") then None else Some "bad signature" |}.

Definition network (url : string) : HttpClient.Response :=
  HttpClient.to_response (HttpClient.mkCpr 200 (if bool_decide (url = "keys-url") then "jwks" else "well-known") None).

Definition demo_config : OidcConfiguration := mkOidc "url" ["core"; "web"] true.
Definition demo_handler : JwtAuthHandler := configure network demo_config default_algs 60 new_handler.

Definition with_token (token : string) : request :=
  mkRequest "GET" "/api/v1/files" (fun h => if bool_decide (h = "Authorization") then bearer +:+ token else "") "" "10.0.0.9".

Lemma passed_requests_are_signed_witness :
  snd (before_handle network (with_token "k1") demo_handler) = Pass (Some (mkContext true "OK" "alice")) /\
  exists key, kid key = "k1" /\ verify (mkVerifier 60 (Some "idp") ["core"; "web"] "RS256" (pem key)) "k1" = None.
Proof.
  assert (Hv : snd (before_handle network (with_token "k1") demo_handler) = Pass (Some (mkContext true "OK" "alice")))
    by (vm_compute; reflexivity).
  split; [exact Hv|].
  destruct (passed_requests_are_signed network network demo_config default_algs 60 (with_token "k1") _ eq_refl eq_refl Hv)
    as (token & d & key & token_alg & subject & Htok & Hd & Hk & _ & _ & Ha & _ & _ & _ & Hver & _).
  exists key. assert (token = "k1") as -> by (vm_compute in Htok; by injection Htok).
  injection Hd as <-. injection Ha as <-. injection Hk as Hk. by split.
Defined.

(** A key the provider published after the start is not found. *)
Example rotated_key_refused :
  snd (before_handle network (with_token "k2") demo_handler) =
  Reject (mkContext false "Unknown key id kid" "alice")
    (set_header "WWW-Authenticate" "Bearer" (mkResponse 401 [] "Unknown key id kid")).
Proof. vm_compute. reflexivity. Qed.

(** A document without [keys] is only logged, and the cache is empty. *)
Example document_without_keys :
  loadJwksJson (JT := {| dump := fun _ => ""; parse := fun _ => inl (JObject []); missing_field := fun n => n;
                         wrong_type := fun n _ => n |}) "{}" = inl ∅.
Proof. reflexivity. Qed.

End JwtAuthHandler.
