(* ===== verification/Proto.v ===== *)
(** * Wire messages (shared/proto_messages/*.proto)

    The protobuf messages the server reads and writes, as the generated
    classes present them, and the floating-point values they carry. Only the
    byte encoding is not modelled: [SerializeToString] and [ParseFromString]
    are generated code, and parameters of the definitions that use them
    (class [Wire]). *)
From Stdlib Require Export SpecFloat.
From S2P Require Import Prelude.

Module Proto.

(** ** Numbers *)

(** [double] and [float] as IEEE 754 data; a [float] is the value of the
    [double] it widens to. *)
Definition double : Type := spec_float.

#[global] Instance double_eq_dec : EqDecision double.
Proof. solve_decision. Defined.

(** [static_cast<float>]: round to 24 bits, ties to even. *)
Definition to_float (x : double) : double :=
  match x with
  | S754_finite s m e => binary_normalize 24 128 (cond_Zopp s (Z.pos m)) e s
  | _ => x
  end.

Definition zero : double := S754_zero false.
Definition one : double := S754_finite false 4503599627370496 (-52).

(** ** transform.proto *)

Record Vector3 := mkVector3 { vx : double; vy : double; vz : double }.

(** Rows of a 4x4 matrix: [m00 .. m03], [m10 .. m13], ... *)
Definition Matrix4dTransform : Type :=
  (double * double * double * double) * (double * double * double * double) *
  (double * double * double * double) * (double * double * double * double).

Record SeparateTransform := mkSeparate {
  translation : Vector3; rotation : Vector3; scale : Vector3 }.

Inductive transform_case :=
| TRANSFORM_NOT_SET
| kSeperate (sep : SeparateTransform)
| kMatrix (m : Matrix4dTransform).

Record TransformUpdate := mkTransformUpdate {
  upd_session_id : string;
  upd_usd_file : string;
  upd_prim_path : string;
  upd_transform : transform_case;
  upd_timestamp : Z }.

(** ** prim.proto *)

(** An open enum: a value this build does not know is kept. *)
Inductive PrimType :=
| PRIM_TYPE_UNSPECIFIED
| PRIM_TYPE_CUBE
| PRIM_TYPE_SPHERE
| PRIM_TYPE_CONE
| PRIM_TYPE_CYLINDER
| PRIM_TYPE_CAPSULE
| PRIM_TYPE_XFORM
| PRIM_TYPE_UNKNOWN (n : Z).

#[global] Instance PrimType_eq_dec : EqDecision PrimType.
Proof. solve_decision. Defined.

Record CreatePrimBroadcast := mkCreatePrimBroadcast {
  cpb_parent_path : string;
  cpb_prim_name : string;
  cpb_type : PrimType;
  cpb_size : option double;
  cpb_height : option double;
  cpb_radius : option double;
  cpb_axis : option string }.

(** ** session.proto and base.proto *)

Record Ack := mkAck { ack_ok : bool; ack_error : string }.

Inductive message :=
| MESSAGE_NOT_SET
| Handshake (session_id session_layer usd_path usd_uri : string)
| XformUpdate (u : TransformUpdate)
| XformBroadcast (client_id : string) (u : TransformUpdate)
| AckMessage (a : Ack)
| ErrorMessage (code text : string)
| SnapshotComplete
| CreatePrim (parent_path : string) (type : PrimType)
| CreatePrimBroadcastMessage (b : CreatePrimBroadcast)
| SetPrimActive (prim_path : string) (active : bool)
| SetPrimActiveBroadcast (prim_path : string) (active : bool).

Record BaseMessage := mkBaseMessage {
  msg_session_id : option string;
  msg_body : message;
  msg_request_id : Z;
  msg_server_seq : Z }.

Definition with_server_seq (seq : Z) (m : BaseMessage) : BaseMessage :=
  mkBaseMessage (msg_session_id m) (msg_body m) (msg_request_id m) seq.

(** ** The generated codec *)

(** [encode m] is what [SerializeToString] leaves in the string and what it
    returns; [ParseFromString] returns the parsed message if it succeeds. *)
Class Wire := {
  encode : BaseMessage -> string * bool;
  ParseFromString : string -> option BaseMessage }.

(** A payload: the bytes, and the message they were written from. *)
Record Payload := mkPayload { bytes : string; message_of : BaseMessage }.

Definition SerializeToString `{Wire} (m : BaseMessage) : Payload * bool :=
  (mkPayload (fst (encode m)) m, snd (encode m)).

(** The result of [SerializeToString] ignored. *)
Definition serialized `{Wire} (m : BaseMessage) : Payload := fst (SerializeToString m).

Definition payload_empty (p : Payload) : bool :=
  match bytes p with EmptyString => true | _ => false end.

(** Serializing a message that has a field set succeeds and writes bytes
    (protobuf fails only above 2 GiB, and no message here comes near that). *)
Class WireOk `{Wire} : Prop := {
  encode_ok : forall m, msg_body m <> MESSAGE_NOT_SET -> snd (encode m) = true;
  encode_nonempty : forall m, msg_body m <> MESSAGE_NOT_SET -> fst (encode m) <> EmptyString }.

Lemma serialize_ok `{WireOk} m : msg_body m <> MESSAGE_NOT_SET -> SerializeToString m = (serialized m, true).
Proof. intros Hm. unfold serialized, SerializeToString. by rewrite encode_ok. Qed.

Lemma serialized_nonempty `{WireOk} m : msg_body m <> MESSAGE_NOT_SET -> payload_empty (serialized m) = false.
Proof.
  intros Hm. unfold payload_empty. simpl. pose proof (encode_nonempty m Hm). by destruct (fst (encode m)).
Qed.

End Proto.
