(* ===== verification/Usd.v ===== *)
(** * The USD library, as the server uses it

    OpenUSD is not part of the program. Everything the code calls of it is a
    field of the class [Usd]; the definitions of the other files are
    parametrised by it and the theorems hold for every instance, unless they
    name a law ([UsdLaws]). A stage is a value: reading calls take the stage
    they read, authoring calls return the stage they leave and either a result
    or an exception. The change notices an authoring call causes are collected
    by the stage and delivered by [close_change_block], with the stage as each
    observer sees it. [Toy] is a small instance for concrete executions. *)
From S2P Require Import Prelude Filesystem Proto.

Module Usd.
Import Disk Proto.

(** [VtValue]: empty, or holding one of the types the code asks for, or
    something else. *)
Inductive VtValue :=
| VtEmpty
| VtDouble (d : double)
| VtToken (s : string)
| VtVec3d (v : double * double * double)
| VtVec3f (v : double * double * double)
| VtMatrix4d (m : Matrix4dTransform)
| VtOther.

Inductive SdfSpecifier := SdfSpecifierDef | SdfSpecifierOver | SdfSpecifierClass.

#[global] Instance SdfSpecifier_eq_dec : EqDecision SdfSpecifier.
Proof. solve_decision. Defined.

(** The transform ops and precisions the dispatcher uses. *)
Inductive XformOpType := TypeTranslate | TypeRotateXYZ | TypeScale | TypeTransform.
Inductive XformPrecision := PrecisionDouble | PrecisionFloat.

(** The schema classes the code names. *)
Inductive schema := UsdGeomCube | UsdGeomSphere | UsdGeomCone | UsdGeomCylinder | UsdGeomCapsule
  | UsdGeomXform | UsdGeomGprim.

(** An entry of a zip file: its bytes are [None] if they cannot be read. *)
Record ZipEntry := mkZipEntry {
  zip_name : string;
  compressionMethod : Z;
  zip_size : Z;
  zip_data : option string }.

Class Usd := {
  (* paths *)
  SdfPath : Type;
  SdfPath_eq_dec :: EqDecision SdfPath;
  IsValidPathString : string -> bool;
  MakePath : string -> SdfPath;
  GetString : SdfPath -> string;
  IsAbsolutePath : SdfPath -> bool;
  IsPrimPath : SdfPath -> bool;
  IsPropertyPath : SdfPath -> bool;
  AbsoluteRootPath : SdfPath;
  AppendChild : SdfPath -> string -> SdfPath;
  GetPrimPath : SdfPath -> SdfPath;
  GetParentPath : SdfPath -> SdfPath;
  GetName : SdfPath -> string;
  GetPathElementCount : SdfPath -> nat;
  path_ltb : SdfPath -> SdfPath -> bool;      (* the order of std::set<SdfPath> *)
  (* schemas *)
  TfType : Type;
  Find : schema -> TfType;
  UnknownType : TfType;
  IsUnknown : TfType -> bool;
  IsAType : TfType -> TfType -> bool;
  GetSchemaTypeName : TfType -> string;
  PrimDefinition : Type;
  FindConcretePrimDefinition : string -> option PrimDefinition;
  GetAttributeFallbackValue : PrimDefinition -> string -> option VtValue;
  TfMakeValidIdentifier : string -> string;
  GetOpName : XformOpType -> string;
  GetValueTypeName : XformOpType -> XformPrecision -> string;
  (* stages and layers *)
  Stage : Type;
  Layer : Type;
  Layer_eq_dec :: EqDecision Layer;           (* handle identity *)
  GetRootLayer : Stage -> option Layer;
  GetSessionLayer : Stage -> option Layer;
  (* prims of a stage *)
  Prim : Type;
  GetPrimAtPath : Stage -> SdfPath -> option Prim;
  IsPseudoRoot : Stage -> Prim -> bool;
  GetParent : Stage -> Prim -> option Prim;
  IsGprim : Stage -> Prim -> bool;            (* prim.IsA<UsdGeomGprim>() *)
  IsActive : Stage -> Prim -> bool;
  IsDefined : Stage -> Prim -> bool;
  GetPrimStack : Stage -> Prim -> list (option Layer);  (* the layer of each spec *)
  GetAttributeTypeName : Stage -> Prim -> string -> option string;
  GetDoubleAttr : Stage -> Prim -> schema -> string -> option double;
  GetTokenAttr : Stage -> Prim -> schema -> string -> option string;
  IsXformable : Stage -> Prim -> bool;
  IsXformCommonAPI : Stage -> Prim -> bool;
  GetXformVectorsByAccumulation : Stage -> Prim ->
    option ((double * double * double) * (double * double * double) * (double * double * double));
  GetLocalTransformation : Stage -> Prim -> option Matrix4dTransform;
  (* specs of a layer, as the stage holds it *)
  PrimSpec : Type;
  LayerIsEmpty : Stage -> Layer -> bool;
  LayerTraverse : Stage -> Layer -> list SdfPath;
  LayerGetPrimAtPath : Stage -> Layer -> SdfPath -> option PrimSpec;
  LayerGetAttributeDefault : Stage -> Layer -> SdfPath -> string -> option VtValue;
  SpecLayer : PrimSpec -> option Layer;
  SpecPath : PrimSpec -> SdfPath;
  HasActive : PrimSpec -> bool;
  GetActive : PrimSpec -> bool;
  GetSpecifier : PrimSpec -> SdfSpecifier;
  SpecTypeName : PrimSpec -> string;
  SpecAttributes : PrimSpec -> list (option string);    (* names; [None] is an invalid handle *)
  (* authoring; the edit target is the session layer *)
  DefinePrim : SdfPath -> string -> Stage -> Stage * (bool + exn);
  PrimSetActive : Prim -> bool -> Stage -> Stage * (bool + exn);
  ClearXformOpOrder : Prim -> Stage -> Stage * (unit + exn);
  AddXformOp : Prim -> XformOpType -> XformPrecision -> Stage -> Stage * (bool + exn);
  SetXformOp : Prim -> XformOpType -> VtValue -> Stage -> Stage * (unit + exn);
  ClearSessionLayer : Stage -> Stage * (unit + exn);
  (* layers and files *)
  FindOrOpen : string -> Disk -> option Layer;
  CreateNew : string -> Disk -> Disk * option Layer;
  OpenStage : Layer -> Layer -> Disk -> option Stage;
  SetEditTargetToSessionLayer : Stage -> Stage;
  SaveSessionLayer : Stage -> Disk -> Stage * Disk * (bool + exn);
  ReloadRootLayer : Disk -> Stage -> Stage * (bool + exn);
  MergedLayer : Type;                         (* a layer of its own *)
  UsdUtilsFlattenLayerStack : Stage -> option MergedLayer;
  MergedHasPrimAtPath : MergedLayer -> SdfPath -> bool;
  RemoveNameChild : SdfPath -> SdfPath -> MergedLayer -> MergedLayer;   (* parent, child *)
  Export : MergedLayer -> string -> Disk -> Disk * bool;
  (* usdz packages *)
  ZipOpen : string -> Disk -> option (list ZipEntry);
  ZipWriter : Type;
  ZipCreateNew : string -> Disk -> Disk * option ZipWriter;
  ZipAddFile : ZipWriter -> string -> string -> Disk -> ZipWriter * string;
  ZipSave : ZipWriter -> Disk -> Disk * bool;
  ZipDiscard : ZipWriter -> Disk -> Disk;
  (* notices *)
  Notice : Type;
  GetResyncedPaths : Notice -> list SdfPath;
  GetChangedInfoOnlyPaths : Notice -> list SdfPath;
  close_change_block : Stage -> list (Stage * Notice) * Stage;
  (* a bound on the paths at which a stage has prims *)
  stage_paths : Stage -> list SdfPath }.

(** Documented behaviour of USD that some theorems rely on. *)
Class UsdLaws `{Usd} : Prop := {
  (* a stage has finitely many prims *)
  prim_in_stage_paths : forall st p, GetPrimAtPath st p <> None -> p ∈ stage_paths st;
  (* different child names give different paths *)
  append_child_inj : forall p a b, AppendChild p a = AppendChild p b -> a = b;
  (* a prim has fewer ancestors than the stage has paths *)
  ancestors_finite : forall st, exists depth : Prim -> nat,
    (forall path p, GetPrimAtPath st path = Some p -> (depth p < length (stage_paths st))%nat) /\
    (forall p q, GetParent st p = Some q -> (depth q < depth p)%nat) }.

(** Paths are totally ordered, and a prim's path has one element more than its
    parent's. *)
Class PathLaws `{Usd} : Prop := {
  path_order :: LtbOrder path_ltb;
  parent_shorter : forall p, IsPrimPath p = true ->
    GetPathElementCount p = S (GetPathElementCount (GetParentPath p)) }.

(** Authoring throws nothing but [std::exception]s. *)
Class UsdThrows `{Usd} : Prop := {
  define_prim_throws p t : throws_std (fun _ => True) (DefinePrim p t);
  prim_set_active_throws p b : throws_std (fun _ => True) (PrimSetActive p b);
  clear_ops_throws p : throws_std (fun _ => True) (ClearXformOpOrder p);
  add_op_throws p t q : throws_std (fun _ => True) (AddXformOp p t q);
  set_op_throws p t v : throws_std (fun _ => True) (SetXformOp p t v);
  reload_throws d : throws_std (fun _ => True) (ReloadRootLayer d) }.

End Usd.
