(* ===== verification/Toy.v ===== *)
(** * A small USD, for concrete executions

    An instance of [Usd] that runs: paths are strings, a stage is two layers of
    prim specs with attributes, the opinions of the session layer over those of
    the root layer, and every authoring call is announced when its change block
    closes. [fault] makes authoring at a path throw. The theorems hold for
    every instance of the classes; the witnesses use this one. *)
From S2P Require Import Prelude Filesystem PathFacts Proto Usd.

Module Toy.
Import Disk PathFacts Proto Usd.
Local Open Scope string_scope.
Local Open Scope list_scope.
Local Open Scope Z_scope.

(** ** Wire and errors *)

(** A codec that tells messages from each other by nothing but their size. *)
#[export] Instance toy_wire : Wire :=
  {| encode m := (match msg_body m with MESSAGE_NOT_SET => "" | _ => "m" end, true);
     ParseFromString s := None |}.

#[export] Instance toy_wire_ok : WireOk.
Proof. split; intros [? [] ? ?] Hm; done. Qed.

#[export] Instance no_errors : IoErrors := fun _ _ _ => None.
#[export] Instance whole_writes : ShortWrites := fun _ _ _ => None.

(** ** Paths *)

Definition prim_part (p : string) : string :=
  match Str.split_last "."%char p with Some (b, _) => b | None => p end.

Definition is_property (p : string) : bool := Str.contains_char "."%char p.

Definition append_child (p n : string) : string :=
  if String.eqb p "/" then ("/" +:+ n)%string else (p +:+ "/" +:+ n)%string.

(** ** Layers and stages *)

Record spec := mkSpec {
  sp_def : bool;
  sp_type : string;
  sp_active : option bool;
  sp_attrs : list (string * VtValue) }.

Definition layer := gmap string spec.

Record toy_stage := mkStage {
  root_layer : layer;
  session_layer : layer;
  session_file : string;
  root_file : string;
  pending : list (string * bool) }.        (* path, resynced *)

Definition empty_spec : spec := mkSpec false "" None [].

(** The specs of a path, strongest first. *)
Definition specs (st : toy_stage) (p : string) : list spec :=
  option_list (session_layer st !! p) ++ option_list (root_layer st !! p).

Definition type_of (st : toy_stage) (p : string) : string :=
  match filter (fun t => t <> "") (sp_type <$> specs st p) with t :: _ => t | [] => "" end.

Definition active (st : toy_stage) (p : string) : bool :=
  match omap sp_active (specs st p) with a :: _ => a | [] => true end.

Definition attr (st : toy_stage) (p name : string) : option VtValue :=
  match omap (fun s => snd <$> list_find (fun x => x.1 = name) (sp_attrs s)) (specs st p) with
  | x :: _ => Some x.2
  | [] => None
  end.

Definition has_prim (st : toy_stage) (p : string) : bool :=
  String.eqb p "/" || negb (bool_decide (specs st p = [])).

Definition set_attr (name : string) (v : VtValue) (l : list (string * VtValue)) :
    list (string * VtValue) :=
  filter (fun x => x.1 <> name) l ++ [(name, v)].

(** Change the session layer's spec of a path. *)
Definition edit (p : string) (notice : string * bool) (f : spec -> spec) (st : toy_stage) : toy_stage :=
  mkStage (root_layer st) (<[p := f (default empty_spec (session_layer st !! p))]> (session_layer st))
    (session_file st) (root_file st) (pending st ++ [notice]).

Definition edit_attr (p name : string) (v : VtValue) : toy_stage -> toy_stage :=
  edit p ((p +:+ "." +:+ name)%string, false) (fun s =>
    mkSpec (sp_def s) (sp_type s) (sp_active s) (set_attr name v (sp_attrs s))).

Definition op_name (t : XformOpType) : string :=
  match t with
  | TypeTranslate => "xformOp:translate"
  | TypeRotateXYZ => "xformOp:rotateXYZ"
  | TypeScale => "xformOp:scale"
  | TypeTransform => "xformOp:transform"
  end.

(** The ops that count: those that were added since the order was cleared. *)
Definition op_order (st : toy_stage) (p : string) : string :=
  match attr st p "xformOpOrder" with Some (VtToken s) => s | _ => "" end.

Definition add_op (p : string) (t : XformOpType) (st : toy_stage) : toy_stage :=
  edit_attr p "xformOpOrder" (VtToken (op_order st p +:+ op_name t +:+ ",")) st.

Definition op_value (st : toy_stage) (p : string) (t : XformOpType) : option VtValue :=
  if Str.contains (op_name t) (op_order st p) then attr st p (op_name t) else None.

Definition vector (dflt : double) (v : option VtValue) : double * double * double :=
  match v with Some (VtVec3d x) | Some (VtVec3f x) => x | _ => (dflt, dflt, dflt) end.

Definition identity_matrix : Matrix4dTransform :=
  ((one, zero, zero, zero), (zero, one, zero, zero), (zero, zero, one, zero), (zero, zero, zero, one)).

Definition schema_name (s : schema) : string :=
  match s with
  | UsdGeomCube => "Cube" | UsdGeomSphere => "Sphere" | UsdGeomCone => "Cone"
  | UsdGeomCylinder => "Cylinder" | UsdGeomCapsule => "Capsule" | UsdGeomXform => "Xform"
  | UsdGeomGprim => "Gprim"
  end.

Definition is_gprim_name (t : string) : bool :=
  negb (bool_decide (t = "" \/ t = "Xform" \/ t = "Scope")).

(** The lines of a file are the entries of a package, or the prims of a
    layer. *)
Definition newline : ascii := ascii_of_nat 10.

Definition lines (content : string) : list string :=
  filter (fun l => l <> "") (Str.split newline content).

Definition unlines (l : list string) : string :=
  foldr (fun a b => (a +:+ String newline b)%string) "" l.

(** A root layer: a prim of type [Xform] for every line. *)
Definition parse_layer (content : string) : layer :=
  list_to_map ((fun p => (p, mkSpec true "Xform" None [])) <$> lines content).

Definition read_layer (f : string) (d : Disk) : layer := parse_layer (default "" (read_file f d)).

(** A flattened stage. *)
Definition flatten (st : toy_stage) : layer :=
  union_with (fun s r => Some s) (session_layer st) (root_layer st).

Definition spec_paths (st : toy_stage) : list string :=
  (map_to_list (session_layer st)).*1 ++ (map_to_list (root_layer st)).*1.

(** As many entries as the paths have characters. *)
Definition prim_paths (st : toy_stage) : list string :=
  "/" :: "/" :: (spec_paths st ≫= fun p => p :: replicate (String.length p) p).

Section toy.
Context (fault : string -> option exn).

(** Author at [p], unless it throws. *)
Definition authored {A} (p : string) (f : toy_stage -> toy_stage) (a : A) (st : toy_stage) : toy_stage * (A + exn) :=
  match fault p with
  | Some e => (st, inr e)
  | None => (f st, inl a)
  end.

(** Add an operation, which can also fail at its attribute. *)
Definition added (p : string) (t : XformOpType) (st : toy_stage) : toy_stage * (bool + exn) :=
  match fault (p +:+ "." +:+ op_name t)%string with
  | Some e => (st, inr e)
  | None => authored p (add_op p t) true st
  end.

Definition toy : Usd := {|
  SdfPath := string;
  IsValidPathString s := Str.starts_with "/" s;
  MakePath s := s;
  GetString p := p;
  IsAbsolutePath p := Str.starts_with "/" p;
  IsPrimPath p := negb (String.eqb (Path.filename p) "") && negb (is_property p);
  IsPropertyPath p := is_property p;
  AbsoluteRootPath := "/";
  AppendChild := append_child;
  GetPrimPath := prim_part;
  GetParentPath p := Path.parent_path p;
  GetName p := match Str.split_last "."%char p with Some (_, n) => n | None => Path.filename p end;
  GetPathElementCount p := length (PathFacts.names p);
  path_ltb := String.ltb;
  TfType := string;
  Find s := schema_name s;
  UnknownType := "";
  IsUnknown t := String.eqb t "";
  IsAType t u := if String.eqb u "Gprim" then is_gprim_name t else String.eqb t u;
  GetSchemaTypeName t := t;
  PrimDefinition := string;
  FindConcretePrimDefinition t := Some t;
  GetAttributeFallbackValue def name :=
    if String.eqb name "axis" then Some (VtToken "Z") else Some (VtDouble one);
  TfMakeValidIdentifier s := s;
  GetOpName := op_name;
  GetValueTypeName t p :=
    match t, p with
    | TypeTransform, _ => "matrix4d"
    | _, PrecisionDouble => "double3"
    | _, PrecisionFloat => "float3"
    end;
  Stage := toy_stage;
  Layer := string;
  GetRootLayer st := Some (root_file st);
  GetSessionLayer st := Some (session_file st);
  Prim := string;
  GetPrimAtPath st p := if has_prim st p then Some p else None;
  IsPseudoRoot st p := String.eqb p "/";
  GetParent st p :=
    if (String.length (Path.parent_path p) <? String.length p)%nat then Some (Path.parent_path p)
    else None;
  IsGprim st p := is_gprim_name (type_of st p);
  IsActive := active;
  IsDefined st p := existsb sp_def (specs st p);
  GetPrimStack st p :=
    ((fun _ => Some (session_file st)) <$> option_list (session_layer st !! p)) ++
    ((fun _ => Some (root_file st)) <$> option_list (root_layer st !! p));
  GetAttributeTypeName st p name :=
    match attr st p name with
    | Some (VtVec3d _) => Some "double3"
    | Some (VtVec3f _) => Some "float3"
    | Some (VtMatrix4d _) => Some "matrix4d"
    | Some _ => Some "other"
    | None => None
    end;
  GetDoubleAttr st p _ name := match attr st p name with Some (VtDouble d) => Some d | _ => Some one end;
  GetTokenAttr st p _ name := match attr st p name with Some (VtToken t) => Some t | _ => Some "Z" end;
  IsXformable st p := negb (String.eqb (type_of st p) "");
  IsXformCommonAPI st p := negb (Str.contains (op_name TypeTransform) (op_order st p));
  GetXformVectorsByAccumulation st p :=
    Some (vector zero (op_value st p TypeTranslate), vector zero (op_value st p TypeRotateXYZ),
          vector one (op_value st p TypeScale));
  GetLocalTransformation st p :=
    match op_value st p TypeTransform with Some (VtMatrix4d m) => Some m | _ => Some identity_matrix end;
  PrimSpec := string * string * spec;
  LayerIsEmpty st l := bool_decide (session_layer st = ∅);
  LayerTraverse st l := (map_to_list (session_layer st)).*1;
  LayerGetPrimAtPath st l p := (fun s => (l, p, s)) <$> session_layer st !! p;
  LayerGetAttributeDefault st l p name :=
    s ← session_layer st !! p; x ← list_find (fun x => x.1 = name) (sp_attrs s); Some x.2.2;
  SpecLayer s := Some s.1.1;
  SpecPath s := s.1.2;
  HasActive s := bool_decide (is_Some (sp_active s.2));
  GetActive s := default true (sp_active s.2);
  GetSpecifier s := if sp_def s.2 then SdfSpecifierDef else SdfSpecifierOver;
  SpecTypeName s := sp_type s.2;
  SpecAttributes s := (fun x => Some x.1) <$> sp_attrs s.2;
  DefinePrim p t st :=
    if is_property p then (st, inl false)
    else authored p (edit p (p, true) (fun s => mkSpec true t (sp_active s) (sp_attrs s))) true st;
  PrimSetActive p b :=
    authored p (edit p (p, true) (fun s => mkSpec (sp_def s) (sp_type s) (Some b) (sp_attrs s))) true;
  ClearXformOpOrder p := authored p (edit_attr p "xformOpOrder" (VtToken "")) tt;
  AddXformOp p t _ := added p t;
  SetXformOp p t v := authored p (edit_attr p (op_name t) v) tt;
  ClearSessionLayer st :=
    (mkStage (root_layer st) ∅ (session_file st) (root_file st)
       (pending st ++ ((fun x => (x.1, true)) <$> map_to_list (session_layer st))), inl tt);
  FindOrOpen f d := if exists_ d f then Some f else None;
  CreateNew f d := let '(d', ok) := write_file f "" d in (d', if ok then Some f else None);
  OpenStage root sess d := Some (mkStage (read_layer root d) (read_layer sess d) sess root []);
  SetEditTargetToSessionLayer st := st;
  SaveSessionLayer st d :=
    let '(d', ok) := write_file (session_file st) (unlines (map_to_list (session_layer st)).*1) d in
    (st, d', inl ok);
  ReloadRootLayer d st :=
    let l := read_layer (root_file st) d in
    (mkStage l (session_layer st) (session_file st) (root_file st)
       (pending st ++ ((fun x => (x.1, true)) <$> map_to_list l)), inl true);
  MergedLayer := layer;
  UsdUtilsFlattenLayerStack st := Some (flatten st);
  MergedHasPrimAtPath l p := bool_decide (is_Some (l !! p));
  RemoveNameChild parent p l := delete p l;
  Export l f d := write_file f (unlines (map_to_list l).*1) d;
  ZipOpen f d :=
    (fun c => (fun n => mkZipEntry n 0 1 (Some "x")) <$> lines c) <$> read_file f d;
  ZipWriter := string * list (string * string);
  ZipCreateNew f d := (d, Some (f, []));
  ZipAddFile zw f name d :=
    match read_file f d with Some text => ((zw.1, zw.2 ++ [(name, text)]), name) | None => (zw, "") end;
  ZipSave zw d := write_file zw.1 (unlines zw.2.*1) d;
  ZipDiscard zw d := d;
  Notice := list (string * bool);
  GetResyncedPaths n := fst <$> filter (fun x => x.2 = true) n;
  GetChangedInfoOnlyPaths n := fst <$> filter (fun x => x.2 = false) n;
  close_change_block st :=
    let st' := mkStage (root_layer st) (session_layer st) (session_file st) (root_file st) [] in
    (match pending st with [] => [] | n => [(st', n)] end, st');
  stage_paths := prim_paths |}.

Lemma string_app_inj (a b c : string) : (a +:+ b)%string = (a +:+ c)%string -> b = c.
Proof. induction a as [|x a IH]; [done|]. by intros [= ?%IH]. Qed.

Lemma specs_in_paths st p : specs st p <> [] -> p ∈ spec_paths st.
Proof.
  intros Hs. apply elem_of_app. unfold specs in Hs.
  destruct (session_layer st !! p) as [s|] eqn:H1.
  - left. apply list_elem_of_fmap. exists (p, s). split; [done|]. by apply elem_of_map_to_list.
  - destruct (root_layer st !! p) as [s|] eqn:H2; [|done].
    right. apply list_elem_of_fmap. exists (p, s). split; [done|]. by apply elem_of_map_to_list.
Qed.

Lemma long_enough st p : p ∈ spec_paths st -> (String.length p < length (prim_paths st))%nat.
Proof.
  unfold prim_paths. generalize (spec_paths st) as l. cbn. intros l Hp.
  induction l as [|q l IH]; [by apply not_elem_of_nil in Hp|].
  cbn. rewrite length_app, length_replicate. apply elem_of_cons in Hp as [->|Hp]; [lia|].
  specialize (IH Hp). lia.
Qed.

Lemma toy_laws : UsdLaws (H := toy).
Proof.
  split.
  - intros st p Hp. cbn in *. unfold has_prim in Hp.
    destruct (String.eqb_spec p "/") as [Hroot|]; [rewrite Hroot; by left|]. cbn in Hp.
    right. right. apply list_elem_of_bind. exists p. split; [by left|]. apply specs_in_paths.
    by case_bool_decide.
  - intros p a b. cbn. unfold append_child. destruct (String.eqb p "/").
    + by intros ?%string_app_inj.
    + by intros ?%string_app_inj%string_app_inj.
  - intros st. exists String.length. split.
    + intros path p Hp. cbn in Hp. unfold has_prim in Hp.
      destruct (String.eqb_spec path "/") as [Hroot|]; cbn in Hp; simplify_eq; [cbn; lia|].
      case_bool_decide as Hs; cbn in Hp; simplify_eq. apply long_enough, specs_in_paths, Hs.
    + intros p q Hq. cbn [GetParent toy] in Hq.
      destruct (Nat.ltb_spec (String.length (Path.parent_path p)) (String.length p)); [|done].
      injection Hq as <-. done.
Qed.

Lemma toy_path_laws : PathLaws (H := toy).
Proof.
  split; [exact string_order|]. intros p Hp. cbn in *. apply andb_true_iff in Hp as [Hp _].
  apply negb_true_iff, String.eqb_neq in Hp.
  rewrite <- (names_of_plain p) by by apply filename_no_slash.
  rewrite (names_of_parent p), names_of_directory, length_app by done. apply Nat.add_1_r.
Qed.
End toy.
End Toy.
