(* ===== verification/Session.v ===== *)
(** * A session and what its command handlers act on
    (source/session/Session.h, SessionCommand.h)

    [Session] has the fields of the struct; [World] is everything a command
    handler can read or change: its session, the other sessions of the
    manager, the frames handed to the websocket connections, the disk, the
    commit results and the [PendingCorrection] objects shared with the
    connections' threads. The command queue is the sequential view of
    [Scheduler.v]: what a submission appends and when it is refused. *)
From S2P Require Import Prelude Filesystem Proto Usd Versions Scheduler.
Export Disk Proto Usd Versions.

Module Session.

(** A location of a shared object, and a websocket connection. *)
Abbreviation location := Z.
Abbreviation connection := Z.

(** [idtx::dto::SessionMode]. *)
Inductive SessionMode := SingleEdit | SingleRuntime | CollaborativeEdit | CollaborativeRuntime.

#[global] Instance SessionMode_eq_dec : EqDecision SessionMode.
Proof. solve_decision. Defined.

Inductive CommitStatus := CommitOk | UnknownSession | NothingToCommit | WriteFailed | Unavailable.

#[global] Instance CommitStatus_eq_dec : EqDecision CommitStatus.
Proof. solve_decision. Defined.

Record CommitResult := mkCommitResult { commit_status : CommitStatus; commit_error : string }.

(** A correction owed to one connection for one prim; [queued] is shared. *)
Record PendingCorrection := mkPending { pending_prim_path : string; queued : bool }.

(** The commands of [SessionCommand]. A transform update is owned by its
    command; a commit names the promise it fulfils, a correction the shared
    request ([None] for a null pointer). *)
Inductive SessionCommand :=
| TransformCommand (update : TransformUpdate) (origin : ConnectionId) (request_id base_seq : Z)
| JoinCommand (connection_id : ConnectionId)
| CreatePrimCommand (parent_path : string) (type : PrimType) (origin : ConnectionId) (request_id : Z)
| SetPrimActiveCommand (prim_path : string) (active : bool) (origin : ConnectionId) (request_id : Z)
| CommitCommand (promise : Z)
| ReloadCommand
| FlushCommand
| CorrectionCommand (connection_id : ConnectionId) (request : option location).

(** ** The queue, one submission at a time *)

Record CommandQueue := mkQueue {
  accepting : bool;
  normal : list SessionCommand;
  priority : list SessionCommand }.

Definition new_queue : CommandQueue := mkQueue true [] [].

Definition TrySubmit (c : SessionCommand) (q : CommandQueue) :
    CommandQueue * Scheduler.CommandAdmissionStatus :=
  if negb (accepting q) then (q, Scheduler.Stopping)
  else if Z.of_nat (length (normal q)) <? Scheduler.kMailboxCapacity
  then (mkQueue true (normal q ++ [c]) (priority q), Scheduler.Accepted)
  else (q, Scheduler.QueueFull).

Definition TrySubmitPriority (c : SessionCommand) (q : CommandQueue) :
    CommandQueue * Scheduler.CommandAdmissionStatus :=
  if negb (accepting q) then (q, Scheduler.Stopping)
  else if Z.of_nat (length (priority q)) <? Scheduler.kPriorityMailboxCapacity
  then (mkQueue true (normal q) (priority q ++ [c]), Scheduler.Accepted)
  else (q, Scheduler.QueueFull).

(** What the drain takes next. *)
Definition TryPop (q : CommandQueue) : option (SessionCommand * CommandQueue) :=
  match priority q, normal q with
  | c :: p, n => Some (c, mkQueue (accepting q) n p)
  | [], c :: n => Some (c, mkQueue (accepting q) n [])
  | [], [] => None
  end.

Definition close_admission (q : CommandQueue) : CommandQueue :=
  mkQueue false (normal q) (priority q).

(** A frame handed to [connection::send_binary]. *)
Record Frame := mkFrame { to_connection : connection; payload : Payload }.

(** ** The session *)

Section state.
Context `{Usd}.

Record Session := mkSession {
  id : string;
  usd_file : string;
  usd_file_absolute : string;
  stage : option Stage;
  created_at : Z;
  mode : SessionMode;
  commands : option CommandQueue;
  clients : gmap ConnectionId connection;
  empty_since : option Z;
  current_origin : ConnectionId;
  listener : option bool;
  reload_in_progress : bool;
  create_in_progress : bool;
  set_active_in_progress : bool;
  server_seq : Z;
  versions : SessionVersions;
  sidecar_path : string;
  dirty : bool;
  auto_commit : bool }.

Definition set_stage (v : option Stage) (s : Session) : Session :=
  mkSession (id s) (usd_file s) (usd_file_absolute s) v (created_at s) (mode s) (commands s)
    (clients s) (empty_since s) (current_origin s) (listener s) (reload_in_progress s)
    (create_in_progress s) (set_active_in_progress s) (server_seq s) (versions s)
    (sidecar_path s) (dirty s) (auto_commit s).

Definition set_commands (v : option CommandQueue) (s : Session) : Session :=
  mkSession (id s) (usd_file s) (usd_file_absolute s) (stage s) (created_at s) (mode s) v
    (clients s) (empty_since s) (current_origin s) (listener s) (reload_in_progress s)
    (create_in_progress s) (set_active_in_progress s) (server_seq s) (versions s)
    (sidecar_path s) (dirty s) (auto_commit s).

Definition set_clients (v : gmap ConnectionId connection) (s : Session) : Session :=
  mkSession (id s) (usd_file s) (usd_file_absolute s) (stage s) (created_at s) (mode s)
    (commands s) v (empty_since s) (current_origin s) (listener s) (reload_in_progress s)
    (create_in_progress s) (set_active_in_progress s) (server_seq s) (versions s)
    (sidecar_path s) (dirty s) (auto_commit s).

Definition set_empty_since (v : option Z) (s : Session) : Session :=
  mkSession (id s) (usd_file s) (usd_file_absolute s) (stage s) (created_at s) (mode s)
    (commands s) (clients s) v (current_origin s) (listener s) (reload_in_progress s)
    (create_in_progress s) (set_active_in_progress s) (server_seq s) (versions s)
    (sidecar_path s) (dirty s) (auto_commit s).

Definition set_current_origin (v : ConnectionId) (s : Session) : Session :=
  mkSession (id s) (usd_file s) (usd_file_absolute s) (stage s) (created_at s) (mode s)
    (commands s) (clients s) (empty_since s) v (listener s) (reload_in_progress s)
    (create_in_progress s) (set_active_in_progress s) (server_seq s) (versions s)
    (sidecar_path s) (dirty s) (auto_commit s).

Definition set_listener (v : option bool) (s : Session) : Session :=
  mkSession (id s) (usd_file s) (usd_file_absolute s) (stage s) (created_at s) (mode s)
    (commands s) (clients s) (empty_since s) (current_origin s) v (reload_in_progress s)
    (create_in_progress s) (set_active_in_progress s) (server_seq s) (versions s)
    (sidecar_path s) (dirty s) (auto_commit s).

Definition set_reload_in_progress (v : bool) (s : Session) : Session :=
  mkSession (id s) (usd_file s) (usd_file_absolute s) (stage s) (created_at s) (mode s)
    (commands s) (clients s) (empty_since s) (current_origin s) (listener s) v
    (create_in_progress s) (set_active_in_progress s) (server_seq s) (versions s)
    (sidecar_path s) (dirty s) (auto_commit s).

Definition set_create_in_progress (v : bool) (s : Session) : Session :=
  mkSession (id s) (usd_file s) (usd_file_absolute s) (stage s) (created_at s) (mode s)
    (commands s) (clients s) (empty_since s) (current_origin s) (listener s)
    (reload_in_progress s) v (set_active_in_progress s) (server_seq s) (versions s)
    (sidecar_path s) (dirty s) (auto_commit s).

Definition set_set_active_in_progress (v : bool) (s : Session) : Session :=
  mkSession (id s) (usd_file s) (usd_file_absolute s) (stage s) (created_at s) (mode s)
    (commands s) (clients s) (empty_since s) (current_origin s) (listener s)
    (reload_in_progress s) (create_in_progress s) v (server_seq s) (versions s)
    (sidecar_path s) (dirty s) (auto_commit s).

Definition set_server_seq (v : Z) (s : Session) : Session :=
  mkSession (id s) (usd_file s) (usd_file_absolute s) (stage s) (created_at s) (mode s)
    (commands s) (clients s) (empty_since s) (current_origin s) (listener s)
    (reload_in_progress s) (create_in_progress s) (set_active_in_progress s) v (versions s)
    (sidecar_path s) (dirty s) (auto_commit s).

Definition set_versions (v : SessionVersions) (s : Session) : Session :=
  mkSession (id s) (usd_file s) (usd_file_absolute s) (stage s) (created_at s) (mode s)
    (commands s) (clients s) (empty_since s) (current_origin s) (listener s)
    (reload_in_progress s) (create_in_progress s) (set_active_in_progress s) (server_seq s)
    v (sidecar_path s) (dirty s) (auto_commit s).

Definition set_dirty (v : bool) (s : Session) : Session :=
  mkSession (id s) (usd_file s) (usd_file_absolute s) (stage s) (created_at s) (mode s)
    (commands s) (clients s) (empty_since s) (current_origin s) (listener s)
    (reload_in_progress s) (create_in_progress s) (set_active_in_progress s) (server_seq s)
    (versions s) (sidecar_path s) v (auto_commit s).

(** ** The world of a handler *)

Record World := mkWorld {
  ses : Session;
  self : location;
  peers : gmap location Session;
  m_sessions_ : gmap string location;
  outbox : list Frame;
  clock : Z;
  disk : Disk;
  results : list (Z * CommitResult);
  pendings : gmap location PendingCorrection }.

Definition set_ses (v : Session) (w : World) : World :=
  mkWorld v (self w) (peers w) (m_sessions_ w) (outbox w) (clock w) (disk w) (results w)
    (pendings w).

Definition set_peers (v : gmap location Session) (w : World) : World :=
  mkWorld (ses w) (self w) v (m_sessions_ w) (outbox w) (clock w) (disk w) (results w)
    (pendings w).

Definition set_outbox (v : list Frame) (w : World) : World :=
  mkWorld (ses w) (self w) (peers w) (m_sessions_ w) v (clock w) (disk w) (results w)
    (pendings w).

Definition set_disk (v : Disk) (w : World) : World :=
  mkWorld (ses w) (self w) (peers w) (m_sessions_ w) (outbox w) (clock w) v (results w)
    (pendings w).

Definition set_results (v : list (Z * CommitResult)) (w : World) : World :=
  mkWorld (ses w) (self w) (peers w) (m_sessions_ w) (outbox w) (clock w) (disk w) v
    (pendings w).

Definition set_pendings (v : gmap location PendingCorrection) (w : World) : World :=
  mkWorld (ses w) (self w) (peers w) (m_sessions_ w) (outbox w) (clock w) (disk w) (results
    w) v.

Definition with_session (f : Session -> Session) (w : World) : World := set_ses (f (ses w)) w.

(** Reading and changing the session from a handler. *)
Definition session {A} (f : Session -> A) : M World A := gets (fun w => f (ses w)).
Definition update (f : Session -> Session) : M World unit := modify (with_session f).

(** [connection::send_binary]. *)
Definition send_binary (c : connection) (p : Payload) : M World unit :=
  modify (fun w => set_outbox (outbox w ++ [mkFrame c p]) w).

(** [server_seq.fetch_add(1) + 1], of a 64-bit counter. *)
Definition next_seq : M World Z :=
  n ← session server_seq;
  _ ← update (set_server_seq (u64 (n + 1)));
  mret (u64 (n + 1)).

(** Change the versions of the session (under their mutex). *)
Definition on_versions (f : SessionVersions -> SessionVersions) : M World unit :=
  update (fun s => set_versions (f (versions s)) s).
End state.
Arguments Session {_}.
Arguments World {_}.

End Session.
