(* ===== verification/Broadcast.v ===== *)
(** * Building and sending frames (source/session/SessionManager.cpp)

    The helpers of the command handlers that read a prim's transform, assemble
    the server's messages and hand them to the connections, with the version
    bookkeeping that goes with every send. *)
From S2P Require Import Prelude Proto Usd Versions Session.

Module Broadcast.
Import Session.
Local Open Scope string_scope.
Local Open Scope list_scope.
Local Open Scope Z_scope.

Section broadcast.
Context `{Usd} `{Wire}.

(** What [ReadResolvedTransform] and [ReadAuthoredLocalTransform] leave in
    [out_sep], [out_mat] and [out_use_matrix]. *)
Definition local_transform : Type := SeparateTransform + Matrix4dTransform.

Definition vector3 (v : double * double * double) : Vector3 :=
  let '(a, b, c) := v in mkVector3 a b c.

Definition ReadResolvedTransform (stage : option Stage) (prim_path_str : string) :
    option local_transform :=
  match stage with
  | None => None
  | Some st =>
      if negb (IsValidPathString prim_path_str) then None
      else
        match GetPrimAtPath st (MakePath prim_path_str) with
        | None => None
        | Some prim =>
            if negb (IsXformable st prim) then None
            else
              match (if IsXformCommonAPI st prim
                     then GetXformVectorsByAccumulation st prim else None) with
              | Some (t, r, s) => Some (inl (mkSeparate (vector3 t) (vector3 r) (vector3 s)))
              | None =>
                  match GetLocalTransformation st prim with
                  | Some m => Some (inr m)
                  | None => None
                  end
              end
        end
  end.

(** [now] is [system_clock::now()] in milliseconds. *)
Definition AssembleXformBroadcast (s : Session) (now : Z) (prim_path : string)
    (xf : local_transform) : BaseMessage :=
  mkBaseMessage (Some (id s))
    (XformBroadcast ""
       (mkTransformUpdate (id s) (usd_file s) prim_path
          (match xf with inr mat => kMatrix mat | inl sep => kSeperate sep end) now))
    0 0.

Definition BuildBroadcastMessage (s : Session) (now : Z) (prim_path : string) : option BaseMessage :=
  match ReadResolvedTransform (stage s) prim_path with
  | Some xf => Some (AssembleXformBroadcast s now prim_path xf)
  | None => None
  end.

Definition BuildBroadcastPayload (s : Session) (now : Z) (prim_path : string) (seq : Z) :
    option Payload :=
  match BuildBroadcastMessage s now prim_path with
  | Some msg =>
      match SerializeToString (with_server_seq seq msg) with
      | (p, true) => Some p
      | (_, false) => None
      end
  | None => None
  end.

(** [CreatedPrim]: a pair of [has_x] and [x] is an option. *)
Record CreatedPrim := mkCreatedPrim {
  created_name : string;
  created_prim_path : string;
  created_size : option double;
  created_height : option double;
  created_radius : option double;
  created_axis : option string }.

Definition create_prim_message (s : Session) (parent_path : string) (type : PrimType)
    (prim : CreatedPrim) (seq : Z) : BaseMessage :=
  mkBaseMessage (Some (id s))
    (CreatePrimBroadcastMessage
       (mkCreatePrimBroadcast parent_path (created_name prim) type (created_size prim)
          (created_height prim) (created_radius prim) (created_axis prim)))
    0 seq.

Definition SerializeCreatePrimBroadcast (s : Session) (parent_path : string) (type : PrimType)
    (prim : CreatedPrim) (seq : Z) : Payload :=
  serialized (create_prim_message s parent_path type prim seq).

Definition set_active_message (s : Session) (prim_path : string) (active : bool) (seq : Z) :
    BaseMessage :=
  mkBaseMessage (Some (id s)) (SetPrimActiveBroadcast prim_path active) 0 seq.

Definition SerializeSetPrimActiveBroadcast (s : Session) (prim_path : string) (active : bool)
    (seq : Z) : Payload :=
  serialized (set_active_message s prim_path active seq).

Definition ack_message (s : Session) (request_id seq : Z) (ok : bool) (error : string) : BaseMessage :=
  mkBaseMessage (Some (id s)) (AckMessage (mkAck ok (if ok then "" else error))) request_id seq.

Definition SerializeAck (s : Session) (request_id seq : Z) (ok : bool) (error : string) : Payload :=
  serialized (ack_message s request_id seq ok error).

(** ** Sending *)

Definition SendToConnection (connection_id : ConnectionId) (p : Payload) : M World bool :=
  if (connection_id =? 0) || payload_empty p then mret false
  else
    cs ← session clients;
    match cs !! connection_id with
    | None => mret false
    | Some conn => _ ← send_binary conn p; mret true
    end.

Definition SendAck (connection_id : ConnectionId) (request_id : Z) (ok : bool) (error : string) :
    M World unit :=
  s ← session (fun s => s);
  let seq := server_seq s in
  sent ← SendToConnection connection_id (SerializeAck s request_id seq ok error);
  when sent (on_versions (RecordSent connection_id seq)).

(** The loop of the two broadcasts; [skip] is the connection left out. *)
Definition send_to_clients (skip : option ConnectionId) (p : Payload) (seq : Z) : M World unit :=
  cs ← session clients;
  for_each (map_to_list cs) (fun '(id, conn) =>
    if bool_decide (skip = Some id) then mret tt
    else _ ← send_binary conn p; on_versions (RecordSent id seq)).

Definition BroadcastResolvedTransform (prim_path : string) (origin : ConnectionId) (seq : Z) :
    M World unit :=
  s ← session (fun s => s);
  now ← gets clock;
  match stage s with
  | None => mret tt
  | Some _ =>
      match BuildBroadcastPayload s now prim_path seq with
      | None => mret tt
      | Some p => send_to_clients (Some origin) p seq
      end
  end.

Definition BroadcastToAll (p : Payload) (seq : Z) : M World unit :=
  if payload_empty p then mret tt else send_to_clients None p seq.

(** The two branches of [SendCorrection] for a connection that is still
    attached: the prim is inactive, or its transform is sent. *)
Definition send_deactivation (conn : connection) (connection_id : ConnectionId) (prim_path : string) :
    M World unit :=
  s ← session (fun s => s);
  seq ← next_seq;
  _ ← send_binary conn (SerializeSetPrimActiveBroadcast s prim_path false seq);
  on_versions (RecordCorrection connection_id prim_path seq).

Definition send_transform (msg : BaseMessage) (conn : connection) (connection_id : ConnectionId)
    (prim_path : string) : M World unit :=
  seq ← next_seq;
  match SerializeToString (with_server_seq seq msg) with
  | (_, false) => mret tt
  | (p, true) =>
      _ ← send_binary conn p;
      on_versions (RecordCorrection connection_id prim_path seq)
  end.

Definition SendCorrection (connection_id : ConnectionId) (prim_path : string) : M World unit :=
  s ← session (fun s => s);
  now ← gets clock;
  match stage s with
  | None => mret tt
  | Some st =>
      if connection_id =? 0 then mret tt
      else
        let inactive :=
          if IsValidPathString prim_path
          then match GetPrimAtPath st (MakePath prim_path) with
               | Some prim => negb (IsActive st prim)
               | None => false
               end
          else false in
        if inactive then
          match clients s !! connection_id with
          | None => mret tt
          | Some conn => send_deactivation conn connection_id prim_path
          end
        else
          match BuildBroadcastMessage s now prim_path with
          | None => mret tt
          | Some msg =>
              match clients s !! connection_id with
              | None => mret tt
              | Some conn => send_transform msg conn connection_id prim_path
              end
          end
  end.
End broadcast.
End Broadcast.
