(* ===== verification/Listener.v ===== *)
(** * [StageNoticeListener] (source/session/StageNoticeListener.cpp)

    The observer of a stage: every change notice is turned into one version
    and the broadcasts of the prims it affects. Notices are delivered inside
    the authoring call that causes them ([author]), so the handlers reach the
    listener the way the code does. *)
From S2P Require Import Prelude Filesystem Proto Usd Versions Session Broadcast.

Module Listener.
Import Session Broadcast.
Local Open Scope string_scope.
Local Open Scope list_scope.
Local Open Scope Z_scope.

Section listener.
Context `{Usd} `{Wire}.

Definition IsXformAttribute (path : SdfPath) : bool :=
  if negb (IsPropertyPath path) then false
  else
    let name := GetName path in
    String.eqb name "xformOpOrder" || Str.starts_with "xformOp:" name.

Definition SessionLayerHasXformOverride (prim_spec : option PrimSpec) : bool :=
  match prim_spec with
  | None => false
  | Some spec =>
      existsb (fun attr =>
        match attr with
        | None => false
        | Some name => String.eqb name "xformOpOrder" || Str.starts_with "xformOp:" name
        end) (SpecAttributes spec)
  end.

(** The prim a path of a notice belongs to. *)
Definition prim_of_path (p : SdfPath) : list string :=
  if IsPrimPath p then [GetString p]
  else if IsPropertyPath p then [GetString (GetPrimPath p)]
  else [].

(** [std::set<std::string>]. *)
Definition string_set (l : list string) : list string := set_of String.ltb l.

Definition reload_prims (n : Notice) : list string :=
  string_set ((GetResyncedPaths n ≫= prim_of_path) ++ (GetChangedInfoOnlyPaths n ≫= prim_of_path)).

Definition affected_prims (n : Notice) : list string :=
  string_set
    ((GetChangedInfoOnlyPaths n ≫= fun p =>
        if IsXformAttribute p then [GetString (GetPrimPath p)] else []) ++
     (GetResyncedPaths n ≫= fun p =>
        if IsPrimPath p then [GetString p]
        else if IsXformAttribute p then [GetString (GetPrimPath p)] else [])).

(** Whether the session layer overrides the transform of a prim. *)
Definition has_override (s : Session) (prim_path : string) : bool :=
  match stage s with
  | None => false
  | Some st =>
      match GetSessionLayer st with
      | None => false
      | Some layer =>
          if IsValidPathString prim_path
          then SessionLayerHasXformOverride (LayerGetPrimAtPath st layer (MakePath prim_path))
          else false
      end
  end.

(** The bodies of the two loops. *)
Definition reload_prim (seq : Z) (prim_path : string) : M World unit :=
  s ← session (fun s => s);
  if has_override s prim_path then mret tt
  else
    _ ← on_versions (RecordChange prim_path seq 0);
    BroadcastResolvedTransform prim_path 0 seq.

Definition change_prim (origin : ConnectionId) (seq : Z) (prim_path : string) : M World unit :=
  _ ← on_versions (RecordChange prim_path seq origin);
  BroadcastResolvedTransform prim_path origin seq.

Definition OnObjectsChanged (n : Notice) : M World unit :=
  s ← session (fun s => s);
  let origin := current_origin s in
  if create_in_progress s then mret tt
  else if set_active_in_progress s then mret tt
  else if reload_in_progress s then
    match reload_prims n with
    | [] => mret tt
    | prims => seq ← next_seq; for_each prims (reload_prim seq)
    end
  else
    match affected_prims n with
    | [] => mret tt
    | prims => seq ← next_seq; for_each prims (change_prim origin seq)
    end.

(** [Register] does nothing without a stage; [Revoke] undoes it. *)
Definition Register (s : Session) : Session :=
  match listener s, stage s with
  | Some false, Some _ => set_listener (Some true) s
  | _, _ => s
  end.

Definition Revoke (s : Session) : Session :=
  match listener s with
  | Some true => set_listener (Some false) s
  | _ => s
  end.

(** ** Authoring *)

(** The notices of a change, each seen with the stage of that moment. *)
Definition deliver (l : list (Stage * Notice)) : M World unit :=
  for_each l (fun '(st, n) =>
    _ ← update (set_stage (Some st));
    registered ← session listener;
    match registered with
    | Some true => OnObjectsChanged n
    | _ => mret tt
    end).

(** Sessions on the same file share its root layer. When another one reloads it,
    this session's stage is recomposed and its listener is called on the thread of
    the other, with whatever marks this session has at that moment. *)
Definition shared_layer_reloaded (l : list (Stage * Notice)) : M World unit := deliver l.

(** A call, or a change block around several calls, on the stage: the notices
    are delivered when the block closes, whether or not a call threw. *)
Definition author {A} (op : M Stage A) : M World A :=
  st ← session stage;
  match st with
  | None => throw OtherException
  | Some st0 =>
      let '(st1, r) := op st0 in
      let '(l, st2) := close_change_block st1 in
      _ ← deliver l;
      _ ← update (set_stage (Some st2));
      match r with
      | inl a => mret a
      | inr e => throw e
      end
  end.

(** Reading the stage. *)
Definition on_stage {A} (f : Stage -> A) : M World A :=
  st ← session stage;
  match st with
  | None => throw OtherException
  | Some st => mret (f st)
  end.
End listener.
End Listener.
