(* ===== verification/SendFacts.v ===== *)
(** * What the sending helpers do to the world

    Closed forms of the helpers of [Broadcast.v] and of the listener: the
    frames they append, the versions they record, and nothing else. Shared by
    the theorems about the handlers. *)
From S2P Require Import Prelude Filesystem Proto Usd Versions Session Broadcast Listener.

Module SendFacts.
Import Session Broadcast Listener.

Section facts.
Context `{Usd} `{Wire}.

(** Frames and versions are the only things a send changes. *)
Definition sent (fs : list Frame) (f : SessionVersions -> SessionVersions) (w : World) : World :=
  set_outbox (outbox w ++ fs) (with_session (fun s => set_versions (f (versions s)) s) w).

Lemma sent_sent fs1 f1 fs2 f2 w :
  sent fs2 f2 (sent fs1 f1 w) = sent (fs1 ++ fs2) (fun v => f2 (f1 v)) w.
Proof. unfold sent, set_outbox, with_session, set_ses, set_versions. simpl. by rewrite app_assoc. Qed.

Lemma sent_nil w : sent [] (fun v => v) w = w.
Proof.
  destruct w as [s ? ? ? ? ? ? ? ?], s. unfold sent, set_outbox, with_session, set_ses. simpl.
  by rewrite app_nil_r.
Qed.

Lemma sent_ext fs f g w : f (versions (ses w)) = g (versions (ses w)) -> sent fs f w = sent fs g w.
Proof. intros Hf. unfold sent, with_session, set_versions. simpl. by rewrite Hf. Qed.

(** ** Broadcasts *)

Definition targets (skip : option ConnectionId) (cs : gmap ConnectionId connection) :
    list (ConnectionId * connection) :=
  filter (fun x => skip <> Some x.1) (map_to_list cs).

Definition frames_to (l : list (ConnectionId * connection)) (p : Payload) : list Frame :=
  (fun x => mkFrame x.2 p) <$> l.

Definition record_all (l : list (ConnectionId * connection)) (seq : Z) (v : SessionVersions) :
    SessionVersions :=
  foldl (fun v x => RecordSent x.1 seq v) v l.

Lemma send_one_eq c p i seq w :
  (_ ← send_binary c p; on_versions (RecordSent i seq)) w =
  (sent [mkFrame c p] (RecordSent i seq) w, inl tt).
Proof. reflexivity. Qed.

Lemma send_loop_eq skip p seq l w :
  for_each l (fun '(id, conn) =>
    if bool_decide (skip = Some id) then mret tt
    else _ ← send_binary conn p; on_versions (RecordSent id seq)) w =
  (sent (frames_to (filter (fun x => skip <> Some x.1) l) p)
     (record_all (filter (fun x => skip <> Some x.1) l) seq) w, inl tt).
Proof.
  revert w. induction l as [|[i c] l IH]; intros w; cbn [for_each].
  - by rewrite sent_nil.
  - rewrite filter_cons. cbn [fst]. case_bool_decide as Hs.
    + rewrite decide_False by (by intros ?). erewrite bind_ok by reflexivity. apply IH.
    + rewrite decide_True by done. erewrite bind_ok by apply send_one_eq.
      rewrite IH, sent_sent. done.
Qed.

Lemma send_to_clients_eq skip p seq w :
  send_to_clients skip p seq w =
  (sent (frames_to (targets skip (clients (ses w))) p)
     (record_all (targets skip (clients (ses w))) seq) w, inl tt).
Proof. unfold send_to_clients. erewrite bind_ok by reflexivity. apply send_loop_eq. Qed.

Lemma BroadcastToAll_eq p seq w :
  payload_empty p = false ->
  BroadcastToAll p seq w =
  (sent (frames_to (targets None (clients (ses w))) p)
     (record_all (targets None (clients (ses w))) seq) w, inl tt).
Proof. intros Hp. unfold BroadcastToAll. rewrite Hp. apply send_to_clients_eq. Qed.

(** The frames of one prim's broadcast. *)
Definition resolved_frames (s : Session) (now : Z) (skip : ConnectionId) (seq : Z) (p : string) :
    list Frame :=
  match stage s, BuildBroadcastPayload s now p seq with
  | Some _, Some payload => frames_to (targets (Some skip) (clients s)) payload
  | _, _ => []
  end.

Definition resolved_records (s : Session) (now : Z) (skip : ConnectionId) (seq : Z) (p : string) :
    SessionVersions -> SessionVersions :=
  match stage s, BuildBroadcastPayload s now p seq with
  | Some _, Some _ => record_all (targets (Some skip) (clients s)) seq
  | _, _ => fun v => v
  end.

Lemma BroadcastResolvedTransform_eq p origin seq w :
  BroadcastResolvedTransform p origin seq w =
  (sent (resolved_frames (ses w) (clock w) origin seq p)
     (resolved_records (ses w) (clock w) origin seq p) w, inl tt).
Proof.
  unfold BroadcastResolvedTransform, resolved_frames, resolved_records.
  erewrite bind_ok by reflexivity. erewrite bind_ok by reflexivity.
  destruct (stage (ses w)); [|by rewrite sent_nil].
  destruct (BuildBroadcastPayload _ _ _ _); [|by rewrite sent_nil]. apply send_to_clients_eq.
Qed.

(** ** Replies to one connection *)

Lemma SendToConnection_eq i p w :
  SendToConnection i p w =
  match clients (ses w) !! i with
  | Some conn => if (i =? 0) || payload_empty p then (w, inl false)
                 else (sent [mkFrame conn p] (fun v => v) w, inl true)
  | None => (w, inl false)
  end.
Proof.
  unfold SendToConnection. destruct ((i =? 0) || payload_empty p).
  - by destruct (clients (ses w) !! i).
  - erewrite bind_ok by reflexivity. destruct (clients (ses w) !! i); [|done].
    destruct w as [s ? ? ? ? ? ? ? ?], s. reflexivity.
Qed.

Lemma SendAck_eq i rid ok err w :
  SendAck i rid ok err w =
  (match clients (ses w) !! i with
   | Some conn =>
       let p := SerializeAck (ses w) rid (server_seq (ses w)) ok err in
       if (i =? 0) || payload_empty p then w
       else sent [mkFrame conn p] (RecordSent i (server_seq (ses w))) w
   | None => w
   end, inl tt).
Proof.
  unfold SendAck. erewrite bind_ok by reflexivity. cbv zeta.
  unfold mbind at 1, M_bind. rewrite SendToConnection_eq.
  destruct (clients (ses w) !! i) as [c|]; [|done].
  by destruct ((i =? 0) || payload_empty _).
Qed.

(** A connection that is attached gets its Ack. *)
Lemma SendAck_attached `{!WireOk} i conn rid ok err w :
  i <> 0 -> clients (ses w) !! i = Some conn ->
  SendAck i rid ok err w =
  (sent [mkFrame conn (SerializeAck (ses w) rid (server_seq (ses w)) ok err)]
     (RecordSent i (server_seq (ses w))) w, inl tt).
Proof.
  intros Hi Hc. rewrite SendAck_eq, Hc. cbv zeta.
  unfold SerializeAck. rewrite serialized_nonempty by done.
  by destruct (Z.eqb_spec i 0).
Qed.

(** One new version, then a send. *)
Definition bumped (w : World) : World :=
  with_session (set_server_seq (u64 (server_seq (ses w) + 1))) w.

Lemma next_seq_eq w : next_seq w = (bumped w, inl (u64 (server_seq (ses w) + 1))).
Proof. reflexivity. Qed.

Lemma send_deactivation_eq conn i p w :
  let seq := u64 (server_seq (ses w) + 1) in
  send_deactivation conn i p w =
  (sent [mkFrame conn (SerializeSetPrimActiveBroadcast (ses w) p false seq)]
     (RecordCorrection i p seq) (bumped w), inl tt).
Proof. reflexivity. Qed.

Lemma send_transform_eq msg conn i p w :
  let seq := u64 (server_seq (ses w) + 1) in
  send_transform msg conn i p w =
  (match SerializeToString (with_server_seq seq msg) with
   | (payload, true) => sent [mkFrame conn payload] (RecordCorrection i p seq) (bumped w)
   | (_, false) => bumped w
   end, inl tt).
Proof.
  cbv zeta. unfold send_transform. erewrite bind_ok by apply next_seq_eq.
  by destruct (SerializeToString _) as [payload []].
Qed.

(** ** Notices *)

(** Versions of a list of changed prims, each broadcast to everybody but its
    writer. *)
Definition change_records (s : Session) (now : Z) (writer : ConnectionId) (seq : Z)
    (prims : list string) (v : SessionVersions) : SessionVersions :=
  foldl (fun v p => resolved_records s now writer seq p (RecordChange p seq writer v)) v prims.

Lemma on_versions_eq f w : on_versions f w = (sent [] f w, inl tt).
Proof.
  destruct w. unfold on_versions, update, modify, sent, with_session, set_ses, set_outbox. simpl.
  by rewrite app_nil_r.
Qed.

Lemma change_prim_eq writer seq p w :
  change_prim writer seq p w =
  (sent (resolved_frames (ses w) (clock w) writer seq p)
     (fun v => resolved_records (ses w) (clock w) writer seq p (RecordChange p seq writer v)) w,
   inl tt).
Proof.
  unfold change_prim. erewrite bind_ok by apply on_versions_eq.
  by rewrite BroadcastResolvedTransform_eq, sent_sent.
Qed.

Lemma change_prims_eq writer seq prims w :
  for_each prims (change_prim writer seq) w =
  (sent (prims ≫= resolved_frames (ses w) (clock w) writer seq)
     (change_records (ses w) (clock w) writer seq prims) w, inl tt).
Proof.
  revert w. induction prims as [|p prims IH]; intros w; cbn [for_each]; [by rewrite sent_nil|].
  erewrite bind_ok by apply change_prim_eq. by rewrite IH, sent_sent.
Qed.

(** A reload skips the prims whose transform the session overrides. *)
Lemma reload_prims_eq seq prims w :
  for_each prims (reload_prim seq) w =
  for_each (filter (fun p => has_override (ses w) p = false) prims) (change_prim 0 seq) w.
Proof.
  revert w. induction prims as [|p prims IH]; intros w; [done|].
  rewrite filter_cons. cbn [for_each].
  assert (Hone : reload_prim seq p w =
    if has_override (ses w) p then (w, inl tt) else change_prim 0 seq p w).
  { unfold reload_prim. erewrite bind_ok by reflexivity. by destruct (has_override (ses w) p). }
  destruct (has_override (ses w) p).
  - rewrite decide_False by done. erewrite bind_ok by exact Hone. apply IH.
  - rewrite decide_True by done. cbn [for_each].
    rewrite (bind_ok _ _ _ _ _ (eq_trans Hone (change_prim_eq 0 seq p w))).
    rewrite (bind_ok _ _ _ _ _ (change_prim_eq 0 seq p w)). exact (IH (sent _ _ w)).
Qed.

(** Which prims a notice announces, and as whose change. *)
Definition notice_prims (s : Session) (n : Notice) : list string :=
  if create_in_progress s || set_active_in_progress s then []
  else if reload_in_progress s then reload_prims n else affected_prims n.

Definition notice_announced (s : Session) (n : Notice) : list string :=
  if reload_in_progress s
  then filter (fun p => has_override s p = false) (notice_prims s n) else notice_prims s n.

Definition notice_writer (s : Session) : ConnectionId :=
  if reload_in_progress s then 0 else current_origin s.

Lemma OnObjectsChanged_eq n w :
  let seq := u64 (server_seq (ses w) + 1) in
  OnObjectsChanged n w =
  (match notice_prims (ses w) n with
   | [] => w
   | _ =>
       sent (notice_announced (ses w) n ≫=
               resolved_frames (ses w) (clock w) (notice_writer (ses w)) seq)
         (change_records (ses w) (clock w) (notice_writer (ses w)) seq (notice_announced (ses w) n))
         (bumped w)
   end, inl tt).
Proof.
  cbv zeta. unfold OnObjectsChanged, notice_announced, notice_writer, notice_prims.
  erewrite bind_ok by reflexivity. cbv zeta.
  destruct (create_in_progress (ses w)), (set_active_in_progress (ses w)); try done. simpl.
  destruct (reload_in_progress (ses w)).
  - destruct (reload_prims n) as [|p l]; [done|]. erewrite bind_ok by apply next_seq_eq.
    etrans; [exact (reload_prims_eq _ (p :: l) (bumped w))|]. exact (change_prims_eq _ _ _ _).
  - destruct (affected_prims n) as [|p l]; [done|]. erewrite bind_ok by apply next_seq_eq.
    exact (change_prims_eq _ _ (p :: l) (bumped w)).
Qed.

End facts.
End SendFacts.
