(* ===== verification/Dispatch.v ===== *)
(** * [TransformDispatcher] and [PrimDispatcher]
    (source/session/TransformDispatcher.cpp, PrimDispatcher.cpp)

    The code that validates a client's request and authors it into the
    session layer. Everything that can throw is inside the [try] of the code,
    which stops [std::exception] and returns failure. *)
From stdpp Require Import pretty.
From S2P Require Import Prelude Filesystem Proto Usd Versions Session Broadcast Listener.

(** ** Transforms *)

Module TransformDispatcher.
Import Session Broadcast Listener.
Local Open Scope string_scope.
Local Open Scope list_scope.
Local Open Scope Z_scope.

Section dispatcher.
Context `{Usd} `{Wire}.

Definition kTranslatePrecision : XformPrecision := PrecisionDouble.
Definition kRotatePrecision : XformPrecision := PrecisionFloat.
Definition kScalePrecision : XformPrecision := PrecisionFloat.
Definition kMatrixPrecision : XformPrecision := PrecisionDouble.

Definition CanAddOp (st : Stage) (prim : Prim) (type : XformOpType) (precision : XformPrecision) :
    bool :=
  match GetAttributeTypeName st prim (GetOpName type) with
  | None => true
  | Some name => String.eqb name (GetValueTypeName type precision)
  end.

Definition CanAuthorOps (st : Stage) (prim : Prim) (upd : TransformUpdate) : bool :=
  match upd_transform upd with
  | kSeperate _ =>
      CanAddOp st prim TypeTranslate kTranslatePrecision
      && CanAddOp st prim TypeRotateXYZ kRotatePrecision
      && CanAddOp st prim TypeScale kScalePrecision
  | kMatrix _ => CanAddOp st prim TypeTransform kMatrixPrecision
  | TRANSFORM_NOT_SET => true
  end.

Definition vec3d (v : Vector3) : VtValue := VtVec3d (vx v, vy v, vz v).
Definition vec3f (v : Vector3) : VtValue :=
  VtVec3f (to_float (vx v), to_float (vy v), to_float (vz v)).

(** The bodies of the change blocks, on the stage. *)
Definition ApplySeparate (prim : Prim) (sep : SeparateTransform) : M Stage bool :=
  _ ← ClearXformOpOrder prim;
  translateOp ← AddXformOp prim TypeTranslate kTranslatePrecision;
  rotateOp ← AddXformOp prim TypeRotateXYZ kRotatePrecision;
  scaleOp ← AddXformOp prim TypeScale kScalePrecision;
  if negb translateOp || negb rotateOp || negb scaleOp then mret false
  else
    _ ← SetXformOp prim TypeTranslate (vec3d (translation sep));
    _ ← SetXformOp prim TypeRotateXYZ (vec3f (rotation sep));
    _ ← SetXformOp prim TypeScale (vec3f (scale sep));
    mret true.

Definition ApplyMatrix (prim : Prim) (m : Matrix4dTransform) : M Stage bool :=
  _ ← ClearXformOpOrder prim;
  op ← AddXformOp prim TypeTransform kMatrixPrecision;
  if negb op then mret false
  else _ ← SetXformOp prim TypeTransform (VtMatrix4d m); mret true.

Definition Apply (upd : TransformUpdate) : M World bool :=
  st ← session stage;
  match st with
  | None => mret false
  | Some st =>
      let prim_path_str := upd_prim_path upd in
      if Str.is_empty prim_path_str then mret false
      else if negb (IsValidPathString prim_path_str) then mret false
      else
        match GetPrimAtPath st (MakePath prim_path_str) with
        | None => mret false
        | Some prim =>
            if negb (IsXformable st prim) then mret false
            else
              try_std
                (if negb (CanAuthorOps st prim upd) then mret false
                 else
                   match upd_transform upd with
                   | kSeperate sep => author (ApplySeparate prim sep)
                   | kMatrix m => author (ApplyMatrix prim m)
                   | TRANSFORM_NOT_SET => mret false
                   end)
                (fun _ => mret false)
        end
  end.

Definition default_vec (d : double) : double * double * double := (d, d, d).

(** The transform a prim's spec authors on its layer, read without the stage's
    composition. *)
Definition ReadAuthoredLocalTransform (st : Stage) (prim_spec : option PrimSpec) :
    option local_transform :=
  match prim_spec with
  | None => None
  | Some spec =>
      match SpecLayer spec with
      | None => None
      | Some layer =>
          let base := SpecPath spec in
          let attr_default op_name :=
            default VtEmpty (LayerGetAttributeDefault st layer base op_name) in
          match attr_default "xformOp:transform" with
          | VtMatrix4d m => Some (inr m)
          | _ =>
              let t := attr_default "xformOp:translate" in
              let r := attr_default "xformOp:rotateXYZ" in
              let s := attr_default "xformOp:scale" in
              match t, r, s with
              | VtEmpty, VtEmpty, VtEmpty => None
              | _, _, _ =>
                  let tv := match t with VtVec3d v => v | _ => default_vec zero end in
                  let rv := match r with VtVec3f v => v | _ => default_vec zero end in
                  let sv := match s with VtVec3f v => v | _ => default_vec one end in
                  Some (inl (mkSeparate (vector3 tv) (vector3 rv) (vector3 sv)))
              end
          end
      end
  end.
End dispatcher.
End TransformDispatcher.

(** ** Prims *)

Module PrimDispatcher.
Import Session Broadcast Listener.
Local Open Scope string_scope.
Local Open Scope list_scope.
Local Open Scope Z_scope.

Inductive SetActiveStatus := Ok | AlreadyInState | InvalidPath | NotFound | NotDeletable | Failed.

#[global] Instance SetActiveStatus_eq_dec : EqDecision SetActiveStatus.
Proof. solve_decision. Defined.

Section dispatcher.
Context `{Usd} `{Wire}.

Definition UsdSchemaType (type : PrimType) : TfType :=
  match type with
  | PRIM_TYPE_CUBE => Find UsdGeomCube
  | PRIM_TYPE_SPHERE => Find UsdGeomSphere
  | PRIM_TYPE_CONE => Find UsdGeomCone
  | PRIM_TYPE_CYLINDER => Find UsdGeomCylinder
  | PRIM_TYPE_CAPSULE => Find UsdGeomCapsule
  | PRIM_TYPE_XFORM => Find UsdGeomXform
  | PRIM_TYPE_UNSPECIFIED | PRIM_TYPE_UNKNOWN _ => UnknownType
  end.

(** An empty [TfToken] is the empty string. *)
Definition BaseNameFor (type : PrimType) : string :=
  let t := UsdSchemaType type in
  if IsUnknown t then "" else GetSchemaTypeName t.

Definition IsGprimType (type : PrimType) : bool :=
  let t := UsdSchemaType type in
  negb (IsUnknown t) && IsAType t (Find UsdGeomGprim).

(** The walk to the pseudo-root; a prim has fewer ancestors than the stage has
    paths. *)
Fixpoint gprim_ancestor (fuel : nat) (st : Stage) (prim : option Prim) : option bool :=
  match prim with
  | None => Some false
  | Some p =>
      if IsPseudoRoot st p then Some false
      else if IsGprim st p then Some true
      else match fuel with
           | O => None
           | S fuel => gprim_ancestor fuel st (GetParent st p)
           end
  end.

Definition HasGprimAncestor (st : Stage) (prim : Prim) : option bool :=
  gprim_ancestor (length (stage_paths st)) st (Some prim).

(** The [n]-th candidate: the base name, then [base_1], [base_2], ... *)
Definition candidate_name (base : string) (n : nat) : string :=
  match n with O => base | S _ => (base +:+ "_" +:+ pretty (N.of_nat n))%string end.

Fixpoint unique_child (fuel n : nat) (st : Stage) (parent : SdfPath) (base : string) :
    option (SdfPath * string) :=
  let candidate := candidate_name base n in
  let child := AppendChild parent candidate in
  match GetPrimAtPath st child with
  | None => Some (child, candidate)
  | Some _ =>
      match fuel with
      | O => None
      | S fuel => unique_child fuel (S n) st parent base
      end
  end.

(** One more candidate than the stage has paths is enough. *)
Definition UniqueChildPath (st : Stage) (parent : SdfPath) (base_name : string) :
    option (SdfPath * string) :=
  unique_child (length (stage_paths st)) 0 st parent (TfMakeValidIdentifier base_name).

Definition AuthorPrim (path : SdfPath) (type : PrimType) : M World bool :=
  let type_name := BaseNameFor type in
  if Str.is_empty type_name then mret false
  else author (DefinePrim path type_name).

Definition IsLocallyDeletable (st : Stage) (prim : Prim) (root_layer session_layer : option Layer) :
    bool :=
  match GetPrimStack st prim with
  | [] => false
  | stack =>
      forallb (fun spec =>
        match spec with
        | None => true
        | Some layer => bool_decide (Some layer = root_layer) || bool_decide (Some layer = session_layer)
        end) stack
  end.

Definition TypeFromName (type_name : string) : PrimType :=
  if String.eqb type_name "Cube" then PRIM_TYPE_CUBE
  else if String.eqb type_name "Sphere" then PRIM_TYPE_SPHERE
  else if String.eqb type_name "Cone" then PRIM_TYPE_CONE
  else if String.eqb type_name "Cylinder" then PRIM_TYPE_CYLINDER
  else if String.eqb type_name "Capsule" then PRIM_TYPE_CAPSULE
  else if String.eqb type_name "Xform" then PRIM_TYPE_XFORM
  else PRIM_TYPE_UNSPECIFIED.

Definition ReadAttributes (st : Stage) (prim : option Prim) (type : PrimType) (out : CreatedPrim) :
    CreatedPrim :=
  match prim with
  | None => out
  | Some p =>
      let attrs c :=
        mkCreatedPrim (created_name out) (created_prim_path out) (created_size out)
          (GetDoubleAttr st p c "height") (GetDoubleAttr st p c "radius")
          (GetTokenAttr st p c "axis") in
      match type with
      | PRIM_TYPE_CUBE =>
          mkCreatedPrim (created_name out) (created_prim_path out)
            (GetDoubleAttr st p UsdGeomCube "size") (created_height out) (created_radius out)
            (created_axis out)
      | PRIM_TYPE_SPHERE =>
          mkCreatedPrim (created_name out) (created_prim_path out) (created_size out)
            (created_height out) (GetDoubleAttr st p UsdGeomSphere "radius") (created_axis out)
      | PRIM_TYPE_CONE => attrs UsdGeomCone
      | PRIM_TYPE_CYLINDER => attrs UsdGeomCylinder
      | PRIM_TYPE_CAPSULE => attrs UsdGeomCapsule
      | _ => out
      end
  end.

Definition new_created (name path : string) : CreatedPrim := mkCreatedPrim name path None None None None.

(** [None] is the [false] of the code, [Some created] its [true] and [out]. *)
Definition Create (parent_path : string) (type : PrimType) : M World (option CreatedPrim) :=
  st ← session stage;
  match st with
  | None => mret None
  | Some st =>
      let base_name := BaseNameFor type in
      if Str.is_empty base_name then mret None
      else if Str.is_empty parent_path || negb (IsValidPathString parent_path) then mret None
      else
        let parent := MakePath parent_path in
        if negb (IsAbsolutePath parent)
           || negb (IsPrimPath parent || bool_decide (parent = AbsoluteRootPath)) then mret None
        else
          match GetPrimAtPath st parent with
          | None => mret None
          | Some parent_prim =>
              if negb (IsActive st parent_prim) then mret None
              else if IsGprimType type && default true (HasGprimAncestor st parent_prim)
              then mret None
              else
                try_std
                  (match UniqueChildPath st parent base_name with
                   | None => throw OtherException
                   | Some (child, name) =>
                       authored ← AuthorPrim child type;
                       if negb authored then mret None
                       else
                         on_stage (fun st' =>
                           Some (ReadAttributes st' (GetPrimAtPath st' child) type
                                   (new_created name (GetString child))))
                   end)
                  (fun _ => mret None)
          end
  end.

Definition SetActive (prim_path : string) (active : bool) : M World SetActiveStatus :=
  st ← session stage;
  match st with
  | None => mret Failed
  | Some st =>
      if Str.is_empty prim_path || negb (IsValidPathString prim_path) then mret InvalidPath
      else
        let path := MakePath prim_path in
        if negb (IsAbsolutePath path) || negb (IsPrimPath path) then mret InvalidPath
        else
          match GetPrimAtPath st path with
          | None => mret NotFound
          | Some prim =>
              if negb (IsDefined st prim) then mret NotFound
              else if IsPseudoRoot st prim then mret NotDeletable
              else if Bool.eqb (IsActive st prim) active then mret AlreadyInState
              else if negb active && negb (IsLocallyDeletable st prim (GetRootLayer st) (GetSessionLayer st))
              then mret NotDeletable
              else
                try_std
                  (authored ← author (PrimSetActive prim active);
                   mret (if negb authored then Failed else Ok))
                  (fun _ => mret Failed)
          end
  end.

(** [get_double]. *)
Definition fallback_double (def : PrimDefinition) (name : string) : option double :=
  match GetAttributeFallbackValue def name with
  | Some (VtDouble d) => Some d
  | _ => None
  end.

Definition fallback_token (def : PrimDefinition) (name : string) : option string :=
  match GetAttributeFallbackValue def name with
  | Some (VtToken t) => Some t
  | _ => None
  end.

Definition ReadSchemaDefaults (type : PrimType) (out : CreatedPrim) : CreatedPrim :=
  let t := UsdSchemaType type in
  if IsUnknown t then out
  else
    match FindConcretePrimDefinition (GetSchemaTypeName t) with
    | None => out
    | Some def =>
        match type with
        | PRIM_TYPE_CUBE =>
            mkCreatedPrim (created_name out) (created_prim_path out) (fallback_double def "size")
              (created_height out) (created_radius out) (created_axis out)
        | PRIM_TYPE_SPHERE =>
            mkCreatedPrim (created_name out) (created_prim_path out) (created_size out)
              (created_height out) (fallback_double def "radius") (created_axis out)
        | PRIM_TYPE_CONE | PRIM_TYPE_CYLINDER | PRIM_TYPE_CAPSULE =>
            mkCreatedPrim (created_name out) (created_prim_path out) (created_size out)
              (fallback_double def "height") (fallback_double def "radius")
              (match fallback_token def "axis" with Some a => Some a | None => created_axis out end)
        | _ => out
        end
    end.
End dispatcher.
End PrimDispatcher.
