(* ===== verification/Committer.v ===== *)
(** * [StageCommitter] (source/session/StageCommitter.cpp)

    Folding a session's overrides back into the original file: the layer stack
    is flattened, the prims the session soft-deleted are removed, the result is
    written to a temporary sibling and renamed over the original; for a usdz
    package every entry is extracted and packed again around the new root
    layer. The commands run on the disk; [out_error] is the carried string. *)
From S2P Require Import Prelude Filesystem Proto Usd.

Module StageCommitter.
Import Disk Usd Path.
Local Open Scope string_scope.
Local Open Scope list_scope.
Local Open Scope Z_scope.

(** [out_error = e; return false]. *)
Definition fail {A} (e : string) : M Disk A := throw (StdException e).

(** A disk call whose [ec] is ignored. *)
Definition best_effort {A} (f : Disk -> Disk * A) : M Disk unit := modify (fun d => fst (f d)).

Definition disk_call {A} (f : Disk -> Disk * A) : M Disk A := fun d => let '(d', a) := f d in (d', inl a).

(** A guard whose destructor runs [cleanup]. *)
Definition guarded {A} (m : M Disk A) (cleanup : Disk -> Disk) : M Disk A := fun d =>
  let '(d', r) := m d in (cleanup d', r).

(** [std::tolower] in the C locale. *)
Definition to_lower (c : ascii) : ascii :=
  let n := nat_of_ascii c in
  if (65 <=? n)%nat && (n <=? 90)%nat then ascii_of_nat (n + 32) else c.

Fixpoint lower (s : string) : string :=
  match s with EmptyString => EmptyString | String c s' => String (to_lower c) (lower s') end.

Definition HasExtension (path ext : string) : bool := Str.ends_with ext (lower path).

Section committer.
Context `{Usd} `{IoErrors} `{SW : ShortWrites}.

(** The session layer's prims with an authored [active=false], in traversal
    order. *)
Definition is_soft_deleted (st : Stage) (session_layer : Layer) (p : SdfPath) : bool :=
  if negb (IsPrimPath p) then false
  else
    match LayerGetPrimAtPath st session_layer p with
    | Some spec => HasActive spec && negb (GetActive spec)
    | None => false
    end.

Definition soft_deleted (st : Stage) (session_layer : Layer) : list SdfPath :=
  filter (fun p => is_soft_deleted st session_layer p = true) (LayerTraverse st session_layer).

Definition remove_prim (merged : MergedLayer) (path : SdfPath) : MergedLayer :=
  if negb (MergedHasPrimAtPath merged path) then merged
  else
    let parent_path := GetParentPath path in
    if bool_decide (parent_path = AbsoluteRootPath) || MergedHasPrimAtPath merged parent_path
    then RemoveNameChild parent_path path merged
    else merged.

Definition RemoveSoftDeletedPrims (st : Stage) (merged : MergedLayer) : MergedLayer :=
  match GetSessionLayer st with
  | None => merged
  | Some session_layer => foldl remove_prim merged (soft_deleted st session_layer)
  end.

(** The paths of the temporaries. *)
Definition flat_tmp (original_path : string) : string :=
  join (parent_path original_path)
    ("." +:+ stem original_path +:+ "_idtx_commit" +:+ extension original_path).

Definition usdz_tmp_dir (original_path : string) : string :=
  join (parent_path original_path) ("." +:+ stem original_path +:+ "_idtx_commit_tmp").

Definition usdz_tmp_pkg (original_path : string) : string :=
  join (parent_path original_path) ("." +:+ stem original_path +:+ "_idtx_commit.usdz").

Definition rename_error (tmp dst : string) (ec : errc) : string :=
  "atomic rename '" +:+ tmp +:+ "' -> '" +:+ dst +:+ "' failed: " +:+ error_message ec.

(** The last step of both: rename over the original, and remove the temporary
    if that fails. *)
Definition replace_original (tmp dst : string) : M Disk unit :=
  ec ← disk_call (rename tmp dst);
  match ec with
  | Some e => _ ← best_effort (remove tmp); fail (rename_error tmp dst e)
  | None => mret tt
  end.

Definition CommitFlat (st : Stage) (original_path : string) : M Disk unit :=
  match UsdUtilsFlattenLayerStack st with
  | None => fail "UsdUtilsFlattenLayerStack returned null"
  | Some merged =>
      let merged := RemoveSoftDeletedPrims st merged in
      let tmp := flat_tmp original_path in
      _ ← best_effort (remove tmp);
      exported ← disk_call (Export merged tmp);
      if negb exported then
        _ ← best_effort (remove tmp);
        fail ("SdfLayer::Export failed for '" +:+ tmp +:+ "'")
      else replace_original tmp original_path
  end.

(** One entry of the package to the temporary directory. *)
Definition extract_entry (tmpDir : string) (e : ZipEntry) : M Disk unit :=
  if negb (compressionMethod e =? 0) then
    fail ("compressed entry '" +:+ zip_name e +:+ "' in usdz; cannot re-package")
  else if bool_decide (zip_data e = None) && (0 <? zip_size e) then
    fail ("could not read entry '" +:+ zip_name e +:+ "' from usdz")
  else
    let outFile := join tmpDir (zip_name e) in
    _ ← best_effort (create_directories (parent_path outFile));
    stream ← disk_call (stream_file outFile
      (if 0 <? zip_size e then default EmptyString (zip_data e) else EmptyString));
    match stream with
    | NotOpened => fail ("could not open '" +:+ outFile +:+ "' for writing")
    | Opened _ => mret tt      (* the stream is not asked again after the write *)
    end.

Fixpoint add_files (tmpDir tmpPkg : string) (names : list string) (writer : ZipWriter) :
    M Disk ZipWriter :=
  match names with
  | [] => mret writer
  | name :: names =>
      d ← get;
      let '(writer', added) := ZipAddFile writer (join tmpDir name) name d in
      if Str.is_empty added then
        _ ← modify (ZipDiscard writer');
        _ ← best_effort (remove tmpPkg);
        fail ("failed to add '" +:+ name +:+ "' to usdz")
      else add_files tmpDir tmpPkg names writer'
  end.

(** Step 3 of [CommitUsdz]: write the new package. *)
Definition write_package (tmpDir tmpPkg : string) (fileOrder : list string) : M Disk unit :=
  writer ← disk_call (ZipCreateNew tmpPkg);
  match writer with
  | None => fail ("could not create usdz '" +:+ tmpPkg +:+ "'")
  | Some writer =>
      writer ← add_files tmpDir tmpPkg fileOrder writer;
      saved ← disk_call (ZipSave writer);
      if negb saved then
        _ ← best_effort (remove tmpPkg);
        fail ("failed to save usdz '" +:+ tmpPkg +:+ "'")
      else mret tt
  end.

(** What [CommitUsdz] does while the temporary directory is there: extract the
    entries in their order, export the root layer over the first, pack them
    again and replace the original. *)
Definition repackage (merged : MergedLayer) (tmpDir original_path : string) : M Disk unit :=
  d ← get;
  match ZipOpen original_path d with
  | None => fail ("cannot open usdz package '" +:+ original_path +:+ "'")
  | Some entries =>
      _ ← for_each entries (extract_entry tmpDir);
      match zip_name <$> entries with
      | [] => fail ("usdz package '" +:+ original_path +:+ "' is empty")
      | (rootName :: _) as fileOrder =>
          let rootPath := join tmpDir rootName in
          _ ← best_effort (remove rootPath);
          exported ← disk_call (Export merged rootPath);
          if negb exported then
            fail ("failed to export merged root layer to '" +:+ rootPath +:+ "'")
          else
            let tmpPkg := usdz_tmp_pkg original_path in
            _ ← best_effort (remove tmpPkg);
            _ ← write_package tmpDir tmpPkg fileOrder;
            replace_original tmpPkg original_path
      end
  end.

Definition CommitUsdz (st : Stage) (original_path : string) : M Disk unit :=
  match UsdUtilsFlattenLayerStack st with
  | None => fail "UsdUtilsFlattenLayerStack returned null"
  | Some merged =>
      let merged := RemoveSoftDeletedPrims st merged in
      let tmpDir := usdz_tmp_dir original_path in
      _ ← modify (remove_all tmpDir);
      ec ← disk_call (create_directories tmpDir);
      d ← get;
      match ec with
      | Some e =>
          if negb (exists_ d tmpDir)
          then fail ("could not create temp dir '" +:+ tmpDir +:+ "': " +:+ error_message e)
          else mret tt
      | None => mret tt
      end ≫= fun _ =>
      guarded (repackage merged tmpDir original_path) (remove_all tmpDir)
  end.

Definition Commit (stage : option Stage) (original_path : string) : M Disk unit :=
  match stage with
  | None => fail "null stage"
  | Some st =>
      if HasExtension original_path ".usdz" then CommitUsdz st original_path
      else CommitFlat st original_path
  end.
End committer.
End StageCommitter.
