(* ===== verification/CommitFacts.v ===== *)
(** * A commit is all or nothing

    What [StageCommitter::Commit] (source/session/StageCommitter.cpp) leaves on
    the disk: a commit that fails has changed nothing but its temporaries, one
    that succeeds has put exactly the new file in the place of the original.
    The path of the original is relative to the working directory of the process
    or absolute. [CommitLaws] is what the theorem needs of USD: exporting a layer and saving
    a package write at their path and nowhere else, and what they have written
    when they return [true] is complete. *)
From S2P Require Import Prelude Filesystem PathFacts DiskFacts Proto Usd Toy Committer.

Module CommitFacts.
Import Str Path Disk PathFacts DiskFacts Usd Toy StageCommitter.
Local Open Scope string_scope.
Local Open Scope list_scope.
Local Open Scope Z_scope.

Lemma take_all t : take_string (String.length t) t = t.
Proof. induction t as [|c t IH]; [done|]. cbn [String.length take_string]. by rewrite IH. Qed.

(** Choosing one for each. *)
Lemma choose_all {A B} (R : A -> B -> Prop) (l : list A) :
  (forall x, x ∈ l -> exists y, R x y) -> exists ys, Forall2 R l ys.
Proof.
  induction l as [|x l IH]; intros Hl; [by exists []|]. destruct (Hl x) as [y Hy]; [by left|].
  destruct IH as [ys Hys]; [intros z Hz; apply Hl; by right|]. by exists (y :: ys); constructor.
Qed.

(** ** Where a path without links leads *)

(** The process has one working directory. *)
Class WorkingDirectory := working_directory : list string.

Definition start `{WorkingDirectory} (p : string) : list string := if is_absolute p then [] else working_directory.

Definition target `{WorkingDirectory} (p : string) : list string := start p ++ clean (names_of p).

(** The directory a path is in. *)
Definition directory `{WorkingDirectory} (p : string) : list string := target (parent_path p).

(** A path without [..] and without links on the way. *)
Record plain `{WorkingDirectory} (d : Disk) (p : string) : Prop := {
  plain_cwd : cwd d = working_directory;
  plain_up : ".." ∉ names_of p;
  plain_name : regular_name (filename p);
  plain_links : forall k t, k `prefix_of` target p -> node_at d k <> Some (Symlink t) }.

(** What writing a file does: missing directories are made, and the entry of
    the path becomes a file or disappears. *)
Definition writes_at (loc : list string) (d d' : Disk) : Prop :=
  cwd d' = cwd d /\ forall k,
    node_at d' k = node_at d k \/
    (k `prefix_of` loc /\ k <> loc /\ node_at d k = None /\ node_at d' k = Some Directory) \/
    (k = loc /\ (node_at d' k = None \/ exists s, node_at d' k = Some (File s))).

Class CommitLaws `{Usd} `{WorkingDirectory} := {
  (* the text of a file of this extension that holds the layer *)
  layer_file : MergedLayer -> string -> string -> Prop;
  (* the text of a package of these entries *)
  package_file : list (string * string) -> string -> Prop;
  (* what a writer has been given *)
  zip_path : ZipWriter -> string;
  zip_added : ZipWriter -> list (string * string);
  export_writes : forall l p d, plain d p -> writes_at (target p) d (fst (Export l p d));
  export_complete : forall l p d d', plain d p -> Export l p d = (d', true) ->
    exists s, node_at d' (target p) = Some (File s) /\ layer_file l (extension p) s;
  (* the package only depends on the file *)
  zip_open : forall p d d', read_file p d = read_file p d' -> ZipOpen p d = ZipOpen p d';
  (* "the zip file will not be written until Save" *)
  zip_create : forall p d d' w, ZipCreateNew p d = (d', w) ->
    d' = d /\ forall zw, w = Some zw -> zip_path zw = p /\ zip_added zw = [];
  zip_add : forall zw src name d zw' r, ZipAddFile zw src name d = (zw', r) ->
    zip_path zw' = zip_path zw /\
    (is_empty r = false -> name ∉ (zip_added zw).*1 ->
     exists text, read_file src d = Some text /\ zip_added zw' = zip_added zw ++ [(name, text)]);
  zip_save_writes : forall zw d, plain d (zip_path zw) -> writes_at (target (zip_path zw)) d (fst (ZipSave zw d));
  zip_save_complete : forall zw d d', plain d (zip_path zw) -> ZipSave zw d = (d', true) ->
    exists s, node_at d' (target (zip_path zw)) = Some (File s) /\ package_file (zip_added zw) s;
  zip_discard_writes : forall zw d, plain d (zip_path zw) -> writes_at (target (zip_path zw)) d (ZipDiscard zw d) }.

(** ** Resolution without links *)

Lemma clean_cons w l : clean (w :: l) = clean [w] ++ clean l.
Proof. unfold clean. by rewrite <- filter_app. Qed.

Lemma clean_app l k : clean (l ++ k) = clean l ++ clean k.
Proof. unfold clean. apply filter_app. Qed.

Lemma clean_regular w : regular_name w -> clean [w] = [w].
Proof. intros (? & ? & ?). unfold clean. rewrite filter_cons_True; [done|]. tauto. Qed.

Lemma clean_dot w : w = "" \/ w = "." -> clean [w] = [].
Proof. intros Hw. unfold clean. rewrite filter_cons_False; [done|]. tauto. Qed.

Lemma clean_name w : ~ (w = "" \/ w = ".") -> clean [w] = [w].
Proof. intros Hw. unfold clean. by rewrite filter_cons_True. Qed.

Lemma prefix_snoc_inv {A} (k l : list A) x : k `prefix_of` l ++ [x] -> k `prefix_of` l \/ k = l ++ [x].
Proof.
  intros [j Hj]. destruct j as [|y j _] using rev_ind; [right; by rewrite app_nil_r in Hj|left].
  rewrite app_assoc in Hj. apply app_inj_tail in Hj as [-> _]. by apply prefix_app_r.
Qed.

(** Without links and [..], resolution follows the names. *)
Lemma resolve_target d links acc ys loc :
  (forall k t, k `prefix_of` acc ++ clean ys -> node_at d k <> Some (Symlink t)) -> (".." ∉ ys) ->
  resolve d links acc ys = inl loc -> loc = acc ++ clean ys.
Proof.
  revert acc. induction ys as [|y ys IH]; intros acc Hno Hup.
  { rewrite app_nil_r. by destruct links; intros [= ->]. }
  apply not_elem_of_cons in Hup as [Hy Hup]. rewrite clean_cons, app_assoc in *.
  assert (Hrec : resolve d links (acc ++ clean [y]) ys = inl loc -> loc = (acc ++ clean [y]) ++ clean ys) by by apply IH.
  destruct links; cbn [resolve]; destruct (bool_decide_reflect (y = "" \/ y = ".")) as [Hd|Hd];
    [rewrite clean_dot, app_nil_r in Hrec |- * by done; done| |rewrite clean_dot, app_nil_r in Hrec |- * by done; done|].
  all: rewrite (bool_decide_false (y = "..")) by done; rewrite clean_name in Hrec, Hno |- * by done.
  all: destruct (node_at d (acc ++ [y])) as [[| |t]|] eqn:Hn; try done; try (by destruct ys; [intros [= <-]; rewrite app_nil_r|]).
  destruct (Hno (acc ++ [y]) t); [by apply prefix_app_r|done].
Qed.

Lemma resolve_directories d links acc ys :
  (forall k, k `prefix_of` acc ++ clean ys -> node_at d k = Some Directory) -> (".." ∉ ys) ->
  resolve d links acc ys = inl (acc ++ clean ys).
Proof.
  revert acc. induction ys as [|y ys IH]; intros acc Hdir Hup.
  { rewrite app_nil_r. by destruct links. }
  apply not_elem_of_cons in Hup as [Hy Hup]. rewrite clean_cons, app_assoc in *.
  pose proof (IH _ Hdir Hup) as Hrec.
  destruct links; cbn [resolve]; destruct (bool_decide_reflect (y = "" \/ y = ".")) as [Hd|Hd];
    [rewrite clean_dot, app_nil_r in Hrec |- * by done; done| |rewrite clean_dot, app_nil_r in Hrec |- * by done; done|].
  all: rewrite (bool_decide_false (y = "..")) by done; rewrite clean_name in Hrec, Hdir |- * by done.
  all: rewrite (Hdir (acc ++ [y])) by by apply prefix_app_r.
  all: done.
Qed.

Lemma names_of_up p : (".." ∉ names_of p) -> regular_name (filename p) -> ".." ∉ names_of (parent_path p).
Proof. intros Hup Hf. rewrite names_of_parent in Hup by apply Hf. rewrite elem_of_app in Hup. tauto. Qed.

Section working.
Context `{WorkingDirectory}.

Lemma absolute_parent p : is_absolute p = true -> parent_path p <> "".
Proof.
  intros Ha. apply parent_nonempty. unfold is_absolute, starts_with in Ha.
  destruct p as [|c r]; [done|]. rewrite prefix_slash in Ha. by apply Ascii.eqb_eq in Ha as <-.
Qed.

Lemma start_parent p : start (parent_path p) = start p.
Proof.
  unfold start. destruct (decide (parent_path p = "")) as [He|Hne]; [|by rewrite parent_absolute].
  rewrite He. destruct (is_absolute p) eqn:Ha; [|done]. by apply absolute_parent in Ha.
Qed.

Lemma target_parent p : regular_name (filename p) -> target p = directory p ++ [filename p].
Proof.
  intros Hf. unfold directory, target. rewrite start_parent, (names_of_parent p) by apply Hf.
  by rewrite clean_app, (clean_regular (filename p)), app_assoc.
Qed.

Section plain.
Context `{IoErrors} (d : Disk) (p : string) (Hp : plain d p).

Lemma canonical_target loc : canonical d p = inl loc -> loc = target p.
Proof.
  unfold canonical, start_of. rewrite (plain_cwd _ _ Hp). destruct (is_empty p); [done|].
  apply (resolve_target d max_links (start p)); apply Hp.
Qed.

Lemma location_target loc : location d p = inl loc -> loc = target p.
Proof.
  unfold location, start_of. rewrite (plain_cwd _ _ Hp). fold (start p). rewrite <- start_parent.
  destruct (resolve _ _ _ _) as [dir|] eqn:Hr; [|done]. intros [= <-].
  rewrite target_parent by apply Hp. f_equal. apply (resolve_target d max_links (start (parent_path p))) in Hr; [done| |apply names_of_up; apply Hp].
  intros k t Hk. apply Hp. rewrite target_parent by apply Hp. by apply prefix_app_r.
Qed.

Lemma open_file_target loc : open_file p d = Some loc -> loc = target p.
Proof.
  unfold open_file. destruct (canonical d p) as [l|] eqn:Hc; [|destruct (location d p) as [l|] eqn:Hl; [|done]].
  - apply canonical_target in Hc as ->. destruct (node_at d (target p)) as [[]|], (io_error "open" (target p) d); congruence.
  - apply location_target in Hl as ->. destruct (node_at d (target p)) as [[]|], (io_error "open" (target p) d); congruence.
Qed.
End plain.

(** ** Working in an area

    A commit works on the temporaries, an area outside of the directory of the
    original and the ones above it. *)
Section area.
Context `{IoErrors} (dir : list string) (area : list string -> Prop).
Context (Hout : forall loc, area loc -> ~ loc `prefix_of` dir).

(** The directories are there, and no link is in the area. *)
Definition standing (d : Disk) : Prop :=
  cwd d = working_directory /\ (forall k, k `prefix_of` dir -> node_at d k = Some Directory) /\
  (forall loc t, area loc -> node_at d loc <> Some (Symlink t)).

Definition within (d d' : Disk) : Prop :=
  cwd d' = cwd d /\ forall loc,
    node_at d' loc = node_at d loc \/ (area loc /\ forall t, node_at d' loc <> Some (Symlink t)).

#[global] Instance within_preorder : PreOrder within.
Proof.
  split; [by split; [|left]|]. intros d1 d2 d3 [Hc12 H12] [Hc23 H23]. split; [congruence|]. intros loc.
  destruct (H23 loc) as [->|]; [apply H12|by right].
Qed.

Lemma standing_within d d' : standing d -> within d d' -> standing d'.
Proof.
  intros (Hc & Hd & Hl) [Hc' Hw]. split_and!; [congruence| |].
  - intros k Hk. destruct (Hw k) as [->|[Ha _]]; [by apply Hd|by apply Hout in Ha].
  - intros loc t Ha. destruct (Hw loc) as [->|[_ Hn]]; [by apply Hl|done].
Qed.

Lemma within_outside d d' loc : within d d' -> ~ area loc -> node_at d' loc = node_at d loc.
Proof. intros [_ Hw] Ha. by destruct (Hw loc) as [?|[? _]]. Qed.

Lemma area_not_root loc : area loc -> loc <> [].
Proof. intros Ha ->. apply Hout in Ha as []. apply prefix_nil. Qed.

Lemma within_set loc n d : area loc -> (forall t, n <> Symlink t) -> within d (set_node loc n d).
Proof.
  intros Ha Hn. split; [done|]. intros k. rewrite node_at_set by by apply area_not_root.
  destruct (decide (loc = k)) as [<-|]; [right; split; [done|congruence]|by left].
Qed.

Lemma within_delete loc d : area loc -> within d (delete_node loc d).
Proof.
  intros Ha. split; [done|]. intros k. rewrite node_at_delete by by apply area_not_root.
  destruct (decide (loc = k)) as [<-|]; [by right|by left].
Qed.

(** A path into the area. *)
Record inside (p : string) : Prop := {
  inside_up : ".." ∉ names_of p;
  inside_name : regular_name (filename p);
  inside_way : forall k, k `prefix_of` directory p -> k `prefix_of` dir \/ area k;
  inside_area : area (target p) }.

Lemma inside_prefix p k : inside p -> k `prefix_of` target p -> k `prefix_of` dir \/ area k.
Proof.
  intros Hp. rewrite target_parent by apply Hp. intros [Hk| ->]%prefix_snoc_inv; [by apply Hp|].
  right. rewrite <- target_parent; apply Hp.
Qed.

Lemma no_link d k t : standing d -> k `prefix_of` dir \/ area k -> node_at d k <> Some (Symlink t).
Proof. intros (_ & Hd & Hl) [Hk|Hk]; [by rewrite Hd|by apply Hl]. Qed.

Lemma inside_plain d p : standing d -> inside p -> plain d p.
Proof.
  intros Hd Hp. split; [apply Hd|apply Hp..|]. intros k t Hk. apply no_link; [done|]. by eapply inside_prefix.
Qed.

Lemma remove_within p d : standing d -> inside p -> within d (fst (remove p d)).
Proof.
  intros Hd Hp. unfold remove. destruct (location d p) as [loc|[]] eqn:Hl; try reflexivity.
  apply location_target in Hl as ->; [|by apply inside_plain]. destruct (node_at d (target p)); [|reflexivity].
  destruct (io_error _ _ _); [reflexivity|]. destruct (has_children _ _); [reflexivity|].
  apply within_delete, Hp.
Qed.

Lemma remove_all_within p d :
  standing d -> inside p -> (forall loc, target p `prefix_of` loc -> area loc) -> within d (remove_all p d).
Proof.
  intros Hd Hp Hall. unfold remove_all. destruct (location d p) as [loc|] eqn:Hl; [|reflexivity].
  apply location_target in Hl as ->; [|by apply inside_plain]. destruct (io_error _ _ _); [reflexivity|].
  split; [done|]. intros [|w loc]; [by left|]. unfold node_at. cbn [nodes].
  destruct (decide (target p `prefix_of` w :: loc)) as [Hk|Hk].
  - right. split; [by apply Hall|]. intros t. rewrite map_lookup_filter. destruct (nodes d !! _); [|done]. cbn.
    by rewrite option_guard_False by tauto.
  - left. rewrite map_lookup_filter. destruct (nodes d !! _); [|done]. cbn. by rewrite option_guard_True.
Qed.

Lemma stream_file_within `{ShortWrites} p s d : standing d -> inside p -> within d (fst (stream_file p s d)).
Proof.
  intros Hd Hp. unfold stream_file. destruct (open_file p d) as [loc|] eqn:Ho; [|reflexivity].
  apply open_file_target in Ho as ->; [|by apply inside_plain].
  destruct (short_write p s d) as [[n noticed]|]; (apply within_set; [apply Hp|done]).
Qed.

Lemma make_directories_within acc todo d :
  standing d -> (".." ∉ todo) -> (forall k, k `prefix_of` acc ++ clean todo -> k `prefix_of` dir \/ area k) ->
  within d (fst (make_directories acc todo d)).
Proof.
  revert acc d. induction todo as [|w todo IH]; intros acc d Hd Hup Hway; [reflexivity|].
  apply not_elem_of_cons in Hup as [Hw Hup]. cbn [make_directories]. rewrite clean_cons, app_assoc in Hway.
  destruct (resolve d max_links acc [w]) as [loc|[]] eqn:Hr; try reflexivity.
  - apply resolve_target in Hr as ->; [|intros k t Hk; apply no_link, Hway; [done|by apply prefix_app_r]|by rewrite list_elem_of_singleton].
    destruct (node_at d _) as [[]|]; try reflexivity. by apply IH.
  - destruct (node_at d (acc ++ [w])) eqn:Hn; [reflexivity|]. destruct (io_error _ _ _); [reflexivity|].
    rewrite (clean_regular w) in Hway by by eapply resolve_regular.
    assert (Ha : area (acc ++ [w])).
    { destruct (Hway (acc ++ [w])) as [Hk|]; [by apply prefix_app_r| |done]. apply Hd in Hk. congruence. }
    assert (Hs : within d (set_node (acc ++ [w]) Directory d)) by by apply within_set.
    etrans; [exact Hs|]. apply IH; [by eapply standing_within|done|done].
Qed.

Lemma create_directories_within p d : standing d -> inside p -> within d (fst (create_directories (parent_path p) d)).
Proof.
  intros Hd Hp. unfold create_directories, start_of. rewrite (proj1 Hd). fold (start (parent_path p)).
  apply make_directories_within; [done|by apply names_of_up; apply Hp|apply Hp].
Qed.

Lemma create_directory_within p d : standing d -> inside p -> within d (fst (create_directories p d)).
Proof.
  intros Hd Hp. unfold create_directories, start_of. rewrite (proj1 Hd). fold (start p).
  apply make_directories_within; [done|apply Hp|]. intros k. by apply inside_prefix.
Qed.

(** What writes at a path into the area works in it. *)
Lemma writes_at_within p d d' : standing d -> inside p -> writes_at (target p) d d' -> within d d'.
Proof.
  intros Hd Hp [Hc Hw]. split; [done|]. intros k.
  destruct (Hw k) as [?|[(Hk & _ & Hn & Hn')|[-> Hf]]]; [by left| |].
  - right. split; [|congruence]. destruct (inside_prefix p k Hp Hk) as [Hdir|]; [|done]. apply Hd in Hdir. congruence.
  - right. split; [apply Hp|]. destruct Hf as [|[s ?]]; congruence.
Qed.
End area.

(** ** The names of the temporaries *)

Definition flat_name (p : string) : string := "." +:+ stem p +:+ "_idtx_commit" +:+ extension p.
Definition dir_name (p : string) : string := "." +:+ stem p +:+ "_idtx_commit_tmp".
Definition pkg_name (p : string) : string := "." +:+ stem p +:+ "_idtx_commit.usdz".

(** Where a commit of the original works. *)
Definition temporary (p : string) (loc : list string) : Prop :=
  if HasExtension p ".usdz"
  then directory p ++ [dir_name p] `prefix_of` loc \/ loc = directory p ++ [pkg_name p]
  else loc = directory p ++ [flat_name p].

Lemma stem_extension p : (stem p +:+ extension p)%string = filename p.
Proof.
  unfold stem, extension. destruct (bool_decide _); [apply string_app_nil|].
  destruct (split_last "."%char (filename p)) as [[b r]|] eqn:Hs; [|apply string_app_nil].
  destruct (is_empty b); [apply string_app_nil|]. by apply split_last_some in Hs as [-> _].
Qed.

Lemma longer_name a b : (String.length a < String.length b)%nat -> b <> a.
Proof. intros Hl ->. lia. Qed.

Lemma sibling_names p n : n = flat_name p \/ n = dir_name p \/ n = pkg_name p ->
  regular_name n /\ contains_char slash n = false.
Proof.
  intros Hn. assert (Hl : (4 <= String.length n)%nat).
  { destruct Hn as [->|[->| ->]]; unfold flat_name, dir_name, pkg_name; rewrite !length_app_string; cbn [String.length]; lia. }
  split; [split_and!; intros ->; cbn [String.length] in Hl; lia|].
  by destruct Hn as [->|[->| ->]]; unfold flat_name, dir_name, pkg_name;
    rewrite !contains_app, stem_plain_chars, ?extension_plain_chars.
Qed.

Lemma flat_name_other p : flat_name p <> filename p.
Proof. apply longer_name. rewrite <- stem_extension. unfold flat_name. rewrite !length_app_string. cbn [String.length]. lia. Qed.

(** The extension is the text from the last dot. *)
Lemma extension_dot p : extension p <> "" -> exists r, extension p = ("." +:+ r)%string /\ contains_char "."%char r = false.
Proof.
  unfold extension. destruct (bool_decide _); [done|].
  destruct (split_last "."%char (filename p)) as [[b r]|] eqn:Hs; [|done]. destruct (is_empty b); [done|].
  apply split_last_some in Hs as [_ Hr]. by exists r.
Qed.

Lemma extension_of_filename p q : filename p = filename q -> extension p = extension q.
Proof. unfold extension. by intros ->. Qed.

(** The temporary of a flat layer has the extension of the original. *)
Lemma flat_extension p : parent_path p <> "" -> extension p <> "" -> extension (flat_tmp p) = extension p.
Proof.
  intros Hp He. destruct (sibling_names p (flat_name p)) as [Hn Hs]; [by left|].
  destruct (parent_sibling p (flat_name p) Hp Hn Hs) as (Hf & _). unfold extension at 1. unfold flat_tmp.
  change ("." +:+ stem p +:+ "_idtx_commit" +:+ extension p)%string with (flat_name p).
  rewrite Hf. rewrite bool_decide_false by (destruct Hn; tauto). destruct (extension_dot p He) as (r & Hr & Hd).
  assert (flat_name p = (("." +:+ stem p +:+ "_idtx_commit") +:+ String "." r)%string) as ->
    by (unfold flat_name; by rewrite Hr, !string_app_assoc).
  by rewrite split_last_app by done.
Qed.

Lemma pkg_name_other p : pkg_name p <> filename p.
Proof.
  rewrite <- stem_extension. destruct (decide (extension p = "")) as [->|He].
  { apply longer_name. unfold pkg_name. rewrite !length_app_string. cbn [String.length]. lia. }
  destruct (extension_dot p He) as (r & Hr & Hd). rewrite Hr. intros Hn.
  assert (Hl : split_last "."%char (pkg_name p) = Some (("." +:+ stem p +:+ "_idtx_commit")%string, "usdz")).
  { unfold pkg_name. change "_idtx_commit.usdz" with ("_idtx_commit" +:+ String "." "usdz")%string.
    rewrite <- !string_app_assoc. by apply split_last_app. }
  rewrite Hn in Hl. change ("." +:+ r)%string with (String "." r) in Hl. rewrite split_last_app in Hl by done.
  injection Hl as Hs _. apply (f_equal String.length) in Hs. rewrite !length_app_string in Hs. cbn [String.length] in Hs. lia.
Qed.

Lemma lower_app a b : lower (a +:+ b) = (lower a +:+ lower b)%string.
Proof. induction a as [|c a IH]; [done|]. rewrite append_cons. cbn [lower]. by rewrite IH. Qed.

Lemma filename_suffix p : exists a, p = (a +:+ filename p)%string.
Proof.
  unfold filename. destruct (split_last slash p) as [[b r]|] eqn:Hs; [|by exists ""].
  apply split_last_some in Hs as [-> _]. exists (b +:+ "/")%string. by rewrite string_app_assoc.
Qed.

Lemma dir_name_other p : HasExtension p ".usdz" = true -> dir_name p <> filename p.
Proof.
  intros He Hn. destruct (filename_suffix p) as [a Ha]. rewrite <- Hn in Ha. unfold HasExtension, ends_with in He.
  rewrite Ha in He. unfold dir_name in He. rewrite !lower_app, !rev_app, ?string_app_assoc in He.
  change (lower "_idtx_commit_tmp") with "_idtx_commit_tmp" in He. by destruct (rev_append (lower a) "").
Qed.

(** ** A sibling of the original, and what is below one *)
Section original.
Context (p : string) (Hdir : parent_path p <> "") (Hup : ".." ∉ names_of p) (Hname : regular_name (filename p)).

Lemma sibling_target n : regular_name n -> contains_char slash n = false ->
  let q := join (parent_path p) n in
  start q = start p /\ names_of q = names_of (parent_path p) ++ [n] /\ filename q = n /\
  directory q = directory p /\ target q = directory p ++ [n].
Proof.
  intros Hn Hs q. destruct (parent_sibling p n Hdir Hn Hs) as (Hf & Hq & Hnames & Ha). fold q in Hf, Hq, Hnames, Ha.
  assert (Hst : start q = start p) by (rewrite <- start_parent, <- (start_parent p); unfold start; by rewrite Ha).
  assert (Hd : directory q = directory p) by (unfold directory, target; by rewrite !start_parent, Hst, Hnames).
  split_and!; [done|by rewrite names_of_parent, Hnames, Hf by (rewrite Hf; apply Hn)|done|done|by rewrite target_parent, Hd, Hf by by rewrite Hf].
Qed.

Lemma sibling_inside (area : list string -> Prop) n :
  regular_name n -> contains_char slash n = false -> area (directory p ++ [n]) ->
  inside (directory p) area (join (parent_path p) n).
Proof.
  intros Hn Hs Ha. destruct (sibling_target n Hn Hs) as (_ & Hnames & Hf & Hd & Ht). split; [|by rewrite Hf| |by rewrite Ht].
  - rewrite Hnames, elem_of_app, list_elem_of_singleton. intros [Hin|He].
    + by apply names_of_up in Hin.
    + destruct Hn as (_ & _ & []). done.
  - rewrite Hd. by left.
Qed.

(** An entry of a package under a relative path without [..]. *)
Record entry_name (n : string) : Prop := {
  entry_relative : is_absolute n = false;
  entry_up : ".." ∉ names n;
  entry_regular : regular_name (filename n) }.

Definition entry_path (n : string) : list string := clean (names n).

Lemma entry_target n : entry_name n ->
  let q := join (usdz_tmp_dir p) n in
  (".." ∉ names_of q) /\ filename q = filename n /\
  target q = (directory p ++ [dir_name p]) ++ entry_path n.
Proof.
  intros [Hrel Hu Hr] q. destruct (sibling_names p (dir_name p)) as [Hn Hs]; [by right; left|].
  destruct (sibling_target (dir_name p) Hn Hs) as (Hst & Hnames & Hf & Hd & Ht).
  change (join (parent_path p) (dir_name p)) with (usdz_tmp_dir p) in *.
  assert (Hne : usdz_tmp_dir p <> "") by (intros He; rewrite He in Hf; by destruct Hn; rewrite <- Hf in *).
  assert (Hfq : filename q = filename n) by by apply filename_join_last.
  assert (Hq : names_of q = names_of (usdz_tmp_dir p) ++ names n).
  { rewrite names_of_plain by (apply filename_no_slash; rewrite Hfq; apply Hr).
    unfold q. rewrite names_join by done. by rewrite (names_of_plain (usdz_tmp_dir p)) by (apply filename_no_slash; rewrite Hf; apply Hn). }
  assert (Hsq : start q = start (usdz_tmp_dir p)) by (unfold start, q; by rewrite absolute_join).
  split_and!; [|done|].
  - rewrite Hq, Hnames, !elem_of_app, list_elem_of_singleton. intros [[Hin|He]|Hin]; [|by destruct Hn as (_ & _ & [])|done].
    by apply names_of_up in Hin.
  - unfold target at 1. by rewrite Hq, Hsq, clean_app, app_assoc, <- Ht.
Qed.

Lemma entry_inside (area : list string -> Prop) n :
  entry_name n -> (forall loc, directory p ++ [dir_name p] `prefix_of` loc -> area loc) ->
  inside (directory p) area (join (usdz_tmp_dir p) n).
Proof.
  intros He Ha. destruct (entry_target n He) as (Hu & Hf & Ht). destruct He as [_ _ Hr].
  split; [done|by rewrite Hf| |apply Ha; rewrite Ht; by apply prefix_app_r].
  intros k Hk. assert (Hk' : k `prefix_of` target (join (usdz_tmp_dir p) n)).
  { rewrite target_parent by by rewrite Hf. by apply prefix_app_r. }
  rewrite Ht in Hk'. destruct (prefix_weak_total _ (directory p ++ [dir_name p]) _ Hk') as [Hp|Hp]; [by apply prefix_app_r| |by right; apply Ha].
  apply prefix_snoc_inv in Hp as [?| ->]; [by left|right; by apply Ha].
Qed.
End original.

(** ** Programs that work in the area *)
Section works.
Context `{IoErrors} (dir : list string) (area : list string -> Prop).
Context (Hout : forall loc, area loc -> ~ loc `prefix_of` dir).

Definition works {A} (m : M Disk A) : Prop := preserves_in (standing dir area) (within area) m.

Lemma works_intro {A} (m : M Disk A) : (forall d, standing dir area d -> within area d (fst (m d))) -> works m.
Proof. intros Hm d Hd. specialize (Hm d Hd). split; [by eapply standing_within|done]. Qed.

Lemma works_ret {A} (a : A) : works (mret a).
Proof. by apply works_intro. Qed.

Lemma works_fail {A} e : works (fail (A := A) e).
Proof. by apply works_intro. Qed.

Lemma works_get : works get.
Proof. by apply works_intro. Qed.

Lemma works_best_effort {A} (f : Disk -> Disk * A) :
  (forall d, standing dir area d -> within area d (fst (f d))) -> works (best_effort f).
Proof. intros Hf. by apply works_intro. Qed.

Lemma works_disk_call {A} (f : Disk -> Disk * A) :
  (forall d, standing dir area d -> within area d (fst (f d))) -> works (disk_call f).
Proof. intros Hf. apply works_intro. intros d Hd. specialize (Hf d Hd). unfold disk_call. by destruct (f d). Qed.

Lemma works_bind {A B} (m : M Disk A) (f : A -> M Disk B) :
  works m -> (forall d d' a, m d = (d', inl a) -> works (f a)) -> works (m ≫= f).
Proof.
  intros Hm Hf d Hd. unfold mbind, M_bind. destruct (Hm d Hd) as [Hs Hw].
  destruct (m d) as [d' [a|e]] eqn:E; [|done]. cbn [fst] in *. destruct (Hf _ _ _ E d' Hs). split; [done|by etrans].
Qed.

Lemma works_for_each {A} (l : list A) body : (forall x, x ∈ l -> works (body x)) -> works (for_each l body).
Proof.
  induction l as [|x l IH]; intros Hb; cbn [for_each]; [apply works_ret|].
  apply works_bind; [apply Hb; by left|]. intros _ _ _ _. apply IH. intros y Hy. apply Hb. by right.
Qed.

(** What a program that works has done. *)
Lemma works_run {A} (m : M Disk A) d d' r :
  works m -> standing dir area d -> m d = (d', r) -> standing dir area d' /\ within area d d'.
Proof. intros Hm Hd E. specialize (Hm d Hd). by rewrite E in Hm. Qed.

(** The last step: it either changes nothing outside of the area, or puts the
    temporary in the place of the original and nothing else. *)
Lemma replace_original_result tmp dst lb s d d' r :
  standing dir area d -> inside dir area tmp -> location d dst = inl lb -> ~ area lb -> ~ lb `prefix_of` dir ->
  node_at d (target tmp) = Some (File s) -> replace_original tmp dst d = (d', r) ->
  match r with
  | inr _ => within area d d'
  | inl _ => standing dir area d' /\ node_at d' lb = Some (File s) /\
             forall loc, loc <> lb -> ~ area loc -> node_at d' loc = node_at d loc
  end.
Proof.
  intros Hd Ht Hlb Ha Hna Hs. unfold replace_original, disk_call, best_effort, fail, modify, mbind, M_bind.
  destruct (rename tmp dst d) as [d1 [e|]] eqn:Hr.
  - apply rename_failed in Hr as ->. intros [= <- <-]. by apply (remove_within dir).
  - intros [= <- <-]. assert (Hl : location d tmp = inl (target tmp)).
    { unfold rename in Hr. destruct (location d tmp) as [la|] eqn:Hla; [|done].
      f_equal. by apply (location_target d tmp); [eapply inside_plain|]. }
    pose proof (inside_area _ _ _ Ht) as Hta. assert (Hne : target tmp <> lb) by congruence.
    destruct (rename_file _ _ _ _ _ _ _ _ Hr Hl Hlb Hne Hs) as [[[] _]|(_ & _ & ->)]; [done|].
    assert (lb <> []) by by eapply location_not_root. assert (target tmp <> []) by by eapply area_not_root.
    assert (Hk : forall loc, loc <> lb -> node_at (set_node lb (File s) (delete_node (target tmp) d)) loc =
      if decide (target tmp = loc) then None else node_at d loc).
    { intros loc Hne'. by rewrite node_at_set, node_at_delete, decide_False by done. }
    split_and!; [split_and!; [apply Hd| |]|by rewrite node_at_set, decide_True|].
    + intros k Hkd. rewrite Hk by congruence. rewrite decide_False; [by apply Hd|]. intros Hkt. apply (Hout _ Hta). by rewrite Hkt.
    + intros loc t Hloc. rewrite Hk by congruence. case_decide; [done|]. by apply Hd.
    + intros loc Hl1 Hl2. rewrite Hk, decide_False; congruence.
Qed.
End works.

(** ** The commit *)
Section commit.
Context `{Usd} `{IoErrors} `{!CommitLaws} `{SW : ShortWrites}.

(** An original that can be committed: the path of a file in a directory, with
    nothing but directories on the way, no links in the place of the
    temporaries, and in a package no two entries in the same place. *)
Record committable (p : string) (d : Disk) : Prop := {
  committable_cwd : cwd d = working_directory;
  committable_parent : parent_path p <> "";
  committable_up : ".." ∉ names_of p;
  committable_name : regular_name (filename p);
  committable_extension : extension p <> "";
  committable_directories : forall k, k `prefix_of` directory p -> node_at d k = Some Directory;
  committable_file : exists s, node_at d (target p) = Some (File s);
  committable_temporaries : forall loc t, temporary p loc -> node_at d loc <> Some (Symlink t);
  committable_entries : forall entries, HasExtension p ".usdz" = true -> ZipOpen p d = Some entries ->
    Forall (fun e => entry_name (zip_name e)) entries /\
    NoDup ((fun e => entry_path (zip_name e)) <$> entries) }.

(** What the package holds of an entry. *)
Definition entry_text (e : ZipEntry) : string := if 0 <? zip_size e then default "" (zip_data e) else "".

(** What is extracted of it: all of it, unless the disk stops in the middle. *)
Definition extracted (e : ZipEntry) (t : string) : Prop :=
  (exists n, t = take_string n (entry_text e)) /\
  ((forall p s d, short_write p s d = None) -> t = entry_text e).

(** The entries of the new package: those of the old one in their order, the
    first of them, the root layer, replaced. *)
Definition repacked (e : ZipEntry) (es : list ZipEntry) (root : string) (ts : list string) : list (string * string) :=
  (zip_name e, root) :: zip (zip_name <$> es) ts.

(** [s] is the committed file. *)
Definition committed_file (p : string) (d : Disk) (l : MergedLayer) (s : string) : Prop :=
  if HasExtension p ".usdz"
  then exists e es root ts, ZipOpen p d = Some (e :: es) /\ layer_file l (extension (zip_name e)) root /\
         Forall2 extracted es ts /\ package_file (repacked e es root ts) s
  else layer_file l (extension p) s.

Section original.
Context (p : string) (d0 : Disk) (Hp : committable p d0).
Let dir := directory p.
Let area := temporary p.

Lemma temporary_out loc : area loc -> ~ loc `prefix_of` dir.
Proof.
  intros Ha Hk. apply prefix_length in Hk as Hl. unfold area, temporary in Ha. destruct (HasExtension p ".usdz").
  - destruct Ha as [Ht| ->]; [apply prefix_length in Ht|]; rewrite ?length_app in *; cbn [length] in *; unfold dir in Hl; lia.
  - subst loc. rewrite length_app in Hl. cbn [length] in Hl. unfold dir in Hl. lia.
Qed.

Lemma original_not_temporary : ~ area (target p).
Proof.
  unfold area, temporary. rewrite target_parent by apply Hp. destruct (HasExtension p ".usdz") eqn:He.
  - intros [[k Hk]|Hk%app_inj_tail].
    + rewrite <- app_assoc in Hk. apply app_inv_head in Hk. injection Hk as Hk _. by apply (dir_name_other p).
    + destruct Hk as [_ Hk]. by apply (pkg_name_other p).
  - intros [_ Hk]%app_inj_tail. by apply (flat_name_other p).
Qed.

Lemma original_not_above : ~ target p `prefix_of` dir.
Proof.
  rewrite target_parent by apply Hp. intros Hk%prefix_length. rewrite length_app in Hk. cbn [length] in Hk.
  unfold dir in Hk. lia.
Qed.

Lemma original_standing : standing dir area d0.
Proof. split_and!; apply Hp. Qed.

Lemma sibling n : n = flat_name p \/ n = dir_name p \/ n = pkg_name p -> area (dir ++ [n]) ->
  inside dir area (join (parent_path p) n) /\ target (join (parent_path p) n) = dir ++ [n].
Proof.
  intros Hn Ha. destruct (sibling_names p n Hn). split; [apply sibling_inside; try done; apply Hp|].
  apply sibling_target; try done; apply Hp.
Qed.

Lemma original_location d : standing dir area d -> location d p = inl (target p) /\ canonical d (parent_path p) = inl dir.
Proof.
  intros (Hcwd & Hd & _). pose proof (committable_parent _ _ Hp) as Hne.
  assert (Hc : canonical d (parent_path p) = inl dir).
  { unfold canonical, start_of. rewrite Hcwd. fold (start (parent_path p)).
    destruct (is_empty (parent_path p)) eqn:He; [by destruct (parent_path p)|].
    apply (resolve_directories d max_links (start (parent_path p))); [done|]. apply names_of_up; apply Hp. }
  split; [|done]. rewrite target_parent by apply Hp. by apply location_in_parent.
Qed.

(** The original is read as before as long as only the temporaries change. *)
Lemma original_read d : standing dir area d -> within area d0 d -> read_file p d = read_file p d0.
Proof.
  intros Hd Hw. destruct (committable_file _ _ Hp) as [s Hs].
  assert (Hr : forall d, standing dir area d -> node_at d (target p) = Some (File s) -> read_file p d = Some s).
  { intros d1 Hd1 Hs1. destruct (original_location d1 Hd1) as [_ Hc]. unfold read_file.
    rewrite target_parent in Hs1 by apply Hp. fold dir in Hs1.
    rewrite (canonical_entry d1 p dir s); [by rewrite Hs1|done|apply Hd1; done|apply Hp|done]. }
  rewrite (Hr d0), (Hr d); [done|done| |apply original_standing|done].
  rewrite (within_outside area d0 d); [done|done|apply original_not_temporary].
Qed.

(** ** A flat layer *)

Lemma CommitFlat_result st l d' r :
  HasExtension p ".usdz" = false -> UsdUtilsFlattenLayerStack st = Some l -> CommitFlat st p d0 = (d', r) ->
  match r with
  | inr _ => within area d0 d'
  | inl _ => exists s, layer_file (RemoveSoftDeletedPrims st l) (extension p) s /\ node_at d' (target p) = Some (File s) /\
      forall loc, loc <> target p -> ~ area loc -> node_at d' loc = node_at d0 loc
  end.
Proof.
  intros He Hl. unfold CommitFlat. rewrite Hl. set (m := RemoveSoftDeletedPrims st l). set (tmp := flat_tmp p).
  assert (Harea : area (dir ++ [flat_name p])) by (unfold area, temporary; by rewrite He).
  destruct (sibling (flat_name p)) as [Htmp Ht]; [by left|done|].
  change (join (parent_path p) (flat_name p)) with tmp in Htmp, Ht.
  pose proof original_standing as Hd. pose proof temporary_out as Hout.
  unfold best_effort, disk_call, modify, fail. unfold mbind at 1, M_bind at 1.
  set (d1 := fst (remove tmp d0)). assert (Hw1 : within area d0 d1) by by apply (remove_within dir).
  assert (Hd1 : standing dir area d1) by by eapply standing_within. unfold mbind at 1, M_bind at 1.
  pose proof (export_writes m tmp d1 (inside_plain _ _ _ _ Hd1 Htmp)) as Hw2.
  apply (writes_at_within dir area) in Hw2; [|done..]. destruct (Export m tmp d1) as [d2 b] eqn:Hx. cbn [fst] in Hw2.
  assert (Hd2 : standing dir area d2) by by eapply standing_within. destruct b; cbn [negb].
  - intros Hr. destruct (export_complete m tmp d1 d2 (inside_plain _ _ _ _ Hd1 Htmp) Hx) as (s & Hs & Hm).
    destruct (original_location d2 Hd2) as [Hlb _].
    apply (replace_original_result dir area Hout tmp p (target p) s) in Hr; [|done|done|exact Hlb|apply original_not_temporary|apply original_not_above|done].
    destruct r as [[]|e]; [|by do 2 (etrans; [done|])]. destruct Hr as (_ & Hn & Hk). exists s. split_and!; [|done|].
    + unfold tmp in Hm. rewrite flat_extension in Hm; [done|apply Hp..].
    + intros loc Hne Ha. rewrite Hk by done. by rewrite (within_outside area d1 d2), (within_outside area d0 d1).
  - unfold mbind, M_bind. intros [= <- <-]. do 2 (etrans; [done|]). by apply (remove_within dir).
Qed.

(** ** A package *)

Section package.
Context (He : HasExtension p ".usdz" = true).
Let tmpDir := usdz_tmp_dir p.
Let tmpPkg := usdz_tmp_pkg p.

(** Where an entry is extracted. *)
Definition place (n : string) : list string := target (join (usdz_tmp_dir p) n).

Lemma tmpDir_inside : inside dir area tmpDir /\ target tmpDir = dir ++ [dir_name p].
Proof. apply (sibling (dir_name p)); [by right; left|]. unfold area, temporary. rewrite He. by left. Qed.

Lemma tmpPkg_inside : inside dir area tmpPkg /\ target tmpPkg = dir ++ [pkg_name p].
Proof. apply (sibling (pkg_name p)); [by right; right|]. unfold area, temporary. rewrite He. by right. Qed.

Lemma below_tmpDir loc : directory p ++ [dir_name p] `prefix_of` loc -> area loc.
Proof. intros Hk. unfold area, temporary. rewrite He. by left. Qed.

Lemma name_inside n : entry_name n -> inside dir area (join tmpDir n).
Proof. intros Hn. apply entry_inside; [apply Hp..|done|apply below_tmpDir]. Qed.

Lemma place_path n : entry_name n -> place n = (dir ++ [dir_name p]) ++ entry_path n.
Proof. intros Hn. apply entry_target; [apply Hp..|done]. Qed.

Lemma extract_entry_works e : entry_name (zip_name e) -> works dir area (extract_entry tmpDir e).
Proof.
  intros Hn. pose proof temporary_out as Hout. pose proof (name_inside _ Hn) as Hi. unfold extract_entry.
  destruct (negb _); [by apply works_fail|]. destruct (_ && _); [by apply works_fail|].
  apply works_bind; [by apply (works_best_effort dir area Hout); intros; apply (create_directories_within dir)|intros _ _ _ _].
  apply works_bind; [by apply (works_disk_call dir area Hout); intros; apply (stream_file_within dir)|intros _ _ b _].
  destruct b; [by apply works_fail|by apply works_ret].
Qed.

(** An extracted entry has its text, and what was there before is kept. *)
Lemma extract_entry_result e d d' :
  standing dir area d -> entry_name (zip_name e) -> extract_entry tmpDir e d = (d', inl tt) ->
  (exists t, extracted e t /\ node_at d' (place (zip_name e)) = Some (File t)) /\
  forall loc n, loc <> place (zip_name e) -> node_at d loc = Some n -> node_at d' loc = Some n.
Proof.
  intros Hd Hn. pose proof temporary_out as Hout. pose proof (name_inside _ Hn) as Hi. unfold extract_entry.
  destruct (negb _); [done|]. destruct (_ && _); [done|]. set (q := join tmpDir (zip_name e)) in *.
  unfold mbind, M_bind, best_effort, disk_call, modify.
  pose proof (create_directories_new (parent_path q) d) as Hnew.
  pose proof (create_directories_within dir area Hout q d Hd Hi) as Hw. set (d1 := fst (create_directories (parent_path q) d)) in *.
  assert (Hd1 : standing dir area d1) by by eapply standing_within. unfold stream_file.
  destruct (open_file q d1) as [loc|] eqn:Ho; [|done].
  apply (open_file_target d1 q) in Ho as ->; [|by eapply inside_plain]. change (target q) with (place (zip_name e)).
  assert (place (zip_name e) <> []) by (eapply area_not_root; [exact Hout|apply Hi]).
  assert (Hset : forall t, extracted e t -> set_node (place (zip_name e)) (File t) d1 = d' ->
    (exists t, extracted e t /\ node_at d' (place (zip_name e)) = Some (File t)) /\
    forall loc n, loc <> place (zip_name e) -> node_at d loc = Some n -> node_at d' loc = Some n).
  { intros t Ht <-. split; [exists t; split; [done|by rewrite node_at_set, decide_True]|].
    intros loc n Hne Hl. rewrite node_at_set, decide_False by done. by eapply only_new_keeps. }
  destruct (short_write q _ d1) as [[n noticed]|] eqn:Hshort; intros [= Hd']; (eapply Hset; [|exact Hd']).
  - split; [by exists n|]. intros Hno. by rewrite Hno in Hshort.
  - split; [|done]. exists (String.length (entry_text e)). symmetry. apply take_all.
Qed.

Lemma extract_keeps entries d d' :
  standing dir area d -> Forall (fun e => entry_name (zip_name e)) entries ->
  for_each entries (extract_entry tmpDir) d = (d', inl tt) ->
  forall loc n, loc ∉ (fun e => place (zip_name e)) <$> entries -> node_at d loc = Some n -> node_at d' loc = Some n.
Proof.
  intros Hd Hall. revert d Hd. induction Hall as [|e entries Hn Hall IH]; intros d Hd; cbn [for_each]; [by intros [= <-]|].
  unfold mbind, M_bind. destruct (extract_entry tmpDir e d) as [d1 [[]|]] eqn:E; [|done]. intros Hr loc n.
  rewrite fmap_cons, not_elem_of_cons. intros [Hl Hin] Hnode.
  destruct (works_run _ _ _ _ _ _ (extract_entry_works e Hn) Hd E) as [Hd1 _].
  destruct (extract_entry_result e d d1 Hd Hn E) as [_ Hk]. apply (IH d1 Hd1 Hr); [done|]. by apply Hk.
Qed.

Lemma extract_all entries d d' :
  standing dir area d -> Forall (fun e => entry_name (zip_name e)) entries ->
  NoDup ((fun e => place (zip_name e)) <$> entries) -> for_each entries (extract_entry tmpDir) d = (d', inl tt) ->
  forall e, e ∈ entries -> exists t, extracted e t /\ node_at d' (place (zip_name e)) = Some (File t).
Proof.
  intros Hd Hall. revert d Hd. induction Hall as [|e entries Hn Hall IH]; intros d Hd Hnd Hr x Hx; [by apply elem_of_nil in Hx|].
  rewrite fmap_cons in Hnd. apply NoDup_cons in Hnd as [Hfresh Hnd]. cbn [for_each] in Hr. unfold mbind, M_bind in Hr.
  destruct (extract_entry tmpDir e d) as [d1 [[]|]] eqn:E; [|done].
  destruct (works_run _ _ _ _ _ _ (extract_entry_works e Hn) Hd E) as [Hd1 _].
  apply elem_of_cons in Hx as [->|Hx]; [|by eapply IH].
  destruct (extract_entry_result e d d1 Hd Hn E) as [(t & Ht & Hnode) _].
  exists t. split; [done|]. by eapply extract_keeps.
Qed.

(** *** Packing the files again *)

Definition holds (d : Disk) (files : list (string * string)) : Prop :=
  forall n t, (n, t) ∈ files -> node_at d (place n) = Some (File t).

Lemma read_place d n t : standing dir area d -> entry_name n -> read_file (join tmpDir n) d = Some t ->
  node_at d (place n) = Some (File t).
Proof.
  intros Hd Hn. unfold read_file. destruct (canonical _ _) as [loc|] eqn:Hc; [|done].
  apply canonical_target in Hc as ->; [|by eapply inside_plain, name_inside]. change (target (join tmpDir n)) with (place n).
  destruct (node_at d (place n)) as [[]|]; congruence.
Qed.

Lemma zip_discard_works w : zip_path w = tmpPkg -> works dir area (modify (ZipDiscard w)).
Proof.
  intros Hw. pose proof temporary_out as Hout. destruct tmpPkg_inside as [Hi _]. apply works_intro; [done|]. intros d Hd.
  apply (writes_at_within dir area tmpPkg); [done|done|]. rewrite <- Hw. apply zip_discard_writes. rewrite Hw. by eapply inside_plain.
Qed.

Lemma remove_pkg_works : works dir area (best_effort (remove tmpPkg)).
Proof.
  apply works_best_effort; [exact temporary_out|]. intros d Hd. apply (remove_within dir area temporary_out); [done|]. apply tmpPkg_inside.
Qed.

Lemma add_files_works names w : zip_path w = tmpPkg -> works dir area (add_files tmpDir tmpPkg names w).
Proof.
  pose proof temporary_out as Hout. revert w. induction names as [|n names IH]; intros w Hw; cbn [add_files]; [by apply works_ret|].
  apply works_bind; [by apply works_get|]. intros d1 d2 d _. destruct (ZipAddFile _ _ _ _) as [w' r] eqn:Hz.
  apply zip_add in Hz as [Hpath _]. rewrite Hw in Hpath. destruct (is_empty r); [|by apply IH].
  apply works_bind; [by apply zip_discard_works|]. intros _ _ _ _.
  apply works_bind; [apply remove_pkg_works|]. intros _ _ _ _. by apply works_fail.
Qed.

Lemma add_files_result files w d d' w' :
  standing dir area d -> Forall entry_name files.*1 -> holds d files -> NoDup ((zip_added w).*1 ++ files.*1) ->
  add_files tmpDir tmpPkg files.*1 w d = (d', inl w') ->
  d' = d /\ zip_path w' = zip_path w /\ zip_added w' = zip_added w ++ files.
Proof.
  intros Hd Hall Hh. revert w. induction files as [|[n t] files IH]; intros w Hnd.
  { cbn. intros [= <- <-]. by rewrite app_nil_r. }
  cbn [fmap list_fmap fst add_files] in *. apply Forall_cons_1 in Hall as [Hn Hall]. unfold mbind at 1, M_bind at 1. cbn [get].
  destruct (ZipAddFile _ _ _ _) as [w1 r] eqn:Hz. apply zip_add in Hz as [Hpath Hadd].
  destruct (is_empty r); [done|]. destruct Hadd as (text & Hr & Hadded); [done| |].
  { apply NoDup_app in Hnd as (_ & Hnd & _). intros Hin. apply (Hnd n Hin). by left. }
  apply (read_place d n text Hd Hn) in Hr. assert (text = t) as ->.
  { rewrite (Hh n t) in Hr; [congruence|by left]. }
  intros Hrun. destruct (IH Hall) with (w := w1) as (-> & Hp1 & Ha1); [|by rewrite Hadded, fmap_app, <- app_assoc|done|].
  { intros n' t' Hin. apply Hh. by right. }
  split_and!; [done|congruence|]. by rewrite Ha1, Hadded, <- app_assoc.
Qed.

Lemma add_files_path names w d d' w' :
  add_files tmpDir tmpPkg names w d = (d', inl w') -> zip_path w' = zip_path w.
Proof.
  revert w d. induction names as [|n names IH]; intros w d; cbn [add_files]; [by intros [= _ <-]|].
  unfold mbind at 1, M_bind at 1. cbn [get]. destruct (ZipAddFile _ _ _ _) as [w1 r] eqn:Hz. apply zip_add in Hz as [Hz _].
  destruct (is_empty r); [done|]. intros Ha%IH. congruence.
Qed.

Lemma save_works w : zip_path w = tmpPkg -> works dir area (disk_call (ZipSave w)).
Proof.
  intros Hw. destruct tmpPkg_inside as [Hi _]. apply works_disk_call; [exact temporary_out|]. intros d Hd.
  apply (writes_at_within dir area tmpPkg); [done|done|]. rewrite <- Hw. apply zip_save_writes. rewrite Hw. by eapply inside_plain.
Qed.

Lemma created_package d d' w : disk_call (ZipCreateNew tmpPkg) d = (d', inl w) ->
  d' = d /\ forall zw, w = Some zw -> zip_path zw = tmpPkg /\ zip_added zw = [].
Proof. unfold disk_call. destruct (ZipCreateNew tmpPkg d) as [d1 w1] eqn:Hz. intros [= <- <-]. by apply zip_create in Hz. Qed.

Lemma write_package_works names : works dir area (write_package tmpDir tmpPkg names).
Proof.
  pose proof temporary_out as Hout. unfold write_package. apply works_bind.
  { apply works_disk_call; [done|]. intros d _. destruct (ZipCreateNew tmpPkg d) as [d1 w] eqn:Hz.
    apply zip_create in Hz as [-> _]. cbn [fst]. reflexivity. }
  intros d d1 [w|] Hz; [|by apply works_fail]. apply created_package in Hz as [_ Hz]. destruct (Hz w eq_refl) as [Hw _].
  apply works_bind; [by apply add_files_works|]. intros d2 d3 w' Ha%add_files_path.
  apply works_bind; [apply save_works; congruence|]. intros _ _ [] _; [by apply works_ret|].
  apply works_bind; [apply remove_pkg_works|]. intros _ _ _ _. by apply works_fail.
Qed.

(** A package that was written has the files in it. *)
Lemma write_package_result files d d' :
  standing dir area d -> Forall entry_name files.*1 -> holds d files -> NoDup files.*1 ->
  write_package tmpDir tmpPkg files.*1 d = (d', inl tt) ->
  exists s, node_at d' (target tmpPkg) = Some (File s) /\ package_file files s.
Proof.
  intros Hd Hall Hh Hnd. destruct tmpPkg_inside as [Hi _]. unfold write_package. unfold mbind at 1, M_bind at 1.
  destruct (disk_call _ d) as [d1 [[w|]|]] eqn:Hz; [|done|done]. apply created_package in Hz as [-> Hz].
  destruct (Hz w eq_refl) as [Hw Hempty]. unfold mbind at 1, M_bind at 1.
  destruct (add_files _ _ _ _ _) as [d1 [w'|]] eqn:Ha; [|done].
  apply add_files_result in Ha as (-> & Hw' & Hadded); [|done|done|done|by rewrite Hempty]. rewrite Hempty in Hadded.
  unfold mbind at 1, M_bind at 1, disk_call. destruct (ZipSave w' d) as [d2 []] eqn:Hs; cbn [negb]; [|done].
  intros [= <-]. rewrite Hw in Hw'. destruct (zip_save_complete w' d d2) as (s & Hn & Hp'); [rewrite Hw'; by eapply inside_plain|done|].
  exists s. rewrite Hw', Hadded in *. done.
Qed.

(** *** The new root layer *)

Lemma place_not_pkg n : entry_name n -> place n <> target tmpPkg.
Proof.
  intros Hn. rewrite place_path, (proj2 tmpPkg_inside), <- app_assoc by done. intros He'%app_inv_head.
  injection He' as He' _. apply (f_equal String.length) in He'. unfold dir_name, pkg_name in He'.
  rewrite !length_app_string in He'. cbn [String.length] in He'. lia.
Qed.

Lemma places_distinct (ns : list string) : Forall entry_name ns -> NoDup (entry_path <$> ns) -> NoDup (place <$> ns).
Proof.
  intros Hall Hnd. assert (place <$> ns = app (dir ++ [dir_name p]) <$> (entry_path <$> ns)) as ->.
  { induction Hall as [|n ns Hn _ IH]; [done|]. rewrite !fmap_cons, place_path by done. f_equal. apply IH. by apply NoDup_cons in Hnd as [_ ?]. }
  apply NoDup_fmap_2; [|done]. intros x y. apply app_inv_head.
Qed.

Lemma remove_others d q loc : standing dir area d -> inside dir area q -> loc <> target q ->
  node_at (fst (remove q d)) loc = node_at d loc.
Proof. intros Hd Hq Hne. apply remove_keeps. intros Hl%location_target; [done|by eapply inside_plain]. Qed.

Lemma writes_others d d' q loc s : writes_at q d d' -> loc <> q -> node_at d loc = Some (File s) -> node_at d' loc = Some (File s).
Proof. intros [_ Hw] Hne Hs. destruct (Hw loc) as [->|[(_ & _ & Hn & _)|[? _]]]; congruence. Qed.

(** Exporting the root layer over the first entry. *)
Lemma root_replaced l e es d d2 :
  standing dir area d -> Forall (fun e => entry_name (zip_name e)) (e :: es) ->
  NoDup ((fun e => place (zip_name e)) <$> e :: es) ->
  (forall x, x ∈ e :: es -> exists t, extracted x t /\ node_at d (place (zip_name x)) = Some (File t)) ->
  let rootPath := join tmpDir (zip_name e) in
  Export l rootPath (fst (remove rootPath d)) = (d2, true) ->
  exists root ts, layer_file l (extension (zip_name e)) root /\ Forall2 extracted es ts /\
    holds (fst (remove tmpPkg d2)) (repacked e es root ts).
Proof.
  intros Hd Hall Hnd Htexts rootPath Hx. apply Forall_cons_1 in Hall as [Hn Hall].
  pose proof (name_inside _ Hn) as Hi. fold rootPath in Hi. pose proof temporary_out as Hout.
  assert (Hd1 : standing dir area (fst (remove rootPath d))) by (eapply standing_within; [done..|by apply (remove_within dir)]).
  destruct (export_complete _ _ _ _ (inside_plain _ _ _ _ Hd1 Hi) Hx) as (root & Hroot & Hl).
  pose proof (export_writes l _ _ (inside_plain _ _ _ _ Hd1 Hi)) as Hw. rewrite Hx in Hw. cbn [fst] in Hw.
  assert (Hd2 : standing dir area d2) by (eapply standing_within; [done|exact Hd1|by eapply writes_at_within]).
  destruct (choose_all (fun x t => extracted x t /\ node_at d (place (zip_name x)) = Some (File t)) es) as [ts Hts].
  { intros x Hin. apply Htexts. by right. }
  exists root, ts. split_and!; [|by eapply Forall2_impl; [exact Hts|intros x t [? _]]|].
  { rewrite (extension_of_filename (zip_name e) rootPath); [done|]. symmetry. apply entry_target; [apply Hp..|done]. }
  rewrite fmap_cons in Hnd. apply NoDup_cons in Hnd as [Hfresh _].
  assert (Hpkg : forall n, entry_name n -> node_at (fst (remove tmpPkg d2)) (place n) = node_at d2 (place n)).
  { intros n Hn'. apply remove_others; [done|apply tmpPkg_inside|by apply place_not_pkg]. }
  intros n t [[= -> ->]|Hin]%elem_of_cons; [by rewrite Hpkg|].
  assert (exists x, x ∈ es /\ zip_name x = n /\ node_at d (place (zip_name x)) = Some (File t)) as (x & Hin' & <- & Hnode).
  { clear - Hts Hin. induction Hts as [|x y es ts [_ Hnode] Hts IH]; [by apply elem_of_nil in Hin|].
    cbn in Hin. apply elem_of_cons in Hin as [[= -> ->]|Hin]; [exists x; split; [by left|done]|].
    destruct (IH Hin) as (z & ? & ?). exists z. split; [by right|done]. }
  rewrite Forall_forall in Hall. rewrite Hpkg by by apply Hall.
  assert (Hne : place (zip_name x) <> target rootPath).
  { intros He'. apply Hfresh. change (place (zip_name e)) with (target rootPath). rewrite <- He'.
    by apply (list_elem_of_fmap_2 (fun e => place (zip_name e))). }
  eapply writes_others; [exact Hw|done|]. by rewrite remove_others.
Qed.

Lemma repacked_names e es root ts : Forall2 extracted es ts -> (repacked e es root ts).*1 = zip_name <$> e :: es.
Proof. intros Hts%Forall2_length. unfold repacked. rewrite !fmap_cons, fst_zip; [done|]. rewrite length_fmap. lia. Qed.

(** *** Repackaging *)

(** What a commit step does, from a disk where only temporaries differ. *)
Definition replaced (content : string -> Prop) (d d' : Disk) (r : unit + exn) : Prop :=
  standing dir area d' /\
  match r with
  | inr _ => within area d d'
  | inl _ => exists s, content s /\ node_at d' (target p) = Some (File s) /\
      forall loc, loc <> target p -> ~ area loc -> node_at d' loc = node_at d loc
  end.

Lemma works_replaced {A} content (m : M Disk A) d d' e :
  works dir area m -> standing dir area d -> m d = (d', inr e) -> replaced content d d' (inr e).
Proof. intros Hm Hd E. by apply (works_run _ _ _ _ _ _ Hm Hd E). Qed.

Lemma replaced_after content d d1 d' r : within area d d1 -> replaced content d1 d' r -> replaced content d d' r.
Proof.
  intros Hw [Hd Hr]. split; [done|]. destruct r as [|e]; [|by etrans]. destruct Hr as (s & Hc & Hs & Hk). exists s.
  split_and!; [done|done|]. intros loc Hne Ha. rewrite Hk by done. by eapply within_outside.
Qed.

(** A first part that only works in the area. *)
Lemma replaced_bind {A} content (m : M Disk A) (f : A -> M Disk unit) d d' r :
  works dir area m -> standing dir area d -> (m ≫= f) d = (d', r) ->
  (forall d1 a, m d = (d1, inl a) -> standing dir area d1 -> within area d d1 -> f a d1 = (d', r) -> replaced content d1 d' r) ->
  replaced content d d' r.
Proof.
  intros Hm Hd Hr Hf. destruct (Hm d Hd) as [Hd1 Hw]. unfold mbind, M_bind in Hr.
  destruct (m d) as [d1 [a|e]] eqn:E; [|by injection Hr as <- <-]. eapply replaced_after; [exact Hw|]. by eapply Hf.
Qed.

Lemma replaced_fail content d d' r e : standing dir area d -> fail e d = (d', r) -> replaced content d d' r.
Proof. intros Hd [= <- <-]. split; [done|reflexivity]. Qed.

Lemma repackage_result l d d' r :
  standing dir area d -> within area d0 d -> repackage l tmpDir p d = (d', r) ->
  replaced (committed_file p d0 l) d d' r.
Proof.
  intros Hd Hw. pose proof temporary_out as Hout. unfold repackage. unfold mbind at 1, M_bind at 1. cbn [get].
  rewrite (zip_open p d d0) by by apply original_read. destruct (ZipOpen p d0) as [entries|] eqn:Hz; [|by apply replaced_fail].
  destruct (committable_entries _ _ Hp entries He Hz) as [Hall Hnd].
  assert (Hnames : Forall entry_name (zip_name <$> entries)) by by apply Forall_fmap.
  assert (Hplaces : NoDup ((fun e => place (zip_name e)) <$> entries)).
  { assert ((fun e => place (zip_name e)) <$> entries = place <$> (zip_name <$> entries)) as -> by by rewrite <- list_fmap_compose.
    apply places_distinct; [done|]. by rewrite <- list_fmap_compose. }
  intros Hr. eapply replaced_bind; [|exact Hd|exact Hr|].
  { apply (works_for_each dir area Hout). intros x Hx. rewrite Forall_forall in Hall. by apply extract_entry_works, Hall. }
  clear Hr. intros d1 [] Hext Hd1 Hw1. pose proof (extract_all _ _ _ Hd Hall Hplaces Hext) as Htexts.
  destruct entries as [|e es]; [by apply replaced_fail|]. set (rootPath := join tmpDir (zip_name e)).
  pose proof (name_inside _ (Forall_inv Hall)) as Hi. fold rootPath in Hi.
  intros Hr. eapply replaced_bind; [|exact Hd1|exact Hr|].
  { apply works_best_effort; [done|]. intros. by apply (remove_within dir). }
  clear Hr. intros d2 [] [= <-] Hd2 _ Hr. eapply replaced_bind; [|exact Hd2|exact Hr|].
  { apply works_disk_call; [done|]. intros. eapply writes_at_within; [done|exact Hi|]. apply export_writes. by eapply inside_plain. }
  clear Hr. intros d3 exported Hx Hd3 _. unfold disk_call in Hx. destruct (Export _ _ _) as [d4 b] eqn:Hexp. injection Hx as -> ->.
  destruct exported; cbn [negb]; [|by apply replaced_fail].
  destruct (root_replaced l e es d1 d3 Hd1 Hall Hplaces Htexts Hexp) as (root & ts & Hroot & Hts & Hholds).
  intros Hr. eapply replaced_bind; [|exact Hd3|exact Hr|]; [apply remove_pkg_works|].
  clear Hr. intros d4' [] [= <-] Hd4 _ Hr. eapply replaced_bind; [|exact Hd4|exact Hr|]; [apply write_package_works|].
  clear Hr. intros d5 [] Hpack Hd5 _ Hr.
  change (zip_name e :: _) with (zip_name <$> (e :: es)) in Hpack. rewrite <- (repacked_names e es root ts) in Hpack by done.
  destruct (write_package_result (repacked e es root ts) _ d5 Hd4) as (s & Hs & Hfile);
    [by rewrite repacked_names|exact Hholds| |exact Hpack|].
  { rewrite repacked_names by done. apply (NoDup_fmap_1 place). by rewrite <- list_fmap_compose. }
  destruct (original_location d5 Hd5) as [Hlb _]. destruct tmpPkg_inside as [Hpkg _].
  apply (replace_original_result dir area Hout tmpPkg p (target p) s) in Hr;
    [|done|done|done|apply original_not_temporary|apply original_not_above|done].
  destruct r as [[]|x]; [|split; [by eapply standing_within|done]]. destruct Hr as (Hd' & Hn & Hk). split; [done|].
  exists s. split_and!; [|done|done]. unfold committed_file. rewrite He. by exists e, es, root, ts.
Qed.

Lemma remove_dir_within d : standing dir area d -> within area d (remove_all tmpDir d).
Proof.
  intros Hd. destruct tmpDir_inside as [Hi Ht]. apply (remove_all_within dir area); [done|done|].
  intros loc. rewrite Ht. apply below_tmpDir.
Qed.

Lemma guarded_result content m d d' r :
  guarded m (remove_all tmpDir) d = (d', r) -> (forall d1, m d = (d1, r) -> replaced content d d1 r) -> replaced content d d' r.
Proof.
  unfold guarded. destruct (m d) as [d1 r1]. intros [= <- <-] Hm. destruct (Hm d1 eq_refl) as [Hd1 Hr].
  pose proof (remove_dir_within d1 Hd1) as Hw. split; [eapply standing_within; [exact temporary_out|exact Hd1|done]|].
  destruct r1 as [|e]; [|by etrans]. destruct Hr as (s & Hc & Hs & Hk). exists s. split_and!; [done| |].
  - rewrite (within_outside area d1); [done|done|apply original_not_temporary].
  - intros loc Hne Ha. rewrite (within_outside area d1) by done. by apply Hk.
Qed.

Lemma CommitUsdz_result st l d' r :
  UsdUtilsFlattenLayerStack st = Some l -> CommitUsdz st p d0 = (d', r) ->
  replaced (committed_file p d0 (RemoveSoftDeletedPrims st l)) d0 d' r.
Proof.
  intros Hl. unfold CommitUsdz. rewrite Hl. pose proof temporary_out as Hout. pose proof original_standing as Hd0.
  destruct tmpDir_inside as [Hi _].
  intros Hr. eapply replaced_bind; [|exact Hd0|exact Hr|].
  { apply works_intro; [done|]. intros. by apply remove_dir_within. }
  clear Hr. intros d1 [] _ Hd1 Hw1 Hr. eapply replaced_bind; [|exact Hd1|exact Hr|].
  { apply works_disk_call; [done|]. intros. by apply (create_directory_within dir area Hout). }
  clear Hr. intros d2 ec _ Hd2 Hw2 Hr. eapply replaced_bind; [|exact Hd2|exact Hr|]; [by apply works_get|].
  clear Hr. intros d2' d [= <- <-] _ _ Hr.
  assert (Hfound : replaced (committed_file p d0 (RemoveSoftDeletedPrims st l)) d2 d' r \/
    guarded (repackage (RemoveSoftDeletedPrims st l) tmpDir p) (remove_all tmpDir) d2 = (d', r)).
  { destruct ec as [ec|]; [|by right]. destruct (negb _); [left|by right]. injection Hr as <- <-. by eapply replaced_fail. }
  destruct Hfound as [?|Hg]; [done|]. eapply guarded_result; [exact Hg|]. intros d3 Hrep.
  eapply repackage_result; [done| |exact Hrep]. by etrans.
Qed.
End package.
End original.

End commit.

End working.

(** ** On concrete disks *)

Lemma write_file_writes `{WorkingDirectory} `{IoErrors} p s d : plain d p -> writes_at (target p) d (fst (write_file p s d)).
Proof.
  intros Hp. unfold write_file. destruct (open_file p d) as [loc|] eqn:Ho; [|split; [done|by left]].
  apply (open_file_target d p Hp) in Ho as ->. split; [done|]. intros k. cbn [fst].
  rewrite node_at_set by (rewrite target_parent by apply Hp; by destruct (directory p)).
  case_decide; [right; right; by eauto|by left].
Qed.

Lemma write_file_complete `{WorkingDirectory} `{IoErrors} p s d d' : plain d p -> write_file p s d = (d', true) ->
  node_at d' (target p) = Some (File s).
Proof.
  intros Hp. unfold write_file. destruct (open_file p d) as [loc|] eqn:Ho; [|done]. intros [= <-].
  apply (open_file_target d p Hp) in Ho as ->.
  rewrite node_at_set by (rewrite target_parent by apply Hp; by destruct (directory p)). by rewrite decide_True.
Qed.

#[export] Instance toy_commit_laws `{WorkingDirectory} throws : CommitLaws (H := toy throws).
Proof.
  refine (Build_CommitLaws (toy throws) _ (fun l _ s => s = unlines (map_to_list (l : layer)).*1)
    (fun es s => s = unlines es.*1) fst snd _ _ _ _ _ _ _ _).
  - intros l p d Hp. by apply write_file_writes.
  - intros l p d d' Hp Hx. exists (unlines (map_to_list (l : layer)).*1). split; [by eapply write_file_complete|done].
  - intros p d d' Hr. cbn. by rewrite Hr.
  - intros p d d' w [= <- <-]. split; [done|]. by intros zw [= <-].
  - intros zw src name d zw' r. cbn. destruct (read_file src d) as [text|] eqn:Hr; intros [= <- <-]; [|done].
    split; [done|]. intros _ _. by exists text.
  - intros zw d Hp. by apply write_file_writes.
  - intros zw d d' Hp Hs. exists (unlines zw.2.*1). split; [by eapply write_file_complete|done].
  - intros zw d Hp. split; [done|]. by left.
Defined.

Definition stage1 : toy_stage :=
  mkStage (parse_layer (unlines ["/World"; "/World/A"])) {[ "/World/B" := mkSpec true "Xform" (Some false) [] ]} "s" "r" [].

#[local] Instance srv : WorkingDirectory := ["srv"].
#[local] Instance calm : Usd := toy (fun _ => None).

Definition disk_of (file : string) (text : string) : Disk :=
  mkDisk {[ ["srv"] := Directory; ["srv"; "uploads"] := Directory; ["srv"; "uploads"; file] := File text ]} ["srv"].

Definition live_stage : option Stage := Some stage1.

Definition flat_path : string := "./uploads/a.usda".
Definition flat_disk : Disk := disk_of "a.usda" "old".

(** The prim that is soft-deleted in the session is gone. *)
Example flat_committed :
  let '(d', r) := Commit live_stage flat_path flat_disk in
  (map_to_list (nodes d'), r) = (map_to_list (nodes (disk_of "a.usda" (unlines ["/World/A"; "/World"]))), inl tt).
Proof. vm_compute. reflexivity. Qed.

Definition package_path : string := "/srv/uploads/a.usdz".
Definition package_disk : Disk := disk_of "a.usdz" (unlines ["root.usda"; "tex/a.png"]).

Example package_committed :
  let '(d', r) := Commit live_stage package_path package_disk in
  (map_to_list (nodes d'), r) = (map_to_list (nodes package_disk), inl tt).
Proof. vm_compute. reflexivity. Qed.

(** The names of the entries are joined to the temporary directory as they
    are: a package whose entry is called [../../victim] writes outside of it
    when it is committed. *)
Example entry_escapes :
  let d := disk_of "a.usdz" (unlines ["root.usda"; "../../victim"]) in
  let '(d', r) := Commit live_stage package_path d in
  node_at d ["srv"; "victim"] = None /\ node_at d' ["srv"; "victim"] = Some (File "x") /\ r = inl tt.
Proof. vm_compute. done. Qed.

(** The stream is not asked whether the data was written: an entry that the disk
    took a part of goes into the new package as it is. *)
Example truncated_entry_accepted :
  let short : ShortWrites := fun _ _ _ => Some (1%nat, true) in
  let '(d', r) := extract_entry "/srv/uploads" (mkZipEntry "a.png" 0 3 (Some "png")) package_disk in
  node_at d' ["srv"; "uploads"; "a.png"] = Some (File "p") /\ r = inl tt.
Proof. vm_compute. done. Qed.

(** A disk without links where the file of the original is. *)
Lemma concrete_committable p d :
  cwd d = working_directory -> parent_path p <> "" -> (".." ∉ names_of p) -> regular_name (filename p) -> extension p <> "" ->
  directory p = ["srv"; "uploads"] -> node_at d ["srv"] = Some Directory -> node_at d ["srv"; "uploads"] = Some Directory ->
  (exists s, node_at d (target p) = Some (File s)) -> map_Forall (fun _ n => forall t, n <> Symlink t) (nodes d) ->
  (forall entries, HasExtension p ".usdz" = true -> ZipOpen p d = Some entries ->
    Forall (fun e => entry_name (zip_name e)) entries /\ NoDup ((fun e => entry_path (zip_name e)) <$> entries)) ->
  committable p d.
Proof.
  intros ? ? ? ? ? Hdir Hsrv Hup Hfile Hno Hent. split; try done.
  - intros k. rewrite Hdir. intros Hk. apply (prefix_snoc_inv k ["srv"] "uploads") in Hk as [Hk| ->]; [|done].
    apply (prefix_snoc_inv k [] "srv") in Hk as [Hk| ->]; [|done]. by apply prefix_nil_inv in Hk as ->.
  - intros [|w loc] t _; [done|]. intros Hn. by apply (Hno _ _ Hn t).
Qed.

Lemma no_links (m : gmap (list string) node) :
  forallb (fun x => match x.2 with Symlink _ => false | _ => true end) (map_to_list m) = true ->
  map_Forall (fun _ n => forall t, n <> Symlink t) m.
Proof.
  intros Hall loc n Hn t ->. rewrite forallb_forall in Hall.
  specialize (Hall (loc, Symlink t)). rewrite <- list_elem_of_In, elem_of_map_to_list in Hall. by specialize (Hall Hn).
Qed.

Lemma flat_committable : committable flat_path flat_disk.
Proof.
  apply concrete_committable; try done; [by apply (bool_decide_unpack _)|by eexists|by apply no_links].
Qed.

Lemma package_committable : committable package_path package_disk.
Proof.
  apply concrete_committable; try done; [by apply (bool_decide_unpack _)|by eexists|by apply no_links|].
  intros entries _. vm_compute. intros [= <-]. split.
  - repeat constructor; by apply (bool_decide_unpack _).
  - by apply (bool_decide_unpack _).
Qed.

Lemma flat_runs : Commit live_stage flat_path flat_disk = (fst (Commit live_stage flat_path flat_disk), inl tt).
Proof. vm_compute. reflexivity. Qed.

Lemma package_runs :
  Commit live_stage package_path package_disk = (fst (Commit live_stage package_path package_disk), inl tt).
Proof. vm_compute. reflexivity. Qed.

End CommitFacts.
