(* ===== verification/Handlers.v ===== *)
(** * The command handlers (source/session/SessionManager.cpp)

    [HandleCommand] for each command of a session's queue, and
    [ProcessCommand], which runs one command to its end and lets no exception
    out. A handler runs on the session's single consumer ([Scheduler.v]), so
    it is one step of the session. *)
From S2P Require Import Prelude Filesystem Proto Usd Versions Scheduler Session Broadcast Listener.
From S2P Require Import Dispatch Committer.

Module Handlers.
Import Session Broadcast Listener.
Local Open Scope string_scope.
Local Open Scope list_scope.
Local Open Scope Z_scope.

(** ** Submitting to a session *)

Inductive SubmitStatus := SubmitAccepted | SubmitUnknownSession | SubmitQueueFull | SubmitSessionClosing.

#[global] Instance SubmitStatus_eq_dec : EqDecision SubmitStatus.
Proof. solve_decision. Defined.

Definition ToSubmitStatus (status : Scheduler.CommandAdmissionStatus) : SubmitStatus :=
  match status with
  | Scheduler.Accepted => SubmitAccepted
  | Scheduler.QueueFull => SubmitQueueFull
  | Scheduler.Stopping => SubmitSessionClosing
  end.

Section handlers.
Context `{Usd} `{Wire} `{IoErrors} `{SW : ShortWrites}.

Definition Submit (c : SessionCommand) (s : Session) : Session * SubmitStatus :=
  match commands s with
  | None => (s, SubmitSessionClosing)
  | Some q => let '(q', st) := TrySubmit c q in (set_commands (Some q') s, ToSubmitStatus st)
  end.

Definition SubmitPriority (c : SessionCommand) (s : Session) : Session * SubmitStatus :=
  match commands s with
  | None => (s, SubmitSessionClosing)
  | Some q => let '(q', st) := TrySubmitPriority c q in (set_commands (Some q') s, ToSubmitStatus st)
  end.

(** The live sessions of a file; [heap] holds the session objects. *)
Definition FindByUsdFile (file : string) (sessions : gmap string location)
    (heap : gmap location Session) : list location :=
  filter (fun l => usd_file <$> heap !! l = Some file) (snd <$> map_to_list sessions).

Definition submit_at (c : SessionCommand) (l : location) (heap : gmap location Session) :
    gmap location Session * SubmitStatus :=
  match heap !! l with
  | None => (heap, SubmitUnknownSession)
  | Some s => let '(s', st) := Submit c s in (<[l := s']> heap, st)
  end.

(** [SubmitReloadSessionsCommand]: the sessions, and how many accepted. *)
Definition SubmitReloadSessionsCommand (file : string) (skip : option location)
    (sessions : gmap string location) (heap : gmap location Session) :
    gmap location Session * nat :=
  foldl (fun '(heap, accepted) l =>
      if bool_decide (skip = Some l) then (heap, accepted)
      else
        let '(heap', st) := submit_at ReloadCommand l heap in
        (heap', if bool_decide (st = SubmitAccepted) then S accepted else accepted))
    (heap, 0%nat) (FindByUsdFile file sessions heap).

(** ** Transform *)

(** The authoring call with the origin marked around it. *)
Definition apply_update (update_ : TransformUpdate) (origin : ConnectionId) : M World bool :=
  _ ← update (set_current_origin origin);
  ok ← try_std (TransformDispatcher.Apply update_) (fun _ => mret false);
  _ ← update (set_current_origin 0);
  mret ok.

Definition HandleTransform (update_ : TransformUpdate) (origin : ConnectionId)
    (request_id base_seq : Z) : M World unit :=
  let prim_path := upd_prim_path update_ in
  status ← session (fun s => CheckUpdate origin prim_path base_seq (versions s));
  match status with
  | Stale => SendAck origin request_id false "stale"
  | InvalidBase => SendAck origin request_id false "invalid_base"
  | Current =>
      ok ← apply_update update_ origin;
      _ ← when ok (update (set_dirty true));
      _ ← SendAck origin request_id ok "apply_failed";
      when (negb ok) (SendCorrection origin prim_path)
  end.

(** ** Prim creation *)

Definition create_prim (parent_path : string) (type : PrimType) (origin : ConnectionId) :
    M World (option CreatedPrim) :=
  _ ← update (set_current_origin origin);
  _ ← update (set_create_in_progress true);
  created ← try_std (PrimDispatcher.Create parent_path type) (fun _ => mret None);
  _ ← update (set_create_in_progress false);
  _ ← update (set_current_origin 0);
  mret created.

Definition HandleCreatePrim (parent_path : string) (type : PrimType) (origin : ConnectionId)
    (request_id : Z) : M World unit :=
  st ← session stage;
  match st with
  | None => SendAck origin request_id false "apply_failed"
  | Some _ =>
      created ← create_prim parent_path type origin;
      match created with
      | None => SendAck origin request_id false "invalid_parent"
      | Some prim =>
          _ ← update (set_dirty true);
          seq ← next_seq;
          _ ← on_versions (RecordChange (created_prim_path prim) seq origin);
          s ← session (fun s => s);
          _ ← BroadcastToAll (SerializeCreatePrimBroadcast s parent_path type prim seq) seq;
          SendAck origin request_id true ""
      end
  end.

(** ** Soft delete and undo *)

Definition set_prim_active (prim_path : string) (active : bool) (origin : ConnectionId) :
    M World PrimDispatcher.SetActiveStatus :=
  _ ← update (set_current_origin origin);
  _ ← update (set_set_active_in_progress true);
  status ← try_std (PrimDispatcher.SetActive prim_path active) (fun _ => mret PrimDispatcher.Failed);
  _ ← update (set_set_active_in_progress false);
  _ ← update (set_current_origin 0);
  mret status.

Definition HandleSetPrimActive (prim_path : string) (active : bool) (origin : ConnectionId)
    (request_id : Z) : M World unit :=
  st ← session stage;
  match st with
  | None => SendAck origin request_id false "apply_failed"
  | Some _ =>
      status ← set_prim_active prim_path active origin;
      match status with
      | PrimDispatcher.InvalidPath | PrimDispatcher.NotFound =>
          SendAck origin request_id false "unknown_prim"
      | PrimDispatcher.NotDeletable => SendAck origin request_id false "not_deletable"
      | PrimDispatcher.Failed => SendAck origin request_id false "apply_failed"
      | PrimDispatcher.AlreadyInState => SendAck origin request_id true ""
      | PrimDispatcher.Ok =>
          _ ← update (set_dirty true);
          seq ← next_seq;
          _ ← on_versions (RecordChange prim_path seq origin);
          s ← session (fun s => s);
          _ ← BroadcastToAll (SerializeSetPrimActiveBroadcast s prim_path active seq) seq;
          SendAck origin request_id true ""
      end
  end.

(** ** The join snapshot *)

(** The prims with a spec on the session layer. *)
Definition snapshot_paths (st : Stage) (layer : Layer) : list SdfPath :=
  set_of path_ltb
    (LayerTraverse st layer ≫= fun p =>
       if IsPrimPath p then [p] else if IsPropertyPath p then [GetPrimPath p] else []).

Definition snapshot_deleted (st : Stage) (layer : Layer) (paths : list SdfPath) : list string :=
  paths ≫= fun p =>
    match LayerGetPrimAtPath st layer p with
    | Some spec => if HasActive spec && negb (GetActive spec) then [GetString p] else []
    | None => []
    end.

(** The creation of a prim the session defined, with its depth. *)
Definition snapshot_create (s : Session) (st : Stage) (layer : Layer) (seq : Z) (p : SdfPath) :
    list (nat * Payload) :=
  match LayerGetPrimAtPath st layer p with
  | None => []
  | Some spec =>
      if negb (bool_decide (GetSpecifier spec = SdfSpecifierDef)) then []
      else
        let type := PrimDispatcher.TypeFromName (SpecTypeName spec) in
        if bool_decide (type = PRIM_TYPE_UNSPECIFIED) then []
        else
          let created :=
            PrimDispatcher.ReadSchemaDefaults type
              (PrimDispatcher.new_created (GetName p) (GetString p)) in
          [(GetPathElementCount p,
            SerializeCreatePrimBroadcast s (GetString (GetParentPath p)) type created seq)]
  end.

Definition snapshot_transform (s : Session) (now : Z) (st : Stage) (layer : Layer) (seq : Z)
    (p : SdfPath) : list Payload :=
  match LayerGetPrimAtPath st layer p with
  | None => []
  | Some spec =>
      match TransformDispatcher.ReadAuthoredLocalTransform st (Some spec) with
      | None => []
      | Some xf =>
          match SerializeToString
                  (with_server_seq seq (AssembleXformBroadcast s now (GetString p) xf)) with
          | (payload, true) => [payload]
          | (_, false) => []
          end
      end
  end.

Definition snapshot_frames (s : Session) (now : Z) (st : Stage) (seq : Z) : list Payload :=
  match GetSessionLayer st with
  | None => []
  | Some layer =>
      let paths := snapshot_paths st layer in
      (snd <$> stable_sort fst (paths ≫= snapshot_create s st layer seq)) ++
      (paths ≫= snapshot_transform s now st layer seq) ++
      ((fun path => SerializeSetPrimActiveBroadcast s path false seq) <$>
         snapshot_deleted st layer paths)
  end.

Definition snapshot_complete_message (s : Session) (seq : Z) : BaseMessage :=
  mkBaseMessage (Some (id s)) SnapshotComplete 0 seq.

Definition snapshot_done (s : Session) (seq : Z) : list Payload :=
  match SerializeToString (snapshot_complete_message s seq) with
  | (payload, true) => [payload]
  | (_, false) => []
  end.

Definition HandleJoin (connection_id : ConnectionId) : M World unit :=
  s ← session (fun s => s);
  now ← gets clock;
  match stage s with
  | None => mret tt
  | Some st =>
      let seq := server_seq s in
      let frames := snapshot_frames s now st seq ++ snapshot_done s seq in
      match clients s !! connection_id with
      | None => mret tt
      | Some conn =>
          _ ← for_each frames (send_binary conn);
          on_versions (RecordSent connection_id seq)
      end
  end.

(** ** Reload, commit, flush, correction *)

Definition ReloadRootLayer : M World unit :=
  st ← session stage;
  d ← gets disk;
  match st with
  | None => mret tt
  | Some st =>
      match GetRootLayer st with
      | None => mret tt
      | Some _ =>
          _ ← update (set_reload_in_progress true);
          _ ← update (set_current_origin 0);
          _ ← try_std (author (Usd.ReloadRootLayer d)) (fun _ => mret false);
          update (set_reload_in_progress false)
      end
  end.

(** [session_layer->Save()]. *)
Definition save_session_layer : M World bool := fun w =>
  match stage (ses w) with
  | None => (w, inr OtherException)
  | Some st =>
      let '(st', d', r) := SaveSessionLayer st (disk w) in
      (set_disk d' (with_session (set_stage (Some st')) w), r)
  end.

(** [StageCommitter::Commit] and its [out_error]. *)
Definition commit_stage (st : Stage) (path : string) : M World (option string) := fun w =>
  match StageCommitter.Commit (Some st) path (disk w) with
  | (d', inl _) => (set_disk d' w, inl None)
  | (d', inr (StdException e)) => (set_disk d' w, inl (Some e))
  | (d', inr OtherException) => (set_disk d' w, inr OtherException)
  end.

Definition CommitOverrides (reload_root : bool) : M World CommitResult :=
  s ← session (fun s => s);
  match stage s with
  | None => mret (mkCommitResult UnknownSession "unknown session")
  | Some st =>
      if (match GetSessionLayer st with
          | None => true
          | Some layer => LayerIsEmpty st layer
          end)
      then mret (mkCommitResult NothingToCommit "no authored overrides to commit")
      else
        _ ← save_session_layer;
        st' ← on_stage (fun st => st);
        err ← commit_stage st' (usd_file_absolute s);
        match err with
        | Some e => mret (mkCommitResult WriteFailed e)
        | None =>
            _ ← update (set_dirty false);
            _ ← when reload_root ReloadRootLayer;
            mret (mkCommitResult CommitOk "")
        end
  end.

(** Queue a reload on every other live session of the file. *)
Definition reload_other_sessions : M World unit := modify (fun w =>
  set_peers (fst (SubmitReloadSessionsCommand (usd_file (ses w)) (Some (self w)) (m_sessions_ w)
                    (peers w))) w).

Definition HandleCommit (promise : Z) : M World unit :=
  result ← CommitOverrides true;
  _ ← when (bool_decide (commit_status result = CommitOk)) reload_other_sessions;
  modify (fun w => set_results (results w ++ [(promise, result)]) w).

Definition HandleFlush : M World unit :=
  s ← session (fun s => s);
  match stage s with
  | None => mret tt
  | Some st =>
      _ ← update (set_dirty false);
      if negb (dirty s) then mret tt
      else
        try_std
          (match GetSessionLayer st with
           | None => mret tt
           | Some _ =>
               saved ← save_session_layer;
               when (negb saved) (update (set_dirty true))
           end)
          (fun _ => update (set_dirty true))
  end.

Definition HandleCorrection (connection_id : ConnectionId) (request : option location) : M World unit :=
  match request with
  | None => mret tt
  | Some l =>
      ps ← gets pendings;
      match ps !! l with
      | None => mret tt
      | Some p =>
          _ ← modify (set_pendings (<[l := mkPending (pending_prim_path p) false]> ps));
          SendCorrection connection_id (pending_prim_path p)
      end
  end.

Definition HandleCommand (c : SessionCommand) : M World unit :=
  match c with
  | TransformCommand u origin rid base => HandleTransform u origin rid base
  | JoinCommand c => HandleJoin c
  | CreatePrimCommand p t origin rid => HandleCreatePrim p t origin rid
  | SetPrimActiveCommand p a origin rid => HandleSetPrimActive p a origin rid
  | CommitCommand promise => HandleCommit promise
  | ReloadCommand => ReloadRootLayer
  | FlushCommand => HandleFlush
  | CorrectionCommand c r => HandleCorrection c r
  end.

Definition ProcessCommand (c : SessionCommand) : M World unit :=
  try_all (HandleCommand c) (fun _ => mret tt).
End handlers.
End Handlers.
