(* ===== verification/Progress.v ===== *)
(** * What every command does to a session's stream of frames

    [progress Q w w']: between [w] and [w'] the session's identity, clients and
    clock are unchanged; frames were only appended to the outbox, each to an
    attached connection and satisfying [Q]; their versions climb from the
    session's counter before to the counter after; and the version
    bookkeeping of every connection is the highest version sent to it. It is a
    preorder that every helper and every handler respects, thrown exceptions
    included. [moves Q b w w'] says besides that at most [b] versions were
    counted on the way; what a program counts is the sum of what its parts do
    ([costs]), which [Budget.v] adds up for every command. *)
From S2P Require Import Prelude Filesystem Proto Usd Versions Session Broadcast Listener SendFacts.
From S2P Require Import Dispatch Committer Handlers.

Module Progress.
Import Session Broadcast Listener SendFacts Handlers.

(** ** Versions along a list *)

(** [stamps b n l n']: a counter that starts at [n] and is incremented at most
    [b] times takes the values of [l] in order and ends at [n']. *)
Definition stamps (b : nat) (n : Z) (l : list Z) (n' : Z) : Prop :=
  exists js k, (k <= b)%nat /\ l = (fun j => advance j n) <$> js /\ climbs 0 js k /\ n' = advance k n.

Lemma stamps_now n l : Forall (fun x => x = n) l -> stamps 0 n l n.
Proof.
  intros Hl. exists (replicate (length l) 0%nat), 0%nat. split_and!; [done| |by apply climbs_all|done].
  induction Hl as [|x l -> Hl IH]; [done|]. cbn. by f_equal.
Qed.

Lemma stamps_bump n : stamps 1 n [] (u64 (n + 1)).
Proof. exists [], 1%nat. split_and!; [done|done|simpl; lia|done]. Qed.

Lemma stamps_weaken b b' n l n' : (b <= b')%nat -> stamps b n l n' -> stamps b' n l n'.
Proof. intros Hb (js & k & Hk & ?). exists js, k. split; [lia|done]. Qed.

Lemma stamps_app b1 b2 n l1 n1 l2 n2 :
  stamps b1 n l1 n1 -> stamps b2 n1 l2 n2 -> stamps (b1 + b2) n (l1 ++ l2) n2.
Proof.
  intros (js1 & k1 & Hk1 & -> & Hc1 & ->) (js2 & k2 & Hk2 & -> & Hc2 & ->).
  exists (js1 ++ ((fun j => (k1 + j)%nat) <$> js2)), (k1 + k2)%nat. split_and!; [lia|..].
  - rewrite fmap_app. f_equal. rewrite <- list_fmap_compose.
    apply list_fmap_ext. intros ? j _. by rewrite <- advance_add.
  - eapply climbs_app; [done|]. rewrite <- (Nat.add_0_r k1) at 1. by apply climbs_shift.
  - by rewrite <- advance_add.
Qed.

(** A counter too small to wrap around within [b] increments never goes down. *)
Lemma stamps_sorted b n l n' :
  stamps b n l n' -> 0 <= n -> n + Z.of_nat b < 2 ^ 64 ->
  n' <= n + Z.of_nat b /\ Sorted Z.le (n :: l ++ [n']).
Proof.
  intros (js & k & Hkb & -> & Hc & ->) Hn Hb.
  rewrite (advance_small k n) by lia. split; [lia|].
  assert (Hs : forall lo, climbs lo js k ->
    Sorted Z.le (n + Z.of_nat lo :: ((fun j => advance j n) <$> js) ++ [n + Z.of_nat k])).
  { clear Hc. induction js as [|j js IH]; intros lo Hc; cbn in *.
    - repeat constructor. lia.
    - destruct Hc as [Hlo Hc]. pose proof (climbs_le _ _ _ Hc).
      rewrite (advance_small j n) by lia. constructor; [by apply IH|]. constructor. lia. }
  specialize (Hs 0%nat Hc). by rewrite Z.add_0_r in Hs.
Qed.

(** ** The relation *)

Definition frame_seq (f : Frame) : Z := msg_server_seq (message_of (payload f)).
Definition frame_body (f : Frame) : message := msg_body (message_of (payload f)).

(** The versions of the frames to one connection. *)
Definition seqs_to (c : connection) (fs : list Frame) : list Z :=
  frame_seq <$> filter (fun f => to_connection f = c) fs.

Lemma seqs_to_app c fs1 fs2 : seqs_to c (fs1 ++ fs2) = seqs_to c fs1 ++ seqs_to c fs2.
Proof. unfold seqs_to. by rewrite filter_app, fmap_app. Qed.

(** [c] is the handle of connection [i] only. *)
Definition sole (cs : gmap ConnectionId connection) (i : ConnectionId) (c : connection) : Prop :=
  cs !! i = Some c /\ forall j, cs !! j = Some c -> j = i.

Definition is_transform (f : Frame) : Prop := exists u, frame_body f = XformBroadcast "" u.
Definition any_frame (f : Frame) : Prop := True.

Definition is_ack (f : Frame) : bool :=
  match frame_body f with AckMessage _ => true | _ => false end.

Definition not_ack (f : Frame) : Prop := is_ack f = false.

Lemma transform_not_ack f : is_transform f -> not_ack f.
Proof. unfold not_ack, is_ack. by intros [u ->]. Qed.

Section progress.
Context `{Usd} `{Wire}.

Definition identity (s : Session) :=
  (id s, usd_file s, usd_file_absolute s, mode s, commands s, clients s, empty_since s, listener s,
   sidecar_path s, auto_commit s).

Definition fixed (w : World) := (identity (ses w), self w, clock w, m_sessions_ w).

Definition tracks (cs : gmap ConnectionId connection) (v v' : SessionVersions) (fs : list Frame) :
    Prop :=
  forall i c, sole cs i c -> max_sent v' i = foldl Z.max (max_sent v i) (seqs_to c fs).

Definition delivered (Q : Frame -> Prop) (w : World) (fs : list Frame) : Prop :=
  Forall (fun f => (exists i, clients (ses w) !! i = Some (to_connection f)) /\ Q f) fs.

(** [moves Q b w w']: at most [b] versions were counted on the way. *)
Definition moves (Q : Frame -> Prop) (b : nat) (w w' : World) : Prop :=
  fixed w' = fixed w /\
  exists fs, outbox w' = outbox w ++ fs /\
    stamps b (server_seq (ses w)) (frame_seq <$> fs) (server_seq (ses w')) /\
    delivered Q w fs /\
    tracks (clients (ses w)) (versions (ses w)) (versions (ses w')) fs.

Definition progress (Q : Frame -> Prop) (w w' : World) : Prop := exists b, moves Q b w w'.

Lemma fixed_clients w w' : fixed w' = fixed w -> clients (ses w') = clients (ses w).
Proof. intros Hf. by injection Hf. Qed.

Lemma moves_refl Q b w : moves Q b w w.
Proof.
  split; [done|]. exists []. rewrite app_nil_r. split_and!; try done.
  - apply (stamps_weaken 0); [lia|]. by apply stamps_now.
  - constructor.
Qed.

Lemma moves_weaken Q b b' w w' : (b <= b')%nat -> moves Q b w w' -> moves Q b' w w'.
Proof.
  intros Hb (Hf & fs & Ho & Hs & Hr). split; [done|]. exists fs. split_and!; [done| |apply Hr..].
  by eapply stamps_weaken.
Qed.

Lemma moves_trans Q b1 b2 w1 w2 w3 :
  moves Q b1 w1 w2 -> moves Q b2 w2 w3 -> moves Q (b1 + b2) w1 w3.
Proof.
  intros (Hf1 & fs1 & Ho1 & Hs1 & Hd1 & Ht1) (Hf2 & fs2 & Ho2 & Hs2 & Hd2 & Ht2).
  split; [congruence|]. pose proof (fixed_clients _ _ Hf1) as Hc.
  exists (fs1 ++ fs2). split_and!.
  - by rewrite Ho2, Ho1, app_assoc.
  - rewrite fmap_app. by eapply stamps_app.
  - apply Forall_app. unfold delivered in Hd2. by rewrite Hc in Hd2.
  - intros i c Hi. rewrite seqs_to_app, foldl_app, <- (Ht1 i c Hi).
    rewrite Hc in Ht2. by apply Ht2.
Qed.

Lemma progress_fixed Q w w' : progress Q w w' -> fixed w' = fixed w.
Proof. by intros [b []]. Qed.

(** What counts no version is a preorder, and so is what counts any number. *)
#[export] Instance moves_preorder Q : PreOrder (moves Q 0).
Proof. split; [intros w; apply moves_refl|intros w1 w2 w3; apply (moves_trans Q 0 0)]. Qed.

#[export] Instance progress_preorder Q : PreOrder (progress Q).
Proof.
  split.
  - intros w. exists 0%nat. apply moves_refl.
  - intros w1 w2 w3 [b1 H1] [b2 H2]. exists (b1 + b2)%nat. by eapply moves_trans.
Qed.

Lemma moves_impl (Q Q' : Frame -> Prop) b w w' :
  (forall f, Q f -> Q' f) -> moves Q b w w' -> moves Q' b w w'.
Proof.
  intros HQ (Hf & fs & Ho & Hs & Hd & Ht). split; [done|]. exists fs. split_and!; try done.
  eapply Forall_impl; [exact Hd|]. intros f []. auto.
Qed.

Lemma progress_weaken (Q Q' : Frame -> Prop) w w' :
  (forall f, Q f -> Q' f) -> progress Q w w' -> progress Q' w w'.
Proof. intros HQ [b Hb]. exists b. by eapply moves_impl. Qed.

(** A change that sends nothing and does not count. *)
Lemma moves_silent Q w w' :
  fixed w' = fixed w -> outbox w' = outbox w -> server_seq (ses w') = server_seq (ses w) ->
  (forall i, max_sent (versions (ses w')) i = max_sent (versions (ses w)) i) -> moves Q 0 w w'.
Proof.
  intros Hf Ho Hs Hm. split; [done|]. exists []. rewrite app_nil_r, Hs. split_and!; [done| | |].
  - by apply stamps_now.
  - constructor.
  - intros i c _. by rewrite Hm.
Qed.

Lemma moves_bumped Q w : moves Q 1 w (bumped w).
Proof.
  split; [done|]. exists []. rewrite app_nil_r. split_and!; [done|apply stamps_bump|constructor|done].
Qed.

Lemma progress_bumped Q w : progress Q w (bumped w).
Proof. eexists. apply moves_bumped. Qed.

Lemma moves_sent Q fs f w :
  Forall (fun f => frame_seq f = server_seq (ses w)) fs -> delivered Q w fs ->
  tracks (clients (ses w)) (versions (ses w)) (f (versions (ses w))) fs ->
  moves Q 0 w (sent fs f w).
Proof.
  intros Hs Hd Ht. split; [done|]. exists fs. split_and!; try done.
  apply stamps_now. by apply Forall_fmap.
Qed.

(** ** Recorded versions *)

Lemma max_sent_RecordSent j seq v i :
  max_sent (RecordSent j seq v) i = if j =? i then Z.max (max_sent v i) seq else max_sent v i.
Proof.
  unfold max_sent, RecordSent. destruct (Z.eqb_spec j i) as [->|]; simpl; by simplify_map_eq.
Qed.

Lemma max_sent_RecordCorrection j p seq v i :
  max_sent (RecordCorrection j p seq v) i =
  if j =? i then Z.max (max_sent v i) seq else max_sent v i.
Proof.
  unfold max_sent, RecordCorrection. destruct (Z.eqb_spec j i) as [->|]; simpl; by simplify_map_eq.
Qed.

(** Sending one payload to a list of connections. *)
Lemma tracks_record_all cs (l : list (ConnectionId * connection)) p seq v :
  (forall x, x ∈ l -> cs !! x.1 = Some x.2) -> msg_server_seq (message_of p) = seq ->
  tracks cs v (record_all l seq v) (frames_to l p).
Proof.
  intros Hl Hp i c [Hi Hsole]. revert v. induction l as [|[j d] l IH]; intros v; [done|].
  change (record_all ((j, d) :: l) seq v) with (record_all l seq (RecordSent j seq v)).
  rewrite IH by (intros; apply Hl; by right). cbn [frames_to fmap list_fmap fst snd].
  assert (Hj : cs !! j = Some d) by (apply (Hl (j, d)); by left).
  rewrite max_sent_RecordSent. unfold seqs_to. rewrite filter_cons. cbn [to_connection].
  destruct (Z.eqb_spec j i) as [->|Hne].
  - rewrite decide_True by congruence. cbn. unfold frame_seq. cbn. by rewrite Hp.
  - rewrite decide_False; [done|]. intros ->. by apply Hne, Hsole.
Qed.

Lemma tracks_one cs i d p seq v v' :
  cs !! i = Some d -> msg_server_seq (message_of p) = seq ->
  (forall j, max_sent v' j = if i =? j then Z.max (max_sent v j) seq else max_sent v j) ->
  tracks cs v v' [mkFrame d p].
Proof.
  intros Hi Hp Hv j c [Hj Hsole]. rewrite Hv. unfold seqs_to. rewrite filter_cons. cbn [to_connection].
  destruct (Z.eqb_spec i j) as [->|Hne].
  - rewrite decide_True by congruence. cbn. unfold frame_seq. cbn. by rewrite Hp.
  - rewrite decide_False; [done|]. intros ->. by apply Hne, Hsole.
Qed.

(** Several payloads of one version to the same connection. *)
Lemma tracks_all cs i c ps seq v :
  cs !! i = Some c -> ps <> [] -> Forall (fun p => msg_server_seq (message_of p) = seq) ps ->
  tracks cs v (RecordSent i seq v) (mkFrame c <$> ps).
Proof.
  intros Hi Hne Hps j d [Hj Hsole]. rewrite max_sent_RecordSent.
  destruct (Z.eqb_spec i j) as [->|Hij].
  - assert (d = c) as -> by congruence.
    assert (Hmax : forall m, seq <= m -> foldl Z.max m (seqs_to c (mkFrame c <$> ps)) = m).
    { clear Hne. induction Hps as [|p ps Hp Hps IH]; intros m Hm; [done|].
      cbn. rewrite decide_True by done. cbn. unfold frame_seq at 1. cbn. rewrite Hp, Z.max_l by done.
      by apply IH. }
    destruct Hps as [|p ps Hp Hps]; [done|]. cbn in Hmax |- *. rewrite decide_True in Hmax |- * by done.
    cbn in Hmax |- *. unfold frame_seq at 1. cbn. rewrite Hp.
    specialize (Hmax (Z.max (max_sent v j) seq)). unfold frame_seq at 1 in Hmax. cbn in Hmax.
    rewrite Hp, <- Z.max_assoc, Z.max_id in Hmax. symmetry. apply Hmax. lia.
  - assert (d <> c) as Hd by (intros ->; apply Hij; by apply Hsole).
    replace (seqs_to d (mkFrame c <$> ps)) with (@nil Z); [done|].
    clear -Hd. induction ps as [|p ps IH]; [done|]. cbn. by rewrite decide_False by done.
Qed.

Lemma targets_attached skip cs x : x ∈ targets skip cs -> cs !! x.1 = Some x.2.
Proof.
  intros Hx. apply list_elem_of_filter in Hx as [_ Hx]. destruct x. by apply elem_of_map_to_list in Hx.
Qed.

Lemma frames_to_attached (Q : Frame -> Prop) l p w :
  (forall x, x ∈ l -> clients (ses w) !! x.1 = Some x.2) ->
  (forall x, x ∈ l -> Q (mkFrame x.2 p)) -> delivered Q w (frames_to l p).
Proof.
  intros Hl HQ. apply Forall_fmap, Forall_forall. intros x Hx. split; [|by apply HQ].
  exists x.1. by apply Hl.
Qed.

Lemma frames_to_seq l p seq :
  msg_server_seq (message_of p) = seq -> Forall (fun f => frame_seq f = seq) (frames_to l p).
Proof. intros Hp. apply Forall_fmap, Forall_forall. by intros x Hx. Qed.

(** Every target gets the payload. *)
Lemma moves_frames_to Q skip p w :
  msg_server_seq (message_of p) = server_seq (ses w) ->
  (forall c, Q (mkFrame c p)) ->
  moves Q 0 w
    (sent (frames_to (targets skip (clients (ses w))) p)
       (record_all (targets skip (clients (ses w))) (server_seq (ses w))) w).
Proof.
  intros Hp HQ. apply moves_sent; [by apply frames_to_seq| |].
  - apply frames_to_attached; [apply targets_attached|auto].
  - apply tracks_record_all; [apply targets_attached|done].
Qed.

Lemma BuildBroadcastMessage_body s now prim msg :
  BuildBroadcastMessage s now prim = Some msg -> exists u, msg_body msg = XformBroadcast "" u.
Proof.
  unfold BuildBroadcastMessage. destruct (ReadResolvedTransform _ _); [|done].
  intros [= <-]. cbn. eauto.
Qed.

Lemma BuildBroadcastPayload_body s now prim seq p :
  BuildBroadcastPayload s now prim seq = Some p ->
  msg_server_seq (message_of p) = seq /\ forall c, is_transform (mkFrame c p).
Proof.
  unfold BuildBroadcastPayload, BuildBroadcastMessage.
  destruct (ReadResolvedTransform _ _); [|done]. unfold SerializeToString.
  destruct (encode _) as [b []]; cbn; intros [= <-]. split; [done|]. intros c.
  unfold is_transform, frame_body. cbn. eauto.
Qed.

(** ** Helpers that run at one version

    [at_seq n]: the session's counter is [n]. A helper that sends frames of
    version [n] keeps it there. *)
Definition at_seq (n : Z) (w : World) : Prop := server_seq (ses w) = n.

Lemma at_seq_sent n fs f w : at_seq n w -> at_seq n (sent fs f w).
Proof. done. Qed.

Definition steady {A} (Q : Frame -> Prop) (n : Z) (m : M World A) : Prop :=
  preserves_in (at_seq n) (moves Q 0) m.

Lemma steady_bind {A B} Q n (m : M World A) (f : A -> M World B) :
  steady Q n m -> (forall a, steady Q n (f a)) -> steady Q n (m ≫= f).
Proof.
  intros Hm Hf w Hw. unfold mbind, M_bind. destruct (Hm w Hw) as [Hp Hr].
  destruct (m w) as [w' [a|e]]; [|done]. cbn in *. destruct (Hf a w' Hp). split; [done|]. by etrans.
Qed.

Lemma steady_ret {A} Q n (a : A) : steady Q n (mret a).
Proof. intros w Hw. split; [done|]. reflexivity. Qed.

Lemma steady_session {A} Q n (f : Session -> A) : steady Q n (session f).
Proof. intros w Hw. split; [done|]. reflexivity. Qed.

Lemma steady_update Q n f :
  (forall s, identity (f s) = identity s /\ server_seq (f s) = server_seq s /\
     forall i, max_sent (versions (f s)) i = max_sent (versions s) i) -> steady Q n (update f).
Proof.
  intros Hf w Hw. destruct (Hf (ses w)) as (Hi & Hs & Hm).
  split; [unfold at_seq; cbn; by rewrite Hs|]. apply moves_silent; [|done..].
  unfold fixed. cbn. by rewrite Hi.
Qed.

Lemma steady_for_each {A} Q n (l : list A) body :
  (forall x, steady Q n (body x)) -> steady Q n (for_each l body).
Proof. apply preserves_in_for_each, _. Qed.

Lemma steady_records Q n p writer : steady Q n (on_versions (RecordChange p n writer)).
Proof. by apply steady_update. Qed.

Lemma steady_send_to_clients Q n skip p :
  msg_server_seq (message_of p) = n -> (forall c, Q (mkFrame c p)) ->
  steady Q n (send_to_clients skip p n).
Proof.
  intros Hp HQ w Hw. rewrite send_to_clients_eq. cbn [fst]. split; [done|].
  unfold at_seq in Hw. rewrite <- Hw in Hp |- *. by apply moves_frames_to.
Qed.

Lemma steady_BroadcastResolvedTransform Q p origin n :
  (forall f, is_transform f -> Q f) -> steady Q n (BroadcastResolvedTransform p origin n).
Proof.
  intros HQ w Hw. unfold BroadcastResolvedTransform. erewrite !bind_ok by reflexivity.
  destruct (stage (ses w)); [|by apply steady_ret].
  destruct (BuildBroadcastPayload _ _ _ _) as [pl|] eqn:Hp; [|by apply steady_ret].
  apply BuildBroadcastPayload_body in Hp as [Hp Ht]. apply steady_send_to_clients; auto.
Qed.

Lemma steady_BroadcastToAll Q n p :
  msg_server_seq (message_of p) = n -> (forall c, Q (mkFrame c p)) -> steady Q n (BroadcastToAll p n).
Proof.
  intros Hp HQ. unfold BroadcastToAll. destruct (payload_empty p); [apply steady_ret|].
  by apply steady_send_to_clients.
Qed.

Lemma moves_SendAck (Q : Frame -> Prop) i rid ok err w :
  (forall f, frame_body f = AckMessage (mkAck ok (if ok then ""%string else err)) -> Q f) ->
  moves Q 0 w (fst (SendAck i rid ok err w)).
Proof.
  intros HQ. rewrite SendAck_eq. cbn [fst]. destruct (clients (ses w) !! i) as [c|] eqn:Hc; [|done].
  cbv zeta. destruct ((i =? 0) || _); [done|].
  apply moves_sent.
  - by constructor.
  - constructor; [|constructor]. split; [eauto|]. by apply HQ.
  - eapply tracks_one; [done|done|]. apply max_sent_RecordSent.
Qed.

Lemma progress_SendAck (Q : Frame -> Prop) i rid ok err w :
  (forall f, frame_body f = AckMessage (mkAck ok (if ok then ""%string else err)) -> Q f) ->
  progress Q w (fst (SendAck i rid ok err w)).
Proof. intros HQ. exists 0%nat. by apply moves_SendAck. Qed.

Lemma steady_SendAck (Q : Frame -> Prop) n i rid ok err :
  (forall f, frame_body f = AckMessage (mkAck ok (if ok then ""%string else err)) -> Q f) ->
  steady Q n (SendAck i rid ok err).
Proof.
  intros HQ w Hw. split; [|by apply moves_SendAck]. rewrite SendAck_eq. cbn [fst].
  destruct (clients (ses w) !! i); [|done]. cbv zeta. by destruct ((i =? 0) || _).
Qed.

(** ** What a program costs

    [costs Q b m]: [m] makes progress and counts at most [b] versions. The
    costs of the parts of a program add up. *)
Definition costs {A} (Q : Frame -> Prop) (b : nat) (m : M World A) : Prop := preserves (moves Q b) m.

Lemma costs_progress {A} Q b (m : M World A) : costs Q b m -> preserves (progress Q) m.
Proof. intros Hm w. exists b. apply Hm. Qed.

Lemma costs_weaken {A} Q b b' (m : M World A) : (b <= b')%nat -> costs Q b m -> costs Q b' m.
Proof. intros Hb Hm w. by eapply moves_weaken, Hm. Qed.

Lemma costs_ret {A} Q b (a : A) : costs Q b (mret a).
Proof. intros w. apply moves_refl. Qed.

Lemma costs_throw {A} Q b e : costs Q b (throw e : M World A).
Proof. intros w. apply moves_refl. Qed.

Lemma costs_session {A} Q b (f : Session -> A) : costs Q b (session f).
Proof. intros w. apply moves_refl. Qed.

Lemma costs_bind {A B} Q b1 b2 (m : M World A) (f : A -> M World B) :
  costs Q b1 m -> (forall a, costs Q b2 (f a)) -> costs Q (b1 + b2) (m ≫= f).
Proof.
  intros Hm Hf w. unfold mbind, M_bind. specialize (Hm w). destruct (m w) as [w' [a|e]].
  - eapply moves_trans; [exact Hm|]. apply Hf.
  - eapply moves_weaken; [|exact Hm]. lia.
Qed.

(** The cost is in the rest, or in the first part. *)
Lemma costs_bind_rest {A B} Q b (m : M World A) (f : A -> M World B) :
  costs Q 0 m -> (forall a, costs Q b (f a)) -> costs Q b (m ≫= f).
Proof. apply (costs_bind Q 0 b). Qed.

Lemma costs_bind_first {A B} Q b (m : M World A) (f : A -> M World B) :
  costs Q b m -> (forall a, costs Q 0 (f a)) -> costs Q b (m ≫= f).
Proof. intros Hm Hf. rewrite <- (Nat.add_0_r b). by apply costs_bind. Qed.

Lemma costs_try_std {A} Q b (m : M World A) h :
  costs Q b m -> (forall w, costs Q 0 (h w)) -> costs Q b (try_std m h).
Proof.
  intros Hm Hh w. unfold try_std. specialize (Hm w). destruct (m w) as [w' [a|[e|]]]; try done.
  rewrite <- (Nat.add_0_r b). eapply moves_trans; [exact Hm|]. apply Hh.
Qed.

Lemma costs_try_all {A} Q b (m : M World A) h :
  costs Q b m -> (forall e, costs Q 0 (h e)) -> costs Q b (try_all m h).
Proof.
  intros Hm Hh w. unfold try_all. specialize (Hm w). destruct (m w) as [w' [a|e]]; [done|].
  rewrite <- (Nat.add_0_r b). eapply moves_trans; [exact Hm|]. apply Hh.
Qed.

Lemma costs_update Q b f :
  (forall s, identity (f s) = identity s /\ server_seq (f s) = server_seq s /\
     forall i, max_sent (versions (f s)) i = max_sent (versions s) i) ->
  costs Q b (update f).
Proof.
  intros Hf w. apply (moves_weaken Q 0); [lia|].
  by apply (steady_update Q (server_seq (ses w)) f Hf w).
Qed.

(** A new version, then what is sent under it. *)
Lemma costs_next_seq {A} Q (f : Z -> M World A) :
  (forall n, steady Q n (f n)) -> costs Q 1 (next_seq ≫= f).
Proof.
  intros Hf w. erewrite bind_ok by apply next_seq_eq.
  eapply (moves_trans Q 1 0); [apply moves_bumped|]. by apply (Hf _ (bumped w)).
Qed.

(** ** The listener and authoring *)

Lemma preserves_update Q f :
  (forall s, identity (f s) = identity s /\ server_seq (f s) = server_seq s /\
     forall i, max_sent (versions (f s)) i = max_sent (versions s) i) ->
  preserves (progress Q) (update f).
Proof. intros Hf. by apply (costs_progress Q 0), costs_update. Qed.

Lemma preserves_session {A} Q (f : Session -> A) : preserves (progress Q) (session f).
Proof. intros w. reflexivity. Qed.

Section listener.
Context (Q : Frame -> Prop) (HQ : forall f, is_transform f -> Q f).

Lemma steady_change_prim n writer p : steady Q n (change_prim writer n p).
Proof.
  apply steady_bind; [apply steady_records|]. intros _. by apply steady_BroadcastResolvedTransform.
Qed.

Lemma steady_reload_prim n p : steady Q n (reload_prim n p).
Proof.
  apply steady_bind; [apply steady_session|]. intros s.
  destruct (has_override s p); [apply steady_ret|apply steady_change_prim].
Qed.

Lemma costs_OnObjectsChanged n : costs Q 1 (OnObjectsChanged n).
Proof.
  apply costs_bind_rest; [apply costs_session|]. intros s. cbv zeta.
  destruct (create_in_progress s), (set_active_in_progress s), (reload_in_progress s);
    try apply costs_ret.
  - destruct (reload_prims n); [apply costs_ret|]. apply costs_next_seq.
    intros seq. apply steady_for_each, steady_reload_prim.
  - destruct (affected_prims n); [apply costs_ret|]. apply costs_next_seq.
    intros seq. apply steady_for_each, steady_change_prim.
Qed.

(** At most one version a notice. *)
Lemma costs_deliver l : costs Q (length l) (deliver l).
Proof.
  unfold deliver. induction l as [|[st n] l IH]; [apply costs_ret|]. cbn [for_each length].
  apply (costs_bind Q 1); [|intros _; apply IH].
  apply costs_bind_rest; [by apply costs_update|]. intros _.
  apply costs_bind_rest; [apply costs_session|]. intros [[]|].
  - apply costs_OnObjectsChanged.
  - apply costs_ret.
  - apply costs_ret.
Qed.

Lemma preserves_deliver l : preserves (progress Q) (deliver l).
Proof. eapply costs_progress, costs_deliver. Qed.

Lemma preserves_author {A} (op : M Stage A) : preserves (progress Q) (author op).
Proof.
  apply preserves_bind; [apply _|apply preserves_session|]. intros [st|]; [|apply preserves_throw, _].
  destruct (op st) as [st1 r], (close_change_block st1) as [l st2].
  apply preserves_bind; [apply _|apply preserves_deliver|]. intros _.
  apply preserves_bind; [apply _|by apply preserves_update|]. intros _.
  destruct r; [apply preserves_ret, _|apply preserves_throw, _].
Qed.

Lemma preserves_on_stage {A} (f : Stage -> A) : preserves (progress Q) (on_stage f).
Proof. unfold on_stage. preserves_tac; apply _ || apply preserves_session. Qed.

(** ** The dispatchers *)

Lemma preserves_Apply upd : preserves (progress Q) (TransformDispatcher.Apply upd).
Proof.
  unfold TransformDispatcher.Apply. cbv zeta.
  preserves_tac; apply _ || apply preserves_session || apply preserves_author.
Qed.

Lemma preserves_Create parent type : preserves (progress Q) (PrimDispatcher.Create parent type).
Proof.
  unfold PrimDispatcher.Create, PrimDispatcher.AuthorPrim. cbv zeta.
  preserves_tac; apply _ || apply preserves_session || apply preserves_author || apply preserves_on_stage.
Qed.

Lemma preserves_SetActive prim_path active :
  preserves (progress Q) (PrimDispatcher.SetActive prim_path active).
Proof.
  unfold PrimDispatcher.SetActive. cbv zeta.
  preserves_tac; apply _ || apply preserves_session || apply preserves_author.
Qed.

Lemma preserves_apply_update upd origin : preserves (progress Q) (apply_update upd origin).
Proof.
  unfold apply_update.
  preserves_tac; apply _ || apply preserves_Apply || by apply preserves_update.
Qed.

Lemma preserves_create_prim parent type origin :
  preserves (progress Q) (create_prim parent type origin).
Proof.
  unfold create_prim. preserves_tac; apply _ || apply preserves_Create || by apply preserves_update.
Qed.

Lemma preserves_set_prim_active path active origin :
  preserves (progress Q) (set_prim_active path active origin).
Proof.
  unfold set_prim_active.
  preserves_tac; apply _ || apply preserves_SetActive || by apply preserves_update.
Qed.
End listener.

(** ** Corrections *)

Lemma moves_correction_frame Q conn i p pl w :
  clients (ses w) !! i = Some conn ->
  msg_server_seq (message_of pl) = u64 (server_seq (ses w) + 1) -> Q (mkFrame conn pl) ->
  moves Q 1 w
    (sent [mkFrame conn pl] (RecordCorrection i p (u64 (server_seq (ses w) + 1))) (bumped w)).
Proof.
  intros Hc Hp HQ. eapply (moves_trans Q 1 0); [apply moves_bumped|]. apply moves_sent.
  - by constructor.
  - constructor; [|constructor]. split; [eauto|done].
  - eapply tracks_one; [done|done|]. apply max_sent_RecordCorrection.
Qed.

Lemma costs_SendCorrection i p : costs not_ack 1 (SendCorrection i p).
Proof.
  intros w. unfold SendCorrection. erewrite !bind_ok by reflexivity. cbv zeta.
  destruct (stage (ses w)) as [st|]; [|apply moves_refl].
  destruct (i =? 0); [apply moves_refl|].
  match goal with |- context [if ?b then match clients _ !! _ with _ => _ end else _] =>
    destruct b end.
  - destruct (clients (ses w) !! i) as [conn|] eqn:Hc; [|apply moves_refl].
    rewrite send_deactivation_eq. by apply moves_correction_frame.
  - destruct (BuildBroadcastMessage _ _ _) as [msg|] eqn:Hm; [|apply moves_refl].
    destruct (clients (ses w) !! i) as [conn|] eqn:Hc; [|apply moves_refl].
    rewrite send_transform_eq. unfold SerializeToString. destruct (encode _) as [b []].
    + apply moves_correction_frame; [done..|]. apply transform_not_ack.
      by apply BuildBroadcastMessage_body in Hm as [u Hu]; exists u.
    + apply moves_bumped.
Qed.

Lemma preserves_SendCorrection i p : preserves (progress not_ack) (SendCorrection i p).
Proof. eapply costs_progress, costs_SendCorrection. Qed.

(** ** The handlers *)

Context `{!WireOk} `{IoErrors} `{SW : ShortWrites}.

(** What a handler does apart from sending: its session keeps its identity,
    its counter and its versions. *)
Lemma costs_world Q f :
  (forall w, fixed (f w) = fixed w /\ outbox (f w) = outbox w /\
     server_seq (ses (f w)) = server_seq (ses w) /\ versions (ses (f w)) = versions (ses w)) ->
  costs Q 0 (modify f).
Proof.
  intros Hf w. destruct (Hf w) as (? & ? & ? & Hv). apply moves_silent; try done.
  intros i. cbn. by rewrite Hv.
Qed.

Lemma preserves_world Q f :
  (forall w, fixed (f w) = fixed w /\ outbox (f w) = outbox w /\
     server_seq (ses (f w)) = server_seq (ses w) /\ versions (ses (f w)) = versions (ses w)) ->
  preserves (progress Q) (modify f).
Proof. intros Hf. by eapply costs_progress, costs_world. Qed.

Lemma preserves_transform upd origin rid base :
  preserves (progress any_frame) (HandleTransform upd origin rid base).
Proof.
  unfold HandleTransform.
  preserves_tac; apply _ || apply preserves_session || by apply preserves_apply_update
    || by apply preserves_update || (intros w; by apply progress_SendAck)
    || (intros w; eapply progress_weaken; [done|]; apply preserves_SendCorrection).
Qed.

(** The announcement that ends a creation or an activation. *)
Lemma costs_announce path origin rid (payload_of : Session -> Z -> Payload) :
  (forall s n, msg_server_seq (message_of (payload_of s n)) = n) ->
  costs any_frame 1
    (seq ← next_seq;
     _ ← on_versions (RecordChange path seq origin);
     s ← session (fun s => s);
     _ ← BroadcastToAll (payload_of s seq) seq;
     SendAck origin rid true "").
Proof.
  intros Hp. apply costs_next_seq. intros n.
  apply steady_bind; [apply steady_records|]. intros _.
  apply steady_bind; [apply steady_session|]. intros s.
  apply steady_bind; [by apply steady_BroadcastToAll|]. intros _. by apply steady_SendAck.
Qed.

Lemma preserves_create parent type origin rid :
  preserves (progress any_frame) (HandleCreatePrim parent type origin rid).
Proof.
  unfold HandleCreatePrim.
  apply preserves_bind; [apply _|apply preserves_session|]. intros [st|];
    [|intros w; by apply progress_SendAck].
  apply preserves_bind; [apply _|by apply preserves_create_prim|]. intros [prim|];
    [|intros w; by apply progress_SendAck].
  apply preserves_bind; [apply _|by apply preserves_update|]. intros _.
  eapply costs_progress.
  by apply (costs_announce _ _ _ (fun s n => SerializeCreatePrimBroadcast s parent type prim n)).
Qed.

Lemma preserves_set_active path active origin rid :
  preserves (progress any_frame) (HandleSetPrimActive path active origin rid).
Proof.
  unfold HandleSetPrimActive.
  apply preserves_bind; [apply _|apply preserves_session|]. intros [st|];
    [|intros w; by apply progress_SendAck].
  apply preserves_bind; [apply _|by apply preserves_set_prim_active|].
  intros []; try (intros w; by apply progress_SendAck).
  apply preserves_bind; [apply _|by apply preserves_update|]. intros _.
  eapply costs_progress.
  by apply (costs_announce _ _ _ (fun s n => SerializeSetPrimActiveBroadcast s path active n)).
Qed.

(** The frames of a snapshot, sent one by one. *)
Lemma send_all_eq conn ps w :
  for_each ps (send_binary conn) w = (sent (mkFrame conn <$> ps) (fun v => v) w, inl tt).
Proof.
  revert w. induction ps as [|p ps IH]; intros w; cbn [for_each]; [by rewrite sent_nil|].
  assert (Hs : send_binary conn p w = (sent [mkFrame conn p] (fun v => v) w, inl tt))
    by (destruct w as [[] ? ? ? ? ? ? ? ?]; reflexivity).
  erewrite bind_ok by exact Hs. by rewrite IH, sent_sent.
Qed.

(** Every frame of a snapshot carries the version it was taken at, and none
    is an Ack. *)
Lemma snapshot_seq s now st seq :
  Forall (fun p => msg_server_seq (message_of p) = seq /\ forall c, not_ack (mkFrame c p))
    (snapshot_frames s now st seq ++ snapshot_done s seq).
Proof.
  apply Forall_app. split.
  - unfold snapshot_frames. destruct (GetSessionLayer st) as [layer|]; [|constructor].
    cbv zeta. apply Forall_app. split; [|apply Forall_app; split].
    + apply Forall_fmap, Forall_forall. intros [d p] Hp. cbn.
      rewrite stable_sort_perm in Hp. apply list_elem_of_bind in Hp as (q & Hq & _).
      unfold snapshot_create in Hq. destruct (LayerGetPrimAtPath _ _ _); [|by apply not_elem_of_nil in Hq].
      destruct (negb _); [by apply not_elem_of_nil in Hq|]. cbv zeta in Hq.
      destruct (bool_decide _); [by apply not_elem_of_nil in Hq|].
      apply list_elem_of_singleton in Hq. by simplify_eq.
    + apply Forall_forall. intros p (q & Hq & _)%list_elem_of_bind.
      unfold snapshot_transform in Hq. destruct (LayerGetPrimAtPath _ _ _); [|by apply not_elem_of_nil in Hq].
      destruct (TransformDispatcher.ReadAuthoredLocalTransform _ _); [|by apply not_elem_of_nil in Hq].
      unfold SerializeToString in Hq. destruct (encode _) as [b []]; [|by apply not_elem_of_nil in Hq].
      apply list_elem_of_singleton in Hq. by subst.
    + apply Forall_fmap, Forall_forall. by intros p _.
  - unfold snapshot_done, SerializeToString. destruct (encode _) as [b []]; by repeat constructor.
Qed.

Lemma costs_join i : costs not_ack 0 (HandleJoin i).
Proof.
  intros w. unfold HandleJoin. erewrite !bind_ok by reflexivity. cbv zeta.
  destruct (stage (ses w)) as [st|]; [|apply moves_refl].
  destruct (clients (ses w) !! i) as [conn|] eqn:Hc; [|apply moves_refl].
  erewrite bind_ok by apply send_all_eq. rewrite on_versions_eq, sent_sent. cbn [fst].
  rewrite app_nil_r. set (ps := snapshot_frames _ _ _ _ ++ _).
  pose proof (snapshot_seq (ses w) (clock w) st (server_seq (ses w))) as Hps. fold ps in Hps.
  apply Forall_and in Hps as [Hps Hna]. apply moves_sent.
  - by apply Forall_fmap.
  - apply Forall_fmap. eapply Forall_impl; [exact Hna|]. intros p Hp. split; [by eexists|apply Hp].
  - apply (tracks_all _ i); [done| |done].
    unfold ps, snapshot_done. rewrite serialize_ok by done. by destruct (snapshot_frames _ _ _ _).
Qed.

Lemma preserves_join i : preserves (progress not_ack) (HandleJoin i).
Proof. eapply costs_progress, costs_join. Qed.

Lemma preserves_reload : preserves (progress not_ack) Handlers.ReloadRootLayer.
Proof.
  unfold Handlers.ReloadRootLayer.
  preserves_tac; apply _ || apply preserves_session || (apply preserves_author, transform_not_ack)
    || by apply preserves_update.
Qed.

Lemma costs_save : costs not_ack 0 save_session_layer.
Proof.
  intros w. unfold save_session_layer. destruct (stage (ses w)) as [st|]; [|apply moves_refl].
  destruct (SaveSessionLayer _ _) as [[st' d'] r]. by apply moves_silent.
Qed.

Lemma preserves_save : preserves (progress not_ack) save_session_layer.
Proof. eapply costs_progress, costs_save. Qed.

Lemma costs_commit_stage st path : costs not_ack 0 (commit_stage st path).
Proof.
  intros w. unfold commit_stage.
  destruct (StageCommitter.Commit _ _ _) as [d' [[]|[e|]]]; by apply moves_silent.
Qed.

Lemma preserves_commit_stage st path : preserves (progress not_ack) (commit_stage st path).
Proof. eapply costs_progress, costs_commit_stage. Qed.

Lemma preserves_commit_overrides b : preserves (progress not_ack) (CommitOverrides b).
Proof.
  unfold CommitOverrides.
  preserves_tac; apply _ || apply preserves_session || apply preserves_save || apply preserves_reload
    || apply preserves_commit_stage || by apply preserves_update || apply preserves_on_stage.
Qed.

Lemma preserves_commit promise : preserves (progress not_ack) (HandleCommit promise).
Proof.
  unfold HandleCommit, reload_other_sessions.
  preserves_tac; apply _ || apply preserves_commit_overrides || by apply preserves_world.
Qed.

Lemma preserves_flush : preserves (progress not_ack) HandleFlush.
Proof.
  unfold HandleFlush.
  preserves_tac; apply _ || apply preserves_session || apply preserves_save
    || by apply preserves_update.
Qed.

Lemma preserves_correction i r : preserves (progress not_ack) (HandleCorrection i r).
Proof.
  unfold HandleCorrection.
  preserves_tac; apply _ || apply preserves_SendCorrection || by apply preserves_world.
Qed.

(** A command that asks for an Ack, and the connection it is owed to. *)
Definition request (c : SessionCommand) : option (ConnectionId * Z) :=
  match c with
  | TransformCommand _ origin rid _ | CreatePrimCommand _ _ origin rid
  | SetPrimActiveCommand _ _ origin rid => Some (origin, rid)
  | _ => None
  end.

Lemma preserves_unasked c : request c = None -> preserves (progress not_ack) (ProcessCommand c).
Proof.
  intros Hc. unfold ProcessCommand.
  apply preserves_try_all; [apply _| |intros; apply preserves_ret, _].
  destruct c; simpl; try done; auto using preserves_join, preserves_commit, preserves_reload,
    preserves_flush, preserves_correction.
Qed.

(** Every command, whether or not an exception cut it short. *)
Lemma preserves_command c : preserves (progress any_frame) (ProcessCommand c).
Proof.
  destruct (request c) eqn:Hc.
  - unfold ProcessCommand. apply preserves_try_all; [apply _| |intros; apply preserves_ret, _].
    destruct c; try done; simpl; auto using preserves_transform, preserves_create, preserves_set_active.
  - intros w. eapply progress_weaken; [done|]. by apply preserves_unasked.
Qed.

(** What happens to a session: its commands, and between them the reloads that
    other sessions make of a root layer they share. *)
Inductive event := Handled (c : SessionCommand) | SharedReload (l : list (Stage * Notice)).

Definition happens (e : event) (w : World) : World :=
  match e with
  | Handled c => fst (ProcessCommand c w)
  | SharedReload l => fst (shared_layer_reloaded l w)
  end.

Definition process (es : list event) (w : World) : World := foldl (fun w e => happens e w) w es.

Lemma progress_happens e w : progress any_frame w (happens e w).
Proof. destruct e as [c|l]; [apply preserves_command|]. by apply preserves_deliver. Qed.

Lemma progress_process es w : progress any_frame w (process es w).
Proof.
  revert w. induction es as [|e es IH]; intros w; [reflexivity|]. cbn [process foldl].
  etrans; [apply (progress_happens e)|]. apply IH.
Qed.
End progress.
End Progress.
