(* ===== verification/Budget.v ===== *)
(** * How many versions a session counts

    A session's version is a 64-bit counter. Here is how far a command can move
    it: by at most one for every notice that authoring delivers, one for the
    broadcast that ends a creation or an activation, and one for a correction.
    [budget] adds this up over everything that happens to a session. *)
From S2P Require Import Prelude Filesystem Proto Usd Versions Session Broadcast Listener SendFacts.
From S2P Require Import Dispatch Committer Handlers Progress.

Module Budget.
Import Session Broadcast Listener SendFacts Handlers Progress.

Local Open Scope nat_scope.

(** Versions one event counts, when USD delivers at most [B] notices for one
    change block. *)
Definition event_cost `{Usd} (B : nat) (e : event) : nat :=
  match e with
  | Handled (TransformCommand _ _ _ _) => B + 1
  | Handled (CreatePrimCommand _ _ _ _) => B + 1
  | Handled (SetPrimActiveCommand _ _ _ _) => B + 1
  | Handled (CommitCommand _) => B
  | Handled ReloadCommand => B
  | Handled (CorrectionCommand _ _) => 1
  | Handled (JoinCommand _) => 0
  | Handled FlushCommand => 0
  | SharedReload l => length l
  end.

Definition budget `{Usd} (B : nat) (es : list event) : nat := sum_list_with (event_cost B) es.

(** Follow a program whose cost is in one of its parts. *)
Ltac costs_step :=
  lazymatch goal with
  | |- forall _, costs _ _ _ => intro
  | |- costs _ _ (mret _) => apply costs_ret
  | |- costs _ _ (throw _) => apply costs_throw
  | |- costs _ _ (session _) => apply costs_session
  | |- costs _ _ (update _) => by apply costs_update
  | |- costs _ _ (try_std _ _) => apply costs_try_std
  | |- costs _ _ (try_all _ _) => apply costs_try_all
  | |- costs _ _ (match ?x with _ => _ end) => destruct x
  | |- costs _ _ (session _ ≫= _) => apply costs_bind_rest; [apply costs_session|]
  | |- costs _ _ (update _ ≫= _) => apply costs_bind_rest; [by apply costs_update|]
  end.

Ltac costs_tac := repeat costs_step.

Section budget.
Context `{Usd} `{Wire} `{!WireOk} `{IoErrors} `{SW : ShortWrites}.
Context (B : nat) (HB : forall st, (length (fst (close_change_block st)) <= B)%nat).

Lemma costs_impl {A} (Q Q' : Frame -> Prop) b (m : M World A) :
  (forall f, Q f -> Q' f) -> costs Q b m -> costs Q' b m.
Proof. intros HQ Hm w. by eapply moves_impl, Hm. Qed.

Lemma costs_gets {A} Q b (f : World -> A) : costs Q b (gets f).
Proof. intros w. apply moves_refl. Qed.

Lemma costs_when Q b c m : costs Q b m -> costs Q b (when c m).
Proof. intros Hm. destruct c; [done|]. apply costs_ret. Qed.

(** ** Authoring *)

Section authoring.
Context (Q : Frame -> Prop) (HQ : forall f, is_transform f -> Q f).

Lemma costs_author {A} (op : M Stage A) : costs Q B (author op).
Proof.
  apply costs_bind_rest; [apply costs_session|]. intros [st|]; [|apply costs_throw].
  destruct (op st) as [st1 r]. pose proof (HB st1) as Hl.
  destruct (close_change_block st1) as [l st2].
  apply costs_bind_first; [by eapply costs_weaken, costs_deliver|]. intros _.
  costs_tac.
Qed.

Lemma costs_Apply upd : costs Q B (TransformDispatcher.Apply upd).
Proof. unfold TransformDispatcher.Apply. cbv zeta. costs_tac; apply costs_author. Qed.

Lemma costs_Create parent type : costs Q B (PrimDispatcher.Create parent type).
Proof.
  unfold PrimDispatcher.Create, PrimDispatcher.AuthorPrim. cbv zeta. costs_tac.
  apply costs_bind_first; [costs_tac; apply costs_author|]. unfold on_stage. costs_tac.
Qed.

Lemma costs_SetActive prim_path active : costs Q B (PrimDispatcher.SetActive prim_path active).
Proof.
  unfold PrimDispatcher.SetActive. cbv zeta. costs_tac.
  apply costs_bind_first; [apply costs_author|]. costs_tac.
Qed.

Lemma costs_apply_update upd origin : costs Q B (apply_update upd origin).
Proof.
  unfold apply_update. costs_tac.
  apply costs_bind_first; [costs_tac; apply costs_Apply|]. costs_tac.
Qed.

Lemma costs_create_prim parent type origin : costs Q B (create_prim parent type origin).
Proof.
  unfold create_prim. costs_tac.
  apply costs_bind_first; [costs_tac; apply costs_Create|]. costs_tac.
Qed.

Lemma costs_set_prim_active path active origin : costs Q B (set_prim_active path active origin).
Proof.
  unfold set_prim_active. costs_tac.
  apply costs_bind_first; [costs_tac; apply costs_SetActive|]. costs_tac.
Qed.

Lemma costs_reload : costs Q B Handlers.ReloadRootLayer.
Proof.
  unfold Handlers.ReloadRootLayer. costs_tac.
  apply costs_bind_rest; [apply costs_gets|]. costs_tac.
  apply costs_bind_first; [costs_tac; apply costs_author|]. costs_tac.
Qed.
End authoring.

(** ** The handlers *)

Lemma costs_SendAck b i rid ok err : costs any_frame b (SendAck i rid ok err).
Proof. apply (costs_weaken _ 0); [lia|]. intros w. by apply moves_SendAck. Qed.

Lemma costs_transform upd origin rid base : costs any_frame (B + 1) (HandleTransform upd origin rid base).
Proof.
  unfold HandleTransform. apply costs_bind_rest; [apply costs_session|].
  intros []; try apply costs_SendAck.
  apply costs_bind; [by apply costs_apply_update|]. intros ok.
  apply costs_bind_rest; [by apply costs_when, costs_update|]. intros _.
  apply costs_bind_rest; [apply costs_SendAck|]. intros _.
  apply costs_when. by eapply costs_impl, costs_SendCorrection.
Qed.

Lemma costs_create parent type origin rid :
  costs any_frame (B + 1) (HandleCreatePrim parent type origin rid).
Proof.
  unfold HandleCreatePrim. costs_tac; [|apply costs_SendAck].
  apply costs_bind; [by apply costs_create_prim|]. intros [prim|]; [|apply costs_SendAck].
  costs_tac. by apply (costs_announce _ _ _ (fun s n => SerializeCreatePrimBroadcast s parent type prim n)).
Qed.

Lemma costs_set_active path active origin rid :
  costs any_frame (B + 1) (HandleSetPrimActive path active origin rid).
Proof.
  unfold HandleSetPrimActive. costs_tac; [|apply costs_SendAck].
  apply costs_bind; [by apply costs_set_prim_active|]. intros []; try apply costs_SendAck.
  costs_tac. by apply (costs_announce _ _ _ (fun s n => SerializeSetPrimActiveBroadcast s path active n)).
Qed.

Lemma costs_commit promise : costs not_ack B (HandleCommit promise).
Proof.
  unfold HandleCommit, CommitOverrides, reload_other_sessions, on_stage.
  apply costs_bind_first.
  - costs_tac. apply costs_bind_rest; [apply costs_save|]. costs_tac.
    apply costs_bind_rest; [costs_tac|]. costs_tac.
    apply costs_bind_rest; [apply costs_commit_stage|]. costs_tac.
    apply costs_bind_first; [|costs_tac]. apply costs_when, costs_reload, transform_not_ack.
  - intros r. apply costs_bind_rest; [by apply costs_when, costs_world|]. intros _.
    by apply costs_world.
Qed.

Lemma costs_flush : costs not_ack 0 HandleFlush.
Proof.
  unfold HandleFlush. costs_tac. apply costs_bind_rest; [apply costs_save|]. intros saved.
  by apply costs_when, costs_update.
Qed.

Lemma costs_correction i r : costs not_ack 1 (HandleCorrection i r).
Proof.
  unfold HandleCorrection. costs_tac. apply costs_bind_rest; [apply costs_gets|]. costs_tac.
  apply costs_bind_rest; [by apply costs_world|]. intros _. apply costs_SendCorrection.
Qed.

Lemma costs_command c : costs any_frame (event_cost B (Handled c)) (ProcessCommand c).
Proof.
  unfold ProcessCommand. apply costs_try_all; [|costs_tac].
  destruct c; cbn [HandleCommand event_cost];
    auto using costs_transform, costs_create, costs_set_active, costs_reload;
    apply (costs_impl not_ack); auto using costs_join, costs_commit, costs_flush, costs_correction.
  all: done || apply costs_reload, transform_not_ack.
Qed.

Lemma moves_happens e w : moves any_frame (event_cost B e) w (happens e w).
Proof. destruct e as [c|l]; [apply costs_command|by apply costs_deliver]. Qed.

(** Everything that happens to a session stays within the budget. *)
Lemma moves_process es w : moves any_frame (budget B es) w (process es w).
Proof.
  revert w. induction es as [|e es IH]; intros w; [apply moves_refl|].
  cbn [process foldl budget sum_list_with]. eapply moves_trans; [apply moves_happens|]. apply IH.
Qed.
End budget.
End Budget.
