(* ===== verification/ToyWorld.v ===== *)
(** * A session to execute

    A collaborative session on the small USD of [Toy.v], with two clients:
    connection 4 behind handle 40 and connection 5 behind handle 50. Authoring
    at ["/Bad"] throws a [std::exception]; in [worse_usd], authoring at
    ["/Worse"] throws something else. *)
From S2P Require Import Prelude Filesystem Proto Usd Versions Session Toy.

Module ToyWorld.
Import Session.
Export Toy.
Local Open Scope string_scope.
Local Open Scope list_scope.
Local Open Scope Z_scope.

Definition faulty (p : string) : option exn :=
  if String.eqb p "/Bad" then Some (StdException "bad") else None.

#[export] Instance toy_usd : Usd := toy faulty.
#[export] Instance toy_usd_laws : UsdLaws := toy_laws faulty.
#[export] Instance toy_usd_paths : PathLaws := toy_path_laws faulty.

Lemma authored_throws {A} p f (a : A) : throws_std (fun _ => True) (authored faulty p f a).
Proof. intros st _. unfold authored, faulty. by destruct (String.eqb p "/Bad"). Qed.

Lemma added_throws p t : throws_std (fun _ => True) (added faulty p t).
Proof. intros st Hst. unfold added, faulty at 1. destruct (String.eqb _ _); [done|by apply authored_throws]. Qed.

#[export] Instance toy_usd_throws : UsdThrows.
Proof.
  split; intros; [|apply authored_throws || apply added_throws..|by intros st _].
  intros st _. cbn. destruct (is_property p); [done|by apply authored_throws].
Qed.

Definition worse_usd : Usd := toy (fun p => if String.eqb p "/Worse/Cube" then Some OtherException else None).

Definition xform_spec : spec := mkSpec true "Xform" None [].

Definition root_specs : layer :=
  list_to_map [("/World", xform_spec); ("/World/A", xform_spec); ("/Bad", xform_spec);
    ("/Worse", xform_spec)].

Definition stage0 : toy_stage :=
  mkStage root_specs ∅ "/srv/uploads/.idtx_session_1.usda" "/srv/uploads/a.usda" [].

Definition session_on (usd : Usd) (st : @Stage usd) : Session :=
  mkSession "s1" "a.usda" "/srv/uploads/a.usda" (Some st) 0 CollaborativeEdit
    (Some new_queue) {[ 4 := 40; 5 := 50 ]} None 0 (Some true) false false false 0 empty
    "/srv/uploads/.idtx_session_1.usda" false false.

Definition session0 : Session := session_on toy_usd stage0.

Definition disk0 : Disk :=
  mkDisk {[ ["srv"] := Directory; ["srv"; "uploads"] := Directory;
            ["srv"; "uploads"; "a.usda"] := File "/World" ]} ["srv"].

Definition world0 : World := mkWorld session0 1 ∅ {[ "s1" := 1 ]} [] 1000 disk0 [] ∅.

Definition worse_world : @World worse_usd :=
  mkWorld (session_on worse_usd stage0) 1 ∅ {[ "s1" := 1 ]} [] 1000 disk0 [] ∅.

(** A client's drag of [/World/A], and the other client's. *)
Definition drag (prim : string) : TransformUpdate :=
  mkTransformUpdate "s1" "a.usda" prim
    (kSeperate (mkSeparate (mkVector3 one one one) (mkVector3 zero zero zero) (mkVector3 one one one)))
    0.

Definition demo : list SessionCommand :=
  [JoinCommand 4; TransformCommand (drag "/World/A") 4 1 0; CreatePrimCommand "/World" PRIM_TYPE_CUBE 5 2;
   TransformCommand (drag "/World/A") 5 3 0; SetPrimActiveCommand "/World/Cube" false 4 4;
   TransformCommand (drag "/Bad") 4 5 2; FlushCommand].

End ToyWorld.
