(* ===== verification/Snapshot.v ===== *)
(** * The join snapshot

    What a client that joins a session gets from [SessionManager::HandleJoin]
    (source/session/SessionManager.cpp): every prim the session layer defines,
    after its parent, every transform it authors and every prim it deactivates,
    each once and nothing else, and then the [SnapshotComplete]. *)
From S2P Require Import Prelude Filesystem Proto Usd Versions Session Broadcast Listener SendFacts.
From S2P Require Import Dispatch Committer Handlers Progress Toy ToyWorld.

Module Snapshot.
Import Session Broadcast SendFacts Handlers Progress.
Local Open Scope string_scope.
Local Open Scope list_scope.
Local Open Scope Z_scope.

(** ** Lists *)

Lemma stable_insert_fmap {A B} (f : A -> B) (key : B -> nat) x l :
  stable_insert key (f x) (f <$> l) = f <$> stable_insert (key ∘ f) x l.
Proof. induction l as [|y l IH]; [done|]. cbn. destruct (_ <=? _)%nat; [done|]. rewrite fmap_cons. by f_equal. Qed.

Lemma stable_sort_fmap {A B} (f : A -> B) (key : B -> nat) l :
  stable_sort key (f <$> l) = f <$> stable_sort (key ∘ f) l.
Proof.
  induction l as [|x l IH]; [done|]. unfold stable_sort in *. cbn. rewrite IH. apply stable_insert_fmap.
Qed.

(** In a sorted list a smaller key comes first. *)
Lemma sorted_before {A} (key : A -> nat) l i j x y :
  StronglySorted (fun a b => (key a <= key b)%nat) l -> l !! i = Some x -> l !! j = Some y ->
  (key x < key y)%nat -> (i < j)%nat.
Proof.
  intros Hs. revert i j. induction Hs as [|z l Hs IH Hz]; intros [|i] [|j]; simpl; try done.
  - intros [= ->] [= ->]. lia.
  - lia.
  - intros Hx [= ->] Hlt. rewrite Forall_forall in Hz. apply list_elem_of_lookup_2, Hz in Hx. lia.
  - intros Hx Hy Hlt. specialize (IH _ _ Hx Hy Hlt). lia.
Qed.

(** The elements a function is defined on, with its values. *)
Definition table {A B} (g : A -> option B) (l : list A) : list (A * B) := omap (fun x => pair x <$> g x) l.

Lemma table_in {A B} (g : A -> option B) l x y : (x, y) ∈ table g l <-> x ∈ l /\ g x = Some y.
Proof.
  unfold table. rewrite list_elem_of_omap. split.
  - intros (z & Hz & Hg). destruct (g z) eqn:Hgz; simpl in Hg; simplify_eq. done.
  - intros [Hx Hg]. exists x. by rewrite Hg.
Qed.

Lemma table_NoDup {A B} (g : A -> option B) l : NoDup l -> NoDup (table g l).*1.
Proof.
  induction 1 as [|x l Hx Hnd IH]; [constructor|]. cbn. destruct (g x) as [y|]; [|done]. cbn. constructor; [|done].
  intros ([z b] & -> & Hz%table_in)%list_elem_of_fmap. by destruct Hz.
Qed.

Lemma table_bind {A B C} (g : A -> option B) (f : A * B -> C) (h : A -> list C) l :
  (forall x, h x = match g x with Some y => [f (x, y)] | None => [] end) ->
  l ≫= h = f <$> table g l.
Proof.
  intros Hh. induction l as [|x l IH]; [done|]. rewrite bind_cons, IH, Hh. cbn. by destruct (g x).
Qed.

Section snapshot.
Context `{Usd} `{Wire}.

(** ** What the session layer says *)

(** The prims with an opinion of the session: a spec of their own or one of a
    property. *)
Definition session_prim (st : Stage) (layer : Layer) (p : SdfPath) : Prop :=
  exists q, q ∈ LayerTraverse st layer /\
    (IsPrimPath q = true /\ p = q \/ IsPrimPath q = false /\ IsPropertyPath q = true /\ p = GetPrimPath q).

(** The built-in type as which the layer defines a prim. *)
Definition defined_as (st : Stage) (layer : Layer) (p : SdfPath) : option PrimType :=
  spec ← LayerGetPrimAtPath st layer p;
  if bool_decide (GetSpecifier spec = SdfSpecifierDef)
  then let type := PrimDispatcher.TypeFromName (SpecTypeName spec) in
       if bool_decide (type = PRIM_TYPE_UNSPECIFIED) then None else Some type
  else None.

Definition authored_transform (st : Stage) (layer : Layer) (p : SdfPath) : option local_transform :=
  spec ← LayerGetPrimAtPath st layer p; TransformDispatcher.ReadAuthoredLocalTransform st (Some spec).

(** The layer makes the prim inactive. *)
Definition deactivated (st : Stage) (layer : Layer) (p : SdfPath) : option () :=
  spec ← LayerGetPrimAtPath st layer p;
  if HasActive spec && negb (GetActive spec) then Some () else None.

(** [l] lists each prim of the session where [g] is defined, once, with its value. *)
Definition lists {A} (st : Stage) (layer : Layer) (g : SdfPath -> option A) (l : list (SdfPath * A)) : Prop :=
  NoDup l.*1 /\ forall p a, (p, a) ∈ l <-> session_prim st layer p /\ g p = Some a.

(** A prim comes after its parent. *)
Definition parents_first {A} (l : list (SdfPath * A)) : Prop :=
  forall i j p a b, IsPrimPath p = true -> l !! i = Some (GetParentPath p, a) -> l !! j = Some (p, b) -> (i < j)%nat.

(** ** The messages *)

Definition creation (s : Session) (seq : Z) (x : SdfPath * PrimType) : BaseMessage :=
  create_prim_message s (GetString (GetParentPath x.1)) x.2
    (PrimDispatcher.ReadSchemaDefaults x.2 (PrimDispatcher.new_created (GetName x.1) (GetString x.1))) seq.

Definition movement (s : Session) (now seq : Z) (x : SdfPath * local_transform) : BaseMessage :=
  with_server_seq seq (AssembleXformBroadcast s now (GetString x.1) x.2).

Definition removal (s : Session) (seq : Z) (x : SdfPath * ()) : BaseMessage :=
  set_active_message s (GetString x.1) false seq.

(** ** The paths *)

Context `{!PathLaws}.

Lemma snapshot_paths_in st layer p : p ∈ snapshot_paths st layer <-> session_prim st layer p.
Proof.
  unfold snapshot_paths, session_prim. rewrite set_of_in by apply _. rewrite list_elem_of_bind. split.
  - intros (q & Hp & Hq). exists q. split; [done|]. destruct (IsPrimPath q); [|destruct (IsPropertyPath q)].
    + apply list_elem_of_singleton in Hp. by left.
    + apply list_elem_of_singleton in Hp. by right.
    + by apply not_elem_of_nil in Hp.
  - intros (q & Hq & Hp). exists q. split; [|done].
    destruct Hp as [[-> ->]|(-> & -> & ->)]; by apply list_elem_of_singleton.
Qed.

Lemma table_lists {A} st layer (g : SdfPath -> option A) : lists st layer g (table g (snapshot_paths st layer)).
Proof.
  split; [apply table_NoDup, set_of_NoDup; apply _|]. intros p a. by rewrite table_in, snapshot_paths_in.
Qed.

Lemma lists_perm {A} st layer (g : SdfPath -> option A) l l' : l ≡ₚ l' -> lists st layer g l' -> lists st layer g l.
Proof.
  intros Hp [Hnd Hin]. split; [by rewrite Hp|]. intros p a. by rewrite Hp.
Qed.

Lemma sorted_parents_first {A} (l : list (SdfPath * A)) :
  parents_first (stable_sort (fun x => GetPathElementCount x.1) l).
Proof.
  intros i j p a b Hp Hi Hj. eapply sorted_before; [apply stable_sort_sorted|exact Hi|exact Hj|]. cbn.
  rewrite (parent_shorter p Hp). lia.
Qed.

(** ** The frames *)

Context `{!WireOk}.

Definition created (st : Stage) (layer : Layer) : list (SdfPath * PrimType) :=
  stable_sort (fun x => GetPathElementCount x.1) (table (defined_as st layer) (snapshot_paths st layer)).

Lemma creations_eq s st layer seq :
  (stable_sort fst (snapshot_paths st layer ≫= snapshot_create s st layer seq)).*2 =
  (serialized ∘ creation s seq) <$> created st layer.
Proof.
  unfold created. rewrite (table_bind (defined_as st layer)
    (fun x => (GetPathElementCount x.1, serialized (creation s seq x)))).
  - rewrite stable_sort_fmap, <- list_fmap_compose. done.
  - intros p. unfold snapshot_create, defined_as. destruct (LayerGetPrimAtPath st layer p) as [spec|]; [|done]. cbn.
    destruct (bool_decide (GetSpecifier spec = _)); [|done]. cbn. by destruct (bool_decide _).
Qed.

Lemma movements_eq s now st layer seq :
  snapshot_paths st layer ≫= snapshot_transform s now st layer seq =
  (serialized ∘ movement s now seq) <$> table (authored_transform st layer) (snapshot_paths st layer).
Proof.
  apply table_bind. intros p. unfold snapshot_transform, authored_transform.
  destruct (LayerGetPrimAtPath st layer p) as [spec|]; [|done]. cbn [mbind option_bind].
  destruct (TransformDispatcher.ReadAuthoredLocalTransform st (Some spec)); [|done]. by rewrite serialize_ok.
Qed.

Lemma removals_eq s st layer seq :
  (fun path => SerializeSetPrimActiveBroadcast s path false seq) <$>
    snapshot_deleted st layer (snapshot_paths st layer) =
  (serialized ∘ removal s seq) <$> table (deactivated st layer) (snapshot_paths st layer).
Proof.
  unfold snapshot_deleted. rewrite (table_bind (deactivated st layer) (fun x => GetString x.1)).
  - by rewrite <- list_fmap_compose.
  - intros p. unfold deactivated. destruct (LayerGetPrimAtPath st layer p) as [spec|]; [|done]. cbn.
    by destruct (HasActive spec && _).
Qed.

(** C18. An attached client that joins gets, at the version of the session, the
    creation of each prim the session layer defines with a built-in type, a
    prim after its parent, the transform of each prim the layer authors one
    for, the removal of each prim it deactivates, each once and nothing else,
    and last the [SnapshotComplete]. Nobody else gets a frame, and but for the
    version recorded as sent nothing changes. *)
Theorem join_sends_the_session st layer i conn w :
  stage (ses w) = Some st -> GetSessionLayer st = Some layer -> clients (ses w) !! i = Some conn ->
  let s := ses w in let seq := server_seq s in
  exists creations movements removals,
    lists st layer (defined_as st layer) creations /\ parents_first creations /\
    lists st layer (authored_transform st layer) movements /\
    lists st layer (deactivated st layer) removals /\
    HandleJoin i w =
      (sent ((fun m => mkFrame conn (serialized m)) <$>
               (creation s seq <$> creations) ++ (movement s (clock w) seq <$> movements) ++
               (removal s seq <$> removals) ++ [snapshot_complete_message s seq])
         (RecordSent i seq) w, inl tt).
Proof.
  intros Hst Hl Hc s seq.
  exists (created st layer), (table (authored_transform st layer) (snapshot_paths st layer)),
    (table (deactivated st layer) (snapshot_paths st layer)).
  split_and!; [eapply lists_perm; [apply stable_sort_perm|]; apply table_lists|apply sorted_parents_first|apply table_lists..|].
  unfold HandleJoin. erewrite !bind_ok by reflexivity. cbv zeta. rewrite Hst, Hc.
  erewrite bind_ok by apply send_all_eq. rewrite on_versions_eq, sent_sent. rewrite app_nil_r. f_equal. f_equal.
  unfold snapshot_frames, snapshot_done. rewrite Hl, serialize_ok by done. cbv zeta.
  rewrite creations_eq, movements_eq, removals_eq, !fmap_app, <- !list_fmap_compose, <- !app_assoc. done.
Qed.
End snapshot.

(** ** On a concrete session *)

Import ToyWorld.

(** A group created in the session with a cube in it that was deleted again;
    the prim [/World/A] of the file, moved. *)
Definition session_specs : layer :=
  list_to_map [("/World/G", mkSpec true "Xform" None []); ("/World/G/Cube", mkSpec true "Cube" (Some false) []);
    ("/World/A", mkSpec false "" None [("xformOp:translate", VtVec3d (one, zero, zero))])].

Definition edited_stage : toy_stage :=
  mkStage root_specs session_specs "/srv/uploads/.idtx_session_1.usda" "/srv/uploads/a.usda" [].

Definition edited_world : World := set_ses (session_on toy_usd edited_stage) world0.

(** What a frame is about. *)
Definition frame_prim (f : Frame) : string :=
  match msg_body (message_of (payload f)) with
  | CreatePrimBroadcastMessage b => "create " +:+ cpb_prim_name b
  | XformBroadcast _ u => "move " +:+ upd_prim_path u
  | SetPrimActiveBroadcast p _ => "remove " +:+ p
  | SnapshotComplete => "complete"
  | _ => ""
  end.

Example edited_snapshot :
  frame_prim <$> outbox (fst (HandleJoin 5 edited_world)) =
  ["create G"; "create Cube"; "move /World/A"; "remove /World/G/Cube"; "complete"].
Proof. vm_compute. reflexivity. Qed.

Lemma join_sends_the_session_witness :
  exists creations movements removals,
    lists edited_stage "/srv/uploads/.idtx_session_1.usda" (defined_as edited_stage "/srv/uploads/.idtx_session_1.usda") creations /\
    outbox (fst (HandleJoin 5 edited_world)) =
      (fun m => mkFrame 50 (serialized m)) <$>
        (creation (ses edited_world) 0 <$> creations) ++ (movement (ses edited_world) 1000 0 <$> movements) ++
        (removal (ses edited_world) 0 <$> removals) ++ [snapshot_complete_message (ses edited_world) 0].
Proof.
  destruct (join_sends_the_session (H := toy_usd) edited_stage "/srv/uploads/.idtx_session_1.usda" 5 50 edited_world
    eq_refl eq_refl eq_refl) as (cs & ms & rs & Hcs & _ & _ & _ & Heq).
  exists cs, ms, rs. split; [exact Hcs|]. rewrite Heq. reflexivity.
Defined.
End Snapshot.
