(* ===== verification/Graphics.v ===== *)
(** * The off-screen rendering contexts
    (source/thumbnails/UsdImagingThumbnailGenerator.cpp, lines 75 to 289)

    [OsMesaContext] and [EglContext]: what their constructors and destructors
    ask of the graphics libraries, call by call. The libraries answer as they
    like (class [Driver]); [use] is the discipline they demand of a program:
    handles are used while they are live, and nothing is left over. *)
From S2P Require Import Prelude.

Module Graphics.
Local Open Scope string_scope.
Local Open Scope list_scope.
Local Open Scope Z_scope.

(** ** The libraries *)

(** A handle, a function pointer or a truth value is a number, 0 for none.
    [Render] is the drawing of a frame. *)
Inductive call :=
| dlopen (name : string)
| dlsym (lib : Z) (name : string)
| dlclose (lib : Z)
| OSMesaCreateContextExt (format depthBits stencilBits accumBits sharelist : Z)
| OSMesaMakeCurrent (ctx type width height : Z)
| OSMesaDestroyContext (ctx : Z)
| eglGetProcAddress (name : string)
| eglGetPlatformDisplayEXT (platform native : Z)
| eglQueryDevicesEXT (max_devices : Z)
| eglGetDisplay (native : Z)
| eglInitialize (display : Z)
| eglBindAPI (api : Z)
| eglChooseConfig (display : Z)
| eglCreatePbufferSurface (display config size : Z)
| eglCreateContext (display config : Z)
| eglMakeCurrent (display surface context : Z)
| eglDestroyContext (display context : Z)
| eglDestroySurface (display surface : Z)
| eglTerminate (display : Z)
| Render.

(** The calls so far, with their answers. *)
Abbreviation trace := (list (call * Z)).

(** What a call answers; the devices a query lists, or nothing if it fails;
    the text of [dlerror()]. *)
Class Driver := {
  answer : trace -> call -> Z;
  devices : trace -> option (list Z);
  dlerror : trace -> string }.

Section contexts.
Context `{Driver}.

Definition gl (c : call) : M trace Z := fun h => let r := answer h c in (h ++ [(c, r)], inl r).

(** [static_cast<int>] of an unsigned 32-bit number. *)
Definition to_int (x : Z) : Z := if x <? 2 ^ 31 then x else x - 2 ^ 32.

(** ** OSMesa *)

Record OsMesaContext := mkOsMesa { m_lib_ : Z; m_ctx_ : Z; m_ok_ : bool; m_destroy_ : Z; m_error_ : string }.

(** The first library of the list that opens. *)
Fixpoint open_library (names : list string) : M trace Z :=
  match names with
  | [] => mret 0
  | name :: names =>
      lib ← gl (dlopen name);
      if negb (lib =? 0) then mret lib else open_library names
  end.

Definition GL_RGBA : Z := 0x1908.
Definition GL_UNSIGNED_BYTE : Z := 0x1401.

Definition OsMesaContext_new (size : Z) : M trace OsMesaContext :=
  lib ← open_library ["libOSMesa.so.8"; "libOSMesa.so"];
  if lib =? 0 then e ← gets dlerror; mret (mkOsMesa 0 0 false 0 e)
  else
    create ← gl (dlsym lib "OSMesaCreateContextExt");
    current ← gl (dlsym lib "OSMesaMakeCurrent");
    destroy ← gl (dlsym lib "OSMesaDestroyContext");
    if (create =? 0) || (current =? 0) || (destroy =? 0)
    then mret (mkOsMesa lib 0 false destroy "OSMesa entry points missing in libOSMesa.so")
    else
      ctx ← gl (OSMesaCreateContextExt GL_RGBA 24 8 0 0);
      if ctx =? 0 then mret (mkOsMesa lib 0 false destroy "OSMesaCreateContextExt failed")
      else
        ok ← gl (OSMesaMakeCurrent ctx GL_UNSIGNED_BYTE (to_int size) (to_int size));
        mret (mkOsMesa lib ctx (negb (ok =? 0)) destroy
                (if negb (ok =? 0) then "" else "OSMesaMakeCurrent failed")).

Definition OsMesaContext_delete (c : OsMesaContext) : M trace unit :=
  _ ← when (negb (m_ctx_ c =? 0) && negb (m_destroy_ c =? 0)) (_ ← gl (OSMesaDestroyContext (m_ctx_ c)); mret tt);
  when (negb (m_lib_ c =? 0)) (_ ← gl (dlclose (m_lib_ c)); mret tt).

(** ** EGL *)

Record EglContext := mkEgl { display : Z; surface : Z; context : Z; error : option string }.

Definition EGL_DEFAULT_DISPLAY : Z := 0.
Definition EGL_NO_DISPLAY : Z := 0.
Definition EGL_NO_SURFACE : Z := 0.
Definition EGL_NO_CONTEXT : Z := 0.
Definition EGL_OPENGL_API : Z := 0x30A2.
Definition EGL_PLATFORM_SURFACELESS_MESA : Z := 0x31DD.
Definition EGL_PLATFORM_DEVICE_EXT : Z := 0x313F.

(** The first device with a display. *)
Fixpoint first_display (devs : list Z) : M trace Z :=
  match devs with
  | [] => mret EGL_NO_DISPLAY
  | dev :: devs =>
      d ← gl (eglGetPlatformDisplayEXT EGL_PLATFORM_DEVICE_EXT dev);
      if d =? EGL_NO_DISPLAY then first_display devs else mret d
  end.

(** The devices a query writes to an array of [max] null entries, up to the
    number it reports. *)
Definition query_devices (max : Z) : M trace (list Z) :=
  ds ← gets devices;
  _ ← gl (eglQueryDevicesEXT max);
  mret (match ds with
        | Some ds => if max =? 0 then ds else take (Z.to_nat max) ds
        | None => replicate (Z.to_nat max) 0
        end).

(** Strategy 2. *)
Definition device_display : M trace Z :=
  query ← gl (eglGetProcAddress "eglQueryDevicesEXT");
  if query =? 0 then mret EGL_NO_DISPLAY
  else
    ds ← query_devices 0;
    let num_devices := Z.of_nat (length ds) in
    if num_devices <=? 0 then mret EGL_NO_DISPLAY
    else devs ← query_devices num_devices; first_display devs.

(** The display, or the error. *)
Definition find_display : M trace (Z + string) :=
  get_platform ← gl (eglGetProcAddress "eglGetPlatformDisplayEXT");
  if negb (get_platform =? 0) then
    d ← gl (eglGetPlatformDisplayEXT EGL_PLATFORM_SURFACELESS_MESA EGL_DEFAULT_DISPLAY);
    d ← (if d =? EGL_NO_DISPLAY then device_display else mret d);
    d ← (if d =? EGL_NO_DISPLAY then gl (eglGetDisplay EGL_DEFAULT_DISPLAY) else mret d);
    mret (if d =? EGL_NO_DISPLAY
          then inr "no headless EGL display (surfaceless, device platform, and default all failed)"
          else inl d)
  else
    d ← gl (eglGetDisplay EGL_DEFAULT_DISPLAY);
    mret (if d =? EGL_NO_DISPLAY
          then inr "no EGL vendor found (missing libglvnd ICD manifest /usr/share/glvnd/egl_vendor.d/50_mesa.json?)"
          else inl d).

(** [eglChooseConfig] answers the number of the configuration found, or 0. *)
Definition EglContext_new (size : Z) : M trace EglContext :=
  found ← find_display;
  match found with
  | inr e => mret (mkEgl EGL_NO_DISPLAY EGL_NO_SURFACE EGL_NO_CONTEXT (Some e))
  | inl d =>
      ok ← gl (eglInitialize d);
      if ok =? 0 then mret (mkEgl d EGL_NO_SURFACE EGL_NO_CONTEXT (Some "eglInitialize failed"))
      else
        ok ← gl (eglBindAPI EGL_OPENGL_API);
        if ok =? 0 then mret (mkEgl d EGL_NO_SURFACE EGL_NO_CONTEXT (Some "eglBindAPI(EGL_OPENGL_API) failed"))
        else
          config ← gl (eglChooseConfig d);
          if config =? 0
          then mret (mkEgl d EGL_NO_SURFACE EGL_NO_CONTEXT (Some "eglChooseConfig found no EGL_OPENGL_BIT config"))
          else
            s ← gl (eglCreatePbufferSurface d config (to_int size));
            if s =? EGL_NO_SURFACE
            then mret (mkEgl d s EGL_NO_CONTEXT (Some "eglCreatePbufferSurface failed"))
            else
              ctx ← gl (eglCreateContext d config);
              if ctx =? EGL_NO_CONTEXT
              then mret (mkEgl d s ctx (Some "eglCreateContext(GL 4.5 compat) failed"))
              else
                ok ← gl (eglMakeCurrent d s ctx);
                mret (mkEgl d s ctx (if ok =? 0 then Some "eglMakeCurrent failed" else None))
  end.

Definition EglContext_delete (c : EglContext) : M trace unit :=
  when (negb (display c =? EGL_NO_DISPLAY))
    (_ ← gl (eglMakeCurrent (display c) EGL_NO_SURFACE EGL_NO_CONTEXT);
     _ ← when (negb (context c =? EGL_NO_CONTEXT)) (_ ← gl (eglDestroyContext (display c) (context c)); mret tt);
     _ ← when (negb (surface c =? EGL_NO_SURFACE)) (_ ← gl (eglDestroySurface (display c) (surface c)); mret tt);
     _ ← gl (eglTerminate (display c)); mret tt).
End contexts.

(** ** The discipline of the libraries *)

(** What is live: opened libraries, initialised displays, contexts, surfaces,
    and the context that is current. *)
Record live := mkLive {
  libs : list Z; displays : list Z; contexts : list Z; surfaces : list Z; current : option Z }.

Definition nothing : live := mkLive [] [] [] [] None.

Definition acquire (h : Z) (l : list Z) : list Z := if h =? 0 then l else h :: l.

(** Giving back a handle that is held. *)
Definition release (h : Z) (l : list Z) : option (list Z) :=
  if bool_decide (h ∈ l) then Some (filter (fun x => x <> h) l) else None.

Definition drop_current (ctx : Z) (c : option Z) : option Z := if decide (c = Some ctx) then None else c.

(** The effect of a call, or [None] if it is not allowed. *)
Definition use (s : live) (e : call * Z) : option live :=
  let '(c, r) := e in
  match c with
  | dlopen _ => Some (mkLive (acquire r (libs s)) (displays s) (contexts s) (surfaces s) (current s))
  | dlsym lib _ => if bool_decide (lib ∈ libs s) then Some s else None
  | dlclose lib =>
      if bool_decide (contexts s = [])
      then (fun ls => mkLive ls (displays s) (contexts s) (surfaces s) (current s)) <$> release lib (libs s)
      else None
  | OSMesaCreateContextExt _ _ _ _ _ =>
      if bool_decide (libs s = []) then None
      else Some (mkLive (libs s) (displays s) (acquire r (contexts s)) (surfaces s) (current s))
  | OSMesaMakeCurrent ctx _ _ _ =>
      if bool_decide (ctx ∈ contexts s)
      then Some (mkLive (libs s) (displays s) (contexts s) (surfaces s) (if r =? 0 then current s else Some ctx))
      else None
  | OSMesaDestroyContext ctx =>
      (fun cs => mkLive (libs s) (displays s) cs (surfaces s) (drop_current ctx (current s))) <$> release ctx (contexts s)
  | eglGetProcAddress _ | eglGetPlatformDisplayEXT _ _ | eglQueryDevicesEXT _ | eglGetDisplay _ | eglBindAPI _ => Some s
  | eglInitialize d => Some (mkLive (libs s) (if r =? 0 then displays s else d :: displays s) (contexts s) (surfaces s) (current s))
  | eglChooseConfig d => if bool_decide (d ∈ displays s) then Some s else None
  | eglCreatePbufferSurface d _ _ =>
      if bool_decide (d ∈ displays s)
      then Some (mkLive (libs s) (displays s) (contexts s) (acquire r (surfaces s)) (current s)) else None
  | eglCreateContext d _ =>
      if bool_decide (d ∈ displays s)
      then Some (mkLive (libs s) (displays s) (acquire r (contexts s)) (surfaces s) (current s)) else None
  | eglMakeCurrent d sf ctx =>
      if ctx =? 0 then Some (mkLive (libs s) (displays s) (contexts s) (surfaces s) (if r =? 0 then current s else None))
      else if bool_decide (d ∈ displays s) && bool_decide (sf ∈ surfaces s) && bool_decide (ctx ∈ contexts s)
      then Some (mkLive (libs s) (displays s) (contexts s) (surfaces s) (if r =? 0 then current s else Some ctx))
      else None
  | eglDestroyContext _ ctx =>
      (fun cs => mkLive (libs s) (displays s) cs (surfaces s) (drop_current ctx (current s))) <$> release ctx (contexts s)
  | eglDestroySurface _ sf =>
      (fun sfs => mkLive (libs s) (displays s) (contexts s) sfs (current s)) <$> release sf (surfaces s)
  | eglTerminate d =>
      if bool_decide (contexts s = []) && bool_decide (surfaces s = [])
      then Some (mkLive (libs s) (filter (fun x => x <> d) (displays s)) (contexts s) (surfaces s) (current s)) else None
  | Render => match current s with Some _ => Some s | None => None end
  end.

(** What is live after a trace. *)
Fixpoint uses (s : live) (h : trace) : option live :=
  match h with
  | [] => Some s
  | e :: h => use s e ≫= fun s => uses s h
  end.

Lemma uses_app s h k : uses s (h ++ k) = uses s h ≫= fun s => uses s k.
Proof. revert s. induction h as [|e h IH]; intros s; [done|]. cbn [app uses]. destruct (use s e); [apply IH|done]. Qed.

Lemma uses_snoc s h e : uses s (h ++ [e]) = uses s h ≫= fun s => use s e.
Proof. rewrite uses_app. destruct (uses s h) as [s1|]; [|done]. cbn. by destruct (use s1 e). Qed.

Lemma release_one h : release h [h] = Some [].
Proof. unfold release. rewrite bool_decide_true by by left. by rewrite filter_cons_False by tauto. Qed.

Section contexts_proved.
Context `{Driver}.

(** [m] runs to its end, allowed by the libraries, from what satisfies [P] to
    what satisfies [Q] with its result. *)
Definition allowed {A} (P : live -> Prop) (m : M trace A) (Q : A -> live -> Prop) : Prop :=
  forall h s, uses nothing h = Some s -> P s ->
  exists h' s' a, m h = (h', inl a) /\ uses nothing h' = Some s' /\ Q a s'.

Lemma allowed_ret {A} (P : live -> Prop) (a : A) (Q : A -> live -> Prop) :
  (forall s, P s -> Q a s) -> allowed P (mret a) Q.
Proof. intros HQ h s Hs HP. exists h, s, a. split_and!; [done..|]. by apply HQ. Qed.

Lemma allowed_bind {A B} P (m : M trace A) (f : A -> M trace B) R Q :
  allowed P m R -> (forall a, allowed (R a) (f a) Q) -> allowed P (m ≫= f) Q.
Proof.
  intros Hm Hf h s Hs HP. destruct (Hm h s Hs HP) as (h1 & s1 & a & E1 & Hs1 & HR).
  destruct (Hf a h1 s1 Hs1 HR) as (h2 & s2 & b & E2 & Hs2 & HQ). exists h2, s2, b.
  split_and!; [|done..]. unfold mbind, M_bind. by rewrite E1.
Qed.

Lemma allowed_gl P c Q :
  (forall s r, P s -> exists s', use s (c, r) = Some s' /\ Q r s') -> allowed P (gl c) Q.
Proof.
  intros HQ h s Hs HP. destruct (HQ s (answer h c) HP) as (s' & Hu & Hq). unfold gl.
  eexists _, s', _. split_and!; [done| |exact Hq]. rewrite uses_snoc, Hs. exact Hu.
Qed.

Lemma allowed_gets {A} P (f : trace -> A) : allowed P (gets f) (fun _ => P).
Proof. intros h s Hs HP. by exists h, s, (f h). Qed.

(** A call whose answer is not looked at. *)
Lemma allowed_do P c (Q : live -> Prop) :
  (forall s r, P s -> exists s', use s (c, r) = Some s' /\ Q s') -> allowed P (_ ← gl c; mret tt) (fun _ => Q).
Proof. intros Hc. apply allowed_bind with (R := fun _ => Q); [by apply allowed_gl|]. intros _. by apply allowed_ret. Qed.

(** A call that neither creates nor ends anything. *)
Lemma allowed_query P c : (forall s r, use s (c, r) = Some s) -> allowed P (gl c) (fun _ => P).
Proof. intros Hc. apply allowed_gl. intros s r HP. exists s. by split. Qed.

Ltac query := apply allowed_query; done.

(** *** OSMesa *)

(** What a context holds: its library, and its OSMesa context, which it can
    destroy. *)
Definition osmesa_holds (c : OsMesaContext) (s : live) : Prop :=
  exists cur, s = mkLive (acquire (m_lib_ c) []) [] (acquire (m_ctx_ c) []) [] cur /\
    (cur = None \/ cur = Some (m_ctx_ c) /\ m_ctx_ c <> 0) /\
    (m_ctx_ c <> 0 -> m_lib_ c <> 0 /\ m_destroy_ c <> 0) /\
    (m_ok_ c = true -> cur <> None).

Lemma acquired h : h <> 0 -> acquire h [] = [h].
Proof. intros Hh. unfold acquire. by destruct (Z.eqb_spec h 0). Qed.

Lemma open_library_allowed names :
  allowed (fun s => s = nothing) (open_library names) (fun lib s => s = mkLive (acquire lib []) [] [] [] None).
Proof.
  induction names as [|name names IH]; [by apply allowed_ret|]. cbn [open_library].
  apply allowed_bind with (R := fun lib s => s = mkLive (acquire lib []) [] [] [] None).
  { apply allowed_gl. intros s r ->. by eexists. }
  intros lib. destruct (Z.eqb_spec lib 0) as [->|]; cbn [negb]; [exact IH|by apply allowed_ret].
Qed.

Lemma OsMesaContext_new_allowed size : allowed (fun s => s = nothing) (OsMesaContext_new size) osmesa_holds.
Proof.
  eapply allowed_bind; [apply open_library_allowed|]. intros lib. destruct (Z.eqb_spec lib 0) as [->|Hlib].
  { eapply allowed_bind; [apply allowed_gets|]. intros e. apply allowed_ret. intros s ->. exists None. cbn. split_and!; auto; done. }
  rewrite acquired by done.
  assert (Hsym : forall name, allowed (fun s => s = mkLive [lib] [] [] [] None) (gl (dlsym lib name))
    (fun _ s => s = mkLive [lib] [] [] [] None)).
  { intros name. apply allowed_gl. intros s r ->. eexists. split; [|done]. cbn. by rewrite bool_decide_true by by left. }
  do 3 (eapply allowed_bind; [apply Hsym|intros ?]).
  destruct (_ || _) eqn:Hpfn.
  { apply allowed_ret. intros s ->. exists None. cbn. rewrite acquired by done. split_and!; auto; done. }
  apply orb_false_iff in Hpfn as [_ Hdestroy%Z.eqb_neq].
  apply allowed_bind with (R := fun ctx s => s = mkLive [lib] [] (acquire ctx []) [] None).
  { apply allowed_gl. intros s r ->. by eexists. }
  intros ctx. destruct (Z.eqb_spec ctx 0) as [->|Hctx].
  { apply allowed_ret. intros s ->. exists None. cbn. rewrite acquired by done. split_and!; auto; done. }
  rewrite acquired by done.
  apply allowed_bind with (R := fun ok s => s = mkLive [lib] [] [ctx] [] (if ok =? 0 then None else Some ctx)).
  { apply allowed_gl. intros s r ->. eexists. split; [|done]. cbn. by rewrite bool_decide_true by by left. }
  intros ok. apply allowed_ret. intros s ->. exists (if ok =? 0 then None else Some ctx). cbn. rewrite !acquired by done.
  destruct (ok =? 0); cbn; split_and!; auto; done.
Qed.

Lemma OsMesaContext_delete_allowed c : allowed (osmesa_holds c) (OsMesaContext_delete c) (fun _ s => s = nothing).
Proof.
  apply allowed_bind with (R := fun _ s => s = mkLive (acquire (m_lib_ c) []) [] [] [] None).
  - destruct (Z.eqb_spec (m_ctx_ c) 0) as [Hz|Hctx]; cbn [negb andb].
    + apply allowed_ret. intros s (cur & -> & [->|[_ ?]] & _); [by rewrite Hz|done].
    + destruct (Z.eqb_spec (m_destroy_ c) 0) as [Hz|_]; cbn [negb when].
      { apply allowed_ret. intros s (cur & _ & _ & Hd & _). by destruct (Hd Hctx). }
      apply allowed_do.
      intros s r (cur & -> & Hcur & _). eexists. split; [|done]. cbn [use contexts current libs displays surfaces].
      rewrite (acquired (m_ctx_ c)), release_one by done. cbn. f_equal. f_equal. unfold drop_current. destruct Hcur as [->|[-> _]]; by case_decide.
  - intros _. destruct (Z.eqb_spec (m_lib_ c) 0) as [Hz|Hlib]; cbn [negb when].
    + apply allowed_ret. intros s ->. by rewrite Hz.
    + apply allowed_do. intros s r ->. eexists. split; [|done].
      cbn [use contexts libs]. rewrite (acquired (m_lib_ c)), release_one by done. done.
Qed.

(** *** EGL *)

Definition egl_holds (c : EglContext) (s : live) : Prop :=
  exists ds cur, s = mkLive [] ds (acquire (context c) []) (acquire (surface c) []) cur /\
    (ds = [] \/ ds = [display c]) /\
    (cur = None \/ cur = Some (context c)) /\
    (display c = 0 -> s = nothing) /\
    (cur <> None -> context c <> 0) /\
    (error c = None -> cur <> None).

Lemma first_display_allowed devs P : allowed P (first_display devs) (fun _ => P).
Proof.
  induction devs as [|dev devs IH]; [by apply allowed_ret|]. eapply allowed_bind; [query|]. intros d. cbn beta.
  destruct (d =? EGL_NO_DISPLAY); [exact IH|by apply allowed_ret].
Qed.

Lemma query_devices_allowed max P : allowed P (query_devices max) (fun _ => P).
Proof.
  eapply allowed_bind; [apply allowed_gets|]. intros ds. eapply allowed_bind; [query|]. intros r. by apply allowed_ret.
Qed.

Lemma find_display_allowed P :
  allowed P (find_display) (fun r s => P s /\ r <> inl 0).
Proof.
  assert (Hret : forall d e, allowed P (mret (if d =? EGL_NO_DISPLAY then inr e else inl d))
    (fun (r : Z + string) s => P s /\ r <> inl 0)).
  { intros d e. apply allowed_ret. intros s HP. split; [done|].
    destruct (Z.eqb_spec d EGL_NO_DISPLAY) as [|Hd]; [done|]. by intros [= ->]. }
  eapply allowed_bind; [query|]. intros pfn. destruct (negb _); (eapply allowed_bind; [query|]; intros d; cbn beta); [|apply Hret].
  eapply allowed_bind with (R := fun _ => P).
  - destruct (d =? EGL_NO_DISPLAY); [|by apply allowed_ret]. eapply allowed_bind; [query|]. intros q. cbn beta.
    destruct (q =? 0); [by apply allowed_ret|]. eapply allowed_bind; [apply query_devices_allowed|]. intros ds. cbn beta zeta.
    destruct (_ <=? _); [by apply allowed_ret|]. eapply allowed_bind; [apply query_devices_allowed|].
    intros devs. apply first_display_allowed.
  - intros d'. eapply allowed_bind with (R := fun _ => P); [|intros d''; apply Hret].
    destruct (d' =? EGL_NO_DISPLAY); [query|by apply allowed_ret].
Qed.

(** A step of the constructor, and the end of it. *)
Ltac egl_call := apply allowed_gl; intros s r ->; eexists; (split; [|done]); cbn;
  rewrite ?bool_decide_true by (by left); done.
Ltac egl_end ds cur := apply allowed_ret; intros s ->; exists ds, cur; cbn; rewrite ?acquired by done;
  split_and!; auto; done.

Lemma EglContext_new_allowed size : allowed (fun s => s = nothing) (EglContext_new size) egl_holds.
Proof.
  eapply allowed_bind; [apply find_display_allowed|]. intros [d|e]; cbn beta.
  2: { apply allowed_ret. intros s [-> _]. exists [], None. cbn. split_and!; auto; done. }
  destruct (Z.eqb_spec d 0) as [->|Hd]; [intros h s _ [_ ?]; done|].
  apply allowed_bind with (R := fun ok s => s = mkLive [] (if ok =? 0 then [] else [d]) [] [] None).
  { apply allowed_gl. intros s r [-> _]. by eexists. }
  intros ok. destruct (ok =? 0); [egl_end (@nil Z) (@None Z)|]. set (s0 := mkLive [] [d] [] [] None).
  apply allowed_bind with (R := fun _ s => s = s0); [egl_call|]. intros ok'.
  destruct (ok' =? 0); [egl_end [d] (@None Z)|].
  apply allowed_bind with (R := fun _ s => s = s0); [egl_call|]. intros config.
  destruct (config =? 0); [egl_end [d] (@None Z)|].
  apply allowed_bind with (R := fun sf s => s = mkLive [] [d] [] (acquire sf []) None); [egl_call|]. intros sf.
  destruct (Z.eqb_spec sf EGL_NO_SURFACE) as [->|Hsf]; [egl_end [d] (@None Z)|]. rewrite acquired by done.
  apply allowed_bind with (R := fun ctx s => s = mkLive [] [d] (acquire ctx []) [sf] None); [egl_call|]. intros ctx.
  destruct (Z.eqb_spec ctx EGL_NO_CONTEXT) as [->|Hctx]; [egl_end [d] (@None Z)|]. rewrite acquired by done.
  apply allowed_bind with (R := fun r s => s = mkLive [] [d] [ctx] [sf] (if r =? 0 then None else Some ctx)).
  { apply allowed_gl. intros s r ->. eexists. split; [|done]. cbn. destruct (Z.eqb_spec ctx 0); [done|].
    by rewrite !bool_decide_true by by left. }
  intros r. destruct (r =? 0); [egl_end [d] (@None Z)|egl_end [d] (Some ctx)].
Qed.

Lemma EglContext_delete_allowed c : allowed (egl_holds c) (EglContext_delete c) (fun _ s => s = nothing).
Proof.
  unfold EglContext_delete. destruct (Z.eqb_spec (display c) EGL_NO_DISPLAY) as [Hd|Hd]; cbn [negb when].
  { apply allowed_ret. intros s (ds & cur & _ & _ & _ & Hn & _). by apply Hn. }
  set (after := fun cs sfs (_ : Z) s => exists ds cur, s = mkLive [] ds cs sfs cur /\ (ds = [] \/ ds = [display c]) /\
    (cur = None \/ cur = Some (context c) /\ cs = [context c])).
  apply allowed_bind with (R := after (acquire (context c) []) (acquire (surface c) [])).
  { apply allowed_gl. intros s r (ds & cur & -> & Hds & Hcur & _ & Hc & _). eexists. split; [done|].
    exists ds, (if r =? 0 then cur else None). cbn. split_and!; [done..|]. destruct (r =? 0); [|by left].
    destruct Hcur as [->| ->]; [by left|]. right. split; [done|]. apply acquired. by apply Hc. }
  intros ?. apply allowed_bind with (R := fun _ => after [] (acquire (surface c) []) 0).
  { destruct (Z.eqb_spec (context c) EGL_NO_CONTEXT) as [Hz|Hctx]; cbn [negb when].
    - apply allowed_ret. intros s (ds & cur & -> & Hds & [->|[_ Hcs]]); rewrite Hz in *; [|done]. exists ds, None. auto.
    - apply allowed_do.
      intros s r' (ds & cur & -> & Hds & Hcur). eexists. split; [cbn; rewrite (acquired (context c)), release_one by done; done|].
      exists ds, None. split_and!; [|done|by left]. f_equal. unfold drop_current.
      destruct Hcur as [->|[-> _]]; by case_decide. }
  intros _. apply allowed_bind with (R := fun _ => after [] [] 0).
  { destruct (Z.eqb_spec (surface c) EGL_NO_SURFACE) as [Hz|Hsf]; cbn [negb when].
    - apply allowed_ret. intros s (ds & cur & -> & Hs). rewrite Hz. by exists ds, cur.
    - apply allowed_do.
      intros s r' (ds & cur & -> & Hs). eexists. split; [cbn; rewrite (acquired (surface c)), release_one by done; done|]. by exists ds, cur. }
  intros _. apply allowed_do.
  intros s r' (ds & cur & -> & Hds & Hcur). eexists. split; [done|]. cbn.
  destruct Hcur as [->|[_ ?]]; [|done]. unfold nothing. f_equal.
  destruct Hds as [->| ->]; [done|]. by rewrite filter_cons_False by tauto.
Qed.
End contexts_proved.
End Graphics.
