(* ===== verification/Imaging.v ===== *)
(** * [UsdImagingThumbnailGenerator]
    (source/thumbnails/UsdImagingThumbnailGenerator.cpp and .h)

    A thumbnail rendered with Hydra: the software GL context of [Graphics.v],
    the stage and its camera, the frame recorder, and the placeholder of
    [Placeholder.v] whenever a step fails. Opening and drawing a stage are the
    libraries' (class [Imaging]). *)
From Stdlib Require Import SpecFloat.
From S2P Require Import Prelude Filesystem PathFacts DiskFacts Environment Png Placeholder Proto Usd Toy.
From S2P Require Import Session ToyWorld Graphics.

Module Imaging.
Import Str Path Disk PathFacts DiskFacts Proto Usd Graphics.
Local Open Scope string_scope.
Local Open Scope list_scope.
Local Open Scope Z_scope.

(** ** Floating point: IEEE 754 double precision *)

Definition dadd : double -> double -> double := SFadd 53 1024.
Definition dsub : double -> double -> double := SFsub 53 1024.
Definition dmul : double -> double -> double := SFmul 53 1024.
Definition ddiv : double -> double -> double := SFdiv 53 1024.

Definition half : double := S754_finite false 4503599627370496 (-53).
Definition two : double := S754_finite false 4503599627370496 (-51).
Definition minus_one : double := S754_finite true 4503599627370496 (-52).
Definition milli : double := S754_finite false 4611686018427388 (-62).       (* 0.001 *)
Definition kFit : double := S754_finite false 5179139571476070 (-52).        (* 1.15 *)
Definition M_PI : double := S754_finite false 7074237752028440 (-51).
Definition kFovYDeg : double := S754_finite false 6333186975989760 (-47).    (* 45.0 *)
Definition deg180 : double := S754_finite false 6333186975989760 (-45).      (* 180.0 *)
Definition headlight_intensity : double := S754_finite false 5497558138880000 (-40).   (* 5000.0f *)
Definition dome_intensity : double := S754_finite false 8796093022208000 (-43).        (* 1000.0f *)

Definition vec : Type := double * double * double.

Definition vadd (a b : vec) : vec :=
  let '(ax, ay, az) := a in let '(bx, bu, bz) := b in (dadd ax bx, dadd ay bu, dadd az bz).
Definition vscale (a : vec) (k : double) : vec :=
  let '(ax, ay, az) := a in (dmul ax k, dmul ay k, dmul az k).

(** [std::max]. *)
Definition dmax (a b : double) : double := if SFltb a b then b else a.

(** ** The libraries *)

(** A preview camera as it is handed to [SetFromCamera]. *)
Record GfCamera {Matrix : Type} := mkGfCamera {
  aspect_ratio : double;
  field_of_view : double;
  clipping_range : double * double;
  focus_distance : double;
  transform : Matrix }.

Record FrameRecorder := mkRecorder {
  renderer_plugin : string; image_width : Z; complexity : double; camera_light : bool }.

(** Every call can throw. A bounding range is [None] if it is empty; the accuracy
    of [std::tan] is the platform's. *)
Class Imaging `{Usd} := {
  StageOpen : string -> Disk -> option Stage + exn;
  Traverse : Stage -> list Prim;
  UsdGeomCamera : Type;
  IsCamera : Stage -> Prim -> bool;
  CameraOf : Stage -> Prim -> UsdGeomCamera;
  CameraValid : UsdGeomCamera -> bool;
  ComputeWorldRange : list string -> Stage -> option (vec * vec) + exn;
  GetMidpoint : vec * vec -> vec;
  GetSizeLength : vec * vec -> double;
  GetNormalized : vec -> vec;
  UpAxis : Stage -> string;
  tan : double -> double;
  Matrix : Type;
  LookAtInverse : vec -> vec -> vec -> Matrix;
  DefineCamera : string -> @GfCamera Matrix -> Stage -> Stage * (UsdGeomCamera + exn);
  DefineDistantLight : string -> double -> Matrix -> Stage -> Stage * (unit + exn);
  DefineDomeLight : string -> double -> Stage -> Stage * (unit + exn);
  RecordFrame : FrameRecorder -> Stage -> UsdGeomCamera -> string -> Disk -> Disk * (bool + exn) }.

(** What the code is built for. *)
Inductive platform := OSMesa | Linux | OtherPlatform.

(** The calls of the graphics libraries, the environment and the disk. *)
Record Renderer := mkRenderer { gl_calls : trace; env : Environment.environment; disk : Disk }.

Definition set_env e (s : Renderer) : Renderer := mkRenderer (gl_calls s) e (disk s).
Definition set_disk d (s : Renderer) : Renderer := mkRenderer (gl_calls s) (env s) d.

Section imaging.
Context `{U : Usd} `{Im : !Imaging} `{Dr : Driver} `{IO : IoErrors} `{SW : ShortWrites}.

(** ** The scene *)

Definition SetEnvIfUnset (name value : string) (env : Environment.environment) : Environment.environment :=
  Environment.setenv name value env.

Definition EnsureSoftwareGlEnv (env : Environment.environment) : Environment.environment :=
  let env := SetEnvIfUnset "LIBGL_ALWAYS_SOFTWARE" "1" env in
  let env := SetEnvIfUnset "GALLIUM_DRIVER" "llvmpipe" env in
  let env := SetEnvIfUnset "MESA_GL_VERSION_OVERRIDE" "4.5" env in
  SetEnvIfUnset "MESA_GLSL_VERSION_OVERRIDE" "450" env.

Definition FindAuthoredCamera (st : Stage) : option Prim := list_find (IsCamera st) (Traverse st) ≫= fun x => Some x.2.

Definition ComputeStageBounds (st : Stage) : option (vec * vec) + exn := ComputeWorldRange ["default"; "render"] st.

(** Where the preview camera is, and what it sees. *)
Definition preview_camera (st : Stage) (bounds : option (vec * vec)) : @GfCamera Matrix :=
  let '(center, radius) :=
    match bounds with
    | None => ((zero, zero, zero), one)
    | Some b => let r := dmul (GetSizeLength b) half in (GetMidpoint b, if SFleb r zero then one else r)
    end in
  let fovYRad := dmul kFovYDeg (ddiv M_PI deg180) in
  let dist := ddiv (dmul radius kFit) (tan (dmul fovYRad half)) in
  let '(dir, upVec) :=
    if bool_decide (UpAxis st = "Z")
    then (GetNormalized (one, minus_one, one), (zero, zero, one))
    else (GetNormalized (one, one, one), (zero, one, zero)) in
  let eye := vadd center (vscale dir dist) in
  let nearC := to_float (dmax milli (dsub dist (dmul radius two))) in
  let farC := to_float (dadd dist (dmul radius two)) in
  mkGfCamera Matrix one (to_float kFovYDeg) (nearC, farC) (to_float dist) (LookAtInverse eye center upVec).

Definition AuthorSyntheticCamera (bounds : option (vec * vec)) : M Stage UsdGeomCamera :=
  st ← get;
  let gf := preview_camera st bounds in
  cam ← DefineCamera "/__idtx_preview_cam" gf;
  _ ← DefineDistantLight "/__idtx_preview_headlight" headlight_intensity (transform gf);
  _ ← DefineDomeLight "/__idtx_preview_dome" dome_intensity;
  mret cam.

(** The stage with its camera, or what is thrown. *)
Definition find_camera (st : Stage) : (Stage * UsdGeomCamera) + exn :=
  match FindAuthoredCamera st with
  | Some authored => inl (st, CameraOf st authored)
  | None =>
      match ComputeStageBounds st with
      | inr e => inr e
      | inl bounds =>
          match AuthorSyntheticCamera bounds st with
          | (st, inl cam) => inl (st, cam)
          | (_, inr e) => inr e
          end
      end
  end.

(** ** The file *)

(** [file.tmp.png] next to [file.png]. *)
Definition tmp_name (out_path : string) : string := stem out_path +:+ ".tmp" +:+ extension out_path.
Definition tmp_path (out_path : string) : string := join (parent_path out_path) (tmp_name out_path).

(** [exists(tmp) && file_size(tmp) != 0]: a size that cannot be read counts. *)
Definition recorded_image (p : string) (d : Disk) : bool :=
  match canonical d p with
  | inl loc => match node_at d loc, io_error "stat" loc d with Some (File ""), None => false | _, _ => true end
  | inr _ => false
  end.

(** Moving the image into place: the error that is left. *)
Definition install (tmp out_path : string) (d : Disk) : Disk * option errc :=
  match rename tmp out_path d with
  | (d, None) => (d, None)
  | (d, Some _) =>
      let '(d, ec) := copy_file tmp out_path d in
      (fst (remove tmp d), ec)
  end.

(** ** [Generate] *)

Definition on_gl {A} (m : M trace A) : M Renderer A := fun s =>
  let '(h, r) := m (gl_calls s) in (mkRenderer h (env s) (disk s), r).

(** An object of a block: destroyed when the block is left, with an exception
    or without. *)
Definition scoped {C A} (new : M trace C) (delete : C -> M trace unit) (body : C -> M Renderer A) : M Renderer A :=
  c ← on_gl new;
  fun s => let '(s, r) := body c s in let '(s, _) := on_gl (delete c) s in (s, r).

Section generate.
(** The generator's [m_size_] (a size of 0 was replaced by 256, as in
    [Placeholder.v]), the file, its layer as the placeholder opens it, and the
    thumbnail. *)
Variables (size : Z) (layer : Placeholder.opened_layer) (usd_file out_path : string).

(** The right side is [out_error]; [None] would be undefined behaviour of the
    placeholder generator. *)
Definition fall_back (why : string) : M Renderer (option (unit + string)) := fun s =>
  match Placeholder.Generate size layer usd_file out_path (disk s) with
  | None => (s, inl None)
  | Some (d, inl tt) => (set_disk d s, inl (Some (inl tt)))
  | Some (d, inr placeholder_err) =>
      (set_disk d s, inl (Some (inr ("render failed (" +:+ why +:+ ") and placeholder failed ("
                                     +:+ placeholder_err +:+ ")"))))
  end.

Definition frame_recorder : FrameRecorder := mkRecorder "HdStormRendererPlugin" size one true.

Definition record (st : Stage) (camera : UsdGeomCamera) : M Renderer bool := fun s =>
  let '(d, r) := RecordFrame frame_recorder st camera (tmp_path out_path) (disk s) in
  let '(s, _) := on_gl (gl Render) (set_disk d s) in
  (s, r).

Definition render : M Renderer (option (unit + string)) :=
  d ← gets disk;
  match StageOpen usd_file d with
  | inr e => throw e
  | inl None => fall_back "stage could not be opened"
  | inl (Some st) =>
      match find_camera st with
      | inr e => throw e
      | inl (st, camera) =>
          if negb (CameraValid camera) then fall_back "no usable camera"
          else
            recorded ← record st camera;
            d ← gets disk;
            if negb recorded || negb (recorded_image (tmp_path out_path) d) then
              _ ← modify (fun s => set_disk (fst (remove (tmp_path out_path) (disk s))) s);
              fall_back "frame recorder produced no image"
            else
              let '(d, ec) := install (tmp_path out_path) out_path d in
              _ ← modify (set_disk d);
              match ec with
              | Some _ => fall_back "could not move rendered image into place"
              | None => mret (Some (inl tt))
              end
      end
  end.

(** The context of the platform around the rest of the [try] block. *)
Definition in_context (p : platform) : M Renderer (option (unit + string)) :=
  match p with
  | OSMesa =>
      scoped (OsMesaContext_new size) OsMesaContext_delete (fun gl =>
        if m_ok_ gl then render else fall_back ("OSMesa: " +:+ m_error_ gl))
  | Linux =>
      scoped (EglContext_new size) EglContext_delete (fun egl_ctx =>
        match error egl_ctx with
        | None => render
        | Some e => fall_back ("EGL init: " +:+ e)
        end)
  | OtherPlatform => render
  end.

(** What the handlers of the [try] block report of an exception. *)
Definition reported (e : exn) : string :=
  match e with StdException what => what | OtherException => "unknown exception" end.

Definition Generate (p : platform) : M Renderer (option (unit + string)) :=
  try_all (_ ← modify (fun s => set_env (EnsureSoftwareGlEnv (env s)) s); in_context p)
    (fun e => fall_back (reported e)).

(** ** The graphics libraries are used as they demand *)

(** [m] makes no call of the libraries; [m] at most renders. *)
Definition no_calls {A} (m : M Renderer A) : Prop := forall s, gl_calls (fst (m s)) = gl_calls s.

Definition draws {A} (m : M Renderer A) : Prop :=
  forall s l, uses nothing (gl_calls s) = Some l -> current l <> None -> uses nothing (gl_calls (fst (m s))) = Some l.

Lemma no_calls_draws {A} (m : M Renderer A) : no_calls m -> draws m.
Proof. intros Hm s l Hs _. by rewrite Hm. Qed.

Lemma draws_bind {A B} (m : M Renderer A) (f : A -> M Renderer B) :
  draws m -> (forall a, draws (f a)) -> draws (m ≫= f).
Proof.
  intros Hm Hf s l Hs Hc. specialize (Hm s l Hs Hc). unfold mbind, M_bind.
  destruct (m s) as [s1 [a|e]]; [|done]. by apply Hf.
Qed.

Lemma fall_back_no_calls why : no_calls (fall_back why).
Proof. intros s. unfold fall_back. by destruct (Placeholder.Generate _ _ _ _ _) as [[d [[]|]]|]. Qed.

Lemma record_draws st camera : draws (record st camera).
Proof.
  intros s l Hs Hc. unfold record. destruct (RecordFrame _ _ _ _ _) as [d r]. cbn.
  rewrite uses_snoc, Hs. cbn. by destruct (current l).
Qed.

Lemma render_draws : draws render.
Proof.
  assert (Hgets : forall A (f : Renderer -> A), draws (gets f)) by by intros; apply no_calls_draws.
  assert (Hmod : forall f, (forall s, gl_calls (f s) = gl_calls s) -> draws (modify f))
    by (intros f Hf; apply no_calls_draws; exact Hf).
  assert (Hback : forall why, draws (fall_back why)) by (intros; apply no_calls_draws, fall_back_no_calls).
  apply draws_bind; [apply Hgets|]. intros d. destruct (StageOpen _ _) as [[st|]|e]; [|apply Hback|by apply no_calls_draws].
  destruct (find_camera st) as [[st' camera]|e]; [|by apply no_calls_draws].
  destruct (negb _); [apply Hback|]. apply draws_bind; [apply record_draws|]. intros recorded.
  apply draws_bind; [apply Hgets|]. intros d'. destruct (_ || _).
  - apply draws_bind; [by apply Hmod|]. intros _. apply Hback.
  - destruct (install _ _ _) as [d2 ec]. apply draws_bind; [by apply Hmod|]. intros _.
    destruct ec; [apply Hback|by apply no_calls_draws].
Qed.

(** A block whose object the libraries accept. *)
Lemma scoped_released {C A} (new : M trace C) (delete : C -> M trace unit) (body : C -> M Renderer A) holds s :
  allowed (fun l => l = nothing) new holds ->
  (forall c, allowed (holds c) (delete c) (fun _ l => l = nothing)) ->
  (forall c s l, uses nothing (gl_calls s) = Some l -> holds c l -> uses nothing (gl_calls (fst (body c s))) = Some l) ->
  uses nothing (gl_calls s) = Some nothing ->
  uses nothing (gl_calls (fst (scoped new delete body s))) = Some nothing.
Proof.
  intros Hnew Hdel Hbody Hs. destruct (Hnew _ _ Hs eq_refl) as (h & l & c & E & Hh & Hl).
  unfold scoped, mbind, M_bind, on_gl. rewrite E. set (s1 := mkRenderer h _ _).
  specialize (Hbody c s1 l Hh Hl). destruct (body c s1) as [s2 r]. cbn [fst] in Hbody.
  destruct (Hdel c _ _ Hbody Hl) as (h3 & l3 & [] & E3 & Hh3 & ->). by rewrite E3.
Qed.

Lemma in_context_released p s :
  p <> OtherPlatform -> uses nothing (gl_calls s) = Some nothing ->
  uses nothing (gl_calls (fst (in_context p s))) = Some nothing.
Proof.
  intros Hp Hs. destruct p; [| |done].
  - eapply scoped_released; [apply OsMesaContext_new_allowed|apply OsMesaContext_delete_allowed| |done].
    intros c s' l Hl (cur & -> & _ & _ & Hok). cbn beta.
    destruct (m_ok_ c); [by apply render_draws; [|apply Hok]|by rewrite fall_back_no_calls].
  - eapply scoped_released; [apply EglContext_new_allowed|apply EglContext_delete_allowed| |done].
    intros c s' l Hl (ds & cur & -> & _ & _ & _ & _ & Hok). cbn beta.
    destruct (error c); [by rewrite fall_back_no_calls|by apply render_draws; [|apply Hok]].
Qed.

(** C38. Rendering uses the graphics libraries as they demand and leaves nothing
    behind. Whatever OSMesa or EGL answer to each call, however a step fails and
    whatever is thrown while the stage is opened and drawn: a handle is only
    used while it is live, a frame is only drawn while a context is current, and
    when [Generate] returns every library that was opened is closed and every
    context, surface and display that was created has been destroyed, once. *)
Theorem graphics_released p s :
  p <> OtherPlatform -> uses nothing (gl_calls s) = Some nothing ->
  uses nothing (gl_calls (fst (Generate p s))) = Some nothing.
Proof.
  intros Hp Hs. unfold Generate, try_all, mbind, M_bind, modify.
  pose proof (in_context_released p (set_env (EnsureSoftwareGlEnv (env s)) s) Hp Hs) as Hr.
  destruct (in_context p _) as [s1 [o|e]]; [done|]. by rewrite fall_back_no_calls.
Qed.

(** ** What ends up in the place of the thumbnail *)

Lemma tmp_name_plain : contains_char slash (tmp_name out_path) = false.
Proof.
  unfold tmp_name. rewrite !contains_app, stem_plain_chars, extension_plain_chars. done.
Qed.

Lemma tmp_name_regular : regular_name (tmp_name out_path).
Proof.
  assert (Hl : (4 <= String.length (tmp_name out_path))%nat)
    by (unfold tmp_name; rewrite !length_app_string; cbn [String.length]; lia).
  split_and!; intros He; rewrite He in Hl; cbn [String.length] in Hl; lia.
Qed.

(** The disk as the recorder left it: the directory of the thumbnail, where
    neither the thumbnail nor the image is a link, and the image. *)
Record recorded (d : Disk) (dir : list string) (image : string) : Prop := {
  recorded_parent : canonical d (parent_path out_path) = inl dir;
  recorded_directory : node_at d dir = Some Directory;
  recorded_name : regular_name (filename out_path);
  recorded_plain : forall t, node_at d (dir ++ [filename out_path]) <> Some (Symlink t);
  recorded_file : node_at d (dir ++ [tmp_name out_path]) = Some (File image) }.

Section recorded.
Context (d : Disk) (dir : list string) (image : string) (Hrec : recorded d dir image).
Let la := dir ++ [tmp_name out_path].
Let lb := dir ++ [filename out_path].

Lemma image_location : location d (tmp_path out_path) = inl la /\ location d out_path = inl lb /\ la <> [] /\ lb <> [].
Proof.
  destruct Hrec as [Hdir _ _ _ _]. split_and!; [|by apply location_in_parent|unfold la; by destruct dir|unfold lb; by destruct dir].
  apply location_sibling; [apply tmp_name_regular|apply tmp_name_plain|done].
Qed.

(** The image is a file, and the thumbnail is one if it is there and no directory. *)
Lemma other_entry loc n : node_at d loc = Some n -> (forall s, n <> File s) -> loc <> la.
Proof. intros Hn Hnf ->. unfold la in Hn. rewrite (recorded_file _ _ _ Hrec) in Hn. injection Hn as <-. by apply (Hnf image). Qed.

Lemma thumbnail_file n : node_at d lb <> Some Directory -> node_at d lb = Some n -> exists s, n = File s.
Proof. intros Hnd Hn. destruct n as [s| |t]; [by eexists|done|by apply (recorded_plain _ _ _ Hrec) in Hn]. Qed.

Lemma rename_reads d' : rename (tmp_path out_path) out_path d = (d', None) -> read_file out_path d' = Some image.
Proof.
  destruct image_location as (Htmp & Hout & Hla & Hlb). pose proof (recorded_file _ _ _ Hrec) as Hfile. fold la in Hfile.
  intros Hr. destruct (decide (la = lb)) as [He|Hne].
  - assert (d' = d) as ->.
    { unfold rename in Hr. rewrite Htmp, Hout, Hfile, bool_decide_true in Hr by done. destruct (io_error _ _ _); [done|].
      destruct (node_at d lb) as [[]|]; by injection Hr. }
    eapply read_entry; [apply Hrec..|done|done|]. fold lb. by rewrite <- He.
  - destruct (rename_file _ _ _ _ _ _ _ _ Hr Htmp Hout Hne Hfile) as [[[] _]|(_ & Hnd & ->)]; [done|].
    eapply read_entry; [apply Hrec..|done| |].
    + intros loc n Hn Hnf. pose proof (other_entry _ _ Hn Hnf). rewrite node_at_set, node_at_delete by done. case_decide as E.
      * subst loc. destruct (thumbnail_file n Hnd Hn) as [s ->]. by destruct (Hnf s).
      * by rewrite decide_False.
    + fold lb. rewrite node_at_set by done. by rewrite decide_True.
Qed.

Lemma copy_reads d' :
  copy_file (tmp_path out_path) out_path d = (d', None) ->
  read_file out_path (fst (remove (tmp_path out_path) d')) = Some image.
Proof.
  destruct image_location as (Htmp & Hout & Hla & Hlb). pose proof (recorded_file _ _ _ Hrec) as Hfile.
  intros Hc. unfold copy_file in Hc.
  assert (Hcan : canonical d (tmp_path out_path) = inl la).
  { eapply canonical_sibling; [apply tmp_name_regular|apply tmp_name_plain|apply Hrec|apply Hrec|exact Hfile]. }
  fold la in Hfile. rewrite Hcan, Hfile in Hc. destruct (open_file out_path d) as [l|] eqn:Hopen; [|done].
  apply open_file_location in Hopen as [Hl Hnd]; [|apply Hrec|intros l' t; rewrite Hout; intros [= <-]; apply Hrec].
  rewrite Hout in Hl. injection Hl as <-. destruct (bool_decide_reflect (la = lb)) as [|Hne]; [done|].
  destruct (short_write _ _ _) as [[]|]; [done|]. injection Hc as <-. set (d1 := set_node lb (File image) d).
  pose proof (same_shape_write lb image d Hlb (fun n => thumbnail_file n Hnd)) as Hshape.  fold d1 in Hshape.
  assert (Hkeep : forall loc, loc <> la -> node_at (fst (remove (tmp_path out_path) d1)) loc = node_at d1 loc).
  { intros loc Hloc. apply remove_keeps. rewrite (location_same_shape _ _ _ _ Hshape Htmp). congruence. }
  eapply read_entry; [apply Hrec..|by rewrite remove_cwd| |].
  - intros loc n Hn Hnf. rewrite Hkeep by by eapply other_entry. unfold d1. rewrite node_at_set by done.
    case_decide; [|done]. subst loc. destruct (thumbnail_file n Hnd Hn) as [s ->]. by destruct (Hnf s).
  - fold lb. rewrite Hkeep by done. unfold d1. rewrite node_at_set by done. by rewrite decide_True.
Qed.

Lemma install_reads d' : install (tmp_path out_path) out_path d = (d', None) -> read_file out_path d' = Some image.
Proof.
  unfold install. destruct (rename _ _ _) as [d1 [e|]] eqn:Hr.
  - apply rename_failed in Hr as ->. destruct (copy_file _ _ _) as [d1 ec] eqn:Hc. intros [= <- ->]. by apply copy_reads.
  - intros [= <-]. by apply rename_reads.
Qed.
End recorded.

(** ** The outcome *)

(** The answer of the fallback. *)
Definition placeholder_answer (why : string) (r : unit + string) : unit + string :=
  match r with
  | inl tt => inl tt
  | inr placeholder_err =>
      inr ("render failed (" +:+ why +:+ ") and placeholder failed (" +:+ placeholder_err +:+ ")")
  end.

(** What the recorder is given: the stage of the file and its camera. *)
Definition scene (d0 : Disk) (st : Stage) (camera : UsdGeomCamera) : Prop :=
  exists st0, StageOpen usd_file d0 = inl (Some st0) /\ find_camera st0 = inl (st, camera) /\
    CameraValid camera = true.

(** The graphics context of the platform could be made after the calls [h]. *)
Definition ready (p : platform) (h : trace) : Prop :=
  match p with
  | OSMesa => exists h1 gl, OsMesaContext_new size h = (h1, inl gl) /\ m_ok_ gl = true
  | Linux => exists h1 egl_ctx, EglContext_new size h = (h1, inl egl_ctx) /\ error egl_ctx = None
  | OtherPlatform => True
  end.

(** [fails p h d0 why d]: on the disk [d0], after the calls [h] of the graphics
    libraries, the rendering fails for the reason [why] and leaves the disk [d].
    Nothing touches the disk before the recorder; a recording that gave no image
    is removed. *)
Inductive fails (p : platform) (h : trace) (d0 : Disk) : string -> Disk -> Prop :=
| fails_osmesa h1 gl :
    p = OSMesa -> OsMesaContext_new size h = (h1, inl gl) -> m_ok_ gl = false ->
    fails p h d0 ("OSMesa: " +:+ m_error_ gl) d0
| fails_osmesa_throws h1 e :
    p = OSMesa -> OsMesaContext_new size h = (h1, inr e) -> fails p h d0 (reported e) d0
| fails_egl h1 egl_ctx e :
    p = Linux -> EglContext_new size h = (h1, inl egl_ctx) -> error egl_ctx = Some e ->
    fails p h d0 ("EGL init: " +:+ e) d0
| fails_egl_throws h1 e :
    p = Linux -> EglContext_new size h = (h1, inr e) -> fails p h d0 (reported e) d0
| fails_open : ready p h -> StageOpen usd_file d0 = inl None -> fails p h d0 "stage could not be opened" d0
| fails_open_throws e : ready p h -> StageOpen usd_file d0 = inr e -> fails p h d0 (reported e) d0
| fails_scene_throws st e :
    ready p h -> StageOpen usd_file d0 = inl (Some st) -> find_camera st = inr e -> fails p h d0 (reported e) d0
| fails_camera st st' camera :
    ready p h -> StageOpen usd_file d0 = inl (Some st) -> find_camera st = inl (st', camera) -> CameraValid camera = false ->
    fails p h d0 "no usable camera" d0
| fails_recording_throws st camera d1 e :
    ready p h -> scene d0 st camera -> RecordFrame frame_recorder st camera (tmp_path out_path) d0 = (d1, inr e) ->
    fails p h d0 (reported e) d1
| fails_recording st camera d1 ok :
    ready p h -> scene d0 st camera -> RecordFrame frame_recorder st camera (tmp_path out_path) d0 = (d1, inl ok) ->
    ok = false \/ recorded_image (tmp_path out_path) d1 = false ->
    fails p h d0 "frame recorder produced no image" (fst (remove (tmp_path out_path) d1))
| fails_install st camera d1 d2 ec :
    ready p h -> scene d0 st camera -> RecordFrame frame_recorder st camera (tmp_path out_path) d0 = (d1, inl true) ->
    recorded_image (tmp_path out_path) d1 = true -> install (tmp_path out_path) out_path d1 = (d2, Some ec) ->
    fails p h d0 "could not move rendered image into place" d2.

(** The placeholder was drawn on the disk the failed rendering left. *)
Definition drawn (p : platform) (h : trace) (d0 d' : Disk) (o : unit + string) : Prop :=
  exists why d r, fails p h d0 why d /\
    Placeholder.Generate size layer usd_file out_path d = Some (d', r) /\ o = placeholder_answer why r.

Definition rendered (p : platform) (h : trace) (d0 d' : Disk) (o : unit + string) : Prop :=
  o = inl tt /\ ready p h /\ exists st camera d1,
    scene d0 st camera /\ RecordFrame frame_recorder st camera (tmp_path out_path) d0 = (d1, inl true) /\
    install (tmp_path out_path) out_path d1 = (d', None) /\
    forall dir image, recorded d1 dir image ->
      read_file out_path d' = Some image /\ (io_error "stat" (dir ++ [tmp_name out_path]) d1 = None -> image <> "").

(** What is left of a run from [s] whose context was made after the calls [h]. *)
Definition finishes (p : platform) (h : trace) (s : Renderer) (x : Renderer * (option (unit + string) + exn)) : Prop :=
  env x.1 = env s /\
  match x.2 with
  | inl (Some o) => drawn p h (disk s) (disk x.1) o \/ rendered p h (disk s) (disk x.1) o
  | inl None => False
  | inr e => fails p h (disk s) (reported e) (disk x.1)
  end.

Context (Hsize : 0 <= size < 2 ^ 14).

Lemma fall_back_answers p h d0 why s :
  fails p h d0 why (disk s) ->
  exists s' o, fall_back why s = (s', inl (Some o)) /\ env s' = env s /\ drawn p h d0 (disk s') o.
Proof.
  intros Hf. destruct (Placeholder.generate_defined size layer usd_file out_path (disk s) Hsize) as (d' & r & Hg).
  unfold fall_back. rewrite Hg.
  destruct r as [[]|e]; (eexists _, _; split; [done|]; split; [done|]; by exists why, (disk s); eexists).
Qed.

Lemma fall_back_finishes p h why s0 s :
  env s = env s0 -> fails p h (disk s0) why (disk s) -> finishes p h s0 (fall_back why s).
Proof.
  intros He Hf. destruct (fall_back_answers _ _ _ _ _ Hf) as (s' & o & -> & He' & Hd).
  split; [cbn; congruence|by left].
Qed.

Lemma recorded_not_empty d dir image :
  recorded d dir image -> recorded_image (tmp_path out_path) d = true ->
  io_error "stat" (dir ++ [tmp_name out_path]) d = None -> image <> "".
Proof.
  intros Hr. unfold recorded_image, tmp_path.
  rewrite (canonical_sibling d out_path _ _ _ tmp_name_regular tmp_name_plain (recorded_parent _ _ _ Hr)
    (recorded_directory _ _ _ Hr) (recorded_file _ _ _ Hr)), (recorded_file _ _ _ Hr).
  intros Hi Hs ->. by rewrite Hs in Hi.
Qed.

Lemma render_finishes p h s : ready p h -> finishes p h s (render s).
Proof.
  intros Hready.
  unfold render, mbind, M_bind, gets, modify, throw, mret, M_ret.
  destruct (StageOpen _ _) as [[st|]|e] eqn:Hopen;
    [|by apply fall_back_finishes; [|by constructor]|by split; [|by apply fails_open_throws]].
  destruct (find_camera st) as [[st' camera]|e] eqn:Hcam; [|by split; [|by eapply fails_scene_throws]].
  destruct (CameraValid camera) eqn:Hvalid; cbn [negb];
    [|by apply fall_back_finishes; [|by eapply fails_camera]].
  assert (Hscene : scene (disk s) st' camera) by by exists st.
  unfold record. destruct (RecordFrame _ _ _ _ _) as [d1 [ok|e]] eqn:Hrec; cbn;
    [|by split; [|by eapply fails_recording_throws]].
  destruct (negb ok || _) eqn:Hok.
  { apply fall_back_finishes; [done|]. eapply fails_recording; [done..|].
    by apply orb_true_iff in Hok as [?%negb_true_iff|?%negb_true_iff]; [left|right]. }
  apply orb_false_iff in Hok as [Hok%negb_false_iff Himage%negb_false_iff]. subst ok.
  destruct (install _ _ _) as [d2 [ec|]] eqn:Hins; [by apply fall_back_finishes; [|by eapply fails_install]|].
  split; [done|]. right. do 2 (split; [done|]).
  exists st', camera, d1. split_and!; [done..|]. intros dir image Hr. split; [by eapply install_reads|].
  by apply recorded_not_empty.
Qed.

(** A block around the run: it ends as its body does, or fails with its object. *)
Lemma scoped_finishes {C} p (new : M trace C) (delete : C -> M trace unit) body s :
  (forall h1 e, new (gl_calls s) = (h1, inr e) -> fails p (gl_calls s) (disk s) (reported e) (disk s)) ->
  (forall h1 c, new (gl_calls s) = (h1, inl c) ->
     finishes p (gl_calls s) s (body c (mkRenderer h1 (env s) (disk s)))) ->
  finishes p (gl_calls s) s (scoped new delete body s).
Proof.
  intros He Hb. unfold scoped, mbind, M_bind, on_gl. destruct (new _) as [h1 [c|e]] eqn:Hn.
  - specialize (Hb h1 c eq_refl). destruct (body c _) as [s1 r]. by destruct (delete c _).
  - split; [done|]. by eapply He.
Qed.

Lemma finishes_after_calls p h h1 s x :
  finishes p h (mkRenderer h1 (env s) (disk s)) x -> finishes p h s x.
Proof. done. Qed.

Lemma in_context_finishes p s : finishes p (gl_calls s) s (in_context p s).
Proof.
  destruct p; [apply scoped_finishes..|by apply render_finishes].
  - intros h1 e Hn. by eapply fails_osmesa_throws.
  - intros h1 gl Hn. destruct (m_ok_ gl) eqn:Hok; [by eapply finishes_after_calls, render_finishes; eexists _, _|].
    apply fall_back_finishes; [done|]. by eapply fails_osmesa.
  - intros h1 e Hn. by eapply fails_egl_throws.
  - intros h1 egl Hn. destruct (error egl) eqn:He; [|by eapply finishes_after_calls, render_finishes; eexists _, _].
    apply fall_back_finishes; [done|]. by eapply fails_egl.
Qed.

(** C39. There is always a thumbnail, or an error that says why not. For a size
    below [2^14], on every platform and whatever the libraries answer or throw,
    [Generate] returns, with the software GL variables set in the environment, and
    in one of two ways. Either the stage of the file was recorded from the original
    disk and the image was moved into place without an error; then, if the recorder
    left a file and the thumbnail is not a link ([recorded]), the thumbnail is, byte
    for byte, that image, which is not empty if its size could be read. Or the
    rendering failed for one of the reasons of [fails], and the disk is as the
    placeholder generator leaves it when it starts from the disk the failed run
    left, which is the original one unless the recorder had run; the answer is the
    placeholder generator's, and if that fails too its error names that very
    reason and the placeholder's. *)
Theorem thumbnail_rendered_or_drawn p s :
  exists s' o, Generate p s = (s', inl (Some o)) /\
    env s' = EnsureSoftwareGlEnv (env s) /\
    (drawn p (gl_calls s) (disk s) (disk s') o \/ rendered p (gl_calls s) (disk s) (disk s') o).
Proof.
  unfold Generate, try_all. unfold mbind at 1, M_bind at 1, modify at 1.
  pose proof (in_context_finishes p (set_env (EnsureSoftwareGlEnv (env s)) s)) as [He Hc].
  destruct (in_context p _) as [s1 [[o|]|e]]; cbn in He, Hc; [by eexists _, _|done|].
  destruct (fall_back_answers _ _ _ _ _ Hc) as (s2 & o & -> & He2 & Hd).
  exists s2, o. split; [done|]. split; [by rewrite He2|by left].
Qed.
End generate.
End imaging.

(** ** Concrete runs *)
Import ToyWorld.

(** A recorder that writes its image and answers [r]. *)
Definition toy_imaging (r : bool + exn) : Imaging := {|
  StageOpen f d := inl (if exists_ d f then Some stage0 else None);
  Traverse _ := [];
  UsdGeomCamera := unit;
  IsCamera _ _ := false;
  CameraOf _ _ := tt;
  CameraValid _ := true;
  ComputeWorldRange _ _ := inl None;
  GetMidpoint r := r.1;
  GetSizeLength _ := zero;
  GetNormalized v := v;
  UpAxis _ := "Y";
  tan x := x;
  Matrix := unit;
  LookAtInverse _ _ _ := tt;
  DefineCamera _ _ st := (st, inl tt);
  DefineDistantLight _ _ _ st := (st, inl tt);
  DefineDomeLight _ _ st := (st, inl tt);
  RecordFrame _ _ _ p d := (fst (write_file p "PIXELS" d), r) |}.

#[local] Instance whole_writes : ShortWrites := fun _ _ _ => None.

(** A library that answers every call with [n]. *)
Definition driver (n : Z) : Driver := {| answer _ _ := n; devices _ := None; dlerror _ := "no library" |}.

Definition run (r : bool + exn) (n : Z) (p : platform) : Renderer * (option (unit + string) + exn) :=
  Generate (U := toy_usd) (Im := toy_imaging r) (Dr := driver n) 3 Placeholder.NoLayer "/srv/uploads/a.usda" "/srv/uploads/a.png" p
    (mkRenderer [] ∅ disk0).

Definition rendered_disk : Disk := set_node ["srv"; "uploads"; "a.png"] (File "PIXELS") disk0.

Example rendered_run : disk (fst (run (inl true) 1 Linux)) = rendered_disk /\ snd (run (inl true) 1 Linux) = inl (Some (inl tt)).
Proof. by vm_compute. Qed.

Lemma graphics_released_witness :
  (Linux <> OtherPlatform /\ uses nothing [] = Some nothing) /\
  (length (gl_calls (fst (run (inl true) 1 Linux))) = 13)%nat /\
  uses nothing (gl_calls (fst (run (inl true) 1 Linux))) = Some nothing.
Proof.
  split; [done|]. split; [by vm_compute|]. unfold run. by apply graphics_released.
Defined.

(** OSMesa is missing, so the placeholder is drawn, on the untouched disk. *)
Lemma thumbnail_rendered_or_drawn_witness :
  0 <= 3 < 2 ^ 14 /\
  exists s' o, run (inl true) 0 OSMesa = (s', inl (Some o)) /\
    (drawn (U := toy_usd) (Im := toy_imaging (inl true)) (Dr := driver 0) 3 Placeholder.NoLayer "/srv/uploads/a.usda"
       "/srv/uploads/a.png" OSMesa [] disk0 (disk s') o \/
     rendered (U := toy_usd) (Im := toy_imaging (inl true)) (Dr := driver 0) 3 "/srv/uploads/a.usda" "/srv/uploads/a.png" OSMesa [] disk0 (disk s') o) /\
    is_Some (read_file "/srv/uploads/a.png" (disk s')).
Proof.
  split; [lia|]. unfold run. edestruct (thumbnail_rendered_or_drawn (U := toy_usd) (Im := toy_imaging (inl true))
    (Dr := driver 0) 3 Placeholder.NoLayer "/srv/uploads/a.usda" "/srv/uploads/a.png" ltac:(lia) OSMesa (mkRenderer [] ∅ disk0))
    as (s' & o & Hg & _ & Ho).
  exists s', o. split; [exact Hg|]. split; [exact Ho|].
  apply (f_equal (fun x => disk (fst x))) in Hg. cbn [fst] in Hg. rewrite <- Hg.
  vm_compute. by eexists.
Defined.

(** A recorder that throws after it has written leaves its image behind, next to
    the placeholder. *)
Example interrupted_recording :
  let d := disk (fst (run (inr (StdException "lost device")) 1 Linux)) in
  exists_ d "/srv/uploads/a.png" = true /\ read_file "/srv/uploads/a.tmp.png" d = Some "PIXELS".
Proof. by vm_compute. Qed.
End Imaging.
