(* ===== verification/Ordering.v ===== *)
(** * Versions on the wire

    What a client can conclude from the [server_seq] of the frames it
    receives, whatever commands the session processes and whatever other
    sessions reload in between: versions never go down, and the server's record of what a connection has seen is exactly
    the highest version sent to it. *)
From S2P Require Import Prelude Filesystem Proto Usd Versions Session Broadcast Listener SendFacts.
From S2P Require Import Dispatch Committer Handlers Progress Budget Toy ToyWorld.

Module Ordering.
Import Session Broadcast Listener SendFacts Handlers Progress Budget.
Local Open Scope string_scope.
Local Open Scope list_scope.
Local Open Scope Z_scope.

Section ordering.
Context `{Usd} `{Wire} `{!WireOk} `{IoErrors} `{SW : ShortWrites}.

(** C13. Versions never go down. Whatever commands a session processes and
    whatever reloads of a shared layer reach it between them, and whether or not
    they fail or throw: frames are only appended to what was sent before, each
    goes to an attached connection, and their versions never go down in the
    order of sending, from the version the session had to the version it ends
    with, which is at most [budget B es] larger. [B] bounds the notices USD
    delivers for one change block, and the 64-bit counter must be further than
    that from its largest value. *)
Theorem versions_never_go_down B es w :
  (forall st, length (fst (close_change_block st)) <= B)%nat ->
  0 <= server_seq (ses w) -> server_seq (ses w) + Z.of_nat (budget B es) < 2 ^ 64 ->
  let w' := process es w in
  exists fs, outbox w' = outbox w ++ fs /\
    (forall f, f ∈ fs -> exists i, clients (ses w) !! i = Some (to_connection f)) /\
    Sorted Z.le (server_seq (ses w) :: (frame_seq <$> fs) ++ [server_seq (ses w')]) /\
    server_seq (ses w') <= server_seq (ses w) + Z.of_nat (budget B es).
Proof.
  intros HB Hn Hb. destruct (moves_process B HB es w) as (_ & fs & Ho & Hs & Hd & _).
  destruct (stamps_sorted _ _ _ _ Hs Hn Hb) as [Hle Hsort].
  exists fs. split_and!; [done| |done..].
  intros f Hf. by apply (proj1 (Forall_forall _ _) Hd f Hf).
Qed.

(** The bookkeeping of a connection agrees with the frames it was sent. *)
Definition consistent (w : World) (i : ConnectionId) (c : connection) : Prop :=
  sole (clients (ses w)) i c /\
  max_sent (versions (ses w)) i = foldl Z.max 0 (seqs_to c (outbox w)).

Lemma consistent_process es w i c : consistent w i c -> consistent (process es w) i c.
Proof.
  intros [Hi Hm]. destruct (progress_process es w) as (? & Hf & fs & Ho & _ & _ & Ht).
  split; [by rewrite (fixed_clients _ _ Hf)|].
  by rewrite Ho, seqs_to_app, foldl_app, <- Hm, (Ht i c Hi).
Qed.

Lemma foldl_max_lt (l : list Z) b m : foldl Z.max m l < b <-> m < b /\ forall x, x ∈ l -> x < b.
Proof.
  revert m. induction l as [|x l IH]; intros m; simpl.
  - split; [|by intros []]. intros Hm. split; [done|]. by intros y ?%not_elem_of_nil.
  - rewrite IH, Z.max_lub_lt_iff. setoid_rewrite elem_of_cons. split.
    + intros [[Hm Hx] Hl]. split; [done|]. intros y [->|Hy]; auto.
    + intros [Hm Hl]. auto.
Qed.

(** C14. The base of an update is checked against what the client was sent.
    After any commands and shared reloads, a base is reported [InvalidBase] exactly when it is
    above the version of every frame that was ever sent to the connection: a
    client that bases its updates on a version it received is never told
    that its base is invalid. *)
Theorem base_checked_against_frames_sent es w i c p base :
  i <> 0 -> 0 < base -> consistent w i c ->
  let w' := process es w in
  CheckUpdate i p base (versions (ses w')) = InvalidBase <->
  forall f, f ∈ outbox w' -> to_connection f = c -> frame_seq f < base.
Proof.
  intros Hi Hb Hw w'. destruct (consistent_process es w i c Hw) as [_ Hm]. fold w' in Hm.
  rewrite CheckUpdate_spec by done.
  transitivity (max_sent (versions (ses w')) i < base).
  - rewrite Z.gtb_ltb. destruct (Z.ltb_spec (max_sent (versions (ses w')) i) base).
    + done.
    + split; [|lia]. by destruct (_ <? _).
  - rewrite Hm, foldl_max_lt. split.
    + intros [_ Hl] f Hf Hc. apply Hl, list_elem_of_fmap. exists f. split; [done|].
      by apply list_elem_of_filter.
    + intros Hl. split; [lia|]. intros x (f & -> & [Hc Hf]%list_elem_of_filter)%list_elem_of_fmap. auto.
Qed.
End ordering.

(** ** On the demonstration session *)
Import ToyWorld.

(** The commands of [demo], with a reload by another session in the middle. *)
Definition happened : list event :=
  (Handled <$> take 3 demo) ++ [SharedReload [(stage0, [("/World/A", true)])]] ++ (Handled <$> drop 3 demo).

(** The small USD delivers at most one notice for a change block. *)
Lemma toy_notices (st : Stage) : (length (fst (close_change_block st)) <= 1)%nat.
Proof. cbn. destruct (pending st); simpl; lia. Qed.

(** At most eleven versions are counted. *)
Lemma versions_never_go_down_witness :
  server_seq (ses world0) + Z.of_nat (budget 1 happened) = 11 /\
  exists fs, outbox (process happened world0) = outbox world0 ++ fs /\
    (forall f, f ∈ fs -> exists i, clients (ses world0) !! i = Some (to_connection f)) /\
    Sorted Z.le (server_seq (ses world0) :: (frame_seq <$> fs) ++ [server_seq (ses (process happened world0))]) /\
    server_seq (ses (process happened world0)) <= server_seq (ses world0) + Z.of_nat (budget 1 happened).
Proof. split; [reflexivity|]. by apply (versions_never_go_down 1 happened world0 toy_notices). Defined.

Lemma consistent_demo : consistent world0 4 40.
Proof.
  split; [split; [done|]|reflexivity]. intros j Hj. cbn in Hj.
  apply lookup_insert_Some in Hj as [[<- _]|[_ Hj]]; [done|].
  by apply lookup_singleton_Some in Hj as [_ ?].
Qed.

Lemma base_checked_against_frames_sent_witness :
  CheckUpdate 4 "/World/A" 5 (versions (ses (process happened world0))) = InvalidBase <->
  forall f, f ∈ outbox (process happened world0) -> to_connection f = 40 -> frame_seq f < 5.
Proof. apply (base_checked_against_frames_sent happened world0 4 40); [done|done|]. exact consistent_demo. Defined.

End Ordering.
