(* ===== verification/Authoring.v ===== *)
(** * What authoring does to a session

    The dispatchers author through USD, which calls the listener back. Whatever
    the notices are, the session's marks, its flags and everything outside the
    stage, the frames and the versions are as before ([quiet]); and authoring
    ends with a result or a [std::exception] if USD's calls do ([UsdThrows]). *)
From S2P Require Import Prelude Filesystem Proto Usd Versions Session Broadcast Listener SendFacts.
From S2P Require Import Dispatch Committer Handlers Progress.

Module Authoring.
Import Session Broadcast Listener SendFacts Handlers Progress.
Local Open Scope string_scope.
Local Open Scope list_scope.
Local Open Scope Z_scope.

Section authoring.
Context `{Usd} `{Wire}.

(** ** What authoring leaves alone *)

Definition live (w : World) : Prop := is_Some (stage (ses w)).

(** The marks by which the listener knows what is going on. *)
Definition marks (s : Session) :=
  (current_origin s, reload_in_progress s, create_in_progress s, set_active_in_progress s).

Definition quiet (w w' : World) : Prop :=
  (marks (ses w'), dirty (ses w'), created_at (ses w')) =
    (marks (ses w), dirty (ses w), created_at (ses w)) /\
  (disk w', results w', peers w', pendings w') = (disk w, results w, peers w, pendings w) /\
  (live w -> live w').

#[export] Instance quiet_preorder : PreOrder quiet.
Proof.
  split; [done|]. intros w1 w2 w3 (? & ? & ?) (? & ? & ?). split_and!; [congruence..|auto].
Qed.

Lemma quiet_sent fs f w : quiet w (sent fs f w).
Proof. done. Qed.

Lemma quiet_OnObjectsChanged n w : quiet w (fst (OnObjectsChanged n w)).
Proof. rewrite OnObjectsChanged_eq. by destruct (notice_prims (ses w) n). Qed.

Lemma quiet_set_stage st w : quiet w (with_session (set_stage (Some st)) w).
Proof. split_and!; [done..|]. intros _. by eexists. Qed.

Lemma preserves_quiet_deliver l : preserves quiet (deliver l).
Proof.
  apply preserves_for_each; [apply _|]. intros [st n] _.
  apply preserves_bind; [apply _|intros w; apply quiet_set_stage|]. intros _.
  apply preserves_bind; [apply _|by intros w|]. intros [[]|]; try apply preserves_ret, _.
  intros w. apply quiet_OnObjectsChanged.
Qed.

Lemma preserves_quiet_author {A} (op : M Stage A) : preserves quiet (author op).
Proof.
  apply preserves_bind; [apply _|by intros w|]. intros [st|]; [|apply preserves_throw, _].
  destruct (op st) as [st1 r], (close_change_block st1) as [l st2].
  apply preserves_bind; [apply _|apply preserves_quiet_deliver|]. intros _.
  apply preserves_bind; [apply _|intros w; apply quiet_set_stage|]. intros _.
  destruct r; [apply preserves_ret, _|apply preserves_throw, _].
Qed.

Lemma preserves_quiet_session {A} (f : Session -> A) : preserves quiet (session f).
Proof. by intros w. Qed.

Lemma preserves_quiet_Apply upd : preserves quiet (TransformDispatcher.Apply upd).
Proof.
  unfold TransformDispatcher.Apply. cbv zeta.
  preserves_tac; apply _ || apply preserves_quiet_session || apply preserves_quiet_author.
Qed.

Lemma preserves_quiet_Create parent type : preserves quiet (PrimDispatcher.Create parent type).
Proof.
  unfold PrimDispatcher.Create, PrimDispatcher.AuthorPrim, on_stage. cbv zeta.
  preserves_tac; apply _ || apply preserves_quiet_session || apply preserves_quiet_author.
Qed.

Lemma preserves_quiet_SetActive path active : preserves quiet (PrimDispatcher.SetActive path active).
Proof.
  unfold PrimDispatcher.SetActive. cbv zeta.
  preserves_tac; apply _ || apply preserves_quiet_session || apply preserves_quiet_author.
Qed.

(** ** Authoring ends with a result *)

Section throws.
Context `{!UsdThrows} `{!UsdLaws}.

Lemma returns_session {A} (f : Session -> A) : returns live (session f).
Proof. apply returns_gets. Qed.

Lemma returns_OnObjectsChanged n : returns live (OnObjectsChanged n).
Proof.
  intros w Hw. split; [by apply quiet_OnObjectsChanged|]. rewrite OnObjectsChanged_eq. by eexists.
Qed.

Lemma returns_set_stage st : returns live (update (set_stage (Some st))).
Proof. apply returns_modify. by eexists. Qed.

Lemma returns_deliver l : returns live (deliver l).
Proof.
  apply returns_for_each. intros [st n]. apply returns_bind; [apply returns_set_stage|]. intros _.
  apply returns_bind; [apply returns_session|]. intros [[]|];
    [apply returns_OnObjectsChanged|apply returns_ret..].
Qed.

Lemma throws_author {A} (op : M Stage A) :
  throws_std (fun _ => True) op -> throws_std live (author op).
Proof.
  intros Hop w [st Hst]. unfold author. erewrite bind_ok by reflexivity. cbv beta. rewrite Hst.
  destruct (Hop st I) as [_ Hr]. destruct (op st) as [st1 r], (close_change_block st1) as [l st2].
  assert (Hl : live w) by (by exists st). revert w Hst Hl. cut (throws_std live
    (_ ← deliver l; _ ← update (set_stage (Some st2)); match r with inl a => mret a | inr e => throw e end)).
  { intros Hc w ? ?. by apply Hc. }
  apply throws_std_bind; [apply returns_throws_std, returns_deliver|]. intros _.
  apply throws_std_bind; [apply returns_throws_std, returns_set_stage|]. intros _.
  destruct r as [a|[s|]]; [apply returns_throws_std, returns_ret|apply throws_std_throw|done].
Qed.

Lemma throws_Apply upd : throws_std live (TransformDispatcher.Apply upd).
Proof.
  unfold TransformDispatcher.Apply, TransformDispatcher.ApplySeparate,
    TransformDispatcher.ApplyMatrix. cbv zeta.
  throws_tac; try apply throws_author; throws_tac; apply returns_throws_std, returns_session
    || apply clear_ops_throws || apply add_op_throws || apply set_op_throws.
Qed.

Lemma throws_SetActive path active : throws_std live (PrimDispatcher.SetActive path active).
Proof.
  unfold PrimDispatcher.SetActive. cbv zeta.
  throws_tac; try apply throws_author; throws_tac; apply returns_throws_std, returns_session
    || apply prim_set_active_throws.
Qed.
End throws.
End authoring.
End Authoring.
