(* ===== verification/Naming.v ===== *)
(** * Where a prim may be created, and under which name

    The walk to a prim's ancestors and the search for a free child name end on
    every stage, and what they find decides which creations are allowed. *)
From stdpp Require Import pretty.
From S2P Require Import Prelude Filesystem Proto Usd Versions Session Broadcast Listener SendFacts.
From S2P Require Import Dispatch Committer Handlers Progress Toy ToyWorld Authoring.

Module Naming.
Import Session Broadcast Listener SendFacts Handlers Progress Authoring PrimDispatcher.
Local Open Scope string_scope.
Local Open Scope list_scope.
Local Open Scope Z_scope.

(** ** Candidate names *)

Lemma candidate_name_inj base n m : candidate_name base n = candidate_name base m -> n = m.
Proof.
  assert (Hlen : forall s : string, (String.length s <= 0)%nat -> s = "") by (intros []; simpl; [done|lia]).
  assert (Happ : forall a b, String.length (a +:+ b)%string = (String.length a + String.length b)%nat).
  { induction a as [|c a IH]; intros b; simpl; [done|]. by rewrite IH. }
  assert (Hne : forall s : string, base <> (base +:+ "_" +:+ s)%string).
  { intros s Heq. apply (f_equal String.length) in Heq. rewrite Happ in Heq. simpl in Heq. lia. }
  destruct n as [|n], m as [|m]; simpl; [done|by intros ?%Hne|by intros Heq; symmetry in Heq; apply Hne in Heq|].
  intros Heq%Toy.string_app_inj. injection Heq as Heq. apply pretty_N_inj in Heq. lia.
Qed.

Section naming.
Context `{Usd} `{Wire} `{!UsdLaws}.

Definition candidate_path (parent : SdfPath) (base : string) (n : nat) : SdfPath :=
  AppendChild parent (candidate_name base n).

Lemma unique_child_Some fuel n st parent base child name :
  unique_child fuel n st parent base = Some (child, name) ->
  exists k, (n <= k)%nat /\ name = candidate_name base k /\ child = candidate_path parent base k /\
    GetPrimAtPath st child = None /\
    forall j, (n <= j < k)%nat -> GetPrimAtPath st (candidate_path parent base j) <> None.
Proof.
  revert n. induction fuel as [|fuel IH]; intros n; simpl;
    destruct (GetPrimAtPath st (AppendChild parent (candidate_name base n))) as [p|] eqn:Hp;
    intros Hu; simplify_eq.
  - exists n. split_and!; [lia|done..|intros; lia].
  - destruct (IH _ Hu) as (k & ? & ? & ? & ? & Hj). exists k. split_and!; [lia|done..|].
    intros j ?. destruct (decide (j = n)) as [->|]; [unfold candidate_path; congruence|]. apply Hj. lia.
  - exists n. split_and!; [lia|done..|intros; lia].
Qed.

Lemma unique_child_None fuel n st parent base :
  unique_child fuel n st parent base = None ->
  forall j, (n <= j <= n + fuel)%nat -> GetPrimAtPath st (candidate_path parent base j) <> None.
Proof.
  revert n. induction fuel as [|fuel IH]; intros n; simpl;
    destruct (GetPrimAtPath st (AppendChild parent (candidate_name base n))) as [p|] eqn:Hp;
    intros Hu j Hj; simplify_eq;
    (destruct (decide (j = n)) as [->|]; [unfold candidate_path; congruence|]); [lia|].
  apply (IH _ Hu). lia.
Qed.

(** The stage cannot have a prim at every candidate. *)
Lemma unique_child_total st parent base :
  unique_child (length (stage_paths st)) 0 st parent base <> None.
Proof.
  intros Hu. pose proof (unique_child_None _ _ _ _ _ Hu) as Hall.
  set (cands := candidate_path parent base <$> seq 0 (S (length (stage_paths st)))).
  assert (Hnd : NoDup cands).
  { apply NoDup_fmap; [|apply NoDup_seq]. intros i j Hij.
    by apply append_child_inj, candidate_name_inj in Hij. }
  assert (Hsub : cands ⊆ stage_paths st).
  { intros p (j & -> & Hj)%list_elem_of_fmap. apply elem_of_seq in Hj.
    apply prim_in_stage_paths, Hall. lia. }
  assert (Hlen : (length cands <= length (stage_paths st))%nat)
    by (by apply submseteq_length, NoDup_submseteq).
  unfold cands in Hlen. rewrite length_fmap, length_seq in Hlen. lia.
Qed.

(** A new prim gets the first free name. On every stage the search of
    [UniqueChildPath] ends, and returns the child of the parent with the first
    of the names [base], [base_1], [base_2], ... at which there is no prim
    yet. *)
Theorem unique_child_path_first_free st parent base_name :
  let base := TfMakeValidIdentifier base_name in
  exists k, UniqueChildPath st parent base_name =
      Some (AppendChild parent (candidate_name base k), candidate_name base k) /\
    GetPrimAtPath st (AppendChild parent (candidate_name base k)) = None /\
    forall j, (j < k)%nat -> GetPrimAtPath st (AppendChild parent (candidate_name base j)) <> None.
Proof.
  intros base. unfold UniqueChildPath. fold base.
  destruct (unique_child _ 0 st parent base) as [[child name]|] eqn:Hu;
    [|by apply unique_child_total in Hu].
  destruct (unique_child_Some _ _ _ _ _ _ _ Hu) as (k & _ & -> & -> & Hfree & Hall).
  exists k. split_and!; [done..|]. intros j Hj. apply Hall. lia.
Qed.

(** ** Ancestors *)

(** The step of the walk: from a prim that is not the pseudo-root to its
    parent. *)
Definition up (st : Stage) (p q : Prim) : Prop := IsPseudoRoot st p = false /\ GetParent st p = Some q.

(** A prim or one of its ancestors is a gprim. *)
Definition under_gprim (st : Stage) (p : Prim) : Prop :=
  exists q, rtc (up st) p q /\ IsPseudoRoot st q = false /\ IsGprim st q = true.

Lemma gprim_ancestor_spec st (depth : Prim -> nat) fuel p :
  (forall p q, GetParent st p = Some q -> (depth q < depth p)%nat) -> (depth p < fuel)%nat ->
  exists b, gprim_ancestor fuel st (Some p) = Some b /\ (b = true <-> under_gprim st p).
Proof.
  intros Hd. revert p. induction fuel as [|fuel IH]; intros p Hp; [lia|]. simpl.
  destruct (IsPseudoRoot st p) eqn:Hroot.
  { exists false. split; [done|]. split; [done|]. intros (q & Hq & Hnr & _).
    inversion Hq as [|? ? ? [? _]]; simplify_eq; congruence. }
  destruct (IsGprim st p) eqn:Hg.
  { exists true. split; [done|]. split; [|done]. intros _. exists p. split_and!; done || reflexivity. }
  destruct (GetParent st p) as [q|] eqn:Hq.
  - pose proof (Hd p q Hq). destruct (IH q) as (b & -> & Hb); [lia|]. exists b. split; [done|].
    rewrite Hb. split; intros (r & Hr & ? & ?).
    + exists r. split_and!; [|done..]. by eapply rtc_l.
    + inversion Hr as [|? q' ? [_ Hq'] Hr']; simplify_eq; [congruence|]. by exists r.
  - exists false. assert (gprim_ancestor fuel st None = Some false) as -> by by destruct fuel.
    split; [done|]. split; [done|]. intros (r & Hr & ? & ?).
    inversion Hr as [|? q' ? [_ Hq'] Hr']; simplify_eq; congruence.
Qed.

Lemma HasGprimAncestor_spec st path p :
  GetPrimAtPath st path = Some p ->
  exists b, HasGprimAncestor st p = Some b /\ (b = true <-> under_gprim st p).
Proof.
  intros Hp. destruct (ancestors_finite st) as (depth & Hb & Hd).
  apply (gprim_ancestor_spec st depth); [done|]. by eapply Hb.
Qed.

(** ** Creation *)

Lemma UniqueChildPath_total st parent base : UniqueChildPath st parent base <> None.
Proof. apply unique_child_total. Qed.

Lemma throws_on_stage {A} (f : Stage -> A) : throws_std live (on_stage f).
Proof.
  intros w [st Hst]. unfold on_stage. erewrite bind_ok by reflexivity. cbv beta. rewrite Hst.
  split; [by exists st|done].
Qed.

Lemma try_none {A} (m : M World (option A)) w w' a :
  try_std m (fun _ => mret None) w = (w', inl (Some a)) -> m w = (w', inl (Some a)).
Proof. unfold try_std. by destruct (m w) as [w1 [r|[e|]]]. Qed.

Lemma bind_inv {A B} (m : M World A) (f : A -> M World B) w w' b :
  (m ≫= f) w = (w', inl b) -> exists a w1, m w = (w1, inl a) /\ f a w1 = (w', inl b).
Proof. unfold mbind, M_bind. destruct (m w) as [w1 [a|e]]; [by eauto|done]. Qed.

(** Reading the attributes keeps the name and the path. *)
Lemma ReadAttributes_name st p type out :
  created_name (ReadAttributes st p type out) = created_name out /\
  created_prim_path (ReadAttributes st p type out) = created_prim_path out.
Proof. unfold ReadAttributes. by destruct p, type. Qed.

Lemma created_from (m : M World bool) child name type w w' created :
  try_std
    (authored ← m;
     if negb authored then mret None
     else on_stage (fun st' =>
            Some (ReadAttributes st' (GetPrimAtPath st' child) type (new_created name (GetString child)))))
    (fun _ => mret None) w = (w', inl (Some created)) ->
  created_name created = name /\ created_prim_path created = GetString child.
Proof.
  intros (b & w1 & _ & Hr)%try_none%bind_inv. destruct b; [|done]. cbn [negb] in Hr.
  apply bind_inv in Hr as ([st'|] & w2 & _ & Hr); [|done]. injection Hr as _ <-.
  apply ReadAttributes_name.
Qed.

(** The search ends, so a creation throws nothing but [std::exception]s. *)
Lemma throws_Create `{!UsdThrows} parent type : throws_std live (PrimDispatcher.Create parent type).
Proof.
  unfold PrimDispatcher.Create, PrimDispatcher.AuthorPrim. cbv zeta.
  throws_tac; try apply throws_author; throws_tac; apply returns_throws_std, returns_session
    || apply define_prim_throws || apply throws_on_stage || match goal with Hu : UniqueChildPath _ _ _ = None |- _ => by apply UniqueChildPath_total in Hu end.
Qed.

(** C20. Prims are only created where they may be. When [Create] reports a
    prim, the parent path is a valid absolute path of an active prim (or the
    root), no gprim is put below a gprim, and the new prim's path was free: it
    is the first free child of the parent for the name of its type. *)
Theorem create_only_where_allowed parent_path type w w' created :
  PrimDispatcher.Create parent_path type w = (w', inl (Some created)) ->
  exists st p k, stage (ses w) = Some st /\
    IsValidPathString parent_path = true /\ IsAbsolutePath (MakePath parent_path) = true /\
    GetPrimAtPath st (MakePath parent_path) = Some p /\ IsActive st p = true /\
    BaseNameFor type <> "" /\
    (IsGprimType type = true -> ~ under_gprim st p) /\
    let base := TfMakeValidIdentifier (BaseNameFor type) in
    let child := AppendChild (MakePath parent_path) (candidate_name base k) in
    created_name created = candidate_name base k /\
    created_prim_path created = GetString child /\
    GetPrimAtPath st child = None /\
    forall j, (j < k)%nat -> GetPrimAtPath st (candidate_path (MakePath parent_path) base j) <> None.
Proof.
  unfold PrimDispatcher.Create. erewrite bind_ok by reflexivity. cbv beta zeta.
  destruct (stage (ses w)) as [st|]; [|done].
  destruct (Str.is_empty (BaseNameFor type)) eqn:Hbase; [done|].
  destruct (Str.is_empty parent_path || negb (IsValidPathString parent_path)) eqn:Hvalid; [done|].
  destruct (negb (IsAbsolutePath (MakePath parent_path)) || _) eqn:Habs; [done|].
  destruct (GetPrimAtPath st (MakePath parent_path)) as [p|] eqn:Hp; [|done].
  destruct (IsActive st p) eqn:Hact; [|done]. cbn [negb].
  destruct (IsGprimType type && default true (HasGprimAncestor st p)) eqn:Hg; [done|].
  unfold UniqueChildPath.
  destruct (unique_child _ 0 st _ _) as [[child name]|] eqn:Hu; [|by apply unique_child_total in Hu].
  destruct (unique_child_Some _ _ _ _ _ _ _ Hu) as (k & _ & -> & -> & Hfree & Hall).
  intros Hrun. apply created_from in Hrun as [Hname Hpath].
  apply orb_false_iff in Hvalid as [_ Hvalid%negb_false_iff].
  apply orb_false_iff in Habs as [Habs%negb_false_iff _].
  exists st, p, k. split_and!; try done.
  - intros Heq. by rewrite Heq in Hbase.
  - intros Ht Hup. rewrite Ht in Hg. destruct (HasGprimAncestor_spec st _ p Hp) as (b & Hb & Hiff).
    rewrite Hb in Hg. cbn in Hg. subst b. by apply Hiff in Hup.
  - intros j Hj. apply Hall. lia.
Qed.
End naming.

(** ** On the demonstration session *)
Import ToyWorld.

Lemma unique_child_path_first_free_witness :
  exists k, UniqueChildPath (H := toy_usd) stage0 "/World" "A" =
      Some (AppendChild (Usd := toy_usd) "/World" (candidate_name "A" k), candidate_name "A" k) /\
    GetPrimAtPath (Usd := toy_usd) stage0 (AppendChild (Usd := toy_usd) "/World" (candidate_name "A" k)) = None /\
    forall j, (j < k)%nat ->
      GetPrimAtPath (Usd := toy_usd) stage0 (AppendChild (Usd := toy_usd) "/World" (candidate_name "A" j)) <> None.
Proof. apply (unique_child_path_first_free (H := toy_usd) stage0 "/World" "A"). Defined.

Lemma create_only_where_allowed_witness :
  exists w' created k,
    PrimDispatcher.Create (H := toy_usd) "/World" PRIM_TYPE_CUBE world0 = (w', inl (Some created)) /\
    created_name created = candidate_name "Cube" k.
Proof.
  assert (Hs : snd (PrimDispatcher.Create (H := toy_usd) "/World" PRIM_TYPE_CUBE world0) =
    inl (Some (mkCreatedPrim "Cube" "/World/Cube" (Some one) None None None)))
    by (vm_compute; reflexivity).
  destruct (PrimDispatcher.Create (H := toy_usd) "/World" PRIM_TYPE_CUBE world0) as [w' r] eqn:Hr.
  cbn [snd] in Hs. rewrite Hs in Hr.
  destruct (create_only_where_allowed (H := toy_usd) "/World" PRIM_TYPE_CUBE world0 _ _ Hr)
    as (st & p & k & Hrest).
  exists w', (mkCreatedPrim "Cube" "/World/Cube" (Some one) None None None), k. split; [by rewrite Hs|].
  apply Hrest.
Defined.

Example second_candidate :
  UniqueChildPath (H := toy_usd) stage0 "/World" "A" = Some ("/World/A_1", "A_1").
Proof. reflexivity. Qed.

End Naming.
