(* ===== verification/Replies.v ===== *)
(** * Requests and their replies

    How the session answers the three requests a client can make (a transform
    update, a prim creation, an activation): which frames go to whom in which
    order, what the Ack says, and what has changed when it does. *)
From S2P Require Import Prelude Filesystem Proto Usd Versions Session Broadcast Listener SendFacts.
From S2P Require Import Dispatch Committer Handlers Progress Toy ToyWorld Authoring Naming.

Module Replies.
Import Session Broadcast Listener SendFacts Handlers Progress Authoring Naming.
Local Open Scope string_scope.
Local Open Scope list_scope.
Local Open Scope Z_scope.

Section replies.
Context `{Usd} `{Wire} `{!WireOk} `{IoErrors} `{SW : ShortWrites}.

Lemma ProcessCommand_fst c w : fst (ProcessCommand c w) = fst (HandleCommand c w).
Proof. unfold ProcessCommand, try_all. by destruct (HandleCommand c w) as [w' []]. Qed.

(** ** Acks *)

(** The Acks among some frames: to whom, and for which request. *)
Definition acks (fs : list Frame) : list (connection * Z) :=
  (fun f => (to_connection f, msg_request_id (message_of (payload f)))) <$>
    filter (fun f => is_ack f = true) fs.

Lemma acks_app fs1 fs2 : acks (fs1 ++ fs2) = acks fs1 ++ acks fs2.
Proof. unfold acks. by rewrite filter_app, fmap_app. Qed.

Definition owed_to (i rid : Z) (cs : gmap ConnectionId connection) : list (connection * Z) :=
  match cs !! i with
  | Some conn => if i =? 0 then [] else [(conn, rid)]
  | None => []
  end.

(** The Acks a command owes: one to the connection that made the request, if
    it is still attached. *)
Definition owed (cs : gmap ConnectionId connection) (c : SessionCommand) : list (connection * Z) :=
  match request c with
  | Some (i, rid) => owed_to i rid cs
  | None => []
  end.

Definition owed_by (cs : gmap ConnectionId connection) (e : event) : list (connection * Z) :=
  match e with Handled c => owed cs c | SharedReload _ => [] end.

(** The frames from [w] to [w'] hold the Acks [l]. *)
Definition acked (l : list (connection * Z)) (w w' : World) : Prop :=
  fixed w' = fixed w /\ exists fs, outbox w' = outbox w ++ fs /\ acks fs = l.

Lemma acked_trans l1 l2 w1 w2 w3 : acked l1 w1 w2 -> acked l2 w2 w3 -> acked (l1 ++ l2) w1 w3.
Proof.
  intros (Hf1 & fs1 & Ho1 & <-) (Hf2 & fs2 & Ho2 & <-). split; [congruence|].
  exists (fs1 ++ fs2). split; [by rewrite Ho2, Ho1, app_assoc|]. apply acks_app.
Qed.

Lemma progress_acked w w' : progress not_ack w w' -> acked [] w w'.
Proof.
  intros (b & Hf & fs & Ho & _ & Hd & _). split; [done|]. exists fs. split; [done|].
  clear Ho. unfold acks. induction Hd as [|f fs [_ Hf'] Hd IH]; [done|].
  rewrite filter_cons, decide_False by (unfold not_ack in Hf'; congruence). apply IH.
Qed.

Lemma SendAck_acked i rid ok err w :
  acked (owed_to i rid (clients (ses w))) w (fst (SendAck i rid ok err w)).
Proof.
  rewrite SendAck_eq. cbn [fst]. unfold owed_to. destruct (clients (ses w) !! i) as [conn|].
  - cbv zeta. unfold SerializeAck. rewrite serialized_nonempty by done. rewrite orb_false_r.
    destruct (i =? 0); [split; [done|]; exists []; by rewrite app_nil_r|].
    split; [done|]. by eexists.
  - split; [done|]. exists []. by rewrite app_nil_r.
Qed.

(** A step that sends no Ack, before one that does. *)
Lemma acked_bind {A B} l (m : M World A) (f : A -> M World B) w a :
  snd (m w) = inl a -> progress not_ack w (fst (m w)) ->
  (clients (ses (fst (m w))) = clients (ses w) -> acked l (fst (m w)) (fst (f a (fst (m w))))) ->
  acked l w (fst ((m ≫= f) w)).
Proof.
  intros Ha Hp Hl. unfold mbind, M_bind. destruct (m w) as [w1 r]. simpl in *. subst r.
  apply (acked_trans [] l _ w1); [by apply progress_acked|]. apply Hl.
  eapply fixed_clients, progress_fixed, Hp.
Qed.

Lemma progress_update f w :
  (forall s, identity (f s) = identity s /\ server_seq (f s) = server_seq s /\
     forall i, max_sent (versions (f s)) i = max_sent (versions s) i) ->
  progress not_ack w (fst (update f w)).
Proof. intros Hf. by apply (preserves_update not_ack f Hf w). Qed.

Lemma acked_announce path origin rid (payload_of : Session -> Z -> Payload) w :
  (forall s n, msg_server_seq (message_of (payload_of s n)) = n) ->
  (forall s n c, not_ack (mkFrame c (payload_of s n))) ->
  acked (owed_to origin rid (clients (ses w))) w
    (fst ((seq ← next_seq;
      _ ← on_versions (RecordChange path seq origin);
      s ← session (fun s => s);
      _ ← BroadcastToAll (payload_of s seq) seq;
      SendAck origin rid true "") w)).
Proof.
  intros Hp Hn. eapply acked_bind; [reflexivity|apply progress_bumped|]. intros _.
  set (n := u64 (server_seq (ses w) + 1)).
  eapply acked_bind; [reflexivity|eexists; by apply (steady_records not_ack n)|]. intros _.
  eapply acked_bind; [reflexivity|reflexivity|]. intros _.
  match goal with |- acked _ ?w1 (fst ((BroadcastToAll ?p _ ≫= _) _)) =>
    assert (Hs : steady not_ack n (BroadcastToAll p n)) by (by apply steady_BroadcastToAll);
    eapply (acked_bind _ _ _ w1 tt) end.
  - unfold BroadcastToAll. destruct (payload_empty _); [done|]. by rewrite send_to_clients_eq.
  - eexists. by apply Hs.
  - intros Hc. change (clients (ses w)) with (clients (ses (fst (session (fun s => s)
      (fst (on_versions (RecordChange path n origin) (fst (next_seq w)))))))).
    rewrite <- Hc. apply SendAck_acked.
Qed.

(** ** Every request is answered *)

Section answered.
Context `{!UsdThrows} `{!UsdLaws}.

Lemma returns_update f : (forall s, stage (f s) = stage s) -> returns live (update f).
Proof. intros Hf. apply returns_modify. intros w. unfold live. cbn. by rewrite Hf. Qed.

Ltac returns_tac :=
  repeat lazymatch goal with
  | |- forall _, _ => intro
  | |- returns _ (_ ≫= _) => apply returns_bind
  | |- returns _ (mret _) => apply returns_ret
  | |- returns _ (update _) => by apply returns_update
  end.

Lemma returns_apply_update upd origin w : exists ok, snd (apply_update upd origin w) = inl ok.
Proof.
  destruct (stage (ses w)) as [st|] eqn:Hst.
  - assert (Hr : returns live (apply_update upd origin)).
    { unfold apply_update. returns_tac. apply returns_try_std; [apply throws_Apply|]. returns_tac. }
    apply Hr. by exists st.
  - unfold apply_update. erewrite bind_ok by reflexivity. exists false.
    unfold mbind at 1, M_bind, try_std, TransformDispatcher.Apply.
    erewrite bind_ok by reflexivity. cbn. by rewrite Hst.
Qed.

Lemma returns_create_prim parent type origin : returns live (create_prim parent type origin).
Proof. unfold create_prim. returns_tac. apply returns_try_std; [apply throws_Create|]. returns_tac. Qed.

Lemma returns_set_prim_active path active origin : returns live (set_prim_active path active origin).
Proof.
  unfold set_prim_active. returns_tac. apply returns_try_std; [apply throws_SetActive|]. returns_tac.
Qed.

Lemma transform_acked u origin rid base w :
  acked (owed_to origin rid (clients (ses w))) w (fst (HandleTransform u origin rid base w)).
Proof.
  unfold HandleTransform. erewrite bind_ok by reflexivity. cbv beta.
  destruct (CheckUpdate _ _ _ _); try apply SendAck_acked.
  destruct (returns_apply_update u origin w) as [ok Hok].
  eapply acked_bind; [exact Hok|apply (preserves_apply_update not_ack transform_not_ack)|].
  intros Hc. rewrite <- Hc. generalize (fst (apply_update u origin w)) as w1. intros w1.
  eapply acked_bind with (a := tt); [by destruct ok|by destruct ok; [by apply progress_update|]|].
  intros Hc1. rewrite <- Hc1. generalize (fst (when ok (update (set_dirty true)) w1)) as w2. intros w2.
  unfold mbind, M_bind. pose proof (SendAck_acked origin rid ok "apply_failed" w2) as Ha.
  rewrite SendAck_eq in Ha |- *. cbn [fst snd] in Ha |- *.
  match goal with |- acked _ _ (fst (when _ _ ?w3)) => set (w3' := w3) in * end.
  rewrite <- (app_nil_r (owed_to _ _ _)). apply (acked_trans _ _ _ w3'); [exact Ha|].
  apply progress_acked. destruct ok; [reflexivity|]. apply preserves_SendCorrection.
Qed.

Lemma create_acked parent type origin rid w :
  acked (owed_to origin rid (clients (ses w))) w (fst (HandleCreatePrim parent type origin rid w)).
Proof.
  unfold HandleCreatePrim. erewrite bind_ok by reflexivity. cbv beta.
  destruct (stage (ses w)) as [st|] eqn:Hst; [|apply SendAck_acked].
  destruct (returns_create_prim parent type origin w) as [_ [r Hr]]; [by exists st|].
  eapply acked_bind; [exact Hr|apply (preserves_create_prim not_ack transform_not_ack)|].
  intros Hc. rewrite <- Hc. destruct r as [prim|]; [|apply SendAck_acked].
  eapply acked_bind; [reflexivity|by apply progress_update|]. intros Hc'. rewrite <- Hc'.
  by apply (acked_announce _ _ _ (fun s n => SerializeCreatePrimBroadcast s parent type prim n)).
Qed.

Lemma set_active_acked path active origin rid w :
  acked (owed_to origin rid (clients (ses w))) w (fst (HandleSetPrimActive path active origin rid w)).
Proof.
  unfold HandleSetPrimActive. erewrite bind_ok by reflexivity. cbv beta.
  destruct (stage (ses w)) as [st|] eqn:Hst; [|apply SendAck_acked].
  destruct (returns_set_prim_active path active origin w) as [_ [r Hr]]; [by exists st|].
  eapply acked_bind; [exact Hr|apply (preserves_set_prim_active not_ack transform_not_ack)|].
  intros Hc. rewrite <- Hc. destruct r; try apply SendAck_acked.
  eapply acked_bind; [reflexivity|by apply progress_update|]. intros Hc'. rewrite <- Hc'.
  by apply (acked_announce _ _ _ (fun s n => SerializeSetPrimActiveBroadcast s path active n)).
Qed.

Lemma command_acked c w : acked (owed (clients (ses w)) c) w (fst (ProcessCommand c w)).
Proof.
  unfold owed. destruct (request c) as [[i rid]|] eqn:Hc.
  - rewrite ProcessCommand_fst. destruct c; simplify_eq/=;
      [apply transform_acked|apply create_acked|apply set_active_acked].
  - by apply progress_acked, preserves_unasked.
Qed.

Lemma event_acked e w : acked (owed_by (clients (ses w)) e) w (happens e w).
Proof.
  destruct e as [c|l]; [apply command_acked|].
  apply progress_acked, preserves_deliver. apply transform_not_ack.
Qed.

(** C15. Every request is answered exactly once, and in order. Whatever
    commands a session processes, and whatever reloads of a shared layer reach it
    between them, the Acks among the frames it sends are, one
    for one and in the order of the commands, those of the requests whose
    connection is attached: each goes to that connection and carries its
    request's id. Nothing else sends an Ack. *)
Theorem every_request_answered_once es w :
  exists fs, outbox (process es w) = outbox w ++ fs /\
    acks fs = es ≫= owed_by (clients (ses w)).
Proof.
  cut (acked (es ≫= owed_by (clients (ses w))) w (process es w)); [by intros [_ ?]|].
  revert w. induction es as [|e es IH]; intros w.
  - split; [done|]. exists []. by rewrite app_nil_r.
  - rewrite bind_cons. pose proof (event_acked e w) as Hc.
    apply (acked_trans _ _ _ (happens e w)); [done|].
    rewrite <- (fixed_clients _ _ (proj1 Hc)). apply IH.
Qed.
End answered.

(** ** A rejected update *)

(** C16. A stale or invalid update changes nothing. When the versions reject
    an update, the handler's only effect is one Ack, with the session's current
    version and the reason, to its sender, and the record of that Ack: the
    stage, the counter, the clients, the dirty flag and everything else are
    untouched, and nothing is broadcast. *)
Theorem rejected_update_changes_nothing u origin rid base conn err w :
  origin <> 0 -> clients (ses w) !! origin = Some conn ->
  let status := CheckUpdate origin (upd_prim_path u) base (versions (ses w)) in
  (status = Stale /\ err = "stale") \/ (status = InvalidBase /\ err = "invalid_base") ->
  ProcessCommand (TransformCommand u origin rid base) w =
  (sent [mkFrame conn (SerializeAck (ses w) rid (server_seq (ses w)) false err)]
     (RecordSent origin (server_seq (ses w))) w, inl tt).
Proof.
  intros Ho Hc status Hst. unfold ProcessCommand, try_all. cbn [HandleCommand].
  unfold HandleTransform. erewrite bind_ok by reflexivity. cbv beta. fold status.
  destruct Hst as [[-> ->]|[-> ->]]; by rewrite (SendAck_attached origin conn).
Qed.

(** ** Authoring under a mark

    While a creation or an activation is in progress the listener keeps
    silent, so authoring changes nothing but the stage. *)

Definition silent (w : World) : bool :=
  create_in_progress (ses w) || set_active_in_progress (ses w).

Definition only_stage (w w' : World) : Prop :=
  silent w = true -> exists st, w' = with_session (set_stage st) w.

#[export] Instance only_stage_preorder : PreOrder only_stage.
Proof.
  split.
  - intros w _. exists (stage (ses w)). by destruct w as [[] ? ? ? ? ? ? ? ?].
  - intros w1 w2 w3 H12 H23 Hw. destruct (H12 Hw) as [st ->].
    destruct (H23 Hw) as [st' ->]. by exists st'.
Qed.

Lemma preserves_only_stage_set st : preserves only_stage (update (set_stage st)).
Proof. intros w _. by exists st. Qed.

Lemma preserves_only_stage_deliver l : preserves only_stage (deliver l).
Proof.
  apply preserves_for_each; [apply _|]. intros [st n] _.
  apply preserves_bind; [apply _|apply preserves_only_stage_set|]. intros _.
  apply preserves_bind; [apply _|intros w; reflexivity|]. intros [[]|]; try apply preserves_ret, _.
  intros w Hw. exists (stage (ses w)). rewrite OnObjectsChanged_eq. cbn [fst].
  unfold notice_prims. unfold silent in Hw. rewrite Hw. by destruct w as [[] ? ? ? ? ? ? ? ?].
Qed.

Lemma preserves_only_stage_author {A} (op : M Stage A) : preserves only_stage (author op).
Proof.
  apply preserves_bind; [apply _|intros w; reflexivity|]. intros [st|]; [|apply preserves_throw, _].
  destruct (op st) as [st1 r], (close_change_block st1) as [l st2].
  apply preserves_bind; [apply _|apply preserves_only_stage_deliver|]. intros _.
  apply preserves_bind; [apply _|apply preserves_only_stage_set|]. intros _.
  destruct r; [apply preserves_ret, _|apply preserves_throw, _].
Qed.

Lemma preserves_only_stage_Create parent type :
  preserves only_stage (PrimDispatcher.Create parent type).
Proof.
  unfold PrimDispatcher.Create, PrimDispatcher.AuthorPrim, on_stage. cbv zeta.
  preserves_tac; apply _ || (intros w; reflexivity) || apply preserves_only_stage_author.
Qed.

Lemma preserves_only_stage_SetActive path active :
  preserves only_stage (PrimDispatcher.SetActive path active).
Proof.
  unfold PrimDispatcher.SetActive. cbv zeta.
  preserves_tac; apply _ || (intros w; reflexivity) || apply preserves_only_stage_author.
Qed.

(** The session after an authoring under a mark: a new stage, no mark. *)
Definition authored_session (st : option Stage) (s : Session) : Session :=
  set_current_origin 0 (set_stage st s).

Lemma try_std_fst {A} (m : M World A) b w :
  fst (try_std m (fun _ => mret b) w) = fst (m w).
Proof. unfold try_std. by destruct (m w) as [w' [a|[]]]. Qed.

Lemma create_prim_world parent type origin w w1 r :
  create_in_progress (ses w) = false ->
  create_prim parent type origin w = (w1, inl r) ->
  exists st, w1 = with_session (authored_session st) w.
Proof.
  intros Hidle Hrun. unfold create_prim in Hrun. erewrite !bind_ok in Hrun by reflexivity.
  apply bind_inv in Hrun as (a & w2 & Hm & Hrun). apply (f_equal fst) in Hm. rewrite try_std_fst in Hm.
  set (w0 := with_session _ (with_session _ w)) in Hm.
  destruct (preserves_only_stage_Create parent type w0) as [st Hst]; [done|].
  rewrite Hm in Hst. cbn in Hst. subst w2. injection Hrun as <- _. exists st.
  destruct w as [[] ? ? ? ? ? ? ? ?]. unfold with_session, set_ses. cbn in *. by subst.
Qed.

Lemma set_prim_active_world path active origin w w1 r :
  set_active_in_progress (ses w) = false ->
  set_prim_active path active origin w = (w1, inl r) ->
  exists st, w1 = with_session (authored_session st) w.
Proof.
  intros Hidle Hrun. unfold set_prim_active in Hrun. erewrite !bind_ok in Hrun by reflexivity.
  apply bind_inv in Hrun as (a & w2 & Hm & Hrun). apply (f_equal fst) in Hm. rewrite try_std_fst in Hm.
  set (w0 := with_session _ (with_session _ w)) in Hm.
  destruct (preserves_only_stage_SetActive path active w0) as [st Hst];
    [apply orb_true_r|].
  rewrite Hm in Hst. cbn in Hst. subst w2. injection Hrun as <- _. exists st.
  destruct w as [[] ? ? ? ? ? ? ? ?]. unfold with_session, set_ses. cbn in *. by subst.
Qed.

(** ** Announced changes *)

(** The world after a change was announced: one new version [n]; the payload
    to every client and then the Ack to the author, all stamped [n]; the change
    recorded as the author's, the sends as sent. *)
Definition announced (path : string) (origin : ConnectionId) (rid : Z) (conn : connection)
    (payload_of : Session -> Z -> Payload) (w : World) : World :=
  let n := u64 (server_seq (ses w) + 1) in
  let all := targets None (clients (ses w)) in
  sent (frames_to all (payload_of (ses w) n) ++ [mkFrame conn (SerializeAck (ses w) rid n true "")])
    (fun v => RecordSent origin n (record_all all n (RecordChange path n origin v))) (bumped w).

Lemma announce_eq path origin rid conn (payload_of : Session -> Z -> Payload) w :
  (forall s s' n, id s = id s' -> payload_of s n = payload_of s' n) ->
  (forall s n, payload_empty (payload_of s n) = false) ->
  origin <> 0 -> clients (ses w) !! origin = Some conn ->
  (seq ← next_seq;
   _ ← on_versions (RecordChange path seq origin);
   s ← session (fun s => s);
   _ ← BroadcastToAll (payload_of s seq) seq;
   SendAck origin rid true "") w = (announced path origin rid conn payload_of w, inl tt).
Proof.
  intros Hid Hne Ho Hc. erewrite bind_ok by apply next_seq_eq. cbv beta.
  erewrite bind_ok by apply on_versions_eq. erewrite bind_ok by reflexivity. cbv beta.
  erewrite bind_ok by (by apply BroadcastToAll_eq). rewrite sent_sent.
  rewrite (SendAck_attached origin conn) by done. rewrite sent_sent. unfold announced. cbv zeta.
  do 2 f_equal. f_equal. cbn. f_equal. by apply Hid.
Qed.

(** C17. A creation, on every branch. If the prim was authored, its creation is
    broadcast to every client, its author included, and then acknowledged;
    all these frames carry the one new version, the prim's change is recorded
    under it as the author's own, the session is dirty, and its marks are
    cleared. Otherwise one Ack says [invalid_parent], and counter, versions of
    the prims and dirty flag are as before. In neither case does the listener
    broadcast anything by itself. *)
Theorem create_announced_then_acknowledged parent type origin rid conn w w1 created :
  origin <> 0 -> clients (ses w) !! origin = Some conn ->
  stage (ses w) <> None -> create_in_progress (ses w) = false ->
  create_prim parent type origin w = (w1, inl created) ->
  exists st, fst (ProcessCommand (CreatePrimCommand parent type origin rid) w) =
    match created with
    | Some prim =>
        announced (created_prim_path prim) origin rid conn
          (fun s n => SerializeCreatePrimBroadcast s parent type prim n)
          (with_session (fun s => set_dirty true (authored_session st s)) w)
    | None =>
        let seq := server_seq (ses w) in
        sent [mkFrame conn (SerializeAck (ses w) rid seq false "invalid_parent")]
          (RecordSent origin seq) (with_session (authored_session st) w)
    end.
Proof.
  intros Ho Hc Hst Hidle Hrun. destruct (create_prim_world _ _ _ _ _ _ Hidle Hrun) as [st Hw1].
  exists st. rewrite ProcessCommand_fst. cbn [HandleCommand]. unfold HandleCreatePrim.
  erewrite bind_ok by reflexivity. cbv beta. destruct (stage (ses w)); [|done].
  erewrite bind_ok by exact Hrun. cbv beta. subst w1. destruct created as [prim|].
  - erewrite bind_ok by reflexivity. cbv beta.
    rewrite (announce_eq _ _ _ conn (fun s n => SerializeCreatePrimBroadcast s parent type prim n)).
    + done.
    + unfold SerializeCreatePrimBroadcast, create_prim_message. by intros ? ? ? ->.
    + intros ? ?. by apply serialized_nonempty.
    + done.
    + done.
  - by rewrite (SendAck_attached origin conn).
Qed.

(** What the Ack of an activation says. *)
Definition verdict (status : PrimDispatcher.SetActiveStatus) : bool * string :=
  match status with
  | PrimDispatcher.Ok | PrimDispatcher.AlreadyInState => (true, "")
  | PrimDispatcher.InvalidPath | PrimDispatcher.NotFound => (false, "unknown_prim")
  | PrimDispatcher.NotDeletable => (false, "not_deletable")
  | PrimDispatcher.Failed => (false, "apply_failed")
  end.

(** A soft delete or its undo, on every branch. If the prim's state
    changed, the new state is broadcast to every client and then acknowledged
    under one new version, recorded as the author's change, and the session is
    dirty. On every other status the only frame is the Ack, positive if the
    prim was in that state already and otherwise with the reason; nothing is
    counted, recorded as a change or made dirty. *)
Theorem set_active_announced_then_acknowledged path active origin rid conn w w1 status :
  origin <> 0 -> clients (ses w) !! origin = Some conn ->
  stage (ses w) <> None -> set_active_in_progress (ses w) = false ->
  set_prim_active path active origin w = (w1, inl status) ->
  exists st, fst (ProcessCommand (SetPrimActiveCommand path active origin rid) w) =
    if bool_decide (status = PrimDispatcher.Ok) then
      announced path origin rid conn (fun s n => SerializeSetPrimActiveBroadcast s path active n)
        (with_session (fun s => set_dirty true (authored_session st s)) w)
    else
      let seq := server_seq (ses w) in
      sent [mkFrame conn (SerializeAck (ses w) rid seq (fst (verdict status)) (snd (verdict status)))]
        (RecordSent origin seq) (with_session (authored_session st) w).
Proof.
  intros Ho Hc Hst Hidle Hrun. destruct (set_prim_active_world _ _ _ _ _ _ Hidle Hrun) as [st Hw1].
  exists st. rewrite ProcessCommand_fst. cbn [HandleCommand]. unfold HandleSetPrimActive.
  erewrite bind_ok by reflexivity. cbv beta. destruct (stage (ses w)); [|done].
  erewrite bind_ok by exact Hrun. cbv beta. subst w1.
  destruct status; try by rewrite (SendAck_attached origin conn).
  erewrite bind_ok by reflexivity. cbv beta.
  rewrite (announce_eq _ _ _ conn (fun s n => SerializeSetPrimActiveBroadcast s path active n)).
  - done.
  - unfold SerializeSetPrimActiveBroadcast, set_active_message. by intros ? ? ? ->.
  - intros ? ?. by apply serialized_nonempty.
  - done.
  - done.
Qed.

(** ** Corrections *)

(** A correction brings one client back to the session's state. For an
    attached client and a prim that is active and has a readable transform, a
    correction sends exactly one frame, to that client only: the transform the
    stage resolves now, under a new version. From then on, whatever
    the client itself changes, an update of the prim is rejected if it is based
    on an older version, and nothing else in the session changes. *)
Theorem correction_resynchronises origin prim_path conn st msg changes w :
  origin <> 0 -> clients (ses w) !! origin = Some conn ->
  stage (ses w) = Some st ->
  (forall prim, IsValidPathString prim_path = true ->
     GetPrimAtPath st (MakePath prim_path) = Some prim -> IsActive st prim = true) ->
  BuildBroadcastMessage (ses w) (clock w) prim_path = Some msg ->
  let seq := u64 (server_seq (ses w) + 1) in
  let w' := fst (SendCorrection origin prim_path w) in
  outbox w' = outbox w ++ [mkFrame conn (serialized (with_server_seq seq msg))] /\
  server_seq (ses w') = seq /\ quiet w w' /\ stage (ses w') = Some st /\
  forall base, base < seq ->
    CheckUpdate origin prim_path base
      (foldl (fun v '(q, n) => RecordChange q n origin v) (versions (ses w')) changes) = Stale.
Proof.
  intros Ho Hc Hst Hact Hmsg seq w'.
  assert (Hw' : w' = sent [mkFrame conn (serialized (with_server_seq seq msg))]
      (RecordCorrection origin prim_path seq) (bumped w)).
  { unfold w', SendCorrection. erewrite !bind_ok by reflexivity. cbv beta zeta. rewrite Hst.
    destruct (Z.eqb_spec origin 0); [done|].
    match goal with |- context [if ?b then match clients _ !! _ with _ => _ end else _] =>
      assert (b = false) as -> end.
    { destruct (IsValidPathString prim_path) eqn:Hv; [|done].
      destruct (GetPrimAtPath st _) as [prim|] eqn:Hp; [|done]. by rewrite (Hact prim). }
    rewrite Hmsg, Hc, send_transform_eq. apply BuildBroadcastMessage_body in Hmsg as [u Hu].
    rewrite serialize_ok; [done|]. cbn. by rewrite Hu. }
  clearbody w'. subst w'. split_and!; try done.
  intros base Hb. cbn [sent ses versions with_session set_ses set_versions set_outbox].
  by apply corrected_base_stale.
Qed.

(** ** Marks *)

Definition idle (w : World) : Prop := marks (ses w) = (0, false, false, false).

(** What sending and saving leave alone of a session. *)
Class SendBlind {A} (view : Session -> A) : Prop := {
  blind_versions : forall v s, view (set_versions v s) = view s;
  blind_seq : forall n s, view (set_server_seq n s) = view s;
  blind_stage : forall st s, view (set_stage st s) = view s }.

#[export] Instance marks_blind : SendBlind marks.
Proof. done. Qed.

#[export] Instance dirty_blind : SendBlind dirty.
Proof. done. Qed.

Section keeps.
Context {A} (view : Session -> A) `{!SendBlind view}.

Definition keeps (w w' : World) : Prop := view (ses w') = view (ses w).

#[export] Instance keeps_preorder : PreOrder keeps.
Proof. split; [done|]. intros w1 w2 w3 Ha Hb. unfold keeps in *. congruence. Qed.

Lemma keeps_sent fs f w : keeps w (sent fs f w).
Proof. apply blind_versions. Qed.

Lemma keeps_bumped w : keeps w (bumped w).
Proof. apply blind_seq. Qed.

Lemma keeps_SendAck i rid ok err : preserves keeps (SendAck i rid ok err).
Proof.
  intros w. rewrite SendAck_eq. cbn [fst]. destruct (clients (ses w) !! i); [|done]. cbv zeta.
  destruct (_ || _); [done|apply keeps_sent].
Qed.

Lemma keeps_SendCorrection i p : preserves keeps (SendCorrection i p).
Proof.
  unfold SendCorrection. cbv zeta. preserves_tac; try apply _; try by intros w.
  - intros w. rewrite send_deactivation_eq. etrans; [apply keeps_bumped|apply keeps_sent].
  - intros w. rewrite send_transform_eq. cbn [fst]. destruct (SerializeToString _) as [pl []]; [|apply keeps_bumped].
    etrans; [apply keeps_bumped|apply keeps_sent].
Qed.

Lemma keeps_versions f : preserves keeps (on_versions f).
Proof. intros w. rewrite on_versions_eq. apply keeps_sent. Qed.

Lemma keeps_BroadcastToAll p n : preserves keeps (BroadcastToAll p n).
Proof.
  intros w. unfold BroadcastToAll. destruct (payload_empty p); [done|]. rewrite send_to_clients_eq. apply keeps_sent.
Qed.

Lemma keeps_announce path origin rid (payload_of : Session -> Z -> Payload) :
  preserves keeps
    (seq ← next_seq;
     _ ← on_versions (RecordChange path seq origin);
     s ← session (fun s => s);
     _ ← BroadcastToAll (payload_of s seq) seq;
     SendAck origin rid true "").
Proof.
  apply preserves_bind; [apply _|intros w; apply keeps_bumped|].
  preserves_tac; apply _ || apply keeps_versions || apply keeps_BroadcastToAll || apply keeps_SendAck || by intros w.
Qed.

Lemma keeps_join i : preserves keeps (HandleJoin i).
Proof.
  unfold HandleJoin. cbv zeta. preserves_tac; try apply _; try by intros w.
  - intros w. rewrite send_all_eq. apply keeps_sent.
  - apply keeps_versions.
Qed.

Lemma keeps_save : preserves keeps save_session_layer.
Proof.
  intros w. unfold save_session_layer. destruct (stage (ses w)) as [st'|]; [|done].
  destruct (SaveSessionLayer _ _) as [[st d] r]. apply blind_stage.
Qed.

Lemma keeps_correction i r : preserves keeps (HandleCorrection i r).
Proof.
  unfold HandleCorrection. preserves_tac; try apply _; try by intros w. apply keeps_SendCorrection.
Qed.

Lemma keeps_commit_stage st path : preserves keeps (commit_stage st path).
Proof. intros w. unfold commit_stage. by destruct (StageCommitter.Commit _ _ _) as [d' [[]|[e|]]]. Qed.
End keeps.

Lemma keeps_flush : preserves (keeps marks) HandleFlush.
Proof.
  unfold HandleFlush. preserves_tac; apply _ || apply (keeps_save marks) || by intros ?.
Qed.

Section marks.
Context `{!UsdThrows} `{!UsdLaws}.

(** A program that ends idle when it starts idle. *)
Definition stays_idle {A} (m : M World A) : Prop := forall w, idle w -> idle (fst (m w)).

Lemma stays_idle_keeps {A} (m : M World A) : preserves (keeps marks) m -> stays_idle m.
Proof. intros Hm w Hw. unfold idle. by rewrite (Hm w). Qed.

Lemma stays_idle_bind {A B} (m : M World A) (f : A -> M World B) :
  stays_idle m -> (forall a, stays_idle (f a)) -> stays_idle (m ≫= f).
Proof.
  intros Hm Hf w Hw. unfold mbind, M_bind. specialize (Hm w Hw). destruct (m w) as [w1 [a|e]]; [|done].
  by apply Hf.
Qed.

(** A dispatcher between setting and clearing the marks: it returns, so they
    are cleared. *)
Lemma marked_call {A} (m : M World A) h (set clear : Session -> Session) w :
  preserves quiet m -> (exists a, snd (try_std m (fun _ => mret h) (with_session set w)) = inl a) ->
  exists w1, marks (ses w1) = marks (set (ses w)) /\
    fst ((_ ← update set; r ← try_std m (fun _ => mret h); _ ← update clear; mret r) w) =
    with_session clear w1.
Proof.
  intros Hq [a Ha]. exists (fst (m (with_session set w))). split.
  - destruct (Hq (with_session set w)) as [Hm _]. exact (f_equal (fun x => fst (fst x)) Hm).
  - erewrite bind_ok by reflexivity. rewrite <- (try_std_fst m h).
    unfold mbind at 1, M_bind. by destruct (try_std m _ _) as [w1 r]; simpl in *; subst r.
Qed.

Lemma idle_apply_update upd origin : stays_idle (apply_update upd origin).
Proof.
  intros w Hw.
  assert (Hr : exists a, snd (try_std (TransformDispatcher.Apply upd) (fun _ => mret false)
      (with_session (set_current_origin origin) w)) = inl a).
  { destruct (returns_apply_update upd origin w) as [ok Hok]. unfold apply_update in Hok.
    erewrite bind_ok in Hok by reflexivity. unfold mbind, M_bind in Hok.
    destruct (try_std _ _ _) as [w1 [a|e]]; [by exists a|done]. }
  destruct (marked_call (TransformDispatcher.Apply upd) false (set_current_origin origin)
    (set_current_origin 0) w (preserves_quiet_Apply upd) Hr) as (w1 & Hm & Hf).
  unfold apply_update. rewrite Hf. unfold idle, marks in *. cbn in *. congruence.
Qed.
(** The two dispatchers that run under a mark of their own. *)
Lemma idle_create_prim parent type origin w :
  idle w -> live w -> idle (fst (create_prim parent type origin w)).
Proof.
  intros Hw Hl. unfold create_prim. erewrite bind_ok by reflexivity.
  set (w0 := with_session (set_current_origin origin) w).
  assert (Hr : exists a, snd (try_std (PrimDispatcher.Create parent type) (fun _ => mret None)
      (with_session (set_create_in_progress true) w0)) = inl a).
  { apply (returns_try_std live); [apply throws_Create|intros; apply returns_ret|done]. }
  assert (Hq := preserves_quiet_Create parent type (with_session (set_create_in_progress true) w0)).
  erewrite bind_ok by reflexivity. rewrite <- (try_std_fst _ None) in Hq.
  unfold mbind at 1, M_bind. destruct Hr as [a Ha].
  destruct (try_std _ _ _) as [w1 r]. simpl in *. subst r.
  destruct Hq as [Hm _]. apply (f_equal (fun x => fst (fst x))) in Hm.
  unfold mbind, M_bind, update, modify, idle, marks in *. cbn in *. congruence.
Qed.

Lemma idle_set_prim_active path active origin w :
  idle w -> live w -> idle (fst (set_prim_active path active origin w)).
Proof.
  intros Hw Hl. unfold set_prim_active. erewrite bind_ok by reflexivity.
  set (w0 := with_session (set_current_origin origin) w).
  assert (Hr : exists a, snd (try_std (PrimDispatcher.SetActive path active)
      (fun _ => mret PrimDispatcher.Failed) (with_session (set_set_active_in_progress true) w0)) = inl a).
  { apply (returns_try_std live); [apply throws_SetActive|intros; apply returns_ret|done]. }
  assert (Hq := preserves_quiet_SetActive path active (with_session (set_set_active_in_progress true) w0)).
  erewrite bind_ok by reflexivity. rewrite <- (try_std_fst _ PrimDispatcher.Failed) in Hq.
  unfold mbind at 1, M_bind. destruct Hr as [a Ha].
  destruct (try_std _ _ _) as [w1 r]. simpl in *. subst r.
  destruct Hq as [Hm _]. apply (f_equal (fun x => fst (fst x))) in Hm.
  unfold mbind, M_bind, update, modify, idle, marks in *. cbn in *. congruence.
Qed.

Lemma idle_reload : stays_idle Handlers.ReloadRootLayer.
Proof.
  intros w Hw. unfold Handlers.ReloadRootLayer. erewrite !bind_ok by reflexivity. cbv beta.
  destruct (stage (ses w)) as [st|] eqn:Hst; [|done]. destruct (GetRootLayer st); [|done].
  erewrite !bind_ok by reflexivity.
  set (w0 := with_session (set_current_origin 0) (with_session (set_reload_in_progress true) w)).
  assert (Hl : live w0) by by exists st.
  destruct (returns_try_std live (author (Usd.ReloadRootLayer (disk w))) (fun _ => mret false)) with w0
    as (_ & a & Ha); [apply throws_author, reload_throws|intros; apply returns_ret|done|].
  assert (Hq := preserves_quiet_author (Usd.ReloadRootLayer (disk w)) w0).
  rewrite <- (try_std_fst _ false) in Hq.
  unfold mbind at 1, M_bind. destruct (try_std _ _ _) as [w1 r]. simpl in *. subst r.
  destruct Hq as [Hm _]. apply (f_equal (fun x => fst (fst x))) in Hm.
  unfold mbind, M_bind, update, modify, idle, marks in *. cbn in *. congruence.
Qed.

Lemma idle_commit promise : stays_idle (HandleCommit promise).
Proof.
  unfold HandleCommit, CommitOverrides, reload_other_sessions.
  repeat lazymatch goal with
  | |- forall _, stays_idle _ => intro
  | |- stays_idle (_ ≫= _) => apply stays_idle_bind
  | |- stays_idle (when ?b _) => destruct b; cbn [when]
  | |- stays_idle Handlers.ReloadRootLayer => apply idle_reload
  | |- stays_idle (mret _) => intros ? ?; done
  | |- stays_idle (match ?x with _ => _ end) => destruct x
  | |- stays_idle save_session_layer => apply stays_idle_keeps, (keeps_save marks)
  | |- stays_idle (commit_stage _ _) => apply stays_idle_keeps, (keeps_commit_stage marks)
  | |- stays_idle (on_stage _) =>
      apply stays_idle_keeps; unfold on_stage; preserves_tac; apply _ || by intros ?
  | |- stays_idle _ => intros ? ?; done
  end.
Qed.

Lemma idle_command c : stays_idle (HandleCommand c).
Proof.
  destruct c as [u origin rid base|i|parent type origin rid|path active origin rid|promise| | |i r];
    cbn [HandleCommand].
  - unfold HandleTransform.
    apply stays_idle_bind; [by intros ? ?|]. intros []; try apply stays_idle_keeps, (keeps_SendAck marks).
    apply stays_idle_bind; [apply idle_apply_update|]. intros ok.
    apply stays_idle_bind; [by destruct ok; intros ? ?|]. intros _.
    apply stays_idle_bind; [apply stays_idle_keeps, (keeps_SendAck marks)|]. intros _.
    destruct ok; [by intros ? ?|apply stays_idle_keeps, (keeps_SendCorrection marks)].
  - apply stays_idle_keeps, (keeps_join marks).
  - intros w Hw. unfold HandleCreatePrim. erewrite bind_ok by reflexivity. cbv beta.
    destruct (stage (ses w)) as [st|] eqn:Hst; [|by apply stays_idle_keeps; [apply (keeps_SendAck marks)|]].
    pose proof (idle_create_prim parent type origin w Hw (ex_intro _ st Hst)) as Hi.
    unfold mbind at 1, M_bind. destruct (create_prim parent type origin w) as [w1 [[prim|]|]]; [| |done].
    + unfold idle. rewrite (preserves_bind (keeps marks)); [exact Hi|by intros ?|]. intros _.
      apply (keeps_announce marks _ _ _ (fun s n => SerializeCreatePrimBroadcast s parent type prim n)).
    + by apply stays_idle_keeps; [apply (keeps_SendAck marks)|].
  - intros w Hw. unfold HandleSetPrimActive. erewrite bind_ok by reflexivity. cbv beta.
    destruct (stage (ses w)) as [st|] eqn:Hst; [|by apply stays_idle_keeps; [apply (keeps_SendAck marks)|]].
    pose proof (idle_set_prim_active path active origin w Hw (ex_intro _ st Hst)) as Hi.
    unfold mbind at 1, M_bind. destruct (set_prim_active path active origin w) as [w1 [status|]]; [|done].
    destruct status; try by apply stays_idle_keeps; [apply (keeps_SendAck marks)|].
    unfold idle. rewrite (preserves_bind (keeps marks)); [exact Hi|by intros ?|]. intros _.
    apply (keeps_announce marks _ _ _ (fun s n => SerializeSetPrimActiveBroadcast s path active n)).
  - apply idle_commit.
  - apply idle_reload.
  - apply stays_idle_keeps, keeps_flush.
  - apply stays_idle_keeps, (keeps_correction marks).
Qed.

(** The marks never outlive their command. The origin of a change and the
    flags of a creation, an activation and a reload, by which the listener
    decides what to broadcast and to whom, are all clear again after every
    command, however it ended, as long as USD's authoring calls throw nothing
    but [std::exception]s; a reload of a shared layer between commands sets
    none. *)
Theorem marks_cleared_after_every_command es w : idle w -> idle (process es w).
Proof.
  revert w. induction es as [|[c|l] es IH]; intros w Hw; [done| |]; cbn [process foldl happens]; apply IH.
  - rewrite ProcessCommand_fst. by apply idle_command.
  - destruct (preserves_quiet_deliver l w) as [Hq _]. unfold idle in *. rewrite <- Hw.
    exact (f_equal (fun x => fst (fst x)) Hq).
Qed.
End marks.
End replies.

(** ** On the demonstration session *)
Import ToyWorld.

Lemma every_request_answered_once_witness :
  exists fs, outbox (process (H := toy_usd) (Handled <$> demo) world0) = outbox world0 ++ fs /\
    acks fs = (Handled <$> demo) ≫= owed_by (clients (ses world0)).
Proof. apply (every_request_answered_once (H := toy_usd) (Handled <$> demo) world0). Defined.

Example demo_acks :
  demo ≫= owed (clients (ses world0)) = [(40, 1); (50, 2); (50, 3); (40, 4); (40, 5)].
Proof. reflexivity. Qed.

(** The world after connection 4 moved a prim that connection 5 does not know
    of yet. *)
Definition moved : World := process (H := toy_usd) [Handled (TransformCommand (drag "/World/A") 4 1 0)] world0.

Lemma rejected_update_changes_nothing_witness :
  ProcessCommand (H := toy_usd) (TransformCommand (drag "/World/A") 5 7 0) moved =
  (sent [mkFrame 50 (SerializeAck (ses moved) 7 (server_seq (ses moved)) false "stale")]
     (RecordSent 5 (server_seq (ses moved))) moved, inl tt).
Proof.
  apply (rejected_update_changes_nothing (H := toy_usd) (drag "/World/A") 5 7 0 50 "stale" moved);
    [done|vm_compute; reflexivity|left; split; [vm_compute|]; reflexivity].
Defined.

Lemma create_announced_then_acknowledged_witness :
  exists w1 created st,
    create_prim (H := toy_usd) "/World" PRIM_TYPE_CUBE 5 world0 = (w1, inl (Some created)) /\
    fst (ProcessCommand (H := toy_usd) (CreatePrimCommand "/World" PRIM_TYPE_CUBE 5 2) world0) =
    announced (H := toy_usd) (created_prim_path created) 5 2 50
      (fun s n => SerializeCreatePrimBroadcast s "/World" PRIM_TYPE_CUBE created n)
      (with_session (fun s => set_dirty true (authored_session st s)) world0).
Proof.
  assert (Hs : snd (create_prim (H := toy_usd) "/World" PRIM_TYPE_CUBE 5 world0) =
    inl (Some (mkCreatedPrim "Cube" "/World/Cube" (Some one) None None None)))
    by (vm_compute; reflexivity).
  destruct (create_prim (H := toy_usd) "/World" PRIM_TYPE_CUBE 5 world0) as [w1 r] eqn:Hr.
  cbn [snd] in Hs. rewrite Hs in Hr.
  destruct (create_announced_then_acknowledged (H := toy_usd) "/World" PRIM_TYPE_CUBE 5 2 50 world0 w1 _
    ltac:(done) eq_refl ltac:(done) eq_refl Hr) as [st Hst].
  eexists w1, _, st. split; [by rewrite Hs|exact Hst].
Defined.

Lemma set_active_announced_then_acknowledged_witness :
  exists w1 st,
    set_prim_active (H := toy_usd) "/World/A" false 4 world0 = (w1, inl PrimDispatcher.Ok) /\
    fst (ProcessCommand (H := toy_usd) (SetPrimActiveCommand "/World/A" false 4 9) world0) =
    announced (H := toy_usd) "/World/A" 4 9 40
      (fun s n => SerializeSetPrimActiveBroadcast s "/World/A" false n)
      (with_session (fun s => set_dirty true (authored_session st s)) world0).
Proof.
  assert (Hs : snd (set_prim_active (H := toy_usd) "/World/A" false 4 world0) = inl PrimDispatcher.Ok)
    by (vm_compute; reflexivity).
  destruct (set_prim_active (H := toy_usd) "/World/A" false 4 world0) as [w1 r] eqn:Hr.
  cbn [snd] in Hs. rewrite Hs in Hr.
  destruct (set_active_announced_then_acknowledged (H := toy_usd) "/World/A" false 4 9 40 world0 w1 _
    ltac:(done) eq_refl ltac:(done) eq_refl Hr) as [st Hst].
  exists w1, st. split; [by rewrite Hs|exact Hst].
Defined.

Lemma correction_resynchronises_witness :
  exists msg, BuildBroadcastMessage (H := toy_usd) session0 1000 "/World/A" = Some msg /\
    outbox (fst (SendCorrection (H := toy_usd) 5 "/World/A" world0)) =
      [mkFrame 50 (serialized (with_server_seq 1 msg))].
Proof.
  eexists. split; [reflexivity|].
  apply (correction_resynchronises (H := toy_usd) 5 "/World/A" 50 stage0 _ [] world0);
    [done|reflexivity|reflexivity| |reflexivity].
  intros prim _ Hp. vm_compute in Hp. by injection Hp as <-.
Defined.

Lemma marks_cleared_after_every_command_witness :
  idle world0 /\ idle (process (H := toy_usd) (Handled <$> demo) world0).
Proof.
  split; [done|]. by apply (marks_cleared_after_every_command (H := toy_usd) (Handled <$> demo) world0).
Defined.

(** Without that condition they can outlive it: an exception that is not a
    [std::exception] leaves a creation's handler with its flags set, and a
    later change of another prim is then not broadcast. *)
Example marks_left_by_other_exception :
  let w := process (H := worse_usd) [Handled (CreatePrimCommand "/Worse" PRIM_TYPE_CUBE 4 1)] worse_world in
  create_in_progress (ses w) = true /\
  (fun f => (to_connection f, is_ack f)) <$>
    outbox (process (H := worse_usd) [Handled (TransformCommand (drag "/World/A") 4 2 0)] w) = [(40, true)].
Proof. vm_compute. split; reflexivity. Qed.

(** USD refuses the scale operation of [/World/A]. *)
Definition half_usd : Usd :=
  toy (fun p => if String.eqb p "/World/A.xformOp:scale" then Some (StdException "refused") else None).

(** The session has placed [/World/A] with a matrix. *)
Definition placed_stage : toy_stage :=
  mkStage root_specs
    (list_to_map [("/World/A", mkSpec false "" None
       [("xformOpOrder", VtToken "xformOp:transform,");
        ("xformOp:transform", VtMatrix4d ((one, zero, zero, zero), (zero, one, zero, zero), (zero, zero, one, zero), (one, one, one, one)))])])
    "/srv/uploads/.idtx_session_1.usda" "/srv/uploads/a.usda" [].

Definition placed_world : @World half_usd :=
  mkWorld (session_on half_usd placed_stage) 1 ∅ {[ "s1" := 1 ]} [] 1000 disk0 [] ∅.

(** An update that USD fails on half way is answered with [apply_failed], but
    the prim is no longer where it was: its operations have been replaced. The
    session does not count as changed. *)
Example failed_update_changes_prim :
  let w := fst (ProcessCommand (H := half_usd) (TransformCommand (drag "/World/A") 4 7 0) placed_world) in
  AckMessage (mkAck false "apply_failed") ∈ frame_body <$> outbox w /\
  ReadResolvedTransform (H := half_usd) (stage (ses w)) "/World/A" <>
    ReadResolvedTransform (H := half_usd) (stage (ses placed_world)) "/World/A" /\
  dirty (ses w) = false.
Proof.
  split_and!; [|by vm_compute|by vm_compute]. vm_compute. repeat constructor.
Qed.

End Replies.
