(* ===== verification/Durability.v ===== *)
(** * What is acknowledged is saved

    A session keeps the changes it acknowledged in memory; its [dirty] flag
    says that the sidecar file is behind ([HandleFlush] and [CommitOverrides]
    of source/session/SessionManager.cpp). The flag is raised by every
    acknowledged change and falls only when the layer has been written. *)
From S2P Require Import Prelude Filesystem Proto Usd Versions Session Broadcast Listener SendFacts.
From S2P Require Import Dispatch Committer Handlers Progress ToyWorld Authoring Naming Replies.

Module Durability.
Import Session Broadcast Listener SendFacts Handlers Progress Authoring Replies.
Local Open Scope string_scope.
Local Open Scope list_scope.
Local Open Scope Z_scope.

Section durability.
Context `{Usd} `{Wire} `{!WireOk} `{IoErrors} `{SW : ShortWrites}.

(** ** Commands that leave the flag up *)

Definition stays_dirty (w w' : World) : Prop := dirty (ses w) = true -> dirty (ses w') = true.

#[export] Instance stays_dirty_preorder : PreOrder stays_dirty.
Proof. split; [by intros w Hw|]. intros w1 w2 w3 Ha Hb ?. by apply Hb, Ha. Qed.

Lemma dirty_keeps {A} (m : M World A) : preserves (keeps dirty) m -> preserves stays_dirty m.
Proof. intros Hm w Hw. by rewrite (Hm w). Qed.

Lemma dirty_quiet {A} (m : M World A) : preserves quiet m -> preserves stays_dirty m.
Proof. intros Hm w Hw. destruct (Hm w) as [Hd _]. injection Hd as _ _ _ _ Hd _. congruence. Qed.

Lemma dirty_update f : (forall s, dirty s = true -> dirty (f s) = true) -> preserves stays_dirty (update f).
Proof. intros Hf w Hw. by apply Hf. Qed.

Lemma dirty_apply upd origin : preserves stays_dirty (apply_update upd origin).
Proof.
  unfold apply_update. preserves_tac; apply _ || by apply dirty_update
    || apply dirty_quiet, preserves_quiet_Apply.
Qed.

Lemma dirty_create_prim parent type origin : preserves stays_dirty (create_prim parent type origin).
Proof.
  unfold create_prim. preserves_tac; apply _ || by apply dirty_update
    || apply dirty_quiet, preserves_quiet_Create.
Qed.

Lemma dirty_set_prim_active path active origin : preserves stays_dirty (set_prim_active path active origin).
Proof.
  unfold set_prim_active. preserves_tac; apply _ || by apply dirty_update
    || apply dirty_quiet, preserves_quiet_SetActive.
Qed.

Lemma dirty_reload : preserves stays_dirty Handlers.ReloadRootLayer.
Proof.
  unfold Handlers.ReloadRootLayer. preserves_tac; apply _ || by apply dirty_update
    || (intros ?; reflexivity) || apply dirty_quiet, preserves_quiet_author.
Qed.

Lemma dirty_SendAck i rid ok err : preserves stays_dirty (SendAck i rid ok err).
Proof. apply dirty_keeps, keeps_SendAck, _. Qed.

(** A command that saves nothing. *)
Lemma dirty_command c : c <> FlushCommand -> (forall promise, c <> CommitCommand promise) ->
  preserves stays_dirty (HandleCommand c).
Proof.
  intros Hf Hc.
  destruct c as [u origin rid base|i|parent type origin rid|path active origin rid|promise| | |i r];
    cbn [HandleCommand]; [| | | |by destruct (Hc promise)|apply dirty_reload|done|].
  - unfold HandleTransform. preserves_tac; apply _ || (intros ?; reflexivity) || apply dirty_SendAck
      || apply dirty_apply || (apply dirty_keeps, keeps_SendCorrection, _) || by apply dirty_update.
  - apply dirty_keeps, keeps_join, _.
  - unfold HandleCreatePrim.
    apply preserves_bind; [apply _|by intros w|]. intros [st|]; [|apply dirty_SendAck].
    apply preserves_bind; [apply _|apply dirty_create_prim|]. intros [prim|]; [|apply dirty_SendAck].
    apply preserves_bind; [apply _|by apply dirty_update|]. intros _. apply dirty_keeps.
    apply (keeps_announce dirty _ _ _ (fun s n => SerializeCreatePrimBroadcast s parent type prim n)).
  - unfold HandleSetPrimActive.
    apply preserves_bind; [apply _|by intros w|]. intros [st|]; [|apply dirty_SendAck].
    apply preserves_bind; [apply _|apply dirty_set_prim_active|]. intros []; try apply dirty_SendAck.
    apply preserves_bind; [apply _|by apply dirty_update|]. intros _. apply dirty_keeps.
    apply (keeps_announce dirty _ _ _ (fun s n => SerializeSetPrimActiveBroadcast s path active n)).
  - apply dirty_keeps, keeps_correction, _.
Qed.

(** ** Commands that save *)

(** [Save] throws nothing but [std::exception]s. *)
Definition save_throws_std : Prop := forall st d, snd (SaveSessionLayer st d) <> inr OtherException.

(** The event writes the session layer: to its sidecar, or folded into the
    original. *)
Definition saves (e : event) (w : World) : Prop :=
  match e with
  | Handled FlushCommand => exists st, stage (ses w) = Some st /\
      (GetSessionLayer st = None \/ exists st' d', SaveSessionLayer st (disk w) = (st', d', inl true))
  | Handled (CommitCommand _) => exists st st' d saved d', stage (ses w) = Some st /\
      SaveSessionLayer st (disk w) = (st', d, inl saved) /\
      StageCommitter.Commit (Some st') (usd_file_absolute (ses w)) d = (d', inl tt)
  | _ => False
  end.

Lemma flush_dirty w : save_throws_std -> dirty (ses w) = true ->
  dirty (ses (fst (HandleFlush w))) = true \/ saves (Handled FlushCommand) w.
Proof.
  intros Hsave Hd. unfold HandleFlush. erewrite bind_ok by reflexivity. cbv beta.
  destruct (stage (ses w)) as [st|] eqn:Hst; [|by left]. erewrite bind_ok by reflexivity. cbv beta. rewrite Hd. cbn [negb].
  set (w0 := with_session (set_dirty false) w).
  destruct (GetSessionLayer st) as [layer|] eqn:Hl; [|right; exists st; by split; [|left]].
  assert (Hs : save_session_layer w0 = let '(st', d', r) := SaveSessionLayer st (disk w) in
    (set_disk d' (with_session (set_stage (Some st')) w0), r)) by (unfold save_session_layer; cbn; by rewrite Hst).
  specialize (Hsave st (disk w)). destruct (SaveSessionLayer st (disk w)) as [[st' d'] r] eqn:Hsv.
  unfold try_std, mbind, M_bind. rewrite Hs. destruct r as [[]|[e|]]; [|by left|by left|done].
  right. exists st. split; [done|]. right. by exists st', d'.
Qed.

(** [dirty] stays up unless the commit was written. *)
Lemma commit_dirty promise w : dirty (ses w) = true ->
  dirty (ses (fst (HandleCommit promise w))) = true \/ saves (Handled (CommitCommand promise)) w.
Proof.
  intros Hd. cut (dirty (ses (fst (CommitOverrides true w))) = true \/ saves (Handled (CommitCommand promise)) w).
  { intros [Hc|?]; [left|by right]. unfold HandleCommit, mbind at 1, M_bind at 1.
    destruct (CommitOverrides true w) as [w1 [r|e]]; [|done]. revert Hc. cbn [fst].
    apply (preserves_bind stays_dirty (when _ _) (fun _ => _)); [|intros _ w2 Hw2; exact Hw2].
    unfold reload_other_sessions. preserves_tac; apply _ || (intros w2 Hw2; exact Hw2). }
  unfold CommitOverrides. erewrite bind_ok by reflexivity. cbv beta.
  destruct (stage (ses w)) as [st|] eqn:Hst; [|by left]. destruct (GetSessionLayer st) as [layer|]; [|by left]. destruct (LayerIsEmpty st layer); [by left|].
  assert (Hs : save_session_layer w = let '(st', d', r) := SaveSessionLayer st (disk w) in
    (set_disk d' (with_session (set_stage (Some st')) w), r)) by (unfold save_session_layer; by rewrite Hst).
  unfold mbind at 1, M_bind at 1. rewrite Hs.
  destruct (SaveSessionLayer st (disk w)) as [[st' d1] [saved|e]] eqn:Hsv; [|by left].
  erewrite bind_ok by reflexivity. unfold mbind at 1, M_bind at 1, commit_stage. cbn [disk set_disk].
  destruct (StageCommitter.Commit (Some st') (usd_file_absolute (ses w)) d1) as [d2 [[]|[e|]]] eqn:Hc; [|by left|by left].
  right. exists st, st', d1, saved, d2. by split_and!.
Qed.

Lemma happens_dirty e w : save_throws_std -> dirty (ses w) = true ->
  dirty (ses (happens e w)) = true \/ saves e w.
Proof.
  intros Hs Hd. destruct e as [c|l]; cbn [happens]; [|left; by apply (dirty_quiet _ (preserves_quiet_deliver l))].
  rewrite ProcessCommand_fst.
  destruct c; try (left; by apply dirty_command); [by apply commit_dirty|by apply flush_dirty].
Qed.

Lemma dirty_until_saved es w : save_throws_std -> dirty (ses w) = true ->
  dirty (ses (process es w)) = true \/
  exists before e after, es = before ++ e :: after /\ saves e (process before w).
Proof.
  intros Hs. revert w. induction es as [|e es IH]; intros w Hd; [by left|]. cbn [process foldl].
  destruct (happens_dirty e w Hs Hd) as [Hd'|He]; [|right; by exists [], e, es].
  destruct (IH _ Hd') as [?|(before & x & after & -> & Hx)]; [by left|]. right. by exists (e :: before), x, after.
Qed.

(** ** What an acceptance means *)

(** The positive Ack. *)
Definition accepts (f : Frame) : Prop := frame_body f = AckMessage (mkAck true "").

Definition no_acceptance (f : Frame) : Prop := ~ accepts f.

Lemma transform_no_acceptance f : is_transform f -> no_acceptance f.
Proof. intros [u Hu] Ha. unfold accepts in Ha. congruence. Qed.

Lemma not_ack_no_acceptance f : not_ack f -> no_acceptance f.
Proof. unfold not_ack, is_ack. intros Hf Ha. unfold accepts in Ha. by rewrite Ha in Hf. Qed.

Lemma negative_ack i rid err : preserves (progress no_acceptance) (SendAck i rid false err).
Proof. intros w. apply progress_SendAck. intros f Hf Ha. unfold accepts in Ha. congruence. Qed.

(** After a request its change is marked as unsaved, or it was not accepted, or
    there was none. *)
Definition accounted (w w' : World) : Prop :=
  dirty (ses w') = true \/ progress no_acceptance w w' \/ stage (ses w') = stage (ses w).

Lemma accounted_dirty {A} (m : M World A) w w' :
  preserves stays_dirty m -> accounted w (fst ((_ ← update (set_dirty true); m) w')).
Proof. intros Hm. left. erewrite bind_ok by reflexivity. by apply Hm. Qed.

Lemma accounted_transform upd origin rid base w : accounted w (fst (HandleTransform upd origin rid base w)).
Proof.
  unfold HandleTransform. erewrite bind_ok by reflexivity.
  destruct (CheckUpdate _ _ _ _); try (right; left; apply negative_ack).
  pose proof (preserves_apply_update _ transform_no_acceptance upd origin w) as Hp. unfold mbind at 1, M_bind at 1.
  destruct (apply_update upd origin w) as [w1 [[]|e]]; cbn [fst] in Hp; [| |by right; left].
  - apply accounted_dirty, dirty_keeps. preserves_tac; apply _ || apply (keeps_SendAck dirty) || apply (keeps_SendCorrection dirty).
  - right; left. etrans; [exact Hp|]. cbn [when negb].
    erewrite bind_ok by reflexivity. apply (preserves_bind _ _ (fun _ => _)); [apply negative_ack|]. intros _ w2.
    eapply progress_weaken; [apply not_ack_no_acceptance|]. apply preserves_SendCorrection.
Qed.

Lemma accounted_create parent type origin rid w : accounted w (fst (HandleCreatePrim parent type origin rid w)).
Proof.
  unfold HandleCreatePrim. erewrite bind_ok by reflexivity. cbv beta.
  destruct (stage (ses w)) as [st|]; [|right; left; apply negative_ack].
  pose proof (preserves_create_prim _ transform_no_acceptance parent type origin w) as Hp. unfold mbind at 1, M_bind at 1.
  destruct (create_prim parent type origin w) as [w1 [[prim|]|e]]; cbn [fst] in Hp; [| |by right; left].
  - apply accounted_dirty, dirty_keeps.
    apply (keeps_announce dirty _ _ _ (fun s n => SerializeCreatePrimBroadcast s parent type prim n)).
  - right; left. etrans; [exact Hp|]. apply negative_ack.
Qed.

(** A prim that is already in the wanted state is not authored. *)
Lemma already_unchanged path active w w' :
  PrimDispatcher.SetActive path active w = (w', inl PrimDispatcher.AlreadyInState) -> w' = w.
Proof.
  unfold PrimDispatcher.SetActive. erewrite bind_ok by reflexivity.
  repeat first [match goal with |- context [match ?x with _ => _ end w] => destruct x end; try by intros [= <-]].
  all: unfold try_std, mbind, M_bind; destruct (author _ w) as [w1 [[]|[]]]; done.
Qed.

Lemma already_same_stage path active origin w w' :
  set_prim_active path active origin w = (w', inl PrimDispatcher.AlreadyInState) ->
  stage (ses w') = stage (ses w).
Proof.
  unfold set_prim_active. erewrite !bind_ok by reflexivity. unfold mbind at 1, M_bind at 1, try_std.
  set (w0 := with_session _ _). destruct (PrimDispatcher.SetActive path active w0) as [w1 [status|[]]] eqn:Hs; [|done|done].
  erewrite !bind_ok by reflexivity. intros [= <- ->]. by apply already_unchanged in Hs as ->.
Qed.

Lemma accounted_set_active path active origin rid w :
  accounted w (fst (HandleSetPrimActive path active origin rid w)).
Proof.
  unfold HandleSetPrimActive. erewrite bind_ok by reflexivity. cbv beta.
  destruct (stage (ses w)) as [st|]; [|right; left; apply negative_ack].
  pose proof (preserves_set_prim_active _ transform_no_acceptance path active origin w) as Hp. unfold mbind at 1, M_bind at 1.
  destruct (set_prim_active path active origin w) as [w1 [status|e]] eqn:Hs; cbn [fst] in Hp; [|by right; left].
  destruct status; try (right; left; etrans; [exact Hp|]; apply negative_ack).
  - apply accounted_dirty, dirty_keeps.
    apply (keeps_announce dirty _ _ _ (fun s n => SerializeSetPrimActiveBroadcast s path active n)).
  - right; right. apply already_same_stage in Hs. rewrite SendAck_eq. cbn [fst]. destruct (clients (ses w1) !! origin); [|done].
    cbv zeta. by destruct (_ || _).
Qed.

Lemma accounted_request c w : request c <> None -> accounted w (fst (ProcessCommand c w)).
Proof.
  intros Hc. rewrite ProcessCommand_fst.
  destruct c; try done; cbn [HandleCommand];
    [apply accounted_transform|apply accounted_create|apply accounted_set_active].
Qed.

(** C19. No accepted change is forgotten. When a request is accepted, either it
    found everything as it wanted it and the stage is untouched, or the session
    counts as unsaved from then on, whatever commands and reloads follow, until
    a flush wrote the session layer to its sidecar or a commit folded it into
    the original; a flush or commit that fails leaves it unsaved. *)
Theorem accepted_changes_are_saved c f w es :
  save_throws_std -> request c <> None ->
  let w1 := fst (ProcessCommand c w) in
  f ∈ drop (length (outbox w)) (outbox w1) -> accepts f ->
  stage (ses w1) = stage (ses w) \/
  dirty (ses (process es w1)) = true \/
  exists before e after, es = before ++ e :: after /\ saves e (process before w1).
Proof.
  intros Hs Hc w1 Hf Ha. destruct (accounted_request c w Hc) as [Hd|[Hp|Hst]]; [| |by left].
  - right. by apply dirty_until_saved.
  - exfalso. destruct Hp as (? & _ & fs & Hfs & _ & Hdel & _). fold w1 in Hfs. rewrite Hfs, drop_app_length in Hf.
    unfold delivered in Hdel. rewrite Forall_forall in Hdel. by destruct (Hdel f Hf) as [_ []].
Qed.
End durability.

(** ** On the demonstration session *)
Import ToyWorld.

Definition creation_request : SessionCommand := CreatePrimCommand "/World" PRIM_TYPE_CUBE 5 2.

Definition created_world : World := fst (ProcessCommand creation_request world0).

Definition sidecar (w : World) : option string :=
  Filesystem.Disk.read_file "/srv/uploads/.idtx_session_1.usda" (disk w).

(** The session is unsaved until the flush, which writes the sidecar. *)
Example flush_saves :
  let w := process [Handled (JoinCommand 4); Handled FlushCommand] created_world in
  (dirty (ses created_world), sidecar created_world) = (true, None) /\
  (dirty (ses w), bool_decide (is_Some (sidecar w))) = (false, true).
Proof. vm_compute. split; reflexivity. Qed.

Lemma accepted_changes_are_saved_witness :
  dirty (ses (process [Handled (JoinCommand 4)] created_world)) = true \/
  exists before e after, [Handled (JoinCommand 4)] = before ++ e :: after /\ saves e (process before created_world).
Proof.
  destruct (accepted_changes_are_saved creation_request
    (default (mkFrame 0 (serialized (snapshot_complete_message session0 0))) (last (outbox created_world)))
    world0 [Handled (JoinCommand 4)]) as [Hst|Hsaved].
  - intros st d. cbn. by destruct (Filesystem.Disk.write_file _ _ _).
  - done.
  - apply (list_elem_of_lookup_2 _ 2%nat). vm_compute. reflexivity.
  - vm_compute. reflexivity.
  - exfalso. revert Hst. vm_compute. discriminate.
  - exact Hsaved.
Defined.
End Durability.
