(* ===== verification/Notices.v ===== *)
(** * What a change notice causes

    [StageNoticeListener::OnObjectsChanged] turns a notice into one version and
    the broadcasts of the prims it affects: who gets which payload, what is
    recorded, and what a reload leaves out. *)
From S2P Require Import Prelude Filesystem Proto Usd Versions Session Broadcast Listener SendFacts.
From S2P Require Import Dispatch Committer Handlers Progress Toy ToyWorld Authoring.

Module Notices.
Import Session Broadcast Listener SendFacts Progress.
Local Open Scope string_scope.
Local Open Scope list_scope.
Local Open Scope Z_scope.

(** ** Sets of paths *)

Lemma string_set_elem p l : p ∈ string_set l <-> p ∈ l.
Proof. apply (set_of_in String.ltb). Qed.

Section notices.
Context `{Usd} `{Wire}.

(** Which prims a notice is about. *)
Lemma affected_prims_elem n p :
  p ∈ affected_prims n <->
  (exists q, q ∈ GetChangedInfoOnlyPaths n /\ IsXformAttribute q = true /\ p = GetString (GetPrimPath q)) \/
  (exists q, q ∈ GetResyncedPaths n /\ (if IsPrimPath q then p = GetString q
     else IsXformAttribute q = true /\ p = GetString (GetPrimPath q))).
Proof.
  unfold affected_prims. rewrite string_set_elem, elem_of_app, !list_elem_of_bind. split.
  - intros [(q & Hp & Hq)|(q & Hp & Hq)].
    + left. exists q. destruct (IsXformAttribute q); [|by apply not_elem_of_nil in Hp].
      by apply list_elem_of_singleton in Hp.
    + right. exists q. split; [done|]. destruct (IsPrimPath q); [by apply list_elem_of_singleton in Hp|].
      destruct (IsXformAttribute q); [|by apply not_elem_of_nil in Hp].
      by apply list_elem_of_singleton in Hp.
  - intros [(q & Hq & Hx & ->)|(q & Hq & Hp)].
    + left. exists q. rewrite Hx. by rewrite list_elem_of_singleton.
    + right. exists q. destruct (IsPrimPath q); [by rewrite list_elem_of_singleton|].
      destruct Hp as [-> ->]. by rewrite list_elem_of_singleton.
Qed.

(** ** Who gets what *)

(** The payloads one connection gets. *)
Definition payloads_to (c : connection) (fs : list Frame) : list Payload :=
  payload <$> filter (fun f => to_connection f = c) fs.

Lemma payloads_to_app c fs1 fs2 : payloads_to c (fs1 ++ fs2) = payloads_to c fs1 ++ payloads_to c fs2.
Proof. unfold payloads_to. by rewrite filter_app, fmap_app. Qed.

Lemma payloads_frames_to cs i c (l : list (ConnectionId * connection)) p :
  sole cs i c -> NoDup l.*1 -> (forall x, x ∈ l -> cs !! x.1 = Some x.2) ->
  payloads_to c (frames_to l p) = if bool_decide (i ∈ l.*1) then [p] else [].
Proof.
  intros [Hi Hs] Hnd Hl. induction l as [|[j d] l IH]; [done|].
  rewrite fmap_cons in Hnd |- *. cbn [fst] in *. apply NoDup_cons in Hnd as [Hj Hnd].
  assert (Hjd : cs !! j = Some d) by (apply (Hl (j, d)); by left).
  specialize (IH Hnd (fun x Hx => Hl x (list_elem_of_further _ _ _ Hx))).
  change (frames_to ((j, d) :: l) p) with (mkFrame d p :: frames_to l p).
  unfold payloads_to in *. rewrite filter_cons. cbn [to_connection].
  destruct (decide (d = c)) as [->|Hdc].
  - apply Hs in Hjd as ->. rewrite fmap_cons, IH. rewrite !bool_decide_decide.
    rewrite decide_False by done. by rewrite decide_True by left.
  - rewrite IH. assert (i <> j) by (intros ->; congruence).
    rewrite !bool_decide_decide. destruct (decide (i ∈ l.*1)).
    + by rewrite decide_True by (right; done).
    + rewrite decide_False; [done|]. by intros [->|?]%elem_of_cons.
Qed.

Lemma targets_keys skip cs i c :
  sole cs i c -> NoDup (targets skip cs).*1 /\ (i ∈ (targets skip cs).*1 <-> skip <> Some i).
Proof.
  intros [Hi _]. unfold targets. split.
  - apply (sublist_NoDup _ (map_to_list cs).*1); [apply NoDup_fst_map_to_list|].
    apply fmap_sublist, sublist_filter.
  - rewrite list_elem_of_fmap. split.
    + intros ([j d] & -> & [Hj _]%list_elem_of_filter). done.
    + intros Hs. exists (i, c). split; [done|]. apply list_elem_of_filter.
      by rewrite elem_of_map_to_list.
Qed.

(** A prim's broadcast, seen by one client. *)
Lemma payloads_resolved s now writer seq p i c :
  sole (clients s) i c -> stage s <> None ->
  payloads_to c (resolved_frames s now writer seq p) =
  if i =? writer then [] else option_list (BuildBroadcastPayload s now p seq).
Proof.
  intros Hi Hst. unfold resolved_frames. destruct (stage s); [|done].
  destruct (BuildBroadcastPayload s now p seq) as [pl|]; [|by destruct (i =? writer)].
  destruct (targets_keys (Some writer) _ _ _ Hi) as [Hnd Hin].
  rewrite (payloads_frames_to _ _ _ _ _ Hi Hnd (targets_attached _ _)).
  destruct (Z.eqb_spec i writer) as [->|Hne].
  - by rewrite bool_decide_eq_false_2 by (rewrite Hin; congruence).
  - by rewrite bool_decide_eq_true_2 by (rewrite Hin; congruence).
Qed.

Lemma payloads_announced s now writer seq prims i c :
  sole (clients s) i c -> stage s <> None ->
  payloads_to c (prims ≫= resolved_frames s now writer seq) =
  if i =? writer then [] else omap (fun p => BuildBroadcastPayload s now p seq) prims.
Proof.
  intros Hi Hst. induction prims as [|p prims IH]; [by destruct (i =? writer)|].
  rewrite bind_cons, payloads_to_app, IH, (payloads_resolved _ _ _ _ _ i) by done.
  destruct (i =? writer); [done|]. simpl. by destruct (BuildBroadcastPayload s now p seq).
Qed.

(** ** What is recorded *)

Lemma prim_of_record_all l n v p : prim_of (record_all l n v) p = prim_of v p.
Proof. revert v. induction l as [|x l IH]; intros v; [done|]. cbn. unfold record_all in IH. by rewrite IH. Qed.

Lemma prim_of_resolved_records s now writer seq q v p :
  prim_of (resolved_records s now writer seq q v) p = prim_of v p.
Proof.
  unfold resolved_records. destruct (stage s); [|done]. destruct (BuildBroadcastPayload _ _ _ _); [|done].
  apply prim_of_record_all.
Qed.

Lemma prim_of_change p q seq writer v :
  prim_of (RecordChange q seq writer v) p =
  if bool_decide (q = p) then prim_of (RecordChange p seq writer v) p else prim_of v p.
Proof.
  case_bool_decide as Hq; [by subst|]. unfold prim_of, RecordChange. cbn [prims_]. by simplify_map_eq.
Qed.

(** Every announced prim has the new version and its writer; the others are as
    before. *)
Lemma prim_of_change_records s now writer seq prims v p :
  let v' := change_records s now writer seq prims v in
  (p ∈ prims -> last_change_seq (prim_of v' p) = seq /\ last_writer (prim_of v' p) = writer) /\
  (p ∉ prims -> prim_of v' p = prim_of v p).
Proof.
  cbv zeta. unfold change_records. induction prims as [|q prims IH] using rev_ind.
  - split; [by intros ?%not_elem_of_nil|done].
  - rewrite foldl_app. cbn [foldl]. rewrite prim_of_resolved_records, prim_of_change.
    destruct IH as [IH1 IH2]. split.
    + intros Hp. case_bool_decide as Hq.
      * unfold prim_of, RecordChange. cbn [prims_]. simplify_map_eq.
        destruct (Z.eqb_spec writer 0); cbn; [done|].
        match goal with |- context [last_writer ?x =? writer] =>
          destruct (Z.eqb_spec (last_writer x) writer) end; done.
      * apply IH1. apply elem_of_app in Hp as [|Hp%list_elem_of_singleton]; congruence.
    + rewrite not_elem_of_app. intros [Hp Hq]. case_bool_decide; [subst|by apply IH2].
      exfalso. apply Hq. by left.
Qed.

(** ** The two kinds of notice *)

(** C21. A change is announced once, to everybody but its author. When a notice
    outside a creation, an activation and a reload affects the transform of
    some prims, one new version is counted; every client but the author of the
    change gets, for each of these prims in order whose transform can be read,
    one broadcast of it under that version; the author gets nothing; and each
    of the prims, and no other, is recorded as changed under it by the
    author. *)
Theorem change_announced_to_others n w i c :
  create_in_progress (ses w) = false -> set_active_in_progress (ses w) = false ->
  reload_in_progress (ses w) = false -> affected_prims n <> [] -> stage (ses w) <> None ->
  sole (clients (ses w)) i c ->
  let seq := u64 (server_seq (ses w) + 1) in
  let origin := current_origin (ses w) in
  let w' := fst (OnObjectsChanged n w) in
  exists fs, outbox w' = outbox w ++ fs /\ server_seq (ses w') = seq /\
    payloads_to c fs =
      (if i =? origin then []
       else omap (fun p => BuildBroadcastPayload (ses w) (clock w) p seq) (affected_prims n)) /\
    forall p,
      (p ∈ affected_prims n ->
       last_change_seq (prim_of (versions (ses w')) p) = seq /\
       last_writer (prim_of (versions (ses w')) p) = origin) /\
      (p ∉ affected_prims n -> prim_of (versions (ses w')) p = prim_of (versions (ses w)) p).
Proof.
  intros Hcr Hsa Hre Hne Hst Hi seq origin w'.
  assert (Hw' : w' = sent (affected_prims n ≫= resolved_frames (ses w) (clock w) origin seq)
      (change_records (ses w) (clock w) origin seq (affected_prims n)) (bumped w)).
  { unfold w'. rewrite OnObjectsChanged_eq. cbn [fst]. unfold notice_announced, notice_writer, notice_prims.
    rewrite Hcr, Hsa, Hre. cbn [orb]. by destruct (affected_prims n). }
  clearbody w'. subst w'. eexists. split; [done|]. split; [done|]. split; [by apply payloads_announced|].
  intros p. apply prim_of_change_records.
Qed.

(** C22. A reload spares what the session overrides. A notice during a reload
    of the root layer counts one new version if it is about any prim; a prim
    whose transform the session layer overrides is neither recorded as changed
    nor broadcast; every other one is recorded as changed by the server and,
    if its transform can be read, broadcast to every client, in order. *)
Theorem reload_spares_overridden n w i c :
  create_in_progress (ses w) = false -> set_active_in_progress (ses w) = false ->
  reload_in_progress (ses w) = true -> reload_prims n <> [] -> stage (ses w) <> None ->
  sole (clients (ses w)) i c -> i <> 0 ->
  let seq := u64 (server_seq (ses w) + 1) in
  let shown := filter (fun p => has_override (ses w) p = false) (reload_prims n) in
  let w' := fst (OnObjectsChanged n w) in
  exists fs, outbox w' = outbox w ++ fs /\ server_seq (ses w') = seq /\
    payloads_to c fs = omap (fun p => BuildBroadcastPayload (ses w) (clock w) p seq) shown /\
    forall p,
      (p ∈ shown -> last_change_seq (prim_of (versions (ses w')) p) = seq /\
         last_writer (prim_of (versions (ses w')) p) = 0) /\
      (p ∉ shown -> prim_of (versions (ses w')) p = prim_of (versions (ses w)) p).
Proof.
  intros Hcr Hsa Hre Hne Hst Hi Hi0 seq shown w'.
  assert (Hw' : w' = sent (shown ≫= resolved_frames (ses w) (clock w) 0 seq)
      (change_records (ses w) (clock w) 0 seq shown) (bumped w)).
  { unfold w', shown. rewrite OnObjectsChanged_eq. cbn [fst].
    unfold notice_announced, notice_writer, notice_prims.
    rewrite Hcr, Hsa, Hre. cbn [orb]. by destruct (reload_prims n). }
  clearbody w'. subst w'. eexists. split; [done|]. split; [done|]. split.
  - rewrite (payloads_announced _ _ _ _ _ i) by done. by destruct (Z.eqb_spec i 0).
  - intros p. apply prim_of_change_records.
Qed.
End notices.

(** ** On the demonstration session *)
Import ToyWorld.

Definition notice1 : @Notice toy_usd := [("/World/A.xformOp:translate", false); ("/World/A", false)].

Lemma sole_demo : sole (clients (ses world0)) 5 50.
Proof.
  split; [done|]. intros j Hj. cbn in Hj.
  apply lookup_insert_Some in Hj as [[<- ?]|[_ Hj]]; [done|].
  by apply lookup_singleton_Some in Hj as [<- _].
Qed.

(** Connection 4 is changing the prim. *)
Definition authoring : World := with_session (set_current_origin 4) world0.

Lemma change_announced_to_others_witness :
  exists fs, outbox (fst (OnObjectsChanged (H := toy_usd) notice1 authoring)) = outbox authoring ++ fs /\
    payloads_to 50 fs =
      omap (fun p => BuildBroadcastPayload (H := toy_usd) (ses authoring) 1000 p 1)
        (affected_prims (H := toy_usd) notice1).
Proof.
  destruct (change_announced_to_others (H := toy_usd) notice1 authoring 5 50)
    as (fs & Ho & _ & Hp & _);
    [reflexivity|reflexivity|reflexivity|vm_compute; discriminate|discriminate|exact sole_demo|].
  exists fs. split; [exact Ho|exact Hp].
Defined.

(** The root layer is being reloaded. *)
Definition reloading : World := with_session (set_reload_in_progress true) world0.

Lemma reload_spares_overridden_witness :
  exists fs, outbox (fst (OnObjectsChanged (H := toy_usd) notice1 reloading)) = outbox reloading ++ fs /\
    payloads_to 50 fs =
      omap (fun p => BuildBroadcastPayload (H := toy_usd) (ses reloading) 1000 p 1)
        (filter (fun p => has_override (H := toy_usd) (ses reloading) p = false)
           (reload_prims (H := toy_usd) notice1)).
Proof.
  destruct (reload_spares_overridden (H := toy_usd) notice1 reloading 5 50)
    as (fs & Ho & _ & Hp & _);
    [reflexivity|reflexivity|reflexivity|vm_compute; discriminate|discriminate|exact sole_demo|done|].
  exists fs. split; [exact Ho|exact Hp].
Defined.

(** ** A layer that is shared *)

(** Another session reloads a layer of this one: the change is announced to
    everybody, prims that this session overrides included, unlike a reload of its
    own. *)
Definition reload_frames (w : World) : list connection :=
  to_connection <$> drop (length (outbox w))
    (outbox (fst (shared_layer_reloaded (H := toy_usd) [(default stage0 (stage (ses w)), notice1)] w))).

Definition dragged : World := process (H := toy_usd) [Handled (TransformCommand (drag "/World/A") 4 1 0)] world0.

Example shared_reload_of_overridden :
  has_override (H := toy_usd) (ses dragged) "/World/A" = true /\ reload_frames dragged = [50; 40].
Proof. vm_compute. split; reflexivity. Qed.

(** Nothing keeps the other session's thread from doing so while this session
    handles a command. Then the author of that command misses the change, which
    counts as its own; during a creation nobody hears of it. *)
Example shared_reload_during_update :
  reload_frames authoring = [50] /\
  last_writer (prim_of (versions (ses (fst (shared_layer_reloaded (H := toy_usd) [(stage0, notice1)] authoring)))) "/World/A") = 4.
Proof. vm_compute. split; reflexivity. Qed.

Example shared_reload_during_creation : reload_frames (with_session (set_create_in_progress true) world0) = [].
Proof. vm_compute. reflexivity. Qed.

End Notices.
