(* ===== verification/Agreement.v ===== *)
(** * Clients agree with the session

    What a client was last told about a prim is what the session's stage has,
    whatever updates the clients send. The law of the USD library that this
    needs, [CompleteNotices], is that a change of a transform is announced by a
    notice. *)
From S2P Require Import Prelude Filesystem Proto Usd Versions Session Broadcast Listener SendFacts.
From S2P Require Import Dispatch Committer Handlers Progress Toy ToyWorld PathFacts Authoring Naming Replies Notices.

Module Agreement.
Import Disk Session Broadcast Listener SendFacts PrimDispatcher Handlers Progress Authoring Naming Replies Notices.
Local Open Scope string_scope.
Local Open Scope list_scope.
Local Open Scope Z_scope.

(** The transform of a message. *)
Definition content (xf : local_transform) : transform_case :=
  match xf with inr mat => kMatrix mat | inl sep => kSeperate sep end.

(** What clients can be told about a prim: its transform, if it has one. *)
Definition reading `{Usd} (st : Stage) (p : string) : option transform_case :=
  content <$> ReadResolvedTransform (Some st) p.

(** From [st] to [st'] no transform changed without being marked. *)
Definition marked_changes `{Usd} (marked : Stage -> string -> bool) (st st' : Stage) : Prop :=
  forall p, marked st' p = false -> marked st p = false /\ reading st' p = reading st p.

#[export] Instance marked_changes_preorder `{Usd} marked : PreOrder (marked_changes marked).
Proof.
  split; [done|]. intros st1 st2 st3 H12 H23 p Hp. destruct (H23 p Hp) as [Hp2 ->]. by apply H12.
Qed.

(** Documented behaviour of USD: it marks what an authoring call changes and,
    when the change block closes, sends notices that name all that was marked, a
    path by its string. Observers see the stage after the change. Defining a prim
    changes no other one, saving a layer changes nothing. *)
Class CompleteNotices `{Usd} := {
  marked : Stage -> string -> bool;
  clear_marks prim : preserves (marked_changes marked) (ClearXformOpOrder prim);
  add_marks prim type precision : preserves (marked_changes marked) (AddXformOp prim type precision);
  set_marks prim type v : preserves (marked_changes marked) (SetXformOp prim type v);
  define_marks q type st p : marked st p = false -> GetString q <> p ->
    marked (fst (DefinePrim q type st)) p = false /\ reading (fst (DefinePrim q type st)) p = reading st p;
  marked_announced st l st' : close_change_block st = (l, st') ->
    (forall st1 n, (st1, n) ∈ l -> forall p, reading st1 p = reading st' p) /\
    forall p, if marked st p
              then GetString (MakePath p) = p -> exists st1 n, (st1, n) ∈ l /\ p ∈ affected_prims n
              else reading st' p = reading st p;
  unmarked_when_closed st p : marked (snd (close_change_block st)) p = false;
  save_silent st d st' d' r : SaveSessionLayer st d = (st', d', r) ->
    forall p, marked st' p = marked st p /\ reading st' p = reading st p }.

(** ** What a client was told *)

(** The transform a payload gives to a prim. *)
Definition tells (p : string) (pl : Payload) : option transform_case :=
  match msg_body (message_of pl) with
  | XformBroadcast _ u => if bool_decide (upd_prim_path u = p) then Some (upd_transform u) else None
  | _ => None
  end.

(** The last one among the frames to a connection. *)
Definition told (c : connection) (p : string) (fs : list Frame) : option transform_case :=
  last (omap (tells p) (payloads_to c fs)).

Lemma told_app c p fs1 fs2 :
  told c p (fs1 ++ fs2) = match told c p fs2 with Some t => Some t | None => told c p fs1 end.
Proof. unfold told. by rewrite payloads_to_app, omap_app, last_app. Qed.

Lemma told_elem c p fs t : told c p fs = Some t -> exists f, f ∈ fs /\ to_connection f = c /\ tells p (payload f) = Some t.
Proof.
  unfold told, payloads_to. intros Ht%last_Some_elem_of.
  apply list_elem_of_omap in Ht as (pl & (f & -> & [Hc Hf]%list_elem_of_filter)%list_elem_of_fmap & Hpl). eauto.
Qed.

(** [t] is the transform, if there is one. *)
Definition up_to_date (r : option transform_case) (t : transform_case) : Prop :=
  match r with Some x => x = t | None => True end.

Section agreement.
Context `{U : Usd} `{W : Wire} `{!WireOk} `{IO : IoErrors} `{UL : !UsdLaws} `{UT : !UsdThrows} `{CN : !CompleteNotices} `{SW : ShortWrites}.
Context (i : ConnectionId) (c : connection) (p : string) (Hcanonical : GetString (MakePath p) = p).

(** The client wrote the prim last, or what it was told last is up to date. *)
Definition agrees_at (r : option transform_case) (w : World) : Prop :=
  last_writer (prim_of (versions (ses w)) p) = i \/ forall t, told c p (outbox w) = Some t -> up_to_date r t.

Definition agrees (w : World) : Prop :=
  exists st, stage (ses w) = Some st /\ marked st p = false /\ agrees_at (reading st p) w.

(** The session listens to its stage and is in no creation, activation or
    reload; [i] is attached. *)
Definition listening (s : Session) : Prop :=
  create_in_progress s = false /\ set_active_in_progress s = false /\ reload_in_progress s = false /\
  listener s = Some true /\ sole (clients s) i c.

Definition in_step (w : World) : Prop := listening (ses w) /\ agrees w.

Definition keeps_step (w w' : World) : Prop := in_step w -> in_step w'.

#[export] Instance keeps_step_preorder : PreOrder keeps_step.
Proof. split; [by intros w Hw|]. intros w1 w2 w3 H12 H23 Hw. by apply H23, H12. Qed.

(** Frames that tell the client nothing wrong, and versions with the same
    writers. *)
Lemma agrees_sent r fs f w :
  last_writer (prim_of (f (versions (ses w))) p) = last_writer (prim_of (versions (ses w)) p) ->
  (forall g t, g ∈ fs -> to_connection g = c -> tells p (payload g) = Some t -> up_to_date r t) ->
  agrees_at r w -> agrees_at r (sent fs f w).
Proof.
  intros Hf Hfs [Hw|Hw]; [left; cbn; congruence|]. right. intros t. cbn. rewrite told_app.
  destruct (told c p fs) eqn:Ht; [|apply Hw]. intros [= <-]. apply told_elem in Ht as (g & ? & ? & ?). eauto.
Qed.

(** ** A notice *)

Lemma tells_payload s now q seq pl :
  BuildBroadcastPayload s now q seq = Some pl ->
  exists xf, ReadResolvedTransform (stage s) q = Some xf /\ tells p pl = if bool_decide (q = p) then Some (content xf) else None.
Proof.
  unfold BuildBroadcastPayload, BuildBroadcastMessage. destruct (ReadResolvedTransform _ q) as [xf|]; [|done].
  unfold SerializeToString. destruct (encode _) as [? []]; [|done]. intros [= <-]. exists xf. split; [done|]. reflexivity.
Qed.

Lemma build_payload s now q seq xf :
  ReadResolvedTransform (stage s) q = Some xf -> is_Some (BuildBroadcastPayload s now q seq).
Proof.
  intros Hx. unfold BuildBroadcastPayload, BuildBroadcastMessage. rewrite Hx, serialize_ok by done. by eexists.
Qed.

(** A notice is heard by whoever did not write it. *)
Lemma notice_agrees n st w :
  listening (ses w) -> stage (ses w) = Some st ->
  agrees_at (reading st p) w \/ p ∈ affected_prims n -> agrees_at (reading st p) (fst (OnObjectsChanged n w)).
Proof.
  intros (Hcr & Hsa & Hre & _ & Hi) Hst Hag. rewrite OnObjectsChanged_eq. cbn [fst].
  unfold notice_announced, notice_writer, notice_prims. rewrite Hcr, Hsa, Hre. cbn [orb].
  destruct (affected_prims n) as [|q0 l0]; [by destruct Hag as [?|?%not_elem_of_nil]|].
  set (prims := q0 :: l0) in *. set (seq := u64 _). set (o := current_origin (ses w)).
  set (fs := prims ≫= resolved_frames (ses w) (clock w) o seq).
  destruct (prim_of_change_records (ses w) (clock w) o seq prims (versions (ses w)) p) as [Hin Hout].
  assert (Hfs : payloads_to c fs = if i =? o then [] else omap (fun q => BuildBroadcastPayload (ses w) (clock w) q seq) prims)
    by (apply payloads_announced; [done|by rewrite Hst]).
  assert (Hup : forall t, told c p fs = Some t -> up_to_date (reading st p) t).
  { intros t. unfold told. rewrite Hfs. destruct (i =? o); [done|]. intros Ht%last_Some_elem_of.
    apply list_elem_of_omap in Ht as (pl & (q & Hq & Hpl)%list_elem_of_omap & Ht).
    apply tells_payload in Hpl as (xf & Hx & Htell). rewrite Ht in Htell. case_bool_decide; [|done]. subst q.
    unfold reading. rewrite Hst in Hx. rewrite Hx. cbn. congruence. }
  unfold agrees_at. cbn [sent set_outbox with_session set_ses ses set_versions versions outbox bumped set_server_seq].
  destruct (decide (p ∈ prims)) as [Hp|Hp].
  - destruct (Hin Hp) as [_ ->]. destruct (Z.eqb_spec i o) as [->|Hio]; [by left|right].
    intros t. rewrite told_app. destruct (told c p fs) as [t'|] eqn:Ht; [intros [= <-]; by apply Hup|].
    intros _. unfold up_to_date. destruct (reading st p) as [x|] eqn:Hx; [|done]. exfalso.
    unfold reading in Hx. apply fmap_Some in Hx as (xf & Hx & _). rewrite <- Hst in Hx.
    destruct (build_payload (ses w) (clock w) p seq xf Hx) as [pl Hpl].
    destruct (tells_payload _ _ _ _ _ Hpl) as (xf' & _ & Htell). rewrite bool_decide_eq_true_2 in Htell by done.
    unfold told in Ht. rewrite Hfs in Ht. destruct (i =? o) eqn:He; [by apply Z.eqb_eq in He|].
    apply last_None in Ht. eapply not_elem_of_nil. rewrite <- Ht. apply list_elem_of_omap.
    exists pl. split; [|exact Htell]. apply list_elem_of_omap. by exists p.
  - rewrite (Hout Hp). destruct Hag as [Hag|]; [|done]. destruct Hag as [Hw|Hw]; [by left|right].
    intros t. rewrite told_app. destruct (told c p fs) as [t'|] eqn:Ht; [intros [= <-]; by apply Hup|apply Hw].
Qed.

(** ** Authoring *)

Lemma deliver_cons st n l w :
  listener (ses w) = Some true ->
  deliver ((st, n) :: l) w = deliver l (fst (OnObjectsChanged n (with_session (set_stage (Some st)) w))).
Proof.
  intros Hl. unfold deliver at 1. cbn [for_each].
  rewrite (bind_ok _ _ w (fst (OnObjectsChanged n (with_session (set_stage (Some st)) w))) tt); [done|].
  erewrite bind_ok by reflexivity. erewrite bind_ok by reflexivity. cbn [listener set_stage ses with_session set_ses].
  rewrite Hl, OnObjectsChanged_eq. done.
Qed.

Lemma notice_listening n w :
  listening (ses (fst (OnObjectsChanged n w))) = listening (ses w) /\ stage (ses (fst (OnObjectsChanged n w))) = stage (ses w).
Proof. rewrite OnObjectsChanged_eq. cbn [fst]. by destruct (notice_prims (ses w) n). Qed.

Lemma deliver_agrees l r w :
  (forall st n, (st, n) ∈ l -> reading st p = r) -> listening (ses w) ->
  agrees_at r w \/ (exists st n, (st, n) ∈ l /\ p ∈ affected_prims n) ->
  snd (deliver l w) = inl tt /\ listening (ses (fst (deliver l w))) /\ agrees_at r (fst (deliver l w)).
Proof.
  revert w. induction l as [|[st n] l IH]; intros w Hr Hl Hag.
  - destruct Hag as [?|(? & ? & ?%not_elem_of_nil & _)]; done.
  - rewrite deliver_cons by apply Hl. set (w1 := with_session (set_stage (Some st)) w).
    assert (Hl1 : listening (ses w1)) by exact Hl.
    apply IH; [intros; eapply Hr; by right|by rewrite (proj1 (notice_listening n w1))|].
    rewrite <- (Hr st n) in Hag |- * by by left.
    destruct Hag as [Hag|(st' & n' & [Hn|Hn]%elem_of_cons & Hp)]; [left|left|right; eauto].
    + apply notice_agrees; [done..|by left].
    + injection Hn as <- <-. apply notice_agrees; [done..|by right].
Qed.

Lemma author_keeps {A} (op : M Stage A) :
  preserves (marked_changes marked) op -> preserves keeps_step (author op).
Proof.
  intros Hop w [Hl (st & Hst & _ & Hag)]. unfold author. erewrite bind_ok by reflexivity. rewrite Hst.
  specialize (Hop st). destruct (op st) as [st1 res], (close_change_block st1) as [l st2] eqn:Hclose. cbn [fst] in Hop.
  destruct (marked_announced _ _ _ Hclose) as [Hsees Hnamed]. specialize (Hnamed p). specialize (Hop p).
  destruct (deliver_agrees l (reading st2 p) w) as (Hret & Hl' & Hag'); [by eauto|done| |].
  { destruct (marked st1 p); [right; by apply Hnamed|left]. destruct (Hop eq_refl) as [_ Hop']. by rewrite Hnamed, Hop'. }
  pose proof (unmarked_when_closed st1 p) as Hun. rewrite Hclose in Hun. cbn [snd] in Hun.
  destruct (deliver l w) as [w' r'] eqn:Hd. cbn [fst snd] in *. subst r'.
  rewrite (bind_ok _ _ _ _ _ Hd). erewrite bind_ok by reflexivity.
  assert (Hdone : in_step (with_session (set_stage (Some st2)) w')) by (split; [exact Hl'|by exists st2]).
  by destruct res.
Qed.

(** ** The handlers *)

Lemma update_keeps f :
  (forall s, listening (f s) = listening s /\ stage (f s) = stage s /\ versions (f s) = versions s) ->
  preserves keeps_step (update f).
Proof.
  intros Hf w [Hl (st & Hst & Hm & Hag)]. destruct (Hf (ses w)) as (Hl' & Hs' & Hv'). split; cbn; [by rewrite Hl'|].
  exists st. split; [by rewrite <- Hst|]. split; [done|]. unfold agrees_at in *. cbn. by rewrite Hv'.
Qed.

Lemma session_keeps {A} (f : Session -> A) : preserves keeps_step (session f).
Proof. by intros w Hw. Qed.

Lemma sent_keeps fs f w :
  last_writer (prim_of (f (versions (ses w))) p) = last_writer (prim_of (versions (ses w)) p) ->
  (forall g t, g ∈ fs -> to_connection g = c -> tells p (payload g) = Some t ->
     up_to_date (stage (ses w) ≫= fun st => reading st p) t) ->
  keeps_step w (sent fs f w).
Proof.
  intros Hf Hfs [Hl (st & Hst & Hm & Hag)]. split; [exact Hl|]. exists st. split; [done|]. split; [done|].
  rewrite Hst in Hfs. by apply agrees_sent.
Qed.

Lemma SendAck_keeps j rid ok err : preserves keeps_step (SendAck j rid ok err).
Proof.
  intros w. rewrite SendAck_eq. cbn [fst]. destruct (clients (ses w) !! j); [|reflexivity]. cbv zeta.
  destruct (_ || _); [reflexivity|]. apply sent_keeps; [done|]. by intros g t ->%list_elem_of_singleton.
Qed.

Lemma bumped_keeps w : keeps_step w (bumped w).
Proof. apply (update_keeps (set_server_seq (u64 (server_seq (ses w) + 1)))). done. Qed.

(** A correction tells the transform of its prim. *)
Lemma SendCorrection_keeps j q : preserves keeps_step (SendCorrection j q).
Proof.
  intros w. unfold SendCorrection. erewrite !bind_ok by reflexivity.
  destruct (stage (ses w)) as [st|] eqn:Hst; [|reflexivity]. destruct (j =? 0); [reflexivity|].
  cbv zeta. destruct (if IsValidPathString q then _ else _).
  - destruct (clients (ses w) !! j) as [conn|]; [|reflexivity].
    rewrite send_deactivation_eq. cbn [fst]. etrans; [apply bumped_keeps|].
    apply sent_keeps; [done|]. by intros g t ->%list_elem_of_singleton.
  - destruct (BuildBroadcastMessage (ses w) (clock w) q) as [msg|] eqn:Hm; [|reflexivity].
    destruct (clients (ses w) !! j) as [conn|]; [|reflexivity].
    rewrite send_transform_eq. cbn [fst]. unfold SerializeToString.
    unfold BuildBroadcastMessage in Hm. destruct (ReadResolvedTransform _ q) as [xf|] eqn:Hx; [|done]. injection Hm as <-.
    destruct (encode _) as [b []]; cbn [fst snd]; [|apply bumped_keeps]. etrans; [apply bumped_keeps|].
    apply sent_keeps; [done|]. intros g t ->%list_elem_of_singleton _ Ht. cbn in Ht.
    change (stage (ses (bumped w))) with (stage (ses w)). rewrite Hst in Hx |- *. cbn [mbind option_bind].
    case_bool_decide; [|done]. subst q. unfold reading. rewrite Hx. cbn. by injection Ht.
Qed.

Lemma apply_keeps u : preserves keeps_step (TransformDispatcher.Apply u).
Proof.
  unfold TransformDispatcher.Apply.
  preserves_tac; apply _ || apply session_keeps || apply author_keeps.
  - unfold TransformDispatcher.ApplySeparate. preserves_tac; apply _ || apply clear_marks || apply add_marks || apply set_marks.
  - unfold TransformDispatcher.ApplyMatrix. preserves_tac; apply _ || apply clear_marks || apply add_marks || apply set_marks.
Qed.

Lemma transform_keeps u origin rid base : preserves keeps_step (HandleTransform u origin rid base).
Proof.
  unfold HandleTransform, apply_update.
  preserves_tac; apply _ || apply session_keeps || apply apply_keeps || apply SendAck_keeps || apply SendCorrection_keeps
    || by apply update_keeps.
Qed.

Lemma join_keeps j : j <> i -> preserves keeps_step (HandleJoin j).
Proof.
  intros Hj w Hw. unfold HandleJoin. erewrite !bind_ok by reflexivity. cbv zeta.
  destruct (stage (ses w)) as [st|]; [|done]. destruct (clients (ses w) !! j) as [conn|] eqn:Hconn; [|done].
  erewrite bind_ok by apply send_all_eq. rewrite on_versions_eq, sent_sent. cbn [fst]. apply sent_keeps; [done| |done].
  intros g t Hg Hc _. exfalso. rewrite app_nil_r in Hg. apply list_elem_of_fmap in Hg as (pl & -> & _). cbn in Hc. subst conn.
  destruct Hw as [(_ & _ & _ & _ & _ & Hsole) _]. by apply Hj, Hsole.
Qed.

Lemma save_keeps : preserves keeps_step save_session_layer.
Proof.
  intros w [Hl (st & Hst & Hm & Hag)]. unfold save_session_layer. rewrite Hst.
  destruct (SaveSessionLayer st (disk w)) as [[st' d'] r] eqn:Hs. split; [exact Hl|]. exists st'. split; [done|].
  destruct (save_silent _ _ _ _ _ Hs p) as [-> ->]. done.
Qed.

Lemma flush_keeps : preserves keeps_step HandleFlush.
Proof.
  unfold HandleFlush. preserves_tac; apply _ || apply session_keeps || apply save_keeps || by apply update_keeps.
Qed.

Lemma correction_keeps j request : preserves keeps_step (HandleCorrection j request).
Proof.
  unfold HandleCorrection. destruct request; [|apply preserves_ret, _].
  preserves_tac; apply _ || apply SendCorrection_keeps || by intros w Hw.
Qed.

(** ** Creations of other prims *)

(** While the listener is silent only the stage changes, and not the transform
    of the prim. *)
Definition keeps_reading (w w' : World) : Prop :=
  silent w = true -> forall st, stage (ses w) = Some st -> marked st p = false ->
  exists st', w' = with_session (set_stage (Some st')) w /\ marked st' p = false /\ reading st' p = reading st p.

#[export] Instance keeps_reading_preorder : PreOrder keeps_reading.
Proof.
  split.
  - intros w _ st Hst Hm. exists st. split; [|done]. rewrite <- Hst. by destruct w as [[] ? ? ? ? ? ? ? ?].
  - intros w1 w2 w3 H12 H23 Hs st Hst Hm. destruct (H12 Hs st Hst Hm) as (st2 & -> & Hm2 & <-).
    destruct (H23 Hs st2 eq_refl Hm2) as (st3 & -> & Hm3 & <-). by exists st3.
Qed.

Lemma define_keeps q type : GetString q <> p -> preserves keeps_reading (author (DefinePrim q type)).
Proof.
  intros Hq w Hs st Hst Hm. destruct (preserves_only_stage_author (DefinePrim q type) w Hs) as [st' Hw].
  destruct (define_marks q type st p Hm Hq) as [Hm1 Hr1].
  unfold author in Hw |- *. erewrite bind_ok in Hw |- * by reflexivity. cbv beta in Hw |- *. rewrite Hst in Hw |- *.
  destruct (DefinePrim q type st) as [st1 res], (close_change_block st1) as [l st2] eqn:Hc. cbn [fst] in *.
  pose proof (unmarked_when_closed st1 p) as Hun. rewrite Hc in Hun. cbn [snd] in Hun.
  pose proof (proj2 (marked_announced _ _ _ Hc) p) as Hr2. rewrite Hm1 in Hr2.
  destruct (returns_deliver l w) as [_ [u Hd]]; [by exists st|].
  destruct (deliver l w) as [w1 r1] eqn:Hd1. cbn [snd] in Hd. subst r1.
  rewrite (bind_ok _ _ _ _ _ Hd1) in Hw |- *. erewrite bind_ok in Hw |- * by reflexivity.
  assert (st' = Some st2) as ->.
  { apply (f_equal (fun w => stage (ses w))) in Hw. cbn in Hw. rewrite <- Hw. by destruct res. }
  exists st2. split; [exact Hw|]. split; [done|congruence].
Qed.

(** The prim has none of the names a new prim of the type can get. *)
Definition elsewhere (parent_path : string) (type : PrimType) : Prop :=
  forall k, GetString (candidate_path (MakePath parent_path) (TfMakeValidIdentifier (BaseNameFor type)) k) <> p.

Lemma child_elsewhere st parent_path type child name :
  elsewhere parent_path type ->
  PrimDispatcher.UniqueChildPath st (MakePath parent_path) (BaseNameFor type) = Some (child, name) -> GetString child <> p.
Proof. intros He Hu. destruct (unique_child_Some _ _ _ _ _ _ _ Hu) as (k & _ & _ & -> & _). apply He. Qed.

Lemma create_keeps_reading parent_path type :
  elsewhere parent_path type -> preserves keeps_reading (PrimDispatcher.Create parent_path type).
Proof.
  intros He. unfold PrimDispatcher.Create, PrimDispatcher.AuthorPrim, on_stage. cbv zeta.
  apply preserves_bind; [apply _|intros w; reflexivity|]. intros [st|]; [|apply preserves_ret, _].
  match goal with |- context [PrimDispatcher.UniqueChildPath st ?parent ?base] =>
    destruct (PrimDispatcher.UniqueChildPath st parent base) as [[child name]|] eqn:Hu end;
    preserves_tac; try (apply _ || (intros w; reflexivity)).
  apply define_keeps. by eapply child_elsewhere.
Qed.

Lemma created_elsewhere parent_path type w w' created :
  elsewhere parent_path type -> PrimDispatcher.Create parent_path type w = (w', inl (Some created)) -> created_prim_path created <> p.
Proof.
  intros He. unfold PrimDispatcher.Create. erewrite bind_ok by reflexivity. cbv beta zeta.
  destruct (stage (ses w)) as [st|]; [|done]. destruct (Str.is_empty _); [done|]. destruct (_ || _); [done|].
  destruct (_ || _); [done|]. destruct (GetPrimAtPath _ _); [|done]. destruct (negb _); [done|]. destruct (_ && _); [done|].
  destruct (PrimDispatcher.UniqueChildPath _ _ _) as [[child name]|] eqn:Hu; [|done].
  intros [_ ->]%created_from. by eapply child_elsewhere.
Qed.

Lemma announce_keeps path origin rid (payload_of : Session -> Z -> Payload) :
  path <> p -> (forall s n, tells p (payload_of s n) = None) ->
  preserves keeps_step
    (_ ← update (set_dirty true); seq ← next_seq; _ ← on_versions (RecordChange path seq origin);
     s ← session (fun s => s); _ ← BroadcastToAll (payload_of s seq) seq; SendAck origin rid true "").
Proof.
  intros Hpath Hpay.
  preserves_tac; try (apply _ || apply session_keeps || apply SendAck_keeps || by apply update_keeps).
  - intros w. apply bumped_keeps.
  - intros w. rewrite on_versions_eq. cbn [fst]. apply sent_keeps; [|by intros ? ? ?%not_elem_of_nil].
    rewrite prim_of_change. by rewrite bool_decide_eq_false_2.
  - intros w. unfold BroadcastToAll. destruct (payload_empty _); [reflexivity|]. rewrite send_to_clients_eq. cbn [fst].
    apply sent_keeps; [by rewrite prim_of_record_all|]. intros g t (x & -> & _)%list_elem_of_fmap _. cbn. by rewrite Hpay.
Qed.

Lemma create_keeps parent_path type origin rid :
  elsewhere parent_path type -> preserves keeps_step (HandleCreatePrim parent_path type origin rid).
Proof.
  intros He w Hw. unfold HandleCreatePrim. erewrite bind_ok by reflexivity. cbv beta.
  destruct (stage (ses w)) as [st|] eqn:Hst; [|by apply SendAck_keeps].
  destruct (returns_create_prim parent_path type origin w) as [_ [r Hr]]; [by exists st|].
  destruct (create_prim parent_path type origin w) as [w1 r1] eqn:Hc. cbn [snd] in Hr. subst r1.
  assert (Hw1 : in_step w1 /\ forall created, r = Some created -> created_prim_path created <> p).
  { unfold create_prim in Hc. erewrite !bind_ok in Hc by reflexivity. apply bind_inv in Hc as (a & w2 & Hm & Hc).
    set (w0 := with_session _ (with_session _ w)) in Hm. destruct Hw as [Hl (st' & Hst' & Hmk & Hag)].
    assert (st' = st) as -> by congruence.
    pose proof (create_keeps_reading parent_path type He w0 eq_refl st Hst Hmk) as (st2 & Hw2 & Hm2 & Hr2).
    rewrite <- (try_std_fst _ None), Hm in Hw2. cbn [fst] in Hw2. subst w2. injection Hc as <- <-. split.
    - destruct Hl as (_ & Hsa & Hre & Hli & Hso). split; [by split_and!|]. exists st2. split; [done|]. split; [done|].
      unfold agrees_at in *. by rewrite Hr2.
    - intros created ->. apply try_none in Hm. by eapply created_elsewhere. }
  destruct Hw1 as [Hw1 Hpath]. rewrite (bind_ok _ _ _ _ _ Hc). destruct r as [prim|]; [|by apply SendAck_keeps].
  apply (announce_keeps (created_prim_path prim) origin rid (fun s n => SerializeCreatePrimBroadcast s parent_path type prim n));
    [by apply Hpath|done|done].
Qed.

(** ** Any of these commands *)

(** Updates by anybody, creations of other prims, corrections, flushes and the
    joining of others. Reloads are left out, of which a notice may name no more
    than the root of a subtree that changed, and so are activations, after which
    whole subtrees become readable without being announced. *)
Definition routine (cmd : SessionCommand) : Prop :=
  match cmd with
  | CreatePrimCommand parent_path type _ _ => elsewhere parent_path type
  | TransformCommand _ _ _ _ | FlushCommand | CorrectionCommand _ _ => True
  | JoinCommand j => j <> i
  | _ => False
  end.

Lemma routine_keeps cmd w : routine cmd -> keeps_step w (fst (ProcessCommand cmd w)).
Proof.
  intros Hr. unfold ProcessCommand. apply preserves_try_all; [apply _| |intros; apply preserves_ret, _].
  destruct cmd; try done; simpl; auto using transform_keeps, create_keeps, join_keeps, flush_keeps, correction_keeps.
Qed.

(** C2. Clients agree with the session. Whatever updates any clients send, in
    whatever order, accepted, stale, failing or throwing, with the corrections
    they cause, with flushes, creations and others joining in between: for every
    prim, the transform an attached client was told last is the one the session's
    stage has at the end, unless the client itself was the last to change the
    prim. So the clients that were told about a prim, its last author aside, were
    all told the same. It is enough that it was so at the beginning, as it is for
    a client that was told nothing about the prim yet. *)
Theorem clients_agree cmds w st xf t :
  listening (ses w) -> agrees w -> Forall routine cmds ->
  let w' := process (Handled <$> cmds) w in
  stage (ses w') = Some st -> ReadResolvedTransform (Some st) p = Some xf ->
  told c p (outbox w') = Some t ->
  t = content xf \/ last_writer (prim_of (versions (ses w')) p) = i.
Proof.
  intros Hl Hag Hr w' Hst Hx Ht.
  assert (Hw : in_step w').
  { unfold w'. assert (Hw : in_step w) by done. clear Hl Hag Hst Ht w'. revert w Hw.
    induction Hr as [|cmd cmds Hcmd Hr IH]; intros w Hw; [done|].
    cbn [process foldl fmap list_fmap happens]. by apply IH, routine_keeps. }
  destruct Hw as (_ & st' & Hst' & _ & [Hw|Hw]); [by right|left]. specialize (Hw t Ht).
  assert (st' = st) as -> by congruence. unfold reading in Hw. rewrite Hx in Hw. by symmetry.
Qed.

Lemma nothing_told st w : stage (ses w) = Some st -> marked st p = false -> told c p (outbox w) = None -> agrees w.
Proof. intros Hst Hm Ht. exists st. split; [done|]. split; [done|]. right. intros t. by rewrite Ht. Qed.
End agreement.

(** ** The small USD is complete *)
Import ToyWorld PathFacts.

Lemma reading_specs (st st' : toy_stage) q : specs st' q = specs st q -> reading (H := toy_usd) st' q = reading (H := toy_usd) st q.
Proof.
  intros Hs. unfold reading, ReadResolvedTransform. cbn [toy_usd toy IsValidPathString MakePath GetPrimAtPath].
  assert (has_prim st' q = has_prim st q) as -> by (unfold has_prim; by rewrite Hs).
  destruct (negb _); [done|]. destruct (has_prim st q); [|done].
  cbn [toy_usd toy IsXformable IsXformCommonAPI GetXformVectorsByAccumulation GetLocalTransformation].
  unfold op_value, op_order, attr, type_of. by rewrite !Hs.
Qed.

Lemma specs_edit p n f (st : toy_stage) q : q <> p -> specs (edit p n f st) q = specs st q.
Proof.
  intros Hq. unfold specs, edit. cbn [session_layer root_layer].
  by rewrite (lookup_insert_ne (M := gmap string) (session_layer st) p q) by congruence.
Qed.

Definition toy_marked (st : toy_stage) (q : string) : bool := bool_decide (q ∈ affected_prims (H := toy_usd) (pending st)).

Lemma toy_edit_attr p name v (st : toy_stage) :
  Str.contains_char "." name = false -> (String.eqb name "xformOpOrder" || Str.starts_with "xformOp:" name) = true ->
  marked_changes (H := toy_usd) toy_marked st (edit_attr p name v st).
Proof.
  intros Hdot Hname q Hq. set (path := (p +:+ String "." name)%string).
  assert (Hlast : Str.split_last "." path = Some (p, name)) by by apply split_last_app.
  assert (Hprop : is_property path = true).
  { unfold is_property. destruct (Str.contains_char "." path) eqn:Hc; [done|]. apply split_last_none in Hc. congruence. }
  assert (Hmono : q ∈ affected_prims (H := toy_usd) (pending st) \/ q = p ->
    q ∈ affected_prims (H := toy_usd) (pending (edit_attr p name v st))).
  { rewrite !affected_prims_elem. cbn. setoid_rewrite filter_app. setoid_rewrite fmap_app. setoid_rewrite elem_of_app.
    intros [[(r & Hr & Hx)|(r & Hr & Hx)]| ->]; [left|right|left]; [eauto..|].
    exists path. split; [right; by left|]. unfold IsXformAttribute. cbn. rewrite Hprop. cbn. unfold prim_part. by rewrite Hlast. }
  unfold toy_marked in *. rewrite bool_decide_eq_false in Hq. split.
  - apply bool_decide_eq_false. intros Hin. apply Hq, Hmono. by left.
  - apply reading_specs, specs_edit. intros ->. apply Hq, Hmono. by right.
Qed.

Lemma toy_authored {A} p (f : toy_stage -> toy_stage) (a : A) :
  (forall st, marked_changes (H := toy_usd) toy_marked st (f st)) ->
  preserves (marked_changes (H := toy_usd) toy_marked) (authored faulty p f a).
Proof. intros Hf st. unfold authored. destruct (faulty p); [done|apply Hf]. Qed.

#[export] Instance toy_notices : CompleteNotices (H := toy_usd).
Proof.
  refine {| marked := toy_marked |}.
  - intros prim. apply toy_authored. intros st. by apply toy_edit_attr.
  - intros prim type precision st. cbn. unfold added. destruct (faulty _); [done|].
    apply toy_authored. clear. intros st. by apply toy_edit_attr.
  - intros prim type v. apply toy_authored. intros st. apply toy_edit_attr; by destruct type.
  - intros q type st p Hm Hq. cbn in Hq |- *. destruct (is_property q) eqn:Hprop; [done|]. unfold authored.
    destruct (faulty q); [done|]. cbn [fst]. unfold toy_marked in *. rewrite bool_decide_eq_false in Hm.
    split; [|by apply reading_specs, specs_edit]. apply bool_decide_eq_false. revert Hm.
    rewrite !affected_prims_elem. cbn. setoid_rewrite filter_app. setoid_rewrite fmap_app. setoid_rewrite elem_of_app.
    intros Hm [(r & [Hr|Hr%not_elem_of_nil] & Hx)|(r & [Hr|Hr%list_elem_of_singleton] & Hx)]; [| |eauto|]; try done; [eauto|].
    cbn in Hr. subst r. unfold IsXformAttribute in Hx. cbn in Hx. rewrite Hprop in Hx. cbn in Hx.
    destruct (negb _); cbn in Hx; [by symmetry in Hx|by destruct Hx].
  - intros st l st' Hc. cbn in Hc. unfold toy_marked. destruct (pending st) as [|x n] eqn:Hp; injection Hc as <- <-.
    + split; [by intros ? ? ?%not_elem_of_nil|]. intros p. by apply reading_specs.
    + split; [by intros st1 n1 [= -> ->]%list_elem_of_singleton|]. intros p. case_bool_decide.
      * intros _. exists (mkStage (root_layer st) (session_layer st) (session_file st) (root_file st) []), (x :: n). split; [by left|done].
      * by apply reading_specs.
  - intros st p. cbn. by destruct (pending st).
  - intros st d st' d' r Hs p. cbn in Hs. destruct (write_file _ _ d). by injection Hs as <- _ _.
Defined.

(** Connection 4 drags a prim twice, the second time with a matrix, and joins
    again; connection 5 drags another prim, then creates one. *)
Definition grip (prim : string) : TransformUpdate := mkTransformUpdate "s1" "a.usda" prim (kMatrix identity_matrix) 0.

Definition dragging : list SessionCommand :=
  [TransformCommand (drag "/World/A") 4 1 0; TransformCommand (drag "/World") 5 2 0; FlushCommand;
   CreatePrimCommand "/World" PRIM_TYPE_CUBE 5 5;
   TransformCommand (grip "/World/A") 4 3 0; TransformCommand (drag "/World/A") 5 4 1; JoinCommand 4].

Definition after_dragging : World := process (H := toy_usd) (Handled <$> dragging) world0.

Lemma clients_agree_witness :
  content <$> ReadResolvedTransform (H := toy_usd) (stage (ses after_dragging)) "/World/A" = Some (kMatrix identity_matrix).
Proof.
  destruct (stage (ses after_dragging)) as [st|] eqn:Hst; [|vm_compute in Hst; discriminate Hst].
  destruct (ReadResolvedTransform (H := toy_usd) (Some st) "/World/A") as [xf|] eqn:Hx;
    [|rewrite <- Hst in Hx; vm_compute in Hx; discriminate Hx].
  assert (Hall := clients_agree (U := toy_usd) 5 50 "/World/A" eq_refl dragging world0 st xf (kMatrix identity_matrix)).
  destruct Hall as [He|He].
  - split_and!; [reflexivity..|exact sole_demo].
  - apply (nothing_told (U := toy_usd) 5 50 "/World/A" stage0); reflexivity.
  - unfold dragging. repeat constructor; [|discriminate]. by intros [|[|k]].
  - exact Hst.
  - exact Hx.
  - vm_compute. reflexivity.
  - cbn. f_equal. symmetry. exact He.
  - vm_compute in He. discriminate He.
Defined.

(** Joining is another matter. An update with a matrix leaves its attribute
    behind when an update with separate values follows. The snapshot reads the
    attributes of the session layer, the matrix first: a late joiner is told the
    old matrix, although everybody else was told the new values. *)
Example late_joiner_told_old_matrix :
  let w := process (H := toy_usd)
    (Handled <$> [TransformCommand (grip "/World/A") 4 1 0; TransformCommand (drag "/World/A") 4 2 0; JoinCommand 4]) world0 in
  (exists sep, told 50 "/World/A" (outbox w) = Some (kSeperate sep)) /\
  told 40 "/World/A" (outbox w) = Some (kMatrix identity_matrix).
Proof. split; [eexists|]; vm_compute; reflexivity. Qed.
End Agreement.
