(* ===== verification/Manager.v ===== *)
(** * [SessionManager] (source/session/SessionManager.cpp, SessionFlusher.cpp)

    The registry of sessions and the operations the controllers call: creating
    and destroying sessions, attaching and detaching clients, queueing
    commands, reaping idle sessions and flushing dirty ones. [Manager] is the
    state they share: the session objects by location (an object outlives its
    entry in the registry while somebody holds it), the registry itself, and
    what the handlers act on. Every operation that runs under one lock, or on
    one session's consumer, is one step. *)
From S2P Require Import Prelude Filesystem Locator Proto Usd Versions Scheduler Session Broadcast.
From S2P Require Import Listener Dispatch Committer Handlers Http.

Module Manager.
Import Session Listener Handlers.
Local Open Scope string_scope.
Local Open Scope list_scope.
Local Open Scope Z_scope.

Inductive CreateStatus := CreateOk | FileNotFound | StageOpenFailed.
Inductive AttachStatus := AttachOk | AttachUnknownSession | SingleEditBusy.

#[global] Instance CreateStatus_eq_dec : EqDecision CreateStatus.
Proof. solve_decision. Defined.
#[global] Instance AttachStatus_eq_dec : EqDecision AttachStatus.
Proof. solve_decision. Defined.

Section manager.
Context `{Usd} `{Wire} `{IoErrors} `{SW : ShortWrites}.

(** [now] is the steady clock, [wall] the system clock. *)
Record Manager := mkManager {
  objects : gmap location Session;
  registry : gmap string location;
  m_locator_ : Locator.UsdFileLocator;
  m_idle_timeout_ : Z;
  m_outbox : list Frame;
  now : Z;
  wall : Z;
  m_disk : Disk;
  m_results : list (Z * CommitResult);
  m_pendings : gmap location PendingCorrection }.

Definition set_objects (v : gmap location Session) (m : Manager) : Manager :=
  mkManager v (registry m) (m_locator_ m) (m_idle_timeout_ m) (m_outbox m) (now m) (wall m)
    (m_disk m) (m_results m) (m_pendings m).

Definition set_registry (v : gmap string location) (m : Manager) : Manager :=
  mkManager (objects m) v (m_locator_ m) (m_idle_timeout_ m) (m_outbox m) (now m) (wall m)
    (m_disk m) (m_results m) (m_pendings m).

Definition set_m_disk (v : Disk) (m : Manager) : Manager :=
  mkManager (objects m) (registry m) (m_locator_ m) (m_idle_timeout_ m) (m_outbox m) (now m)
    (wall m) v (m_results m) (m_pendings m).

Definition set_m_pendings (v : gmap location PendingCorrection) (m : Manager) : Manager :=
  mkManager (objects m) (registry m) (m_locator_ m) (m_idle_timeout_ m) (m_outbox m) (now m)
    (wall m) (m_disk m) (m_results m) v.

Definition change_object (l : location) (f : Session -> Session) (m : Manager) : Manager :=
  set_objects (alter f l (objects m)) m.

(** ** Running a handler on one of the sessions *)

Definition enter (l : location) (s : Session) (m : Manager) : World :=
  mkWorld s l (delete l (objects m)) (registry m) (m_outbox m) (wall m) (m_disk m) (m_results m)
    (m_pendings m).

Definition leave (w : World) (m : Manager) : Manager :=
  mkManager (<[self w := ses w]> (peers w)) (m_sessions_ w) (m_locator_ m) (m_idle_timeout_ m)
    (outbox w) (now m) (wall m) (disk w) (results w) (pendings w).

Definition on_session {A} (l : location) (default : A) (p : M World A) : M Manager A := fun m =>
  match objects m !! l with
  | None => (m, inl default)
  | Some s => let '(w, r) := p (enter l s m) in (leave w m, r)
  end.

(** The consumer of a session takes its next command and handles it. *)
Definition consume (l : location) (m : Manager) : Manager :=
  match objects m !! l with
  | None => m
  | Some s =>
      match commands s with
      | None => m
      | Some q =>
          match TryPop q with
          | None => m
          | Some (c, q') =>
              fst (on_session l tt (ProcessCommand c) (change_object l (set_commands (Some q')) m))
          end
      end
  end.

(** Another session reloads the root layer it shares with session [l]. *)
Definition share_reload (l : location) (notices : list (Stage * Notice)) (m : Manager) : Manager :=
  fst (on_session l tt (shared_layer_reloaded notices) m).

(** ** The registry *)

Definition Get (id : string) (m : Manager) : option location := registry m !! id.
Definition List (m : Manager) : list location := snd <$> map_to_list (registry m).
Definition Exists (id : string) (m : Manager) : bool := bool_decide (is_Some (registry m !! id)).

Definition m_sessions_dir_ (m : Manager) : string := Locator.GetSessionRoot (m_locator_ m).

(** The constructor; without an idle timeout no reaper runs. *)
Definition SessionManager (locator : Locator.UsdFileLocator) (idle_timeout now wall : Z) (d : Disk) :
    Manager :=
  mkManager ∅ ∅ locator idle_timeout [] now wall
    (fst (create_directories (Locator.GetSessionRoot locator) d)) [] ∅.

Definition new_session (id usd_file resolved sidecar_path : string) (st : Stage) (mode : SessionMode)
    (auto_commit : bool) (m : Manager) : Session :=
  mkSession id usd_file resolved (Some st) (wall m) mode (Some new_queue) ∅ (Some (now m)) 0
    (Some false) false false false 0 empty sidecar_path false auto_commit.

(** [a], [b]: the draws of the id's generator; [l]: a location not in use. The
    session, or the error and its status. *)
Definition Create (usd_file : string) (mode : SessionMode) (auto_commit : bool) (a b : Z)
    (l : location) (m : Manager) : Manager * (location + string * CreateStatus) :=
  match Locator.Resolve (m_locator_ m) usd_file (m_disk m) with
  | (Locator.Ok, Some resolved) =>
      let session_id := Locator.GenerateUuidV4 a b in
      let sidecar_path := Path.join (m_sessions_dir_ m) (session_id +:+ ".usda")%string in
      match FindOrOpen resolved (m_disk m) with
      | None => (m, inr ("Failed to open USD root layer", StageOpenFailed))
      | Some root_layer =>
          let '(d, sidecar_layer) :=
            if exists_ (m_disk m) sidecar_path
            then (m_disk m, FindOrOpen sidecar_path (m_disk m))
            else CreateNew sidecar_path (m_disk m) in
          let m := set_m_disk d m in
          match sidecar_layer with
          | None => (m, inr ("Failed to open session sidecar layer", StageOpenFailed))
          | Some sidecar_layer =>
              match OpenStage root_layer sidecar_layer d with
              | None => (m, inr ("Failed to open USD stage", StageOpenFailed))
              | Some st =>
                  let s :=
                    Register (new_session session_id usd_file resolved sidecar_path
                      (SetEditTargetToSessionLayer st) mode auto_commit m) in
                  let sessions :=
                    match registry m !! session_id with
                    | None => <[session_id := l]> (registry m)
                    | Some _ => registry m          (* emplace *)
                    end in
                  (set_registry sessions (set_objects (<[l := s]> (objects m)) m), inl l)
              end
          end
      end
  | (s, _) =>
      (m, inr ("USD file not found or invalid: " +:+ Locator.StatusToString s, FileNotFound)%string)
  end.

(** ** Clients *)

(** The second half of [AttachClient], after the session was looked up. *)
Definition attach_at (l : location) (connection_id : ConnectionId) (conn : connection) (m : Manager) :
    Manager * AttachStatus :=
  match objects m !! l with
  | None => (m, AttachUnknownSession)
  | Some s =>
      if bool_decide (mode s = SingleEdit) && negb (bool_decide (clients s = ∅))
      then (m, SingleEditBusy)
      else
        (change_object l (fun s =>
           set_empty_since None (set_clients (<[connection_id := conn]> (clients s)) s)) m, AttachOk)
  end.

Definition AttachClient (session_id : string) (connection_id : ConnectionId) (conn : connection)
    (m : Manager) : Manager * AttachStatus :=
  match Get session_id m with
  | None => (m, AttachUnknownSession)
  | Some l => attach_at l connection_id conn m
  end.

Definition IsSingleEditBusy (session_id : string) (m : Manager) : bool :=
  match Get session_id m ≫= fun l => objects m !! l with
  | None => false
  | Some s => bool_decide (mode s = SingleEdit) && negb (bool_decide (clients s = ∅))
  end.

Definition detach (connection_id : ConnectionId) (now : Z) (s : Session) : Session :=
  let cs := delete connection_id (clients s) in
  if bool_decide (cs = ∅) then set_empty_since (Some now) (set_clients cs s) else set_clients cs s.

Definition DetachClient (l : location) (connection_id : ConnectionId) (m : Manager) : Manager :=
  change_object l (detach connection_id (now m)) m.

(** ** Queueing commands *)

Definition submit_to (l : location) (submit : Session -> Session * SubmitStatus) (m : Manager) :
    Manager * SubmitStatus :=
  match objects m !! l with
  | None => (m, SubmitUnknownSession)
  | Some s => let '(s', st) := submit s in (set_objects (<[l := s']> (objects m)) m, st)
  end.

Definition submit_by_id (id : string) (c : SessionCommand) (m : Manager) : Manager * SubmitStatus :=
  match Get id m with
  | None => (m, SubmitUnknownSession)
  | Some l => submit_to l (Submit c) m
  end.

(** [update_] is [None] for a null pointer. *)
Definition SubmitTransformCommand (session_id : string) (update_ : option TransformUpdate)
    (origin : ConnectionId) (request_id base_seq : Z) (m : Manager) : Manager * SubmitStatus :=
  match Get session_id m with
  | None => (m, SubmitUnknownSession)
  | Some l =>
      match update_ with
      | None => (m, SubmitAccepted)
      | Some u => submit_to l (Submit (TransformCommand u origin request_id base_seq)) m
      end
  end.

Definition set_queued (l : location) (b : bool) (m : Manager) : Manager :=
  set_m_pendings (alter (fun p => mkPending (pending_prim_path p) b) l (m_pendings m)) m.

Definition SubmitCorrectionCommand (session_id : string) (connection_id : ConnectionId)
    (request : option location) (m : Manager) : Manager :=
  match request with
  | None => m
  | Some r =>
      match Get session_id m, m_pendings m !! r with
      | Some l, Some p =>
          let m1 := set_queued r true m in
          if queued p then m1
          else
            let '(m2, status) :=
              submit_to l (SubmitPriority (CorrectionCommand connection_id (Some r))) m1 in
            if bool_decide (status = SubmitAccepted) then m2 else set_queued r false m2
      | _, _ => m
      end
  end.

Definition SubmitJoinSnapshotCommand (session_id : string) (connection_id : ConnectionId) :=
  submit_by_id session_id (JoinCommand connection_id).

Definition SubmitCreatePrimCommand (session_id parent_path : string) (type : PrimType)
    (origin : ConnectionId) (request_id : Z) :=
  submit_by_id session_id (CreatePrimCommand parent_path type origin request_id).

Definition SubmitSetPrimActiveCommand (session_id prim_path : string) (active : bool)
    (origin : ConnectionId) (request_id : Z) :=
  submit_by_id session_id (SetPrimActiveCommand prim_path active origin request_id).

(** After an upload replaced the file: [SubmitReloadSessionsCommand] with no
    session to skip. *)
Definition submit_reloads (usd_file : string) (m : Manager) : Manager * nat :=
  let '(heap, accepted) := SubmitReloadSessionsCommand usd_file None (registry m) (objects m) in
  (set_objects heap m, accepted).

Definition SubmitFlushDirtySessionsCommand (m : Manager) : Manager * nat :=
  foldl (fun '(m, submitted) l =>
      match objects m !! l with
      | None => (m, submitted)
      | Some s =>
          if negb (dirty s) then (m, submitted)
          else
            let '(m', st) := submit_to l (Submit FlushCommand) m in
            (m', if bool_decide (st = SubmitAccepted) then S submitted else submitted)
      end)
    (m, 0%nat) (List m).

(** [SubmitCommitSessionCommand] before it waits: the outcome, or the promise
    it waits for. *)
Definition submit_commit (session_id : string) (promise : Z) (m : Manager) :
    Manager * (CommitStatus * string + Z) :=
  match Get session_id m ≫= fun l => objects m !! l ≫= fun s => stage s ≫= fun _ => Some l with
  | None => (m, inl (UnknownSession, "unknown session"))
  | Some l =>
      let '(m', st) := submit_to l (Submit (CommitCommand promise)) m in
      (m', match st with
           | SubmitAccepted => inr promise
           | SubmitQueueFull => inl (Unavailable, "session command queue is full")
           | _ => inl (Unavailable, "session is closing")
           end)
  end.

(** The state of the future when the wait ends. *)
Inductive future := Ready (r : CommitResult) | NotReady | BrokenPromise.

Definition await_commit (f : future) : CommitStatus * string :=
  match f with
  | Ready r => (commit_status r, commit_error r)
  | NotReady => (Unavailable, "commit did not complete in time")
  | BrokenPromise => (WriteFailed, "commit failed")
  end.

(** ** Teardown *)

(** [WaitIdle] after [CloseAdmission]: what is queued is handled, nothing is
    added any more. *)
Fixpoint drain (fuel : nat) (l : location) (m : Manager) : Manager :=
  match fuel with
  | O => m
  | S fuel => drain fuel l (consume l m)
  end.

Definition queued_commands (s : Session) : list SessionCommand :=
  match commands s with None => [] | Some q => priority q ++ normal q end.

Definition close_and_drain (l : location) (m : Manager) : Manager :=
  let m := change_object l (fun s => set_commands (close_admission <$> commands s) s) m in
  match objects m !! l with
  | None => m
  | Some s => drain (length (queued_commands s)) l m
  end.

Definition has_overrides (s : Session) : bool :=
  match stage s with
  | None => false
  | Some st => match GetSessionLayer st with None => false | Some layer => negb (LayerIsEmpty st layer) end
  end.

Definition clear_session_layer : M World unit :=
  st ← session stage;
  match st with
  | None => mret tt
  | Some st =>
      try_all (match GetSessionLayer st with
               | None => mret tt
               | Some _ => author ClearSessionLayer
               end) (fun _ => mret tt)
  end.

Definition remove_sidecar : M World unit :=
  modify (fun w =>
    let p := sidecar_path (ses w) in
    if Str.is_empty p then w
    else if exists_ (disk w) p then set_disk (fst (remove p (disk w))) w else w).

(** The rest of [TeardownSession], on the session's world. *)
Definition teardown_world : M World unit :=
  _ ← update Revoke;
  s ← session (fun s => s);
  _ ← (if auto_commit s && bool_decide (is_Some (stage s)) && has_overrides s
       then _ ← CommitOverrides false; mret tt else mret tt);
  _ ← clear_session_layer;
  remove_sidecar.

Definition TeardownSession (l : location) : M Manager unit :=
  _ ← modify (close_and_drain l);
  on_session l tt teardown_world.

Definition Destroy (id : string) : M Manager bool :=
  m ← get;
  match Get id m with
  | None => mret false
  | Some l =>
      _ ← modify (fun m => set_registry (delete id (registry m)) m);
      _ ← TeardownSession l;
      mret true
  end.

(** The destructor: all sessions leave the registry, then each is torn down. *)
Definition destroy_manager : M Manager unit :=
  ls ← gets List;
  _ ← modify (set_registry ∅);
  for_each ls TeardownSession.

(** ** Idle sessions *)

Definition is_idle (now timeout : Z) (s : Session) : bool :=
  bool_decide (clients s = ∅) &&
  match empty_since s with Some t => timeout <=? now - t | None => false end.

Definition idle_at (m : Manager) (l : location) : bool :=
  match objects m !! l with None => false | Some s => is_idle (now m) (m_idle_timeout_ m) s end.

Definition reap_registry (m : Manager) : Manager * list location :=
  (set_registry (filter (fun x => idle_at m x.2 = false) (registry m)) m,
   snd <$> filter (fun x => idle_at m x.2 = true) (map_to_list (registry m))).

Definition ReapIdleSessions : M Manager nat :=
  m ← get;
  if m_idle_timeout_ m <=? 0 then mret 0%nat
  else
    let '(m', reaped) := reap_registry m in
    _ ← modify (fun _ => m');
    _ ← for_each reaped TeardownSession;
    mret (length reaped).

(** The pause between two sweeps, in seconds. *)
Definition sweep_interval (idle_timeout : Z) : Z := Z.max (Z.min idle_timeout 30) 1.

(** One wake-up of each background thread; [stop] is what its flag says. *)
Definition reaper_wakeup (stop : bool) : M Manager unit :=
  if stop then mret tt else try_all (_ ← ReapIdleSessions; mret tt) (fun _ => mret tt).

Definition flusher_wakeup (stop : bool) : M Manager unit :=
  if stop then mret tt else modify (fun m => fst (SubmitFlushDirtySessionsCommand m)).

(** The flusher's destructor: the queue is asked once more to flush. *)
Definition destroy_flusher : M Manager unit := modify (fun m => fst (SubmitFlushDirtySessionsCommand m)).

(** ** JSON *)

Definition mode_string (mode : SessionMode) : string :=
  match mode with
  | SingleEdit => "single_edit"
  | SingleRuntime => "single_runtime"
  | CollaborativeEdit => "collaborative_edit"
  | CollaborativeRuntime => "collaborative_runtime"
  end.

Definition ToJson (s : Session) : Http.json :=
  Http.JObject [("session_id", Http.JString (id s)); ("usd_file", Http.JString (usd_file s));
    ("mode", Http.JString (mode_string (mode s))); ("client_count", Http.JNumber (Z.of_nat (size (clients s))));
    ("created_at", Http.JNumber (created_at s)); ("ws_url", Http.JString ("/ws?sid=" +:+ id s)%string);
    ("protocol", Http.JString "protobuf-binary")].
End manager.
Arguments Manager {_}.
End Manager.
