(* ===== verification/Registry.v ===== *)
(** * What holds of every session of the manager

    The steps of the manager ([step]) and what they keep: the invariant of the
    sessions' clients, the registry's entries, and what tearing a session down
    does with the commands it had accepted. *)
From S2P Require Import Prelude Filesystem Locator Proto Usd Versions Scheduler Session Broadcast.
From S2P Require Import Listener SendFacts Dispatch Committer Handlers Progress Authoring Toy ToyWorld Manager.

Module Registry.
Import Session Broadcast Listener SendFacts Handlers Progress Authoring Manager.
Local Open Scope string_scope.
Local Open Scope list_scope.
Local Open Scope Z_scope.

Section registry.
Context `{Usd} `{Wire} `{!WireOk} `{IoErrors} `{SW : ShortWrites}.

(** ** What handlers leave alone

    [core]: what commands never change of a session, their own or another. *)
Definition core (s : Session) := (id s, usd_file s, mode s, clients s, empty_since s).

Definition same_peers (w w' : World) : Prop :=
  core <$> peers w' = core <$> peers w.

#[export] Instance same_peers_preorder : PreOrder same_peers.
Proof. split; [done|]. intros w1 w2 w3 Ha Hb. unfold same_peers in *. congruence. Qed.

Lemma peers_quiet {A} (m : M World A) : preserves quiet m -> preserves same_peers m.
Proof. intros Hm w. destruct (Hm w) as (_ & Hp & _). injection Hp as _ _ Hp. unfold same_peers. by rewrite Hp. Qed.

Lemma peers_SendAck i rid ok err : preserves same_peers (SendAck i rid ok err).
Proof.
  intros w. rewrite SendAck_eq. cbn [fst]. destruct (clients (ses w) !! i); [|done]. cbv zeta.
  by destruct (_ || _).
Qed.

Lemma peers_SendCorrection i p : preserves same_peers (SendCorrection i p).
Proof.
  unfold SendCorrection, send_deactivation, send_transform, next_seq, send_binary, on_versions, update.
  cbv zeta. preserves_tac; apply _ || by intros ?.
Qed.

Lemma peers_BroadcastToAll p n : preserves same_peers (BroadcastToAll p n).
Proof.
  intros w. unfold BroadcastToAll. destruct (payload_empty p); [done|]. by rewrite send_to_clients_eq.
Qed.

Lemma peers_save : preserves same_peers save_session_layer.
Proof.
  intros w. unfold save_session_layer. destruct (stage (ses w)) as [st'|]; [|done].
  by destruct (SaveSessionLayer _ _) as [[? ?] ?].
Qed.

Lemma peers_commit_stage st path : preserves same_peers (commit_stage st path).
Proof. intros w. unfold commit_stage. by destruct (StageCommitter.Commit _ _ _) as [d' [[]|[e|]]]. Qed.

Lemma peers_author {A} (op : M Stage A) : preserves same_peers (author op).
Proof. apply peers_quiet, preserves_quiet_author. Qed.

Lemma peers_dispatch :
  (forall u, preserves same_peers (TransformDispatcher.Apply u)) /\
  (forall p t, preserves same_peers (PrimDispatcher.Create p t)) /\
  (forall p a, preserves same_peers (PrimDispatcher.SetActive p a)).
Proof.
  split_and!; intros; apply peers_quiet;
    auto using preserves_quiet_Apply, preserves_quiet_Create, preserves_quiet_SetActive.
Qed.

Ltac peers_tac :=
  preserves_tac;
  solve [ apply _ | apply peers_SendAck | apply peers_SendCorrection | apply peers_BroadcastToAll
        | apply peers_save | apply peers_commit_stage | apply peers_author | apply peers_dispatch
        | assumption | by intros ? ].

Lemma peers_reload : preserves same_peers Handlers.ReloadRootLayer.
Proof. unfold Handlers.ReloadRootLayer. peers_tac. Qed.

Lemma peers_overrides b : preserves same_peers (CommitOverrides b).
Proof. pose proof peers_reload. unfold CommitOverrides, on_stage. peers_tac. Qed.

Lemma core_set_commands q s : core (set_commands q s) = core s.
Proof. done. Qed.

(** Queueing a command at a session of the heap. *)
Lemma core_submit_at c l heap : core <$> fst (submit_at c l heap) = core <$> heap.
Proof.
  unfold submit_at. destruct (heap !! l) as [s|] eqn:Hs; [|done].
  assert (Hc : core (fst (Submit c s)) = core s).
  { unfold Submit. destruct (commands s); [|done]. by destruct (TrySubmit c c0). }
  destruct (Submit c s) as [s' st]. cbn [fst] in *. rewrite fmap_insert, Hc.
  apply insert_id. by rewrite lookup_fmap, Hs.
Qed.

Lemma core_submit_reloads file skip sessions heap :
  core <$> fst (SubmitReloadSessionsCommand file skip sessions heap) = core <$> heap.
Proof.
  unfold SubmitReloadSessionsCommand. generalize (FindByUsdFile file sessions heap) as ls. intros ls.
  cut (forall n, core <$> fst (foldl (fun '(heap, accepted) l =>
      if bool_decide (skip = Some l) then (heap, accepted)
      else let '(heap', st) := submit_at ReloadCommand l heap in
        (heap', if bool_decide (st = SubmitAccepted) then S accepted else accepted)) (heap, n) ls)
    = core <$> heap); [by intros Hc; apply Hc|].
  revert heap. induction ls as [|l ls IH]; intros heap n; [done|]. cbn [foldl].
  destruct (bool_decide (skip = Some l)); [apply IH|].
  pose proof (core_submit_at ReloadCommand l heap) as Hc.
  destruct (submit_at ReloadCommand l heap) as [heap' st]. cbn [fst] in Hc. by rewrite IH.
Qed.

Lemma peers_reload_others : preserves same_peers reload_other_sessions.
Proof. intros w. apply core_submit_reloads. Qed.

Lemma peers_join i : preserves same_peers (HandleJoin i).
Proof.
  unfold HandleJoin. cbv zeta. preserves_tac; try apply _; try by intros ?.
  apply preserves_for_each; [apply _|]. by intros ? _ ?.
Qed.

Lemma peers_command c : preserves same_peers (ProcessCommand c).
Proof.
  pose proof peers_reload. pose proof (peers_overrides true). pose proof peers_reload_others.
  apply preserves_try_all; [apply _| |intros; apply preserves_ret, _].
  destruct c; cbn [HandleCommand]; [|apply peers_join|..];
    unfold HandleTransform, HandleCreatePrim, HandleSetPrimActive, HandleCommit, HandleFlush,
      HandleCorrection, apply_update, create_prim, set_prim_active, next_seq, on_versions; peers_tac.
Qed.

(** ** Running a session in the manager *)

Definition cores (m : Manager) := core <$> objects m.

(** The clients of the session at a location, and the connections that are
    somebody's client. *)
Definition clients_at (m : Manager) (l : location) : option (gmap ConnectionId connection) :=
  clients <$> objects m !! l.

Definition holds (m : Manager) (c : connection) : Prop :=
  exists l cs i, clients_at m l = Some cs /\ cs !! i = Some c.

Lemma cores_clients m m' l : cores m' = cores m -> clients_at m' l = clients_at m l.
Proof.
  intros Hc. apply (f_equal (fun x => x !! l)) in Hc. unfold cores in Hc. rewrite !lookup_fmap in Hc.
  unfold clients_at. destruct (objects m' !! l), (objects m !! l); try done; cbn in *.
  unfold core in Hc. congruence.
Qed.

(** Frames are only appended to what was sent, each to somebody's client. *)
Definition posts (m m' : Manager) : Prop :=
  exists fs, m_outbox m' = m_outbox m ++ fs /\ Forall (fun f => holds m (to_connection f)) fs.

Lemma posts_none m m' : m_outbox m' = m_outbox m -> posts m m'.
Proof. intros Ho. exists []. rewrite app_nil_r. split; [done|constructor]. Qed.

(** What an operation leaves alone that only runs commands or queues them. *)
Definition same_manager (m m' : Manager) : Prop :=
  cores m' = cores m /\ registry m' = registry m /\ now m' = now m /\
  m_idle_timeout_ m' = m_idle_timeout_ m /\ posts m m'.

#[export] Instance same_manager_preorder : PreOrder same_manager.
Proof.
  split; [intros m; split_and!; try done; by apply posts_none|].
  intros m1 m2 m3 (Hc & ? & ? & ? & fs1 & Ho1 & Hp1) (? & ? & ? & ? & fs2 & Ho2 & Hp2).
  split_and!; [congruence..|]. exists (fs1 ++ fs2). split; [by rewrite Ho2, Ho1, app_assoc|].
  apply Forall_app. split; [done|]. eapply Forall_impl; [exact Hp2|].
  intros f (l & cs & i & Hl & Hi). rewrite (cores_clients _ _ _ Hc) in Hl. by exists l, cs, i.
Qed.

Lemma same_change_object l f m :
  (forall s, objects m !! l = Some s -> core (f s) = core s) -> same_manager m (change_object l f m).
Proof.
  intros Hf. split_and!; [|done..|by apply posts_none].
  apply map_eq. intros k. unfold cores. cbn. rewrite !lookup_fmap.
  destruct (decide (k = l)) as [->|].
  - rewrite lookup_alter_eq. destruct (objects m !! l) as [s|] eqn:Hs; [|done]. cbn. f_equal. by apply Hf.
  - by rewrite lookup_alter_ne.
Qed.

(** What a program on a session sends goes to clients of that session. *)
Definition hands (w w' : World) : Prop :=
  exists fs, outbox w' = outbox w ++ fs /\ delivered any_frame w fs.

Lemma hands_none w w' : outbox w' = outbox w -> hands w w'.
Proof. intros Ho. exists []. rewrite app_nil_r. split; [done|constructor]. Qed.

Lemma hands_trans w1 w2 w3 : clients (ses w2) = clients (ses w1) -> hands w1 w2 -> hands w2 w3 -> hands w1 w3.
Proof.
  intros Hc (fs1 & Ho1 & Hd1) (fs2 & Ho2 & Hd2). exists (fs1 ++ fs2).
  split; [by rewrite Ho2, Ho1, app_assoc|]. apply Forall_app. unfold delivered in Hd2. by rewrite Hc in Hd2.
Qed.

Lemma progress_hands Q w w' : progress Q w w' -> hands w w'.
Proof.
  intros (b & _ & fs & Ho & _ & Hd & _). exists fs. split; [done|].
  eapply Forall_impl; [exact Hd|]. by intros f [].
Qed.

(** A program on a session that keeps its core and those of the others. *)
Lemma same_on_session {A} l (d : A) (p : M World A) m :
  (forall w, core (ses (fst (p w))) = core (ses w) /\ self (fst (p w)) = self w /\
     m_sessions_ (fst (p w)) = m_sessions_ w /\ same_peers w (fst (p w)) /\ hands w (fst (p w))) ->
  same_manager m (fst (on_session l d p m)).
Proof.
  intros Hp. unfold on_session. destruct (objects m !! l) as [s|] eqn:Hs; [|reflexivity].
  destruct (Hp (enter l s m)) as (Hc & Hl & Hr & Hpe & fs & Ho & Hd). destruct (p (enter l s m)) as [w r].
  cbn [fst] in *. split_and!; [|done..|].
  - unfold cores, same_peers in *. cbn in *.
    rewrite fmap_insert, Hc, Hl, Hpe, fmap_delete, insert_delete_eq. apply insert_id.
    by rewrite lookup_fmap, Hs.
  - exists fs. split; [exact Ho|]. eapply Forall_impl; [exact Hd|]. intros f [[i Hi] _].
    exists l, (clients s), i. split; [unfold clients_at; by rewrite Hs|exact Hi].
Qed.

Lemma core_command c w :
  core (ses (fst (ProcessCommand c w))) = core (ses w) /\
  self (fst (ProcessCommand c w)) = self w /\
  m_sessions_ (fst (ProcessCommand c w)) = m_sessions_ w /\
  commands (ses (fst (ProcessCommand c w))) = commands (ses w) /\
  same_peers w (fst (ProcessCommand c w)) /\ hands w (fst (ProcessCommand c w)).
Proof.
  pose proof (preserves_command c w) as Hp. pose proof (progress_fixed _ _ _ Hp) as Hf.
  pose proof (peers_command c w). unfold fixed, identity in Hf. unfold core. simplify_eq.
  split_and!; try congruence. by eapply progress_hands.
Qed.

Lemma same_consume l m : same_manager m (consume l m).
Proof.
  unfold consume. destruct (objects m !! l) as [s|] eqn:Hs; [|reflexivity].
  destruct (commands s) as [q|]; [|reflexivity]. destruct (TryPop q) as [[c q']|]; [|reflexivity].
  etrans; [by apply (same_change_object l (set_commands (Some q')))|].
  apply same_on_session. intros w. by destruct (core_command c w) as (? & ? & ? & _ & ? & ?).
Qed.

(** ** Queueing *)

Lemma core_Submit c s : core (fst (Submit c s)) = core s.
Proof. unfold Submit. destruct (commands s) as [q|]; [|done]. by destruct (TrySubmit c q). Qed.

Lemma core_SubmitPriority c s : core (fst (SubmitPriority c s)) = core s.
Proof. unfold SubmitPriority. destruct (commands s) as [q|]; [|done]. by destruct (TrySubmitPriority c q). Qed.

Lemma same_submit_to l submit m :
  (forall s, core (fst (submit s)) = core s) -> same_manager m (fst (submit_to l submit m)).
Proof.
  intros Hc. unfold submit_to. destruct (objects m !! l) as [s|] eqn:Hs; [|reflexivity].
  specialize (Hc s). destruct (submit s) as [s' st]. cbn [fst] in *.
  split_and!; [|done..|by apply posts_none].
  unfold cores. cbn. rewrite fmap_insert, Hc. apply insert_id. by rewrite lookup_fmap, Hs.
Qed.

Lemma same_submit_by_id i c m : same_manager m (fst (submit_by_id i c m)).
Proof.
  unfold submit_by_id. destruct (Get i m); [|reflexivity]. apply same_submit_to, core_Submit.
Qed.

Lemma same_flush m : same_manager m (fst (SubmitFlushDirtySessionsCommand m)).
Proof.
  unfold SubmitFlushDirtySessionsCommand. generalize (List m) as ls, 0%nat as n.
  intros ls. revert m. induction ls as [|l ls IH]; intros m n; [reflexivity|]. cbn [foldl].
  destruct (objects m !! l) as [s|]; [|apply IH]. destruct (negb (dirty s)); [apply IH|].
  pose proof (same_submit_to l (Submit FlushCommand) m (core_Submit _)) as Hs.
  destruct (submit_to _ _ m) as [m' st]. etrans; [exact Hs|]. apply IH.
Qed.

Lemma same_submit_correction i c r m : same_manager m (SubmitCorrectionCommand i c r m).
Proof.
  unfold SubmitCorrectionCommand. destruct r as [r|]; [|reflexivity].
  destruct (Get i m) as [l|]; [|reflexivity]. destruct (m_pendings m !! r) as [p|]; [|reflexivity]. cbv zeta.
  destruct (queued p); [split_and!; try done; by apply posts_none|].
  pose proof (same_submit_to l (SubmitPriority (CorrectionCommand c (Some r))) (set_queued r true m)
    (core_SubmitPriority _)) as Hs.
  destruct (submit_to _ _ _) as [m2 st]. destruct (bool_decide _); exact Hs.
Qed.

(** ** Teardown *)

Lemma same_drain fuel l m : same_manager m (drain fuel l m).
Proof.
  revert m. induction fuel as [|fuel IH]; intros m; [reflexivity|]. cbn [drain].
  etrans; [apply same_consume|]. apply IH.
Qed.

Lemma same_close l m : same_manager m (close_and_drain l m).
Proof.
  unfold close_and_drain.
  set (m1 := change_object l _ m). assert (Hm1 : same_manager m m1) by by apply same_change_object.
  cbv zeta. destruct (objects m1 !! l); [|done]. etrans; [exact Hm1|]. apply same_drain.
Qed.

(** What the rest of a teardown keeps. *)
Definition keeps_core (w w' : World) : Prop :=
  core (ses w') = core (ses w) /\ self w' = self w /\ m_sessions_ w' = m_sessions_ w /\
  commands (ses w') = commands (ses w) /\ same_peers w w' /\ hands w w'.

#[export] Instance keeps_core_preorder : PreOrder keeps_core.
Proof.
  split; [intros w; split_and!; try done; by apply hands_none|].
  intros w1 w2 w3 (Hc & ? & ? & ? & ? & Hh1) (? & ? & ? & ? & ? & Hh2).
  unfold same_peers in *. split_and!; unfold same_peers; try congruence.
  eapply hands_trans; [|done..]. unfold core in Hc. congruence.
Qed.

Lemma keeps_core_of Q {A} (m : M World A) :
  preserves (progress Q) m -> preserves same_peers m -> preserves keeps_core m.
Proof.
  intros Hm Hp w. specialize (Hm w). pose proof (progress_fixed _ _ _ Hm) as Hf.
  unfold fixed, identity in Hf. unfold keeps_core, core.
  simplify_eq. split_and!; (congruence || apply Hp || by eapply progress_hands).
Qed.

Lemma keeps_teardown : preserves keeps_core teardown_world.
Proof.
  pose proof (keeps_core_of _ _ (preserves_commit_overrides false) (peers_overrides false)).
  assert (Ha : preserves keeps_core (author ClearSessionLayer)).
  { eapply keeps_core_of; [apply (preserves_author any_frame)|apply peers_author]. done. }
  unfold teardown_world, clear_session_layer, remove_sidecar.
  preserves_tac; try apply _; try done; try by intros ?.
  - intros w. split_and!; try by (cbn; unfold Revoke; destruct (listener (ses w)) as [[]|]).
    by apply hands_none.
  - intros w. cbn. cbv zeta. destruct (Str.is_empty _); [reflexivity|].
    destruct (exists_ _ _); [|reflexivity]. split_and!; try done. by apply hands_none.
Qed.

Lemma preserves_same_teardown l : preserves same_manager (TeardownSession l).
Proof.
  apply preserves_bind; [apply _|intros m; apply same_close|]. intros _ m.
  apply same_on_session. intros w. by destruct (keeps_teardown w) as (? & ? & ? & _ & ? & ?).
Qed.

(** ** The invariant *)

(** What the manager promises about a session's clients at time [t]. *)
Definition session_ok (t : Z) (s : Session) : Prop :=
  (mode s = SingleEdit -> (size (clients s) <= 1)%nat) /\
  (clients s = ∅ <-> is_Some (empty_since s)) /\
  (forall t0, empty_since s = Some t0 -> t0 <= t).

(** And about its registry. *)
Definition manager_ok (m : Manager) : Prop :=
  map_Forall (fun _ => session_ok (now m)) (objects m) /\
  map_Forall (fun i l => exists s, objects m !! l = Some s /\ id s = i) (registry m).

Lemma session_ok_core t s s' : core s' = core s -> session_ok t s -> session_ok t s'.
Proof.
  unfold core, session_ok. intros Hc. simplify_eq.
  assert (mode s' = mode s /\ clients s' = clients s /\ empty_since s' = empty_since s)
    as (-> & -> & ->) by (split_and!; congruence). done.
Qed.

Lemma same_manager_lookup m m' l s' :
  same_manager m m' -> objects m' !! l = Some s' ->
  exists s, objects m !! l = Some s /\ core s' = core s.
Proof.
  intros (Hc & _) Hl. assert (Hl' : cores m' !! l = Some (core s')) by (unfold cores; by rewrite lookup_fmap, Hl).
  rewrite Hc in Hl'. unfold cores in Hl'. rewrite lookup_fmap in Hl'.
  destruct (objects m !! l) as [s|]; [|done]. exists s. split; [done|]. cbn in Hl'. congruence.
Qed.

Lemma manager_ok_same m m' : same_manager m m' -> manager_ok m -> manager_ok m'.
Proof.
  intros Hs [Hob Hreg]. pose proof Hs as (Hc & Hr & Ht & _). split.
  - intros l s' Hl. destruct (same_manager_lookup _ _ _ _ Hs Hl) as (s & Hl' & Hcs).
    rewrite Ht. eapply session_ok_core; [done|]. by apply (Hob l).
  - rewrite Hr. intros i l Hi. destruct (Hreg i l Hi) as (s & Hl & Hid).
    assert (Hl' : cores m !! l = Some (core s)) by (unfold cores; by rewrite lookup_fmap, Hl).
    rewrite <- Hc in Hl'. unfold cores in Hl'. rewrite lookup_fmap in Hl'.
    destruct (objects m' !! l) as [s'|]; [|done]. exists s'. split; [done|].
    cbn in Hl'. unfold core in Hl'. congruence.
Qed.

(** One session changed. *)
Lemma manager_ok_change l f m :
  (forall s, objects m !! l = Some s -> session_ok (now m) s -> session_ok (now m) (f s) /\ id (f s) = id s) ->
  manager_ok m -> manager_ok (change_object l f m).
Proof.
  intros Hf [Hob Hreg]. split.
  - intros k s Hk. cbn in *. destruct (decide (k = l)) as [->|].
    + rewrite lookup_alter_eq in Hk. destruct (objects m !! l) as [s0|] eqn:Hs; [|done].
      cbn in Hk. simplify_eq. by apply Hf, (Hob l).
    + rewrite lookup_alter_ne in Hk by done. by apply (Hob k).
  - intros i k Hi. cbn in *. destruct (Hreg i k Hi) as (s & Hs & Hid). destruct (decide (k = l)) as [->|].
    + rewrite lookup_alter_eq, Hs. exists (f s). split; [done|]. rewrite <- Hid. by apply Hf, (Hob l).
    + rewrite lookup_alter_ne by done. by exists s.
Qed.

Lemma attach_ok l i c m : manager_ok m -> manager_ok (fst (attach_at l i c m)).
Proof.
  intros Hm. unfold attach_at. destruct (objects m !! l) as [s|] eqn:Hs; [|done].
  destruct (bool_decide (mode s = SingleEdit) && _) eqn:Hb; [done|]. cbn [fst].
  apply manager_ok_change; [|done]. intros s' Hs' (Hone & _ & _). simplify_eq.
  split; [|done]. split_and!; cbn.
  - intros Hmode. rewrite Hmode in Hb. cbn in Hb. apply negb_false_iff, bool_decide_eq_true in Hb.
    rewrite Hb, insert_empty, map_size_singleton. done.
  - split; [intros He; by apply insert_non_empty in He|by intros []].
  - done.
Qed.

Lemma detach_ok l i m : manager_ok m -> manager_ok (DetachClient l i m).
Proof.
  apply manager_ok_change. intros s Hs (Hone & Hem & Ht). unfold detach. cbv zeta.
  assert (Hsize : (size (delete i (clients s)) <= size (clients s))%nat)
    by apply map_subseteq_size, delete_subseteq.
  case_bool_decide as Hd; (split; [|done]); split_and!; cbn.
  - intros Hm. specialize (Hone Hm). lia.
  - split; [by eexists|done].
  - intros t0 [= <-]. lia.
  - intros Hm. specialize (Hone Hm). lia.
  - rewrite <- Hem. split; [done|]. intros He. rewrite He in Hd. by rewrite delete_empty in Hd.
  - done.
Qed.

Lemma create_ok file mode_ auto a b l m :
  objects m !! l = None -> manager_ok m -> manager_ok (fst (Create file mode_ auto a b l m)).
Proof.
  intros Hl Hm. unfold Create. destruct (Locator.Resolve _ _ _) as [[] [resolved|]]; try done.
  cbv zeta. destruct (FindOrOpen resolved (m_disk m)) as [root|]; [|done].
  match goal with |- context [let '(_, _) := ?x in _] => destruct x as [d sidecar] end.
  destruct sidecar as [sidecar|]; [|done]. destruct (OpenStage root sidecar d) as [st|]; [|done].
  cbn [fst]. destruct Hm as [Hob Hreg]. set (s := Register _).
  assert (Hs : session_ok (now m) s /\ id s = Locator.GenerateUuidV4 a b).
  { unfold s, Register, new_session, session_ok. cbn. split; [|done]. split_and!; [rewrite map_size_empty; lia| |].
    - split; [by eexists|done].
    - intros t0 [= <-]. lia. }
  split.
  - intros k s' Hk. cbn in Hk. apply lookup_insert_Some in Hk as [[<- <-]|[_ Hk]]; [apply Hs|].
    by apply (Hob k).
  - assert (Hreg' : forall i k, registry m !! i = Some k ->
      exists s', <[l := s]> (objects m) !! k = Some s' /\ id s' = i).
    { intros i k Hi. destruct (Hreg i k Hi) as (s' & Hk & Hid). exists s'. split; [|done].
      rewrite lookup_insert_ne; [done|intros ->; congruence]. }
    intros i k Hi. cbn [registry set_registry objects set_objects set_m_disk] in Hi |- *.
    destruct (registry m !! Locator.GenerateUuidV4 a b) eqn:Hold; [by apply Hreg'|].
    apply lookup_insert_Some in Hi as [[<- <-]|[_ Hi]]; [|by apply Hreg'].
    exists s. split; [by rewrite lookup_insert_eq|apply Hs].
Qed.

(** Fewer entries in the registry. *)
Lemma manager_ok_registry r m : r ⊆ registry m -> manager_ok m -> manager_ok (set_registry r m).
Proof. intros Hr [Hob Hreg]. split; [done|]. intros i l Hi. apply Hreg. by eapply lookup_weaken. Qed.

(** ** Steps *)

Definition tick (t w : Z) (m : Manager) : Manager :=
  mkManager (objects m) (registry m) (m_locator_ m) (m_idle_timeout_ m) (m_outbox m) t w
    (m_disk m) (m_results m) (m_pendings m).

(** What the REST controllers, the message handlers, the workers and the
    background threads do. *)
Inductive background : Manager -> Manager -> Prop :=
| step_tick t w m : now m <= t -> background m (tick t w m)
| step_create file mode_ auto a b l m :
    objects m !! l = None -> background m (fst (Create file mode_ auto a b l m))
| step_transform s u i rid base m : background m (fst (SubmitTransformCommand s u i rid base m))
| step_correction s i r m : background m (SubmitCorrectionCommand s i r m)
| step_join s i m : background m (fst (SubmitJoinSnapshotCommand s i m))
| step_create_prim s p t i rid m : background m (fst (SubmitCreatePrimCommand s p t i rid m))
| step_set_active s p a i rid m : background m (fst (SubmitSetPrimActiveCommand s p a i rid m))
| step_commit s p m : background m (fst (submit_commit s p m))
| step_reload file m : background m (fst (submit_reloads file m))
| step_flush m : background m (fst (SubmitFlushDirtySessionsCommand m))
| step_consume l m : background m (consume l m)
| step_shared l notices m : background m (share_reload l notices m)
| step_destroy s m : background m (fst (Destroy s m))
| step_reap m : background m (fst (ReapIdleSessions m)).

(** With attaching and detaching, in any order. Attaching is split where the
    code releases the registry's lock, so a session can leave the registry
    between the two halves. *)
Inductive step : Manager -> Manager -> Prop :=
| step_background m m' : background m m' -> step m m'
| step_attach l i c m : step m (fst (attach_at l i c m))
| step_detach l i m : step m (DetachClient l i m).

Definition keeps_ok (m m' : Manager) : Prop := manager_ok m -> manager_ok m'.

#[export] Instance keeps_ok_preorder : PreOrder keeps_ok.
Proof. split; [by intros m Hm|]. intros m1 m2 m3 Ha Hb Hm. auto. Qed.

Lemma preserves_ok_same {A} (p : M Manager A) : preserves same_manager p -> preserves keeps_ok p.
Proof. intros Hp m. unfold keeps_ok. apply manager_ok_same, Hp. Qed.

Lemma destroy_ok s : preserves keeps_ok (Destroy s).
Proof.
  apply preserves_bind; [apply _|apply preserves_get, _|]. intros m0.
  destruct (Get s m0); [|apply preserves_ret, _].
  apply preserves_bind; [apply _| |intros _].
  - intros m. unfold keeps_ok. apply manager_ok_registry. cbn. apply delete_subseteq.
  - apply preserves_bind; [apply _|apply preserves_ok_same, preserves_same_teardown|].
    intros _. apply preserves_ret, _.
Qed.

Lemma preserves_same_teardowns ls : preserves same_manager (for_each ls TeardownSession).
Proof. apply preserves_for_each; [apply _|]. intros l _. apply preserves_same_teardown. Qed.

Lemma reap_eq m :
  0 < m_idle_timeout_ m ->
  same_manager (fst (reap_registry m)) (fst (ReapIdleSessions m)).
Proof.
  intros Ht. unfold ReapIdleSessions. erewrite bind_ok by reflexivity. cbv beta.
  destruct (Z.leb_spec (m_idle_timeout_ m) 0); [lia|].
  destruct (reap_registry m) as [m' reaped]. erewrite bind_ok by reflexivity. cbn [fst].
  apply preserves_bind; [apply _|apply preserves_same_teardowns|]. intros _. apply preserves_ret, _.
Qed.

Lemma reap_ok m : keeps_ok m (fst (ReapIdleSessions m)).
Proof.
  intros Hm. destruct (Z.leb_spec (m_idle_timeout_ m) 0) as [Hle|Hlt].
  - unfold ReapIdleSessions. erewrite bind_ok by reflexivity. cbv beta.
    by apply Z.leb_le in Hle as ->.
  - eapply manager_ok_same; [by apply reap_eq|]. apply manager_ok_registry; [|done].
    apply map_filter_subseteq.
Qed.

(** Queueing, handling and moving the clock change no core. *)
Definition same_sessions (m m' : Manager) : Prop :=
  cores m' = cores m /\ registry m' = registry m /\ now m <= now m' /\
  m_idle_timeout_ m' = m_idle_timeout_ m /\ posts m m'.

Lemma same_sessions_manager m m' : same_manager m m' -> same_sessions m m'.
Proof. intros (? & ? & Hn & ? & ?). split_and!; [done..| |done|done]. rewrite Hn. lia. Qed.

Lemma background_cases m m' :
  background m m' ->
  same_sessions m m' \/
  (exists file mode_ auto a b l, objects m !! l = None /\ m' = fst (Create file mode_ auto a b l m)) \/
  (exists s, m' = fst (Destroy s m)) \/ m' = fst (ReapIdleSessions m).
Proof.
  intros Hs. destruct Hs as [| |s [u|]| | | | |s p m|file m| | |l notices m| |];
    [left; split_and!; [done..|by apply posts_none]|right; left; by eauto 10|left; apply same_sessions_manager..
    |right; right; left; by eexists|right; right; right; done].
  - unfold SubmitTransformCommand. destruct (Get s m); [|reflexivity]. apply same_submit_to, core_Submit.
  - unfold SubmitTransformCommand. by destruct (Get s m).
  - apply same_submit_correction.
  - apply same_submit_by_id.
  - apply same_submit_by_id.
  - apply same_submit_by_id.
  - unfold submit_commit. destruct (Get s m ≫= _) as [l|]; [|reflexivity].
    pose proof (same_submit_to l (Submit (CommitCommand p)) m (core_Submit _)) as Hs.
    by destruct (submit_to _ _ m).
  - unfold submit_reloads. pose proof (core_submit_reloads file None (registry m) (objects m)) as Hc.
    destruct (SubmitReloadSessionsCommand _ _ _ _) as [heap n].
    split_and!; [done..|by apply posts_none].
  - apply same_flush.
  - apply same_consume.
  - apply same_on_session. intros w. pose proof (preserves_deliver any_frame (fun _ _ => I) notices w) as Hp.
    pose proof (progress_fixed _ _ _ Hp) as Hf. unfold fixed, identity in Hf.
    unfold core, shared_layer_reloaded. split_and!; [congruence..| |by eapply progress_hands].
    apply peers_quiet, preserves_quiet_deliver.
Qed.

Lemma manager_ok_sessions m m' : same_sessions m m' -> manager_ok m -> manager_ok m'.
Proof.
  intros (Hc & Hr & Hn & Ht & Hp) Hm. apply (manager_ok_same (tick (now m') (wall m) m) m').
  { by split_and!. }
  destruct Hm as [Hob Hreg]. split; [|done]. intros l s Hl. destruct (Hob l s Hl) as (? & ? & Ht0).
  split_and!; [done..|]. intros t0 ?%Ht0. cbn. lia.
Qed.

Lemma step_ok m m' : manager_ok m -> step m m' -> manager_ok m'.
Proof.
  intros Hm Hst. destruct Hst as [m m' Hb|l i c m|l i m]; [|by apply attach_ok|by apply detach_ok].
  destruct (background_cases _ _ Hb) as [Hs|[(file & mode_ & auto & a & b & l & Hl & ->)|[[s ->]| ->]]].
  - by eapply manager_ok_sessions.
  - by apply create_ok.
  - by apply destroy_ok.
  - by apply reap_ok.
Qed.

(** Only connections attach and detach clients: what the rest does keeps the
    clients of every session, adds sessions without any, and sends to clients
    only. *)
Definition keeps_clients (m m' : Manager) : Prop :=
  (forall l, clients_at m' l = clients_at m l \/ clients_at m l = None /\ clients_at m' l = Some ∅) /\
  posts m m'.

Lemma keeps_clients_cores m m1 m' :
  objects m1 = objects m -> m_outbox m1 = m_outbox m -> cores m' = cores m1 -> posts m1 m' -> keeps_clients m m'.
Proof.
  intros Ho Hb Hc (fs & Hfs & Hall).
  assert (Hcl : forall l, clients_at m1 l = clients_at m l) by (intros l; unfold clients_at; by rewrite Ho).
  split.
  - intros l. left. by rewrite (cores_clients _ _ _ Hc).
  - exists fs. split; [by rewrite Hfs, Hb|]. eapply Forall_impl; [exact Hall|].
    intros f (l & cs & i & Hl & Hi). exists l, cs, i. by rewrite <- Hcl.
Qed.

Lemma keeps_clients_refl m : keeps_clients m m.
Proof. by apply (keeps_clients_cores m m m), posts_none. Qed.

Lemma create_keeps_clients file mode_ auto a b k m :
  objects m !! k = None -> keeps_clients m (fst (Create file mode_ auto a b k m)).
Proof.
  intros Hk. unfold Create. destruct (Locator.Resolve _ _ _) as [[] [resolved|]]; try apply keeps_clients_refl.
  cbv zeta. destruct (FindOrOpen resolved (m_disk m)) as [root|]; [|apply keeps_clients_refl].
  match goal with |- context [let '(_, _) := ?x in _] => destruct x as [d sidecar] end.
  destruct sidecar as [sidecar|]; [|by apply (keeps_clients_cores m m), posts_none].
  destruct (OpenStage root sidecar d) as [st|]; [|by apply (keeps_clients_cores m m), posts_none].
  split; [|by apply posts_none]. intros l. unfold clients_at.
  cbn [fst objects set_registry set_objects set_m_disk].
  destruct (decide (l = k)) as [->|Hne]; [right|left; by rewrite lookup_insert_ne by done].
  by rewrite Hk, lookup_insert_eq.
Qed.

Lemma background_clients m m' : background m m' -> keeps_clients m m'.
Proof.
  intros Hb.
  destruct (background_cases _ _ Hb) as [(Hc & _ & _ & _ & Hp)|[(file & mode_ & auto & a & b & k & Hk & ->)|[[i ->]| ->]]].
  - by apply (keeps_clients_cores m m).
  - by apply create_keeps_clients.
  - unfold Destroy. erewrite bind_ok by reflexivity. cbv beta.
    destruct (Get i m) as [k|]; [|apply keeps_clients_refl].
    erewrite bind_ok by reflexivity.
    match goal with |- keeps_clients _ (fst (?p ?m1)) => assert (Hs : same_manager m1 (fst (p m1))) end.
    { apply preserves_bind; [apply _|apply preserves_same_teardown|]. intros _. apply preserves_ret, _. }
    destruct Hs as (Hc & _ & _ & _ & Hp). by eapply keeps_clients_cores.
  - destruct (Z.leb_spec (m_idle_timeout_ m) 0) as [Hle|Hlt].
    + unfold ReapIdleSessions. erewrite bind_ok by reflexivity. cbv beta.
      apply Z.leb_le in Hle. rewrite Hle. apply keeps_clients_refl.
    + destruct (reap_eq m Hlt) as (Hc & _ & _ & _ & Hp). by eapply keeps_clients_cores.
Qed.

Lemma manager_ok_new locator timeout t w d : manager_ok (SessionManager locator timeout t w d).
Proof. split; apply map_Forall_empty. Qed.

(** C25. A single-edit session never has two editors. Whatever the
    controllers, workers and background threads do in whatever order, every
    session object has at most one client if its mode is [SingleEdit]; its
    [empty_since] is set exactly while it has no client, to a moment that has
    passed; and every id in the registry leads to the session with that id. *)
Theorem sessions_well_formed locator timeout t w d m :
  rtc step (SessionManager locator timeout t w d) m ->
  (forall l s, objects m !! l = Some s ->
     (mode s = SingleEdit -> (size (clients s) <= 1)%nat) /\
     (clients s = ∅ <-> is_Some (empty_since s)) /\
     (forall t0, empty_since s = Some t0 -> t0 <= now m)) /\
  (forall i l, registry m !! i = Some l -> exists s, objects m !! l = Some s /\ id s = i).
Proof.
  intros Hrtc. destruct (rtc_invariant step manager_ok) with (SessionManager locator timeout t w d) m
    as [Hob Hreg]; [apply step_ok|done|apply manager_ok_new|].
  split; [|exact Hreg]. intros l s Hl. by apply (Hob l).
Qed.

(** C26. The reaper takes exactly the idle sessions. A sweep removes a session
    from the registry if and only if it has no client and has had none for at
    least the idle timeout; every other entry stays, also when a teardown
    throws. Without a timeout it does nothing. *)
Theorem reaper_takes_exactly_the_idle m i l :
  registry m !! i = Some l ->
  let m' := fst (ReapIdleSessions m) in
  (m_idle_timeout_ m <= 0 -> m' = m) /\
  (0 < m_idle_timeout_ m ->
   (registry m' !! i = None <->
    exists s t0, objects m !! l = Some s /\ clients s = ∅ /\ empty_since s = Some t0 /\
      m_idle_timeout_ m <= now m - t0) /\
   (registry m' !! i = None \/ registry m' !! i = Some l)).
Proof.
  intros Hi m'. split.
  { intros Hle. unfold m', ReapIdleSessions. erewrite bind_ok by reflexivity. cbv beta.
    by apply Z.leb_le in Hle as ->. }
  intros Hlt. destruct (reap_eq m Hlt) as (_ & Hr & _). fold m' in Hr. rewrite Hr. cbn.
  assert (Hidle : idle_at m l = true <->
    exists s t0, objects m !! l = Some s /\ clients s = ∅ /\ empty_since s = Some t0 /\
      m_idle_timeout_ m <= now m - t0).
  { unfold idle_at, is_idle. destruct (objects m !! l) as [s|]; [|split; [done|by intros (? & ? & ? & _)]].
    rewrite andb_true_iff, bool_decide_eq_true. split.
    - intros [Hc Ht]. destruct (empty_since s) as [t0|] eqn:He; [|done]. exists s, t0.
      split_and!; [done..|]. by apply Z.leb_le.
    - intros (s' & t0 & [= <-] & Hc & -> & Ht). split; [done|]. by apply Z.leb_le. }
  rewrite <- Hidle. destruct (idle_at m l) eqn:Hb.
  - assert (Hn : filter (fun x => idle_at m x.2 = false) (registry m) !! i = None).
    { apply map_lookup_filter_None. right. intros l' Hl'. simplify_eq. cbn. congruence. }
    rewrite Hn. split; [done|by left].
  - assert (Hn : filter (fun x => idle_at m x.2 = false) (registry m) !! i = Some l)
      by by apply map_lookup_filter_Some.
    rewrite Hn. split; [|by right]. split; congruence.
Qed.

(** ** Accepted commands survive the destruction of their session *)

Definition next_command (l : location) (m : Manager) : option SessionCommand :=
  s ← objects m !! l; q ← commands s; fst <$> TryPop q.

(** The commands [drain] handles, in order. *)
Fixpoint drain_log (fuel : nat) (l : location) (m : Manager) : list SessionCommand :=
  match fuel with
  | O => []
  | S fuel =>
      match next_command l m with
      | Some c => c :: drain_log fuel l (consume l m)
      | None => []
      end
  end.

Definition queue_of (l : location) (m : Manager) : option CommandQueue :=
  s ← objects m !! l; commands s.

Lemma queue_of_on_session {A} l (d : A) (p : M World A) m :
  (forall w, self (fst (p w)) = self w /\ commands (ses (fst (p w))) = commands (ses w)) ->
  queue_of l (fst (on_session l d p m)) = queue_of l m.
Proof.
  intros Hp. unfold queue_of, on_session. destruct (objects m !! l) as [s|] eqn:Hs; [|cbn [fst]; by rewrite Hs].
  destruct (Hp (enter l s m)) as [Hl Hc]. destruct (p (enter l s m)) as [w r]. cbn in *.
  rewrite Hl, lookup_insert_eq. by cbn.
Qed.

Lemma consume_queue l m q c q' :
  queue_of l m = Some q -> TryPop q = Some (c, q') -> queue_of l (consume l m) = Some q'.
Proof.
  intros Hq Hp. unfold consume. unfold queue_of in Hq.
  destruct (objects m !! l) as [s|] eqn:Hs; [|done]. cbn in Hq. rewrite Hq, Hp.
  rewrite queue_of_on_session by (intros w; by destruct (core_command c w) as (_ & ? & _ & ? & _)).
  unfold queue_of. cbn. by rewrite lookup_alter_eq, Hs.
Qed.

Lemma drain_queue l m p n :
  queue_of l m = Some (mkQueue false n p) ->
  drain_log (length (p ++ n)) l m = p ++ n /\
  queue_of l (drain (length (p ++ n)) l m) = Some (mkQueue false [] []).
Proof.
  remember (p ++ n) as cs eqn:Hcs. revert p n m Hcs. induction cs as [|c cs IH]; intros p n m Hcs Hq.
  - symmetry in Hcs. apply app_eq_nil in Hcs as [-> ->]. done.
  - cbn [length drain drain_log].
    assert (Hpop : exists p' n', TryPop (mkQueue false n p) = Some (c, mkQueue false n' p') /\ cs = p' ++ n').
    { unfold TryPop. cbn. destruct p as [|c' p']; cbn in Hcs.
      - destruct n as [|c' n']; [done|]. simplify_eq. by exists [], n'.
      - simplify_eq. by exists p', n. }
    destruct Hpop as (p' & n' & Hpop & ->).
    assert (Hnext : next_command l m = Some c).
    { unfold next_command. unfold queue_of in Hq. destruct (objects m !! l) as [s|]; [|done].
      cbn in Hq |- *. by rewrite Hq; cbn; rewrite Hpop. }
    rewrite Hnext. destruct (IH p' n' (consume l m) eq_refl) as [-> ->]; [|done].
    by eapply consume_queue.
Qed.

(** C27. Destroying a session loses no accepted command. When a session is torn
    down its queue stops accepting, every command it had accepted is handled,
    those of the priority queue first and each queue in order, and only then
    does the teardown go on; afterwards the queue is empty and every further
    submission is refused as closing. *)
Theorem teardown_handles_accepted_commands l m s q :
  objects m !! l = Some s -> commands s = Some q ->
  let closed := change_object l (fun s => set_commands (close_admission <$> commands s) s) m in
  let n := length (priority q ++ normal q) in
  drain_log n l closed = priority q ++ normal q /\
  TeardownSession l m = on_session l tt teardown_world (drain n l closed) /\
  exists s', objects (fst (TeardownSession l m)) !! l = Some s' /\
    commands s' = Some (mkQueue false [] []) /\
    forall c, Submit c s' = (s', SubmitSessionClosing) /\ SubmitPriority c s' = (s', SubmitSessionClosing).
Proof.
  intros Hs Hq closed n.
  assert (Hclosed : objects closed !! l = Some (set_commands (Some (close_admission q)) s)).
  { unfold closed. cbn. by rewrite lookup_alter_eq, Hs; cbn; rewrite Hq. }
  assert (Hqc : queue_of l closed = Some (mkQueue false (normal q) (priority q)))
    by (unfold queue_of; by rewrite Hclosed).
  destruct (drain_queue l closed (priority q) (normal q) Hqc) as [Hlog Hend]. fold n in Hlog, Hend.
  assert (Heq : TeardownSession l m = on_session l tt teardown_world (drain n l closed)).
  { unfold TeardownSession. erewrite bind_ok by reflexivity.
    unfold close_and_drain. fold closed. cbv zeta. rewrite Hclosed. done. }
  split; [done|]. split; [done|]. rewrite Heq.
  assert (Hqe : queue_of l (fst (on_session l tt teardown_world (drain n l closed))) = Some (mkQueue false [] [])).
  { rewrite queue_of_on_session; [done|]. intros w. by destruct (keeps_teardown w) as (_ & ? & _ & ? & _). }
  unfold queue_of in Hqe. revert Hqe.
  destruct (objects (fst (on_session l tt teardown_world (drain n l closed))) !! l) as [s'|]; [|done].
  cbn. intros Hqe. exists s'. split; [done|]. split; [done|]. intros c.
  assert (Hself : set_commands (commands s') s' = s') by by destruct s'.
  unfold Submit, SubmitPriority. rewrite Hqe in Hself |- *. cbn. by rewrite Hself.
Qed.
End registry.

(** ** On a manager with one session *)
Import ToyWorld.

Definition manager0 : Manager := SessionManager (H := toy_usd) Locator.default_locator 60 0 1000 disk0.

Definition known (l : location) (m : @Manager toy_usd) : bool :=
  match objects m !! l with Some _ => true | None => false end.

Definition create0 := Create (H := toy_usd) "a.usda" SingleEdit true 1 2 7 manager0.
Definition manager1 : Manager := fst create0.
Definition id1 : string := Locator.GenerateUuidV4 1 2.

(** One client attached. *)
Definition manager2 : Manager := fst (attach_at (H := toy_usd) 7 4 40 manager1).

Lemma sessions_well_formed_witness :
  rtc (step (H := toy_usd)) manager0 manager2 /\
  exists s, objects manager2 !! 7 = Some s /\ mode s = SingleEdit /\ (size (clients s) <= 1)%nat.
Proof.
  assert (Hrtc : rtc (step (H := toy_usd)) manager0 manager2).
  { eapply rtc_l; [apply step_background, (step_create (H := toy_usd) "a.usda" SingleEdit true 1 2 7); reflexivity|].
    apply rtc_once, (step_attach (H := toy_usd) 7 4 40). }
  destruct (sessions_well_formed (H := toy_usd) _ _ _ _ _ _ Hrtc) as [Hs _].
  split; [exact Hrtc|].
  assert (Hk : known 7 manager2 = true) by (vm_compute; reflexivity). unfold known in Hk.
  destruct (objects manager2 !! 7) as [s|] eqn:Hl; [|discriminate Hk].
  exists s. split; [done|].
  assert (Hm : mode s = SingleEdit).
  { assert (Hm : mode <$> objects manager2 !! 7 = Some SingleEdit) by (vm_compute; reflexivity).
    rewrite Hl in Hm. by injection Hm. }
  split; [exact Hm|]. by apply (Hs 7 s Hl).
Defined.

(** A minute without a client. *)
Definition manager3 : Manager := tick (H := toy_usd) 60 60000 manager1.

Lemma reaper_takes_exactly_the_idle_witness :
  registry manager3 !! id1 = Some 7 /\
  (registry (fst (ReapIdleSessions (H := toy_usd) manager3)) !! id1 = None <->
   exists s t0, objects manager3 !! 7 = Some s /\ clients s = ∅ /\ empty_since s = Some t0 /\ 60 <= 60 - t0).
Proof.
  split; [vm_compute; reflexivity|].
  apply (reaper_takes_exactly_the_idle (H := toy_usd) manager3 id1 7); vm_compute; reflexivity.
Defined.

(** A client that looked the session up before the sweep attaches after it, to
    a session that is no longer in the registry. *)
Example reaper_races_with_attach :
  let m := fst (ReapIdleSessions (H := toy_usd) manager3) in
  Get id1 manager3 = Some 7 /\ registry m !! id1 = None /\
  snd (attach_at (H := toy_usd) 7 4 40 m) = AttachOk.
Proof. vm_compute. split_and!; reflexivity. Qed.

(** A move and a flush are still queued when the session is destroyed. *)
Definition manager4 : Manager :=
  fst (submit_to (H := toy_usd) 7 (Submit FlushCommand)
    (fst (SubmitTransformCommand (H := toy_usd) id1 (Some (drag "/World")) 4 1 0 manager2))).

Lemma teardown_handles_accepted_commands_witness :
  exists s', objects (fst (TeardownSession (H := toy_usd) 7 manager4)) !! 7 = Some s' /\
    commands s' = Some (mkQueue false [] []).
Proof.
  assert (Hk : known 7 manager4 = true) by (vm_compute; reflexivity). unfold known in Hk.
  destruct (objects manager4 !! 7) as [s|] eqn:Hl; [|discriminate Hk].
  destruct (commands s) as [q|] eqn:Hq.
  - destruct (teardown_handles_accepted_commands (H := toy_usd) 7 manager4 s q Hl Hq)
      as (_ & _ & s' & Hs' & Hc & _). exists s'. split; [exact Hs'|exact Hc].
  - assert (Hc : is_Some (objects manager4 !! 7 ≫= commands)) by (vm_compute; by eexists).
    rewrite Hl in Hc. cbn in Hc. rewrite Hq in Hc. by destruct Hc.
Defined.

End Registry.
