(* ===== verification/WebSocket.v ===== *)
(** * [WebSocketController] (source/controller/WebSocketController.h and .cpp)

    The life of a client connection: the upgrade, opening, messages, closing.
    A connection is the handle behind which the framework keeps it; sessions
    store these handles, and a handle that is no longer open must never be
    used. [Server] is the state the controller shares with the session
    manager; every handler is one definition, and [serves] is what connections and
    the rest of the server do, in any order. *)
From S2P Require Import Prelude Filesystem Locator Proto Usd Versions Scheduler Session Broadcast.
From S2P Require Import Listener SendFacts Dispatch Committer Handlers Progress Authoring Toy ToyWorld.
From S2P Require Import Manager Registry.

Module WebSocket.
Import Session Handlers Manager.
Local Open Scope string_scope.
Local Open Scope list_scope.
Local Open Scope Z_scope.

Section websocket.
Context `{Usd} `{Wire} `{IoErrors} `{SW : ShortWrites}.

Definition RejectionReason (status : SubmitStatus) : string :=
  if bool_decide (status = SubmitQueueFull) then "queue_full" else "session_closing".

Record WsUserData := mkUserData {
  session_id : string;
  connection_id : ConnectionId;
  remote_ip : string;
  session : option location;
  pending_corrections : gmap string location }.

Definition set_session (l : location) (u : WsUserData) : WsUserData :=
  mkUserData (session_id u) (connection_id u) (remote_ip u) (Some l) (pending_corrections u).

Definition set_pending_corrections (p : gmap string location) (u : WsUserData) : WsUserData :=
  mkUserData (session_id u) (connection_id u) (remote_ip u) (session u) p.

(** [sockets]: the open connections with their user data; [closed]: the calls of
    [conn.close], with their reason. *)
Record Server := mkServer {
  manager : Manager;
  m_next_connection_id_ : Z;
  sockets : gmap connection WsUserData;
  closed : list (connection * string) }.

Definition set_manager (m : Manager) (s : Server) : Server :=
  mkServer m (m_next_connection_id_ s) (sockets s) (closed s).

Definition set_sockets (v : gmap connection WsUserData) (s : Server) : Server :=
  mkServer (manager s) (m_next_connection_id_ s) v (closed s).

Definition close (conn : connection) (reason : string) (s : Server) : Server :=
  mkServer (manager s) (m_next_connection_id_ s) (sockets s) (closed s ++ [(conn, reason)]).

(** [conn.send_binary]. *)
Definition send (conn : connection) (p : Payload) (m : Manager) : Manager :=
  mkManager (objects m) (registry m) (m_locator_ m) (m_idle_timeout_ m)
    (m_outbox m ++ [mkFrame conn p]) (now m) (wall m) (m_disk m) (m_results m) (m_pendings m).

(** ** The handlers *)

(** The user data of an accepted upgrade. *)
Definition OnAccept (sid_param : option string) (remote : string) (s : Server) :
    Server * option WsUserData :=
  match sid_param with
  | None => (s, None)
  | Some sid =>
      if negb (Exists sid (manager s)) then (s, None)
      else if IsSingleEditBusy sid (manager s) then (s, None)
      else
        (mkServer (manager s) (u64 (m_next_connection_id_ s + 1)) (sockets s) (closed s),
         Some (mkUserData sid (m_next_connection_id_ s) remote None ∅))
  end.

Definition handshake (ses : Session) : BaseMessage :=
  mkBaseMessage (Some (id ses))
    (Handshake (id ses) "" (usd_file ses) ("/api/v1/download/" +:+ usd_file ses)) 0 0.

Definition OnOpen (conn : connection) (s : Server) : Server :=
  match sockets s !! conn with
  | None => close conn "missing session id" s
  | Some ws =>
      if Str.is_empty (session_id ws) then close conn "missing session id" s
      else
        match Get (session_id ws) (manager s) ≫= fun l => (l,.) <$> objects (manager s) !! l with
        | None => close conn "session no longer exists" s
        | Some (l, ses) =>
            let '(m, status) := AttachClient (session_id ws) (connection_id ws) conn (manager s) in
            let s := set_manager m s in
            match status with
            | SingleEditBusy => close conn "single_edit_busy" s
            | AttachUnknownSession => close conn "session no longer exists" s
            | AttachOk =>
                let s := set_sockets (<[conn := set_session l ws]> (sockets s)) s in
                let '(p, ok) := SerializeToString (handshake ses) in
                let m := if ok : bool then send conn p (manager s) else manager s in
                let '(m, joined) := SubmitJoinSnapshotCommand (session_id ws) (connection_id ws) m in
                let s := set_manager m s in
                if bool_decide (joined = SubmitAccepted) then s
                else close conn (RejectionReason joined) s
            end
        end
  end.

(** Afterwards the framework destroys the connection. *)
Definition OnClose (conn : connection) (s : Server) : Server :=
  match sockets s !! conn with
  | None => s
  | Some ws =>
      let m := match session ws with
               | Some l => DetachClient l (connection_id ws) (manager s)
               | None => manager s
               end in
      set_sockets (delete conn (sockets s)) (set_manager m s)
  end.

(** [r]: a location not in use, for a new request. *)
Definition SubmitCorrection (conn : connection) (ws : WsUserData) (prim_path : string) (r : location)
    (s : Server) : Server :=
  if Str.is_empty prim_path then s
  else
    let '(request, m, ws) :=
      match pending_corrections ws !! prim_path with
      | Some request => (request, manager s, ws)
      | None =>
          (r, set_m_pendings (<[r := mkPending prim_path false]> (m_pendings (manager s))) (manager s),
           set_pending_corrections (<[prim_path := r]> (pending_corrections ws)) ws)
      end in
    let m := SubmitCorrectionCommand (session_id ws) (connection_id ws) (Some request) m in
    set_sockets (<[conn := ws]> (sockets s)) (set_manager m s).

Definition refusal (ws : WsUserData) (request_id : Z) (status : SubmitStatus) : BaseMessage :=
  mkBaseMessage (Some (session_id ws)) (AckMessage (mkAck false (RejectionReason status))) request_id 0.

(** The answer to a command that was not queued. *)
Definition refuse (conn : connection) (ws : WsUserData) (request_id : Z) (status : SubmitStatus)
    (s : Server) : Server :=
  let '(p, ok) := SerializeToString (refusal ws request_id status) in
  if ok : bool then set_manager (send conn p (manager s)) s else s.

Definition OnMessage (conn : connection) (data : string) (isBinary : bool) (r : location) (s : Server) :
    Server :=
  if negb isBinary then s
  else
    match sockets s !! conn with
    | None => s
    | Some ws =>
        if Str.is_empty (session_id ws) then s
        else
          match ParseFromString data with
          | None => s
          | Some msg =>
              let request_id := msg_request_id msg in
              match msg_body msg with
              | XformUpdate update =>
                  let '(m, status) :=
                    SubmitTransformCommand (session_id ws) (Some update) (connection_id ws) request_id
                      (msg_server_seq msg) (manager s) in
                  let s := set_manager m s in
                  if bool_decide (status = SubmitAccepted) then s
                  else
                    let s := refuse conn ws request_id status s in
                    if bool_decide (status = SubmitQueueFull)
                    then SubmitCorrection conn ws (upd_prim_path update) r s else s
              | CreatePrim parent_path type =>
                  let '(m, status) :=
                    SubmitCreatePrimCommand (session_id ws) parent_path type (connection_id ws) request_id
                      (manager s) in
                  let s := set_manager m s in
                  if bool_decide (status = SubmitAccepted) then s else refuse conn ws request_id status s
              | SetPrimActive prim_path active =>
                  let '(m, status) :=
                    SubmitSetPrimActiveCommand (session_id ws) prim_path active (connection_id ws) request_id
                      (manager s) in
                  let s := set_manager m s in
                  if bool_decide (status = SubmitAccepted) then s else refuse conn ws request_id status s
              | _ => s
              end
          end
    end.

(** ** What happens on the server *)

(** An accepted upgrade gets a handle that is not in use. *)
Inductive serves : Server -> Server -> Prop :=
| serve_upgrade conn sid remote s s' ws :
    sockets s !! conn = None -> OnAccept sid remote s = (s', Some ws) ->
    serves s (set_sockets (<[conn := ws]> (sockets s')) s')
| serve_rejected sid remote s s' : OnAccept sid remote s = (s', None) -> serves s s'
| serve_open conn ws s :
    sockets s !! conn = Some ws -> session ws = None -> serves s (OnOpen conn s)
| serve_message conn data isBinary r s :
    m_pendings (manager s) !! r = None -> serves s (OnMessage conn data isBinary r s)
| serve_close conn s : serves s (OnClose conn s)
| serve_background m s : Registry.background (manager s) m -> serves s (set_manager m s).

(** ** Sessions hold open connections only *)

Context `{!WireOk}.

(** The clients of the sessions are the open connections that attached, each
    under its own id and with the session in its user data; ids are not shared. *)
Record clients_open (s : Server) : Prop := {
  open_client : forall l ses i conn,
    objects (manager s) !! l = Some ses -> clients ses !! i = Some conn ->
    exists ws, sockets s !! conn = Some ws /\ connection_id ws = i /\ session ws = Some l;
  open_attached : forall conn ws l,
    sockets s !! conn = Some ws -> session ws = Some l ->
    exists ses, objects (manager s) !! l = Some ses /\ clients ses !! connection_id ws = Some conn;
  open_unique : forall c1 c2 w1 w2,
    sockets s !! c1 = Some w1 -> sockets s !! c2 = Some w2 -> connection_id w1 = connection_id w2 -> c1 = c2;
  open_id : forall c ws, sockets s !! c = Some ws -> 0 < connection_id ws < m_next_connection_id_ s;
  open_next : 0 < m_next_connection_id_ s }.

(** What changes the manager without attaching or detaching anybody. *)
Definition same_clients (m m' : Manager) : Prop :=
  forall l, Registry.clients_at m' l = Registry.clients_at m l \/
    Registry.clients_at m l = None /\ Registry.clients_at m' l = Some ∅.

#[export] Instance same_clients_preorder : PreOrder same_clients.
Proof.
  split; [intros m l; by left|]. intros m1 m2 m3 Ha Hb l.
  destruct (Ha l) as [Ha'|[Ha1 Ha2]], (Hb l) as [Hb'|[Hb1 Hb2]]; [left|right|right|]; congruence || by split; congruence.
Qed.

Lemma clients_at_lookup m l ses : objects m !! l = Some ses -> Registry.clients_at m l = Some (clients ses).
Proof. unfold Registry.clients_at. by intros ->. Qed.

Lemma clients_at_inv m l cs :
  Registry.clients_at m l = Some cs -> exists ses, objects m !! l = Some ses /\ clients ses = cs.
Proof. unfold Registry.clients_at. destruct (objects m !! l) as [ses|]; [|done]. intros [= <-]. eauto. Qed.

Lemma clients_open_manager m s : same_clients (manager s) m -> clients_open s -> clients_open (set_manager m s).
Proof.
  intros Hm []. constructor; [| |done..]; cbn.
  - intros l ses' i conn Hl%clients_at_lookup Hi. destruct (Hm l) as [He|[_ He]]; rewrite Hl in He.
    + symmetry in He. apply clients_at_inv in He as (ses & Hses & He). rewrite <- He in Hi. eauto.
    + injection He as He. by rewrite He, lookup_empty in Hi.
  - intros conn ws l Hws Hl. destruct (open_attached0 conn ws l Hws Hl) as (ses & Hses & Hi).
    apply clients_at_lookup in Hses. destruct (Hm l) as [He|[He _]]; [|congruence].
    rewrite Hses in He. apply clients_at_inv in He as (ses' & Hses' & He). exists ses'. by rewrite He.
Qed.

Lemma same_clients_send conn p m : same_clients m (send conn p m).
Proof. intros l. by left. Qed.

Lemma same_clients_of m m' : Registry.background m m' -> same_clients m m'.
Proof. intros Hb. by destruct (Registry.background_clients m m' Hb). Qed.

(** User data changed in the requests it keeps only. *)
Lemma clients_open_sockets conn ws ws' s :
  sockets s !! conn = Some ws -> connection_id ws' = connection_id ws -> session ws' = session ws ->
  clients_open s -> clients_open (set_sockets (<[conn := ws']> (sockets s)) s).
Proof.
  intros Hs Hi Hse [Hc Ha Hu Hb Hn].
  assert (Hget : forall c w, <[conn := ws']> (sockets s) !! c = Some w ->
    exists w0, sockets s !! c = Some w0 /\ connection_id w = connection_id w0 /\ session w = session w0).
  { intros c w [[<- <-]|[_ Hw]]%lookup_insert_Some; eauto. }
  constructor; cbn; [| | | |done].
  - intros l ses i c Hl Hcl. destruct (Hc l ses i c Hl Hcl) as (w & Hw & Hwi & Hws).
    destruct (decide (c = conn)) as [->|Hne]; [|exists w; by rewrite lookup_insert_ne].
    exists ws'. rewrite lookup_insert_eq. simplify_eq. split_and!; congruence.
  - intros c w l Hw Hl. destruct (Hget _ _ Hw) as (v & Hv & He & He'). rewrite He. apply Ha; congruence.
  - intros c1 c2 w1 w2 Hw1 Hw2 He. destruct (Hget _ _ Hw1) as (v1 & Hv1 & He1 & _).
    destruct (Hget _ _ Hw2) as (v2 & Hv2 & He2 & _). apply (Hu c1 c2 v1 v2); congruence.
  - intros c w Hw. destruct (Hget _ _ Hw) as (v & Hv & -> & _). eauto.
Qed.

Lemma clients_open_send conn p s : clients_open s -> clients_open (set_manager (send conn p (manager s)) s).
Proof. apply clients_open_manager, same_clients_send. Qed.

Lemma clients_open_close conn reason s : clients_open s -> clients_open (close conn reason s).
Proof. intros []. by constructor. Qed.

Lemma clients_open_refuse conn ws rid status s : clients_open s -> clients_open (refuse conn ws rid status s).
Proof.
  intros Hs. unfold refuse. destruct (SerializeToString _) as [p []]; [by apply clients_open_send|done].
Qed.

Lemma clients_open_correction conn ws p r s :
  sockets s !! conn = Some ws -> clients_open s -> clients_open (SubmitCorrection conn ws p r s).
Proof.
  intros Hws Hs. unfold SubmitCorrection. destruct (Str.is_empty p); [done|].
  assert (Hgo : forall request m ws', same_clients (manager s) m -> connection_id ws' = connection_id ws ->
    session ws' = session ws ->
    clients_open (let m := SubmitCorrectionCommand (session_id ws') (connection_id ws') (Some request) m in
      set_sockets (<[conn := ws']> (sockets s)) (set_manager m s))).
  { intros request m ws' Hm Hi Hse. cbv zeta.
    apply (clients_open_sockets conn ws ws' (set_manager _ s)); [done..|].
    apply clients_open_manager; [|done]. etrans; [exact Hm|]. apply same_clients_of, Registry.step_correction. }
  destruct (pending_corrections ws !! p) as [request|]; [by apply (Hgo request)|].
  apply (Hgo r _ (set_pending_corrections _ ws)); [|done..]. intros l. by left.
Qed.

Lemma clients_open_message conn data b r s : clients_open s -> clients_open (OnMessage conn data b r s).
Proof.
  intros Hs. unfold OnMessage. destruct (negb b); [done|].
  destruct (sockets s !! conn) as [ws|] eqn:Hws; [|done]. destruct (Str.is_empty _); [done|].
  destruct (ParseFromString data) as [msg|]; [|done]. cbv zeta.
  destruct (msg_body msg); try done.
  - pose proof (Registry.step_transform (session_id ws) (Some u) (connection_id ws) (msg_request_id msg)
      (msg_server_seq msg) (manager s)) as Hb.
    destruct (SubmitTransformCommand _ _ _ _ _ _) as [m status]. cbn [fst] in Hb.
    apply same_clients_of in Hb. apply (clients_open_manager m s Hb) in Hs.
    destruct (bool_decide (status = SubmitAccepted)); [done|].
    apply (clients_open_refuse conn ws (msg_request_id msg) status) in Hs.
    destruct (bool_decide _); [|done]. apply clients_open_correction; [|done].
    unfold refuse. by destruct (SerializeToString _) as [p []].
  - pose proof (Registry.step_create_prim (session_id ws) parent_path type (connection_id ws)
      (msg_request_id msg) (manager s)) as Hb.
    destruct (SubmitCreatePrimCommand _ _ _ _ _ _) as [m status]. cbn [fst] in Hb.
    apply same_clients_of in Hb. apply (clients_open_manager m s Hb) in Hs.
    destruct (bool_decide _); [done|]. by apply clients_open_refuse.
  - pose proof (Registry.step_set_active (session_id ws) prim_path active (connection_id ws)
      (msg_request_id msg) (manager s)) as Hb.
    destruct (SubmitSetPrimActiveCommand _ _ _ _ _ _) as [m status]. cbn [fst] in Hb.
    apply same_clients_of in Hb. apply (clients_open_manager m s Hb) in Hs.
    destruct (bool_decide _); [done|]. by apply clients_open_refuse.
Qed.

(** The one place where a connection becomes a client. *)
Lemma clients_open_attach conn ws l m s :
  sockets s !! conn = Some ws -> session ws = None -> clients_open s ->
  attach_at l (connection_id ws) conn (manager s) = (m, AttachOk) ->
  clients_open (set_sockets (<[conn := set_session l ws]> (sockets s)) (set_manager m s)).
Proof.
  intros Hws Hnone [Hc Ha Hu Hb Hn] Hat. unfold attach_at in Hat.
  destruct (objects (manager s) !! l) as [ses|] eqn:Hl; [|done].
  destruct (_ && _); [done|]. injection Hat as <-.
  assert (Hget : forall c w, <[conn := set_session l ws]> (sockets s) !! c = Some w ->
    exists w0, sockets s !! c = Some w0 /\ connection_id w = connection_id w0).
  { intros c w [[<- <-]|[_ Hw]]%lookup_insert_Some; eauto. }
  constructor; cbn; [| | | |done].
  - intros k ses' i c Hk Hcl.
    assert (Hold : forall ses0, objects (manager s) !! k = Some ses0 -> clients ses0 !! i = Some c ->
      exists w, <[conn := set_session l ws]> (sockets s) !! c = Some w /\ connection_id w = i /\ session w = Some k).
    { intros ses0 Hk0 Hcl0. destruct (Hc k ses0 i c Hk0 Hcl0) as (w & Hw & Hwi & Hwk). exists w.
      rewrite lookup_insert_ne; [done|]. intros <-. congruence. }
    destruct (decide (k = l)) as [->|Hne].
    + rewrite lookup_alter_eq, Hl in Hk. injection Hk as <-. cbn in Hcl.
      apply lookup_insert_Some in Hcl as [[<- <-]|[_ Hcl]]; [|by apply (Hold ses)].
      exists (set_session l ws). by rewrite lookup_insert_eq.
    + rewrite lookup_alter_ne in Hk by done. by apply (Hold ses').
  - intros c w k [[<- <-]|[Hne Hw]]%lookup_insert_Some Hk.
    + cbn in Hk. injection Hk as <-. rewrite lookup_alter_eq, Hl. eexists. split; [done|]. cbn.
      apply lookup_insert_eq.
    + destruct (Ha c w k Hw Hk) as (ses0 & Hs0 & Hi). destruct (decide (k = l)) as [->|Hkl].
      * rewrite lookup_alter_eq, Hs0. eexists. split; [done|]. cbn. rewrite lookup_insert_ne; [done|].
        intros He. by apply Hne, (Hu _ _ _ _ Hws Hw).
      * rewrite lookup_alter_ne by done. eauto.
  - intros c1 c2 w1 w2 Hw1 Hw2 He. destruct (Hget _ _ Hw1) as (v1 & Hv1 & He1).
    destruct (Hget _ _ Hw2) as (v2 & Hv2 & He2). apply (Hu c1 c2 v1 v2); congruence.
  - intros c w Hw. destruct (Hget _ _ Hw) as (v & Hv & ->). eauto.
Qed.

Lemma clients_open_open conn ws s :
  sockets s !! conn = Some ws -> session ws = None -> clients_open s -> clients_open (OnOpen conn s).
Proof.
  intros Hws Hnone Hs. unfold OnOpen. rewrite Hws.
  destruct (Str.is_empty _); [by apply clients_open_close|].
  destruct (Get (session_id ws) (manager s)) as [l|] eqn:Hget; cbn [mbind option_bind];
    [|by apply clients_open_close].
  destruct (objects (manager s) !! l) as [ses|]; cbn [fmap option_fmap option_map]; [|by apply clients_open_close].
  unfold AttachClient. rewrite Hget.
  destruct (attach_at l (connection_id ws) conn (manager s)) as [m status] eqn:Hat.
  assert (Hfail : status <> AttachOk -> m = manager s).
  { unfold attach_at in Hat. destruct (objects (manager s) !! l); [|by simplify_eq].
    destruct (_ && _); by simplify_eq. }
  cbv zeta. destruct status.
  - pose proof (clients_open_attach conn ws l m s Hws Hnone Hs Hat) as Hs'.
    destruct (SerializeToString (handshake ses)) as [p ok].
    set (m1 := if ok then _ else _). cbn [manager set_sockets set_manager] in m1.
    pose proof (Registry.step_join (session_id ws) (connection_id ws) m1) as Hj.
    destruct (SubmitJoinSnapshotCommand _ _ m1) as [m2 joined]. cbn [fst] in Hj. apply same_clients_of in Hj.
    assert (Hs2 : clients_open (set_manager m2
      (set_sockets (<[conn := set_session l ws]> (sockets (set_manager m s))) (set_manager m s)))).
    { apply clients_open_manager; [|exact Hs']. etrans; [|exact Hj].
      subst m1. destruct ok; [apply same_clients_send|reflexivity]. }
    destruct (bool_decide _); [exact Hs2|by apply clients_open_close].
  - apply clients_open_close. rewrite Hfail by done. by destruct s.
  - apply clients_open_close. rewrite Hfail by done. by destruct s.
Qed.

Lemma clients_open_onclose conn s : clients_open s -> clients_open (OnClose conn s).
Proof.
  intros Hs. unfold OnClose. destruct (sockets s !! conn) as [ws|] eqn:Hws; [|done].
  destruct Hs as [Hc Ha Hu Hb Hn].
  constructor; cbn; [| | | |done].
  - intros k ses' i c Hk Hcl.
    assert (Hold : exists ses0, objects (manager s) !! k = Some ses0 /\ clients ses0 !! i = Some c /\
      (session ws = Some k -> i <> connection_id ws)).
    { destruct (session ws) as [l|]; [|by exists ses']. unfold DetachClient in Hk. cbn in Hk.
      destruct (decide (k = l)) as [->|Hne].
      - rewrite lookup_alter_eq in Hk. destruct (objects (manager s) !! l) as [ses|]; [|done].
        cbn in Hk. injection Hk as <-. exists ses. split; [done|].
        assert (Hdel : delete (connection_id ws) (clients ses) !! i = Some c).
        { unfold detach in Hcl. cbv zeta in Hcl. by destruct (bool_decide _). }
        apply lookup_delete_Some in Hdel as [? ?]. by split.
      - rewrite lookup_alter_ne in Hk by done. exists ses'. split_and!; [done..|]. intros [= ->]. done. }
    destruct Hold as (ses0 & Hk0 & Hcl0 & Hne). destruct (Hc k ses0 i c Hk0 Hcl0) as (w & Hw & Hwi & Hwk).
    exists w. rewrite lookup_delete_ne; [done|]. intros <-. simplify_eq. by apply Hne.
  - intros c w k [Hcc Hw]%lookup_delete_Some Hk. destruct (Ha c w k Hw Hk) as (ses0 & Hs0 & Hi).
    destruct (session ws) as [l|]; [|by exists ses0]. unfold DetachClient. cbn.
    destruct (decide (k = l)) as [->|Hkl]; [|rewrite lookup_alter_ne by done; by exists ses0].
    rewrite lookup_alter_eq, Hs0. eexists. split; [done|].
    assert (Hdel : delete (connection_id ws) (clients ses0) !! connection_id w = Some c).
    { rewrite lookup_delete_ne; [done|]. intros He. by apply Hcc, (Hu _ _ _ _ Hws Hw). }
    unfold detach. cbv zeta. by destruct (bool_decide _).
  - intros c1 c2 w1 w2 [_ Hw1]%lookup_delete_Some [_ Hw2]%lookup_delete_Some. by apply Hu.
  - intros c w [_ Hw]%lookup_delete_Some. eauto.
Qed.

Lemma clients_open_upgrade conn sid remote s s' ws :
  m_next_connection_id_ s + 1 < 2 ^ 64 -> sockets s !! conn = None -> OnAccept sid remote s = (s', Some ws) ->
  clients_open s -> clients_open (set_sockets (<[conn := ws]> (sockets s')) s').
Proof.
  intros Hov Hfree Hacc [Hc Ha Hu Hb Hn]. unfold OnAccept in Hacc. destruct sid as [sid|]; [|done].
  destruct (negb _); [done|]. destruct (IsSingleEditBusy _ _); [done|]. injection Hacc as <- <-.
  rewrite wrap_small by lia. constructor; cbn; [| | | |lia].
  - intros l ses i c Hl Hcl. destruct (Hc l ses i c Hl Hcl) as (w & Hw & ?). exists w.
    rewrite lookup_insert_ne; [done|]. intros <-. congruence.
  - intros c w l [[<- <-]|[_ Hw]]%lookup_insert_Some Hl; [done|]. by apply Ha.
  - intros c1 c2 w1 w2 [[<- <-]|[_ Hw1]]%lookup_insert_Some [[<- <-]|[_ Hw2]]%lookup_insert_Some; cbn; try done.
    + intros He. apply Hb in Hw2. lia.
    + intros He. apply Hb in Hw1. lia.
    + by apply Hu.
  - intros c w [[<- <-]|[_ Hw]]%lookup_insert_Some; cbn; [lia|]. apply Hb in Hw. lia.
Qed.

Lemma next_id_step s s' :
  serves s s' -> 0 < m_next_connection_id_ s < 2 ^ 64 - 1 ->
  m_next_connection_id_ s' <= m_next_connection_id_ s + 1.
Proof.
  intros Hst Hn. destruct Hst as [conn sid remote s s' ws _ Ha|sid remote s s' Ha|conn ws s|conn data b r s|conn s|m s].
  - cbn. unfold OnAccept in Ha. destruct sid; [|done]. destruct (negb _); [done|].
    destruct (IsSingleEditBusy _ _); [done|]. injection Ha as <- _. cbn. rewrite wrap_small; lia.
  - unfold OnAccept in Ha. destruct sid; [|by simplify_eq; lia]. destruct (negb _); [by simplify_eq; lia|].
    destruct (IsSingleEditBusy _ _); [by simplify_eq; lia|done].
  - assert (m_next_connection_id_ (OnOpen conn s) = m_next_connection_id_ s) as ->; [|lia].
    unfold OnOpen. destruct (sockets s !! conn); [|done]. destruct (Str.is_empty _); [done|].
    destruct (_ ≫= _) as [[l ses]|]; [|done]. destruct (AttachClient _ _ _ _) as [m []]; try done.
    cbv zeta. destruct (SerializeToString _) as [p ok].
    destruct (SubmitJoinSnapshotCommand _ _ _) as [m2 st]. by destruct (bool_decide _).
  - assert (m_next_connection_id_ (OnMessage conn data b r s) = m_next_connection_id_ s) as ->; [|lia].
    unfold OnMessage. destruct (negb b); [done|]. destruct (sockets s !! conn) as [ws|]; [|done].
    destruct (Str.is_empty _); [done|]. destruct (ParseFromString data) as [msg|]; [|done]. cbv zeta.
    assert (Href : forall st s0, m_next_connection_id_ (refuse conn ws (msg_request_id msg) st s0) = m_next_connection_id_ s0).
    { intros st s0. unfold refuse. by destruct (SerializeToString _) as [p []]. }
    destruct (msg_body msg); try done.
    + destruct (SubmitTransformCommand _ _ _ _ _ _) as [m st]. destruct (bool_decide _); [done|].
      destruct (bool_decide (st = SubmitQueueFull)); [|by rewrite Href]. unfold SubmitCorrection.
      destruct (Str.is_empty _); [by rewrite Href|].
      destruct (pending_corrections ws !! _); cbn [m_next_connection_id_ set_sockets set_manager]; by rewrite Href.
    + destruct (SubmitCreatePrimCommand _ _ _ _ _ _) as [m st]. destruct (bool_decide _); [done|]. by rewrite Href.
    + destruct (SubmitSetPrimActiveCommand _ _ _ _ _ _) as [m st]. destruct (bool_decide _); [done|]. by rewrite Href.
  - unfold OnClose. destruct (sockets s !! conn); cbn; lia.
  - cbn. lia.
Qed.

Lemma clients_open_step s s' :
  m_next_connection_id_ s + 1 < 2 ^ 64 -> serves s s' -> clients_open s -> clients_open s'.
Proof.
  intros Hov Hst Hs. destruct Hst as [conn sid remote s s' ws Hf Ha|sid remote s s' Ha|conn ws s Hws Hn|conn data b r s|conn s|m s Hb].
  - by eapply clients_open_upgrade.
  - unfold OnAccept in Ha. destruct sid; [|by simplify_eq]. destruct (negb _); [by simplify_eq|].
    destruct (IsSingleEditBusy _ _); [by simplify_eq|done].
  - by eapply clients_open_open.
  - by apply clients_open_message.
  - by apply clients_open_onclose.
  - apply clients_open_manager; [by apply same_clients_of|done].
Qed.

Lemma reachable_open n s0 s k :
  nsteps serves n s0 s -> clients_open s0 -> m_next_connection_id_ s0 <= k -> k + Z.of_nat n < 2 ^ 64 - 1 ->
  clients_open s /\ m_next_connection_id_ s <= k + Z.of_nat n.
Proof.
  intros Hn. revert k. induction Hn as [s|n s0 s1 s Hst Hn IH]; intros k Hs0 Hk Hb; [split; [done|lia]|].
  pose proof (open_next s0 Hs0). pose proof (next_id_step s0 s1 Hst ltac:(lia)).
  destruct (IH (k + 1)) as [Hs Hks]; [apply (clients_open_step s0 s1); (done || lia)|lia|lia|]. split; [done|lia].
Qed.

(** *** What is sent, and to whom

    [safe O m m']: when only connections in [O] are anybody's client, the same
    holds afterwards, and what was sent went to connections in [O]. *)
Definition safe (O : connection -> Prop) (m m' : Manager) : Prop :=
  (forall c, Registry.holds m c -> O c) ->
  (forall c, Registry.holds m' c -> O c) /\
  exists fs, m_outbox m' = m_outbox m ++ fs /\ Forall (fun f => O (to_connection f)) fs.

#[export] Instance safe_preorder O : PreOrder (safe O).
Proof.
  split.
  - intros m Hm. split; [done|]. exists []. rewrite app_nil_r. split; [done|constructor].
  - intros m1 m2 m3 Ha Hb Hm1. destruct (Ha Hm1) as (Hm2 & fs1 & Ho1 & Hf1).
    destruct (Hb Hm2) as (Hm3 & fs2 & Ho2 & Hf2). split; [done|]. exists (fs1 ++ fs2).
    split; [by rewrite Ho2, Ho1, app_assoc|]. by apply Forall_app.
Qed.

Lemma safe_background O m m' : Registry.background m m' -> safe O m m'.
Proof.
  intros Hb Hm. destruct (Registry.background_clients m m' Hb) as [Hk (fs & Ho & Hfs)]. split.
  - intros c (l & cs & i & Hl & Hi). destruct (Hk l) as [He|[_ He]]; rewrite Hl in He.
    + apply Hm. by exists l, cs, i.
    + injection He as ->. by rewrite lookup_empty in Hi.
  - exists fs. split; [done|]. eapply Forall_impl; [exact Hfs|]. intros f. apply Hm.
Qed.

Lemma safe_send (O : connection -> Prop) conn p m : O conn -> safe O m (send conn p m).
Proof. intros Ho Hm. split; [exact Hm|]. exists [mkFrame conn p]. split; [done|]. by constructor. Qed.

Lemma safe_attach (O : connection -> Prop) l i conn m : O conn -> safe O m (fst (attach_at l i conn m)).
Proof.
  intros Hc. unfold attach_at. destruct (objects m !! l) as [ses|] eqn:Hl; [|reflexivity].
  destruct (_ && _); [reflexivity|]. intros Hm. split; [|exists []; rewrite app_nil_r; by split].
  intros c (k & cs & j & Hk & Hj). unfold Registry.clients_at in Hk. cbn in Hk.
  destruct (decide (k = l)) as [->|Hne].
  - rewrite lookup_alter_eq, Hl in Hk. injection Hk as <-.
    apply lookup_insert_Some in Hj as [[_ <-]|[_ Hj]]; [done|]. apply Hm.
    exists l, (clients ses), j. split; [by apply clients_at_lookup|done].
  - rewrite lookup_alter_ne in Hk by done. apply Hm. by exists k, cs, j.
Qed.

Definition is_open (s : Server) (c : connection) : Prop := is_Some (sockets s !! c).

(** The handlers of a connection other than its closing. *)
Definition replies (s s' : Server) : Prop :=
  dom (sockets s') = dom (sockets s) /\ safe (is_open s) (manager s) (manager s').

Lemma safe_refuse conn ws rid status s :
  is_open s conn -> safe (is_open s) (manager s) (manager (refuse conn ws rid status s)) /\
  sockets (refuse conn ws rid status s) = sockets s.
Proof.
  intros Ho. unfold refuse. destruct (SerializeToString _) as [p []]; split; try done.
  by apply safe_send.
Qed.

Lemma correction_replies conn ws p r s :
  is_open s conn -> replies s (SubmitCorrection conn ws p r s).
Proof.
  intros Ho. unfold SubmitCorrection. destruct (Str.is_empty p); [by split|].
  assert (Hgo : forall request m ws', safe (is_open s) (manager s) m -> replies s
    (let m := SubmitCorrectionCommand (session_id ws') (connection_id ws') (Some request) m in
      set_sockets (<[conn := ws']> (sockets s)) (set_manager m s))).
  { intros request m ws' Hm. split; cbn [sockets set_sockets set_manager manager].
    - by apply dom_insert_lookup_L.
    - etrans; [exact Hm|]. apply safe_background, Registry.step_correction. }
  destruct (pending_corrections ws !! p) as [request|]; [by apply (Hgo request)|].
  apply (Hgo r _ (set_pending_corrections _ ws)). intros Hm. split; [exact Hm|].
  exists []. rewrite app_nil_r. by split.
Qed.

Lemma message_replies conn data b r s : replies s (OnMessage conn data b r s).
Proof.
  unfold OnMessage. destruct (negb b); [by split|].
  destruct (sockets s !! conn) as [ws|] eqn:Hws; [|by split]. destruct (Str.is_empty _); [by split|].
  destruct (ParseFromString data) as [msg|]; [|by split]. cbv zeta.
  assert (Href : forall m status, Registry.background (manager s) m ->
    replies s (if bool_decide (status = SubmitAccepted) then set_manager m s
               else refuse conn ws (msg_request_id msg) status (set_manager m s))).
  { intros m status Hm%(safe_background (is_open s)).
    destruct (bool_decide _); [by split|].
    destruct (safe_refuse conn ws (msg_request_id msg) status (set_manager m s)) as [Hr Hso]; [by exists ws|].
    split; [by rewrite Hso|]. by etrans; [exact Hm|]. }
  destruct (msg_body msg); try by split.
  - pose proof (Registry.step_transform (session_id ws) (Some u) (connection_id ws) (msg_request_id msg)
      (msg_server_seq msg) (manager s)) as Hb.
    destruct (SubmitTransformCommand _ _ _ _ _ _) as [m status]. cbn [fst] in Hb.
    specialize (Href m status Hb). destruct (bool_decide (status = SubmitAccepted)); [done|].
    destruct (bool_decide (status = SubmitQueueFull)); [|done]. destruct Href as [Hd Hs].
    set (s1 := refuse _ _ _ _ _) in *.
    assert (Hop : forall c, is_open s1 c <-> is_open s c).
    { intros c. unfold is_open. by rewrite <- !elem_of_dom, Hd. }
    destruct (correction_replies conn ws (upd_prim_path u) r s1) as [Hd' Hs'];
      [apply Hop; by exists ws|].
    split; [congruence|]. etrans; [exact Hs|]. intros Hm. destruct Hs' as (Hh & fs & Hfs & Hall).
    { intros c Hc. by apply Hop, Hm. }
    split; [intros c Hc; by apply Hop, Hh|]. exists fs. split; [done|].
    eapply Forall_impl; [exact Hall|]. intros f. apply Hop.
  - pose proof (Registry.step_create_prim (session_id ws) parent_path type (connection_id ws)
      (msg_request_id msg) (manager s)) as Hb.
    destruct (SubmitCreatePrimCommand _ _ _ _ _ _) as [m status]. by apply Href.
  - pose proof (Registry.step_set_active (session_id ws) prim_path active (connection_id ws)
      (msg_request_id msg) (manager s)) as Hb.
    destruct (SubmitSetPrimActiveCommand _ _ _ _ _ _) as [m status]. by apply Href.
Qed.

Lemma open_replies conn ws s : sockets s !! conn = Some ws -> replies s (OnOpen conn s).
Proof.
  intros Hws. assert (Ho : is_open s conn) by by exists ws.
  unfold OnOpen. rewrite Hws. destruct (Str.is_empty _); [by split|].
  destruct (Get (session_id ws) (manager s)) as [l|] eqn:Hget; [|by split]. cbn [mbind option_bind].
  destruct (objects (manager s) !! l) as [ses|]; [|by split]. cbn [fmap option_fmap option_map].
  unfold AttachClient. rewrite Hget.
  pose proof (safe_attach (is_open s) l (connection_id ws) conn (manager s) Ho) as Hat.
  destruct (attach_at l (connection_id ws) conn (manager s)) as [m status]. cbn [fst] in Hat.
  cbv zeta. destruct status; [|by split..].
  destruct (SerializeToString (handshake ses)) as [p ok].
  set (m1 := if ok then _ else _). cbn [manager set_sockets set_manager] in m1.
  pose proof (Registry.step_join (session_id ws) (connection_id ws) m1) as Hj.
  destruct (SubmitJoinSnapshotCommand _ _ m1) as [m2 joined]. cbn [fst] in Hj.
  assert (Hs : replies s (set_manager m2
    (set_sockets (<[conn := set_session l ws]> (sockets (set_manager m s))) (set_manager m s)))).
  { split; cbn [sockets set_sockets set_manager manager].
    - by apply dom_insert_lookup_L.
    - etrans; [exact Hat|]. etrans; [|by apply safe_background, Hj].
      subst m1. destruct ok; [by apply safe_send|reflexivity]. }
  by destruct (bool_decide _).
Qed.

(** What is sent goes to connections that are open before and after. *)
Lemma serves_sends s s' :
  clients_open s -> serves s s' ->
  exists fs, m_outbox (manager s') = m_outbox (manager s) ++ fs /\
    Forall (fun f => is_open s (to_connection f) /\ is_open s' (to_connection f)) fs.
Proof.
  intros Hs Hst.
  assert (Hold : forall c, Registry.holds (manager s) c -> is_open s c).
  { intros c (l & cs & i & Hl & Hi). apply clients_at_inv in Hl as (ses & Hl & <-).
    destruct (open_client s Hs l ses i c Hl Hi) as (ws & Hws & _). by exists ws. }
  assert (Hgo : replies s s' -> exists fs, m_outbox (manager s') = m_outbox (manager s) ++ fs /\
    Forall (fun f => is_open s (to_connection f) /\ is_open s' (to_connection f)) fs).
  { intros [Hd Hsafe]. destruct (Hsafe Hold) as (_ & fs & Hfs & Hall). exists fs. split; [done|].
    eapply Forall_impl; [exact Hall|]. intros f Hf. split; [done|].
    unfold is_open in *. by rewrite <- elem_of_dom, Hd, elem_of_dom. }
  assert (Hquiet : manager s' = manager s \/ m_outbox (manager s') = m_outbox (manager s) ->
    exists fs, m_outbox (manager s') = m_outbox (manager s) ++ fs /\
    Forall (fun f => is_open s (to_connection f) /\ is_open s' (to_connection f)) fs).
  { intros [->|He]; exists []; rewrite app_nil_r; by split. }
  destruct Hst as [conn sid remote s s' ws Hf Ha|sid remote s s' Ha|conn ws s Hws Hn|conn data b r s|conn s|m s Hb].
  - apply Hquiet. left. cbn. unfold OnAccept in Ha. destruct sid; [|done]. destruct (negb _); [done|].
    destruct (IsSingleEditBusy _ _); [done|]. by injection Ha as <- _.
  - apply Hquiet. left. unfold OnAccept in Ha. destruct sid; [|by simplify_eq]. destruct (negb _); [by simplify_eq|].
    destruct (IsSingleEditBusy _ _); [by simplify_eq|done].
  - by eapply Hgo, open_replies.
  - apply Hgo, message_replies.
  - apply Hquiet. right. unfold OnClose. destruct (sockets s !! conn) as [ws|]; [|done]. cbn.
    by destruct (session ws).
  - apply Hgo. split; [done|]. by apply safe_background.
Qed.

(** The server when it starts. *)
Definition start (m : Manager) : Server := mkServer m 1 ∅ [].


(** ** What becomes of a message *)

(** The command a request is queued as: it carries the id of the connection it
    came from, whatever the message says. *)
Definition command_of (ws : WsUserData) (msg : BaseMessage) : option SessionCommand :=
  match msg_body msg with
  | XformUpdate u => Some (TransformCommand u (connection_id ws) (msg_request_id msg) (msg_server_seq msg))
  | CreatePrim parent type => Some (CreatePrimCommand parent type (connection_id ws) (msg_request_id msg))
  | SetPrimActive path active => Some (SetPrimActiveCommand path active (connection_id ws) (msg_request_id msg))
  | _ => None
  end.

(** The commands waiting in a session, corrections aside. *)
Definition waiting (ses : Session) : option (list SessionCommand) := normal <$> commands ses.

Lemma Submit_refused c ses ses' st : Submit c ses = (ses', st) -> st <> SubmitAccepted -> waiting ses' = waiting ses.
Proof.
  unfold Submit. destruct (commands ses) as [q|] eqn:Hq; [|congruence].
  unfold TrySubmit. destruct (negb (accepting q)); [|destruct (_ <? _)];
    intros [= <- <-] Hst; unfold waiting; rewrite Hq; done.
Qed.

Lemma SubmitPriority_waiting c ses : waiting (fst (SubmitPriority c ses)) = waiting ses.
Proof.
  unfold SubmitPriority, waiting. destruct (commands ses) as [q|] eqn:Hq; cbn [fst].
  - unfold TrySubmitPriority. destruct (negb (accepting q)); [done|]. by destruct (_ <? _).
  - by rewrite Hq.
Qed.

Definition same_waiting (m m' : Manager) : Prop := waiting <$> objects m' = waiting <$> objects m.

Lemma submit_to_waiting l f m :
  (forall ses, waiting (fst (f ses)) = waiting ses) -> same_waiting m (fst (submit_to l f m)).
Proof.
  intros Hf. unfold submit_to, same_waiting. destruct (objects m !! l) as [ses|] eqn:Hl; [|done].
  specialize (Hf ses). destruct (f ses) as [ses' st]. cbn [fst] in *. cbn. rewrite fmap_insert, Hf.
  apply insert_id. by rewrite lookup_fmap, Hl.
Qed.

(** Queueing a request by the id of its session. *)
Lemma submit_by_id_cases i c m :
  (exists l ses ses',
     registry m !! i = Some l /\ objects m !! l = Some ses /\ Submit c ses = (ses', SubmitAccepted) /\
     submit_by_id i c m = (set_objects (<[l := ses']> (objects m)) m, SubmitAccepted)) \/
  (snd (submit_by_id i c m) <> SubmitAccepted /\ same_waiting m (fst (submit_by_id i c m)) /\
   m_outbox (fst (submit_by_id i c m)) = m_outbox m).
Proof.
  unfold submit_by_id, Get. destruct (registry m !! i) as [l|]; [|by right].
  unfold submit_to. destruct (objects m !! l) as [ses|] eqn:Hl; [|by right].
  destruct (Submit c ses) as [ses' st] eqn:Hc. destruct (decide (st = SubmitAccepted)) as [->|Hne].
  - left. by exists l, ses, ses'.
  - right. cbn [fst snd]. split_and!; [done| |done]. unfold same_waiting. cbn.
    rewrite fmap_insert, (Submit_refused _ _ _ _ Hc Hne). apply insert_id. by rewrite lookup_fmap, Hl.
Qed.

Lemma correction_waiting conn ws p r s :
  same_waiting (manager s) (manager (SubmitCorrection conn ws p r s)) /\
  m_outbox (manager (SubmitCorrection conn ws p r s)) = m_outbox (manager s).
Proof.
  unfold SubmitCorrection. destruct (Str.is_empty p); [done|].
  assert (Hgo : forall i c request m, same_waiting m (SubmitCorrectionCommand i c request m) /\
    m_outbox (SubmitCorrectionCommand i c request m) = m_outbox m).
  { intros i c request m. unfold SubmitCorrectionCommand. destruct request as [q|]; [|done].
    destruct (Get i m) as [l|]; [|done]. destruct (m_pendings m !! q) as [pc|]; [|done]. cbv zeta.
    destruct (queued pc); [done|].
    pose proof (submit_to_waiting l (SubmitPriority (CorrectionCommand c (Some q))) (set_queued q true m)
      (SubmitPriority_waiting _)) as Hw.
    assert (Ho : m_outbox (fst (submit_to l (SubmitPriority (CorrectionCommand c (Some q))) (set_queued q true m))) =
      m_outbox m).
    { unfold submit_to. destruct (objects _ !! l); [|done]. by destruct (SubmitPriority _ _). }
    destruct (submit_to _ _ _) as [m2 st]. by destruct (bool_decide _). }
  destruct (pending_corrections ws !! p) as [request|]; cbv zeta; cbn [manager set_sockets set_manager].
  - apply Hgo.
  - match goal with |- same_waiting _ (SubmitCorrectionCommand ?i ?c ?q ?m) /\ _ => exact (Hgo i c q m) end.
Qed.

Lemma refuse_eq conn ws rid st s :
  refuse conn ws rid st s = set_manager (send conn (serialized (refusal ws rid st)) (manager s)) s.
Proof. unfold refuse. by rewrite serialize_ok by done. Qed.

(** A client's request is either queued for its session, exactly once and in
    the client's own name, or refused on the spot with exactly one negative Ack
    under its request id, and then not queued. In the first case nothing is sent
    and nothing else changes: the consumer will answer. Together with the
    consumer's answer, every request gets one Ack. Messages of other types, text
    frames and bytes that do not parse have no effect at all. *)
Theorem message_queued_or_refused conn ws data r s :
  sockets s !! conn = Some ws -> session_id ws <> "" ->
  let s' := OnMessage conn data true r s in
  match ParseFromString data ≫= fun msg => (msg,.) <$> command_of ws msg with
  | None => s' = s
  | Some (msg, c) =>
      (exists l ses ses',
         registry (manager s) !! session_id ws = Some l /\ objects (manager s) !! l = Some ses /\
         Submit c ses = (ses', SubmitAccepted) /\
         s' = set_manager (set_objects (<[l := ses']> (objects (manager s))) (manager s)) s) \/
      (exists status, status <> SubmitAccepted /\
         m_outbox (manager s') =
           m_outbox (manager s) ++ [mkFrame conn (serialized (refusal ws (msg_request_id msg) status))] /\
         same_waiting (manager s) (manager s'))
  end.
Proof.
  intros Hws Hid. cbv zeta. unfold OnMessage. rewrite Hws. cbn [negb].
  assert (Str.is_empty (session_id ws) = false) as -> by by destruct (session_id ws).
  destruct (ParseFromString data) as [msg|]; [|done]. cbn [mbind option_bind].
  unfold command_of. destruct (msg_body msg); try done; cbn [fmap option_fmap option_map].
  - assert (Hsub : SubmitTransformCommand (session_id ws) (Some u) (connection_id ws) (msg_request_id msg)
      (msg_server_seq msg) (manager s) = submit_by_id (session_id ws)
      (TransformCommand u (connection_id ws) (msg_request_id msg) (msg_server_seq msg)) (manager s)) by done.
    cbv zeta. rewrite Hsub.
    destruct (submit_by_id_cases (session_id ws) (TransformCommand u (connection_id ws) (msg_request_id msg)
      (msg_server_seq msg)) (manager s)) as [(l & ses & ses' & Hr & Hl & Hc & ->)|(Hne & Hw & Ho)].
    { left. by exists l, ses, ses'. }
    right. destruct (submit_by_id _ _ _) as [m status]. cbn [fst snd] in Hne, Hw, Ho.
    exists status. split; [done|]. rewrite (bool_decide_false _ Hne), refuse_eq.
    destruct (bool_decide _); cbn [manager set_manager]; [|split; [cbn; by rewrite Ho|exact Hw]].
    match goal with |- context [SubmitCorrection ?a ?b ?c ?d ?e] =>
      destruct (correction_waiting a b c d e) as [Hcw Hco] end.
    rewrite Hco. split; [cbn; by rewrite Ho|]. unfold same_waiting in *. rewrite Hcw. exact Hw.
  - cbv zeta. unfold SubmitCreatePrimCommand.
    match goal with |- context [submit_by_id ?i ?c ?m] =>
      destruct (submit_by_id_cases i c m) as [(l & ses & ses' & Hr & Hl & Hc & ->)|(Hne & Hw & Ho)] end.
    { left. by exists l, ses, ses'. }
    right. destruct (submit_by_id _ _ _) as [m status]. cbn [fst snd] in Hne, Hw, Ho.
    exists status. split; [done|]. rewrite (bool_decide_false _ Hne), refuse_eq.
    split; [cbn; by rewrite Ho|exact Hw].
  - cbv zeta. unfold SubmitSetPrimActiveCommand.
    match goal with |- context [submit_by_id ?i ?c ?m] =>
      destruct (submit_by_id_cases i c m) as [(l & ses & ses' & Hr & Hl & Hc & ->)|(Hne & Hw & Ho)] end.
    { left. by exists l, ses, ses'. }
    right. destruct (submit_by_id _ _ _) as [m status]. cbn [fst snd] in Hne, Hw, Ho.
    exists status. split; [done|]. rewrite (bool_decide_false _ Hne), refuse_eq.
    split; [cbn; by rewrite Ho|exact Hw].
Qed.

End websocket.

(** ** A client that attaches *)
Import ToyWorld Registry.

(** A codec that reads every text as a client's drag of [/World]. *)
Definition drag_message : BaseMessage := mkBaseMessage None (XformUpdate (drag "/World")) 7 0.

Definition reads_drag : Wire :=
  {| encode m := (match msg_body m with MESSAGE_NOT_SET => "" | _ => "m" end, true);
     ParseFromString s := Some drag_message |}.

Definition reads_drag_ok : WireOk (H := reads_drag).
Proof. split; intros [? [] ? ?] Hm; done. Defined.

Definition server1 : @Server toy_usd := mkServer manager1 1 ∅ [].
Definition accepted : @Server toy_usd * option WsUserData :=
  OnAccept (H := toy_usd) (Some id1) "10.0.0.9" server1.
Definition user1 : WsUserData := mkUserData id1 1 "10.0.0.9" None ∅.
Definition server2 : @Server toy_usd :=
  set_sockets (H := toy_usd) (<[40 := user1]> (sockets (fst accepted))) (fst accepted).
Definition server3 : @Server toy_usd := OnOpen (H := toy_usd) (H0 := reads_drag) 40 server2.

Definition server0 : @Server toy_usd := start (H := toy_usd) manager0.

Lemma server3_reachable : nsteps (serves (H := toy_usd) (H0 := reads_drag)) 3 server0 server3.
Proof.
  apply nsteps_l with server1.
  { apply (serve_background (H := toy_usd) (H0 := reads_drag) manager1 server0).
    apply (Registry.step_create (H := toy_usd) "a.usda" SingleEdit true 1 2 7). reflexivity. }
  apply nsteps_l with server2.
  { apply (serve_upgrade (H := toy_usd) (H0 := reads_drag) 40 (Some id1) "10.0.0.9" server1 (fst accepted) user1).
    - vm_compute. reflexivity.
    - change (accepted = (fst accepted, Some user1)). rewrite (surjective_pairing accepted) at 1.
      f_equal. }
  apply nsteps_once. apply (serve_open (H := toy_usd) (H0 := reads_drag) 40 user1); [|reflexivity].
  unfold server2. cbn [sockets set_sockets]. apply lookup_insert_eq.
Qed.

Definition handles (l : location) (s : @Server toy_usd) : option (list (ConnectionId * connection)) :=
  (fun ses => map_to_list (clients ses)) <$> objects (manager s) !! l.


Definition user3 : WsUserData := mkUserData id1 1 "10.0.0.9" (Some 7) ∅.

Lemma message_queued_or_refused_witness :
  sockets server3 !! 40 = Some user3 /\
  let s' := OnMessage (H := toy_usd) (H0 := reads_drag) 40 "drag" true 3 server3 in
  ((exists l ses ses',
     registry (manager server3) !! session_id user3 = Some l /\ objects (manager server3) !! l = Some ses /\
     Submit (TransformCommand (drag "/World") (connection_id user3) (msg_request_id drag_message)
       (msg_server_seq drag_message)) ses = (ses', SubmitAccepted) /\
     s' = set_manager (set_objects (<[l := ses']> (objects (manager server3))) (manager server3)) server3) \/
   (exists status, status <> SubmitAccepted /\
     m_outbox (manager s') = m_outbox (manager server3) ++
       [mkFrame 40 (serialized (H := reads_drag) (refusal user3 (msg_request_id drag_message) status))] /\
     same_waiting (manager server3) (manager s'))).
Proof.
  assert (Hws : sockets server3 !! 40 = Some user3) by (vm_compute; reflexivity).
  split; [exact Hws|].
  assert (Hid : session_id user3 <> "") by (vm_compute; discriminate).
  exact (message_queued_or_refused (H := toy_usd) (H0 := reads_drag) (H2 := reads_drag_ok)
    40 user3 "drag" 3 server3 Hws Hid).
Defined.

End WebSocket.
