(* ===== verification/Uploads.v ===== *)
(** * [FileServingController] (source/controller/FileServingController.cpp,
    dto/UploadDto.h)

    Uploads, downloads and thumbnails. An upload is written to a temporary file
    next to its target and renamed over it; live sessions of a replaced file are
    told to reload, and a thumbnail is queued. Parsing a multipart body is the
    HTTP framework's (class [Multipart]) and the custom data of a layer the USD
    library's (class [LayerInfo]). The exceptions of this file are those two:
    every other call reports its errors. *)
From stdpp Require Import pretty.
From S2P Require Import Prelude Filesystem PathFacts DiskFacts Locator Environment Http ThumbnailWorker.
From S2P Require Import Proto Usd Session Handlers Manager ToyWorld.

Module Uploads.
Import Str Path Disk Locator Http Manager PathFacts DiskFacts.
Local Open Scope string_scope.
Local Open Scope list_scope.
Local Open Scope Z_scope.

(** ** The parts of a multipart body *)

(** [content_disposition]: the parameters of that header, if there is one. *)
Record part := mkPart { content_disposition : option (list (string * string)); part_body : string }.

(** The parsed message by part name (a missing part reads as an empty one), or
    what the parser throws. *)
Class Multipart := multipart_message : request -> (string -> part) + string.

(** The string-valued custom data of a layer; no layer; or what is thrown. *)
Class LayerInfo := layer_data : string -> Disk -> option (gmap string string) + string.

Definition UploadMaxBytes (env : Environment.environment) : Z :=
  let default_max := 500 * 1024 * 1024 in
  match env !! "IDTX_UPLOAD_MAX_BYTES" with
  | Some v => default default_max (Text.stoull v)
  | None => default_max
  end.

Definition ParseBool (s : string) (fallback : bool) : bool :=
  if is_empty s then fallback
  else
    let lower := Text.lower s in
    bool_decide (lower = "1") || bool_decide (lower = "true") || bool_decide (lower = "yes")
    || bool_decide (lower = "on").

Definition FieldBody (msg : string -> part) (name : string) : string := part_body (msg name).

Definition ExtractPartFilename (p : part) : string :=
  match content_disposition p with
  | None => ""
  | Some params => default "" ((list_to_map params : gmap string string) !! "filename")
  end.

(** ** The response to an upload *)

Inductive ThumbnailStatus := Queued | Generated | Skipped | Failed.

Definition status_string (s : ThumbnailStatus) : string :=
  match s with
  | Queued => "queued" | Generated => "generated" | Skipped => "skipped" | Failed => "failed"
  end.

Record ThumbnailInfo := mkThumbnailInfo { thumb_status : ThumbnailStatus; thumb_path : string; thumb_error : string }.

Record UploadResponse := mkUploadResponse {
  filepath : string;
  resp_filename : string;
  directory : string;
  size : Z;
  thumbnail : ThumbnailInfo }.

Definition ThumbnailInfo_json (t : ThumbnailInfo) : json :=
  JObject [("status", JString (status_string (thumb_status t))); ("path", JString (thumb_path t));
           ("error", JString (thumb_error t))].

Definition UploadResponse_json (r : UploadResponse) : json :=
  JObject [("filepath", JString (filepath r)); ("filename", JString (resp_filename r));
           ("directory", JString (directory r)); ("size", JNumber (size r));
           ("thumbnail", ThumbnailInfo_json (thumbnail r))].

Section uploads.
Context `{U : Usd} `{IO : IoErrors} `{SW : ShortWrites} `{JT : JsonText} `{MP : Multipart} `{LI : LayerInfo}.

(** The disk is the one the manager works on; [manager_alive] is whether the
    weak reference to the manager can be locked. A thumbnail worker comes with
    the extension of its pictures. *)
Record FileServingController := mkController {
  m_locator_ : option UsdFileLocator;
  m_thumbnails_ : option (ThumbnailWorker.ThumbnailWorker * string);
  manager : Manager;
  manager_alive : bool }.

Definition set_manager (m : Manager) (c : FileServingController) : FileServingController :=
  mkController (m_locator_ c) (m_thumbnails_ c) m (manager_alive c).

Definition set_thumbnails v (c : FileServingController) : FileServingController :=
  mkController (m_locator_ c) v (manager c) (manager_alive c).

Definition disk (c : FileServingController) : Disk := m_disk (manager c).

Definition set_disk (d : Disk) (c : FileServingController) : FileServingController :=
  set_manager (set_m_disk d (manager c)) c.

(** [Locator()]: created on first use. *)
Definition the_locator (c : FileServingController) : UsdFileLocator := default default_locator (m_locator_ c).

Definition with_locator (c : FileServingController) : FileServingController :=
  mkController (Some (the_locator c)) (m_thumbnails_ c) (manager c) (manager_alive c).

(** ** Reading the request *)

Record upload := mkUpload { content : string; up_filename : string; target_dir : string; overwrite : bool }.

Definition parse_upload (env : Environment.environment) (req : request) : upload + response :=
  if UploadMaxBytes env <? body_size req
  then inr (make_error 413 "payload_too_large" "Upload exceeds the configured size limit.")
  else
    match multipart_message req with
    | inr what => inr (make_error 400 "invalid_request" ("Malformed upload: " +:+ what))
    | inl msg =>
        let file_part := msg "file" in
        if is_empty (part_body file_part)
        then inr (make_error 400 "invalid_request" "Missing or empty 'file' part.")
        else
          let filename := FieldBody msg "filename" in
          let filename := if is_empty filename then ExtractPartFilename file_part else filename in
          if is_empty filename then inr (make_error 400 "invalid_request" "No filename provided.")
          else inl (mkUpload (part_body file_part) filename (FieldBody msg "path")
                      (ParseBool (FieldBody msg "overwrite") false))
    end.

Definition target_error (s : Status) : response :=
  match s with
  | NotAUsdFile => make_error 400 "invalid_request" "Only .usd, .usda, .usdc and .usdz files may be uploaded."
  | InvalidEncoding => make_error 400 "invalid_request" "Path contains invalid percent-encoding."
  | OutsideRoot => make_error 403 "forbidden_path" "Resolved path is outside the uploads root."
  | _ => make_error 400 "invalid_request" ("Invalid path: " +:+ StatusToString s)
  end.

Definition directory_error (s : Status) : response :=
  if bool_decide (s = PermissionDenied)
  then make_error 500 "internal_error"
         "Upload target directory is not writable by the server. This is a server configuration issue."
  else make_error 500 "internal_error" "Failed to prepare target directory.".

(** ** Writing the file *)

Definition part_path (full : string) : string := full +:+ ".part".

(** [None] if the file is in place. *)
Definition write_upload (full content : string) (d : Disk) : Disk * option response :=
  let tmp := part_path full in
  match stream_file tmp content d with
  | (d, NotOpened) => (d, Some (make_error 500 "internal_error" "Failed to open target file for writing."))
  | (d, Opened false) =>
      (fst (remove tmp d), Some (make_error 500 "internal_error" "Failed to write file bytes."))
  | (d, Opened true) =>
      match rename tmp full d with
      | (d, None) => (d, None)
      | (d, Some ec) =>
          (fst (remove tmp d),
           Some (make_error 500 "internal_error" ("Failed to finalise uploaded file: " +:+ error_message ec)))
      end
  end.

Definition reload_sessions (existed : bool) (u : upload) (relative : string) (c : FileServingController) :
    FileServingController :=
  if existed && overwrite u && manager_alive c then set_manager (fst (submit_reloads relative (manager c))) c
  else c.

Definition queue_thumbnail (full relative : string) (c : FileServingController) :
    FileServingController * ThumbnailInfo :=
  match m_thumbnails_ c with
  | None => (c, mkThumbnailInfo Skipped "" "")
  | Some (worker, ext) =>
      let thumbs_dir := join (parent_path full) "thumbs" in
      let name := stem relative +:+ ext in
      let '(d, s) := EnsureDirectoryInsideRoot (the_locator c) thumbs_dir (disk c) in
      let c := set_disk d c in
      if bool_decide (s = Ok)
      then (set_thumbnails (Some (ThumbnailWorker.Submit (ThumbnailWorker.mkJob full (join thumbs_dir name)) worker, ext)) c,
            mkThumbnailInfo Queued (join (join (parent_path relative) "thumbs") name) "")
      else (c, mkThumbnailInfo Failed "" "Failed to prepare thumbs directory.")
  end.

Definition file_size (p : string) (d : Disk) : option Z :=
  match canonical d p with
  | inl loc =>
      match node_at d loc, io_error "stat" loc d with
      | Some (File s), None => Some (Z.of_nat (String.length s))
      | _, _ => None
      end
  | inr _ => None
  end.

Definition upload_response (u : upload) (full relative : string) (t : ThumbnailInfo) (d : Disk) : response :=
  let resp := mkUploadResponse relative (filename relative) (parent_path relative)
                (default (Z.of_nat (String.length (content u))) (file_size full d)) t in
  set_header "Location" ("/api/v1/download/" +:+ filepath resp)
    (set_header "Content-Type" "application/json" (mkResponse 201 [] (dump (UploadResponse_json resp)))).

Definition UploadFile (env : Environment.environment) (req : request) (c : FileServingController) :
    FileServingController * response :=
  match parse_upload env req with
  | inr res => (c, res)
  | inl u =>
      let c := with_locator c in
      match ValidateUploadTarget (the_locator c) (target_dir u) (up_filename u) with
      | (Ok, Some (full, relative)) =>
          let existed := exists_ (disk c) full in
          if existed && negb (overwrite u)
          then (c, make_error 409 "conflict"
                     "A file with the same name already exists. Set 'overwrite=true' to replace it.")
          else
            let '(d, s) := EnsureDirectoryInsideRoot (the_locator c) (parent_path full) (disk c) in
            let c := set_disk d c in
            if negb (bool_decide (s = Ok)) then (c, directory_error s)
            else
              match write_upload full (content u) d with
              | (d, Some res) => (set_disk d c, res)
              | (d, None) =>
                  let c := reload_sessions existed u relative (set_disk d c) in
                  let '(c, t) := queue_thumbnail full relative c in
                  (c, upload_response u full relative t (disk c))
              end
      | (s, _) => (c, target_error s)
      end
  end.

(** ** Downloads *)

(** An [ifstream] read to its end; a file that cannot be read is empty. *)
Definition stream_read (p : string) (d : Disk) : string :=
  match canonical d p with
  | inl loc => match node_at d loc, io_error "read" loc d with Some (File s), None => s | _, _ => "" end
  | inr _ => ""
  end.

Definition is_regular_file (p : string) (d : Disk) : bool :=
  match canonical d p with
  | inl loc => match node_at d loc with Some (File _) => true | _ => false end
  | inr _ => false
  end.

Definition FileExists (filepath : string) (c : FileServingController) : FileServingController * response :=
  let c := with_locator c in
  (c, match Resolve (the_locator c) filepath (disk c) with
      | (Ok, Some resolved) =>
          match layer_data resolved (disk c) with
          | inr what => set_header "USD-ERROR" what (mkResponse 500 [] "")
          | inl None => set_header "USD-ERROR" "Unable to access usd file" (mkResponse 405 [] "")
          | inl (Some data) =>
              let res := mkResponse 200 [] "" in
              let res := match data !! "Timestamp" with Some v => set_header "USD-Timestamp" v res | None => res end in
              match data !! "Version" with Some v => set_header "USD-Version" v res | None => res end
          end
      | _ => set_header "USD-ERROR" "File not found" (mkResponse 404 [] "")
      end).

Definition ServeFile (filepath : string) (c : FileServingController) : FileServingController * response :=
  let c := with_locator c in
  (c, match Resolve (the_locator c) filepath (disk c) with
      | (Ok, Some resolved) =>
          set_header "Content-Disposition" ("attachment; filename=" +:+ filename resolved)
            (set_header "Content-Type" "application/octet-stream"
               (mkResponse 200 [] (stream_read resolved (disk c))))
      | _ => mkResponse 404 [] "File not found"
      end).

(** ** Thumbnails *)

Definition thumbnail_extension (c : FileServingController) : string :=
  match m_thumbnails_ c with Some (_, ext) => ext | None => ".png" end.

(** The status, and on [Ok] the full and the relative path. [None] is the use of
    a locator that was never created. *)
Definition ResolveThumbnailPath (usd_filepath : string) (c : FileServingController) :
    option (Status * option (string * string)) :=
  let '(s, decoded) := ValidatePath usd_filepath in
  l ← m_locator_ c;
  Some (
    if negb (bool_decide (s = Ok)) then (s, None)
    else if negb (IsUsdFilename (filename decoded)) then (NotAUsdFile, None)
    else
      let relative := join (join (parent_path decoded) "thumbs") (stem decoded +:+ thumbnail_extension c) in
      let candidate := normal_components (join (GetRoot l) relative) in
      if negb (is_prefix (normal_components (GetRoot l)) candidate) then (OutsideRoot, None)
      else if existsb (fun part => String.eqb part "..") (components relative) then (OutsideRoot, None)
      else (Ok, Some (lexically_normal (join (GetRoot l) relative), relative))).

Definition ThumbnailExists (usd_filepath : string) (c : FileServingController) : option response :=
  r ← ResolveThumbnailPath usd_filepath c;
  Some (match r with
        | (Ok, Some (full, _)) =>
            if negb (exists_ (disk c) full) || negb (is_regular_file full (disk c)) then mkResponse 404 [] ""
            else mkResponse 200 [] ""
        | _ => mkResponse 404 [] ""
        end).

Definition image_type (ext : string) : string :=
  if bool_decide (ext = ".png") then "image/png"
  else if bool_decide (ext = ".jpg") || bool_decide (ext = ".jpeg") then "image/jpeg"
  else "application/octet-stream".

Definition ServeThumbnail (usd_filepath : string) (c : FileServingController) : option response :=
  r ← ResolveThumbnailPath usd_filepath c;
  Some (match r with
        | (Ok, Some (full, _)) =>
            if negb (exists_ (disk c) full) || negb (is_regular_file full (disk c))
            then make_error 404 "not_found" "Thumbnail has not been generated yet."
            else
              set_header "Content-Disposition" ("inline; filename=" +:+ filename full)
                (set_header "Content-Type" (image_type (extension full))
                   (mkResponse 200 [] (stream_read full (disk c))))
        | _ => make_error 404 "not_found" "Thumbnail path resolution failed."
        end).

(** ** What an upload does to the disk *)

(** Whether a location has the name of a temporary file; no link has one. *)
Definition part_name (loc : list string) : bool :=
  match last loc with Some n => ends_with ".part" n | None => false end.

Definition plain_parts (d : Disk) : Prop :=
  forall loc t, node_at d loc = Some (Symlink t) -> part_name loc = false.

Lemma part_name_snoc dir n : part_name (dir ++ [n +:+ ".part"]%string) = true.
Proof. unfold part_name. rewrite last_snoc. apply ends_with_app. Qed.

Lemma plain_parts_new d d' : only_new_directories d d' -> plain_parts d -> plain_parts d'.
Proof.
  intros [_ Ho] Hp loc t Hn. destruct (Ho loc) as [He|[_ He]]; [|congruence]. apply (Hp loc t). congruence.
Qed.

(** The temporary file is next to the target. *)
Lemma part_location d full loc :
  location d (part_path full) = inl loc ->
  exists dir, loc = dir ++ [filename full +:+ ".part"]%string /\ location d full = inl (dir ++ [filename full]).
Proof.
  unfold location, part_path. rewrite parent_plain, filename_plain by done.
  assert (start_of d (full +:+ ".part")%string = start_of d full) as ->.
  { unfold start_of. destruct full as [|x full]; [done|]. unfold is_absolute, starts_with.
    by rewrite append_cons, !prefix_slash. }
  destruct (resolve _ _ _ _) as [dir|]; [|done]. intros [= <-]. by exists dir.
Qed.

Lemma regular_part full : regular_name (filename (part_path full)).
Proof.
  unfold part_path. rewrite filename_plain by done.
  assert (Hl : (5 <= String.length (filename full +:+ ".part"))%nat)
    by (rewrite length_app_string; cbn [String.length]; lia).
  split_and!; intros Hf; rewrite Hf in Hl; cbn [String.length] in Hl; lia.
Qed.

(** What reaches the disk of a text: all of it, unless the device falls short. *)
Definition stored (p text : string) (d : Disk) : string :=
  match short_write p text d with None => text | Some (n, _) => take_string n text end.

Lemma stream_file_cases p text d d' st :
  stream_file p text d = (d', st) ->
  (d' = d /\ st = NotOpened) \/
  exists loc good, open_file p d = Some loc /\ d' = set_node loc (File (stored p text d)) d /\ st = Opened good.
Proof.
  unfold stream_file, stored. destruct (open_file p d) as [loc|]; [|intros [= <- <-]; by left].
  destruct (short_write p text d) as [[n noticed]|]; intros [= <- <-]; right; eauto.
Qed.

(** Where the temporary file is written, and that this leaves the directories
    as they were. *)
Lemma part_written d full text loc :
  plain_parts d -> open_file (part_path full) d = Some loc ->
  let d1 := set_node loc (File text) d in
  exists dir, loc = dir ++ [filename full +:+ ".part"]%string /\ part_name loc = true /\
    location d full = inl (dir ++ [filename full]) /\ location d1 full = inl (dir ++ [filename full]) /\
    location d1 (part_path full) = inl loc /\
    (node_at d loc = None \/ exists s, node_at d loc = Some (File s)).
Proof.
  intros Hp Hopen d1.
  assert (Hno : forall l t, location d (part_path full) = inl l -> node_at d l <> Some (Symlink t)).
  { intros l t Hl Hn. apply part_location in Hl as (dir & -> & _). apply Hp in Hn.
    by rewrite part_name_snoc in Hn. }
  destruct (open_file_location _ _ _ (regular_part full) Hno Hopen) as [Hloc Hdir].
  destruct (part_location _ _ _ Hloc) as (dir & -> & Hfull). exists dir.
  assert (Hs : same_shape d d1).
  { apply same_shape_write; [by destruct dir|]. intros [s| |t] Hn; [by eexists|done|by apply (Hno _ t) in Hloc]. }
  split_and!; [reflexivity|apply part_name_snoc|exact Hfull|by eapply location_same_shape..|].
  destruct (node_at d _) as [[s| |t]|] eqn:Hn; [by eauto|done|by apply Hno in Hn|by left].
Qed.

(** The file is in place only if everything went well; otherwise no entry but the
    temporary one changed. *)
Record written (full text : string) (d d' : Disk) (r : option response) (dir : list string) : Prop := {
  written_target : location d full = inl (dir ++ [filename full]);
  written_cwd : cwd d' = cwd d;
  written_part : node_at d (dir ++ [filename full +:+ ".part"]%string) = None \/
    exists s, node_at d (dir ++ [filename full +:+ ".part"]%string) = Some (File s);
  written_frame : forall loc, loc <> dir ++ [filename full +:+ ".part"]%string ->
    (r = None -> loc <> dir ++ [filename full]) -> node_at d' loc = node_at d loc;
  written_file : r = None ->
    node_at d (dir ++ [filename full]) <> Some Directory /\
    node_at d' (dir ++ [filename full]) = Some (File (stored (part_path full) text d)) /\
    node_at d' (dir ++ [filename full +:+ ".part"]%string) = None }.

Lemma part_differs dir full : dir ++ [filename full +:+ ".part"]%string <> dir ++ [filename full].
Proof.
  intros [_ He]%app_inj_tail. apply (f_equal String.length) in He.
  rewrite length_app_string in He. cbn [String.length] in He. lia.
Qed.

Lemma write_upload_disk full text d d' r :
  plain_parts d -> write_upload full text d = (d', r) ->
  (is_Some r /\ d' = d) \/ exists dir, written full text d d' r dir.
Proof.
  intros Hp. unfold write_upload. destruct (stream_file _ _ _) as [d1 st] eqn:Hs.
  apply stream_file_cases in Hs as [[-> ->]|(lt & good & Hopen & -> & ->)]; [intros [= <- <-]; left; by eauto|].
  intros Hw. right. destruct (part_written d full (stored (part_path full) text d) lt Hp Hopen)
    as (dir & Hlt & Hpart & Hfull & Hfull1 & Htmp1 & Hold).
  exists dir. pose proof (part_differs dir full) as Hdiff. rewrite <- Hlt in Hdiff.
  set (d1 := set_node lt _ d) in *. assert (Hne : lt <> []) by by subst lt; destruct dir.
  assert (Hlt1 : node_at d1 lt = Some (File (stored (part_path full) text d))).
  { subst d1. rewrite node_at_set by done. by rewrite decide_True. }
  assert (Hkeep : forall loc, loc <> lt -> node_at d1 loc = node_at d loc).
  { intros loc Hloc. subst d1. rewrite node_at_set by done. by rewrite decide_False. }
  assert (Hfail : forall d2 res, d2 = fst (remove (part_path full) d1) -> written full text d d2 (Some res) dir).
  { intros d2 res ->. split; [exact Hfull|by rewrite remove_cwd|by rewrite <- Hlt| |done].
    intros loc Hloc _. rewrite <- Hlt in Hloc. rewrite remove_keeps by (rewrite Htmp1; congruence). by apply Hkeep. }
  destruct good; [|injection Hw as <- <-; by apply Hfail].
  destruct (rename _ _ _) as [d2 r2] eqn:Hr.
  destruct (rename_file _ _ _ _ _ _ _ _ Hr Htmp1 Hfull1 Hdiff Hlt1) as [[[ec ->] ->]|(-> & Hnd & ->)];
    injection Hw as <- <-; [by apply Hfail|].
  rewrite Hkeep in Hnd by done. split; [exact Hfull|done|by rewrite <- Hlt|..].
  - intros loc Hloc Hnot. rewrite <- Hlt in Hloc. specialize (Hnot eq_refl).
    rewrite node_at_set, node_at_delete by (done || by destruct dir). rewrite !decide_False by done. by apply Hkeep.
  - intros _. split; [done|]. rewrite <- Hlt, !node_at_set, !node_at_delete by (done || by destruct dir).
    by rewrite decide_True, decide_False, decide_True.
Qed.

Lemma prepared_directory_new l dir d : only_new_directories d (fst (EnsureDirectoryInsideRoot l dir d)).
Proof.
  unfold EnsureDirectoryInsideRoot. pose proof (create_directories_new dir d) as Hc.
  destruct (create_directories dir d) as [d1 [ec|]]; [done|]. cbn [fst] in Hc.
  destruct (canonical d1 (m_root_ l)); [|done]. destruct (canonical d1 dir); [|done]. by destruct (negb _).
Qed.

Lemma reload_sessions_disk b u relative c : disk (reload_sessions b u relative c) = disk c.
Proof.
  unfold reload_sessions. destruct (_ && _); [|done]. unfold submit_reloads, disk.
  by destruct (Handlers.SubmitReloadSessionsCommand _ _ _ _).
Qed.

Lemma reload_sessions_locator b u relative c : the_locator (reload_sessions b u relative c) = the_locator c.
Proof. unfold reload_sessions. by destruct (b && overwrite u && manager_alive c). Qed.

Lemma queue_thumbnail_disk full relative c : only_new_directories (disk c) (disk (fst (queue_thumbnail full relative c))).
Proof.
  unfold queue_thumbnail. destruct (m_thumbnails_ c) as [[w ext]|]; [|done].
  pose proof (prepared_directory_new (the_locator c) (join (parent_path full) "thumbs") (disk c)) as Hn.
  destruct (EnsureDirectoryInsideRoot _ _ _) as [d s]. by destruct (bool_decide (s = Ok)).
Qed.

Lemma queue_thumbnail_locator full relative c : the_locator (fst (queue_thumbnail full relative c)) = the_locator c.
Proof.
  unfold queue_thumbnail. destruct (m_thumbnails_ c) as [[w ext]|]; [|done].
  destruct (EnsureDirectoryInsideRoot _ _ _) as [d s]. by destruct (bool_decide (s = Ok)).
Qed.

(** The two ways an upload ends. *)
Definition refused (c c' : FileServingController) (res : response) : Prop :=
  Http.code res <> 201 /\ m_thumbnails_ c' = m_thumbnails_ c /\
  manager c' = set_m_disk (disk c') (manager c) /\
  exists d1, only_new_directories (disk c) d1 /\
    (disk c' = d1 \/ exists full text r, write_upload full text d1 = (disk c', Some r)).

Definition accepted (env : Environment.environment) (req : request) (c c' : FileServingController)
    (res : response) (u : upload) (full relative : string) (d1 d2 : Disk) : Prop :=
  parse_upload env req = inl u /\
  ValidateUploadTarget (the_locator c) (target_dir u) (up_filename u) = (Ok, Some (full, relative)) /\
  (exists_ (disk c) full = true -> overwrite u = true) /\
  EnsureDirectoryInsideRoot (the_locator c) (parent_path full) (disk c) = (d1, Ok) /\
  write_upload full (content u) d1 = (d2, None) /\
  only_new_directories d2 (disk c') /\
  the_locator c' = the_locator c /\ exists t, res = upload_response u full relative t (disk c').

Lemma set_same_disk (m : Manager) : set_m_disk (m_disk m) m = m.
Proof. by destruct m. Qed.

Lemma refused_early c c' res :
  Http.code res <> 201 -> m_thumbnails_ c' = m_thumbnails_ c -> manager c' = manager c -> refused c c' res.
Proof.
  intros Hc Ht Hm. split_and!; [done..|unfold disk; rewrite Hm, set_same_disk; done|].
  exists (disk c'). split; [unfold disk; by rewrite Hm|by left].
Qed.

Lemma write_upload_refused full text d d' res : write_upload full text d = (d', Some res) -> Http.code res = 500.
Proof.
  unfold write_upload. destruct (stream_file _ _ _) as [d1 [|[]]]; [by intros [= _ <-]| |by intros [= _ <-]].
  destruct (rename _ _ _) as [d2 [ec|]]; [by intros [= _ <-]|done].
Qed.

Lemma parse_upload_refused env req res : parse_upload env req = inr res -> Http.code res <> 201.
Proof.
  unfold parse_upload. destruct (_ <? _); [by intros [= <-]|].
  destruct (multipart_message req) as [msg|]; [|by intros [= <-]]. cbv zeta.
  destruct (is_empty (part_body (msg "file"))); [by intros [= <-]|].
  destruct (is_empty (if is_empty _ then _ else _)); [by intros [= <-]|done].
Qed.

Lemma target_error_code s : Http.code (target_error s) <> 201.
Proof. by destruct s. Qed.

Lemma upload_cases env req c c' res :
  UploadFile env req c = (c', res) ->
  refused c c' res \/ Http.code res = 201 /\ exists u full relative d1 d2, accepted env req c c' res u full relative d1 d2.
Proof.
  unfold UploadFile. destruct (parse_upload env req) as [u|r] eqn:Hu.
  2: { intros [= <- <-]. left. apply parse_upload_refused in Hu. by apply refused_early. }
  cbv zeta. change (the_locator (with_locator c)) with (the_locator c).
  change (disk (with_locator c)) with (disk c).
  destruct (ValidateUploadTarget _ _ _) as [s [[full relative]|]] eqn:Hv.
  2: { intros Hr. left. pose proof (target_error_code s). apply refused_early; destruct s; by simplify_eq. }
  destruct s; try (intros [= <- <-]; left; by apply refused_early).
  destruct (exists_ (disk c) full && negb (overwrite u)) eqn:Hex; [intros [= <- <-]; left; by apply refused_early|].
  pose proof (prepared_directory_new (the_locator c) (parent_path full) (disk c)) as Hnew.
  destruct (EnsureDirectoryInsideRoot _ _ _) as [d1 s] eqn:He. cbn [fst] in Hnew.
  destruct (bool_decide (s = Ok)) eqn:Hs; cbn [negb].
  2: { intros [= <- <-]. left. split_and!; try done; [by destruct s|].
       exists d1. split; [done|by left]. }
  apply bool_decide_eq_true in Hs as ->.
  destruct (write_upload full (content u) d1) as [d2 [r|]] eqn:Hw.
  - intros [= <- <-]. left. split_and!; try done; [by rewrite (write_upload_refused _ _ _ _ _ Hw)|].
    exists d1. split; [done|right]. by eauto.
  - destruct (queue_thumbnail _ _ _) as [c2 t] eqn:Hq. intros [= <- <-]. right. split; [done|].
    exists u, full, relative, d1, d2. split_and!; try done.
    + intros Hexists. rewrite Hexists in Hex. by destruct (overwrite u).
    + etrans; [|eapply (f_equal fst) in Hq; cbn [fst] in Hq; rewrite <- Hq; apply queue_thumbnail_disk].
      by rewrite reload_sessions_disk.
    + pose proof (queue_thumbnail_locator full relative (reload_sessions (exists_ (disk c) full) u relative
        (set_disk d2 (set_disk d1 (with_locator c))))) as Hl. rewrite Hq in Hl. cbn [fst] in Hl. rewrite Hl.
      by rewrite reload_sessions_locator.
    + by exists t.
Qed.


(** An accepted upload is one file inside the uploads root. With the answer
    201 the text of the [file] part, as much of it as the device took, is at the
    entry the validated target has in a directory that is canonically below the
    root; the temporary file is gone, every other file, link and directory is
    unchanged, and an existing file was only replaced if the request said so. *)
Theorem accepted_upload_is_stored env req c c' res :
  plain_parts (disk c) -> UploadFile env req c = (c', res) -> Http.code res = 201 ->
  exists u full relative d1 root dir,
    parse_upload env req = inl u /\
    ValidateUploadTarget (the_locator c) (target_dir u) (up_filename u) = (Ok, Some (full, relative)) /\
    (exists_ (disk c) full = true -> overwrite u = true) /\
    only_new_directories (disk c) d1 /\
    canonical d1 (m_root_ (the_locator c)) = inl root /\ canonical d1 (parent_path full) = inl dir /\
    root `prefix_of` dir /\
    node_at (disk c') (dir ++ [filename full]) = Some (File (stored (part_path full) (content u) d1)) /\
    (node_at (disk c') (dir ++ [filename full +:+ ".part"]%string) = None \/
     node_at (disk c') (dir ++ [filename full +:+ ".part"]%string) = Some Directory) /\
    forall loc, loc <> dir ++ [filename full] -> loc <> dir ++ [filename full +:+ ".part"]%string ->
      is_Some (node_at (disk c) loc) -> node_at (disk c') loc = node_at (disk c) loc.
Proof.
  intros Hp [[? _]|[_ (u & full & relative & d1 & d2 & Hu & Hv & Hover & He & Hw & Hnew2 & _)]]%upload_cases Hc; [done|].
  pose proof (prepared_directory_new (the_locator c) (parent_path full) (disk c)) as Hnew. rewrite He in Hnew.
  cbn [fst] in Hnew. apply ensured_directory_inside_root in He as (root & dir & Hroot & Hdir & Hpre).
  pose proof (location_in_parent _ _ _ Hdir) as Hfull.
  apply write_upload_disk in Hw as [[[] _]|[dir' Hw]]; [done| |by eapply plain_parts_new].
  pose proof (written_target _ _ _ _ _ _ Hw) as Hloc. rewrite Hfull in Hloc. injection Hloc as Hloc.
  apply app_inj_tail in Hloc as [<- _]. destruct (written_file _ _ _ _ _ _ Hw eq_refl) as (_ & Hfile & Hpart).
  exists u, full, relative, d1, root, dir.
  split_and!; [exact Hu|exact Hv|exact Hover|exact Hnew|exact Hroot|exact Hdir|exact Hpre|..].
  - by eapply only_new_keeps.
  - destruct (proj2 Hnew2 (dir ++ [filename full +:+ ".part"]%string)) as [Hs|[_ Hs]]; rewrite Hs; [left|right]; done.
  - intros loc Hne Hnp [n Hn]. rewrite Hn. eapply only_new_keeps; [exact Hnew2|].
    rewrite (written_frame _ _ _ _ _ _ Hw); [by eapply only_new_keeps|exact Hnp|done].
Qed.

(** ** What was uploaded can be downloaded *)

Definition usd_name (loc : list string) : bool :=
  match last loc with Some n => IsUsdFilename n | None => false end.

(** The disk of a server in operation: the root and the working directory are
    directories, the root is configured without [..], and no symbolic link is
    called like a USD file or a temporary file. *)
Record serving (c : FileServingController) (root : list string) : Prop := {
  serving_root : canonical (disk c) (m_root_ (the_locator c)) = inl root;
  serving_root_directory : node_at (disk c) root = Some Directory;
  serving_cwd : node_at (disk c) (cwd (disk c)) = Some Directory;
  serving_plain_root : ".." ∉ names (m_root_ (the_locator c));
  serving_parts : plain_parts (disk c);
  serving_links : forall loc t, node_at (disk c) loc = Some (Symlink t) -> usd_name loc = false }.

(** The path a download builds from the relative path leads to the file at the
    entry of the full path. *)
Lemma download_path l dir name full relative d :
  m_root_ l <> "" -> (".." ∉ names (m_root_ l)) ->
  ValidateUploadTarget l dir name = (Ok, Some (full, relative)) ->
  canonical d (join (m_root_ l) relative) = canonical d full /\
  filename (join (m_root_ l) relative) = filename relative /\ filename full = filename relative.
Proof.
  intros Hl Hroot Hv. destruct (accepted_target_path _ _ _ _ _ Hv) as (_ & _ & Habs & _ & Hf & Hno & ->).
  pose proof (filename_join_last (m_root_ l) relative Hl Habs) as Hname.
  set (p := join (m_root_ l) relative) in *. assert (Hne : filename p <> "") by (rewrite Hname; apply Hf).
  pose proof (names_of_parent p Hne) as Hp.
  assert (Hdots : ".." ∉ names_of (parent_path p)).
  { intros Hin. assert (Hall : ".." ∈ names_of p) by (rewrite Hp; apply elem_of_app; by left).
    rewrite names_of_plain in Hall by by apply filename_no_slash. unfold p in Hall.
    rewrite names_join in Hall by done. by apply elem_of_app in Hall as [?|?]. }
  assert (Hfp : regular_name (filename p)) by by rewrite Hname.
  destruct (names_normal p _ _ Hp Hdots Hfp) as (_ & Hfull & _). rewrite Hfull.
  split_and!; [|done..]. symmetry. by eapply canonical_normal.
Qed.

Lemma prepared_directory l dir d d' loc :
  node_at d (cwd d) = Some Directory -> EnsureDirectoryInsideRoot l dir d = (d', Ok) ->
  canonical d' dir = inl loc -> node_at d' loc = Some Directory.
Proof.
  intros Hcwd. unfold EnsureDirectoryInsideRoot. destruct (create_directories dir d) as [d1 [ec|]] eqn:Hc.
  { intros [= _ He]. unfold ClassifyFilesystemError in He. by destruct (_ || _). }
  destruct (canonical d1 (m_root_ l)); [|intros [= -> _]; by eapply created_directory].
  destruct (canonical d1 dir); [|intros [= -> _]; by eapply created_directory].
  destruct (negb _); intros [= <-]; by eapply created_directory.
Qed.

Lemma take_string_prefix n s : exists rest, s = (take_string n s +:+ rest)%string.
Proof.
  revert s. induction n as [|n IH]; intros s; [by exists s|]. destruct s as [|ch s]; [by exists ""|].
  destruct (IH s) as [rest Hr]. exists rest. cbn. by rewrite Hr at 1.
Qed.

Lemma stored_prefix p s d : exists rest, s = (stored p s d +:+ rest)%string.
Proof.
  unfold stored. destruct (short_write p s d) as [[n b]|]; [apply take_string_prefix|].
  exists "". induction s as [|ch s IH]; [done|]. by change (String ch s = String ch (s +:+ "")); f_equal.
Qed.

(** C35. An uploaded file can be downloaded. Take a server in operation
    ([serving]: its uploads directory exists and is configured without [..], and
    no symbolic link is called like a USD or a [.part] file) whose device
    returns what it stores. If an upload is answered with 201, then a download of
    the path in the [Location] header of the answer is answered with 200 and the
    uploaded text, byte for byte when the device took all of it. When a write fell
    short only as the stream was closed, the code does not notice
    ([truncated_upload_is_accepted]), and the download has a prefix of the text. *)
Theorem uploaded_file_downloads env req c c' res root :
  serving c root -> m_root_ (the_locator c) <> "" -> (forall loc d, io_error "read" loc d = None) ->
  UploadFile env req c = (c', res) -> Http.code res = 201 ->
  exists u relative, parse_upload env req = inl u /\
    ("Location", "/api/v1/download/" +:+ relative) ∈ headers res /\
    let download := snd (ServeFile relative c') in
    Http.code download = 200 /\
    (exists rest, content u = (text download +:+ rest)%string) /\
    ((forall p d, short_write p (content u) d = None) -> text download = content u).
Proof.
  intros [Hroot Hrootdir Hcwd Hplain Hparts Hlinks] Hl Hread
    [[? _]|[_ (u & full & relative & d1 & d2 & Hu & Hv & _ & He & Hw & Hnew2 & Hloc' & t & Hres)]]%upload_cases Hc; [done|].
  exists u, relative. split; [done|]. split.
  { rewrite Hres. unfold upload_response, set_header. cbn [headers filepath]. apply elem_of_app. right. by left. }
  set (l := the_locator c) in *.
  pose proof (prepared_directory_new l (parent_path full) (disk c)) as Hnew. rewrite He in Hnew. cbn [fst] in Hnew.
  destruct (ensured_directory_inside_root _ _ _ _ He) as (root' & dir & Hroot1 & Hdir & Hpre).
  pose proof (resolve_new _ _ _ _ Hnew Hroot) as Hroot2. rewrite Hroot1 in Hroot2. injection Hroot2 as ->.
  pose proof (prepared_directory _ _ _ _ _ Hcwd He Hdir) as Hdirectory.
  pose proof (location_in_parent _ _ _ Hdir) as Hfull.
  apply write_upload_disk in Hw as [[[] _]|[dir' Hw]]; [done| |by eapply plain_parts_new].
  pose proof (written_target _ _ _ _ _ _ Hw) as Hloc. rewrite Hfull in Hloc. injection Hloc as Hloc.
  apply app_inj_tail in Hloc as [<- _]. destruct (written_file _ _ _ _ _ _ Hw eq_refl) as (Hnd & Hfile & _).
  destruct (download_path l _ _ _ _ (disk c') Hl Hplain Hv) as (Hcan & Hname & Hfn).
  destruct (accepted_target_path _ _ _ _ _ Hv) as (Hval & _ & _ & Husd & Hreg & _ & _).
  assert (Hkeep : forall loc n, node_at d1 loc = Some n -> (forall s, n <> File s) -> node_at (disk c') loc = Some n).
  { intros loc n Hn Hnf. eapply only_new_keeps; [exact Hnew2|]. rewrite <- Hn.
    apply (written_frame _ _ _ _ _ _ Hw).
    - intros ->. destruct (written_part _ _ _ _ _ _ Hw) as [Hp|[s Hp]]; rewrite Hp in Hn; [done|]. injection Hn as <-.
      by apply (Hnf s).
    - intros _ ->. destruct n as [s| |k]; [by apply (Hnf s)|done|].
      destruct (proj2 Hnew (dir ++ [filename full])) as [Hs|[_ Hs]]; [|congruence]. rewrite Hn in Hs.
      symmetry in Hs. apply Hlinks in Hs. unfold usd_name in Hs. rewrite last_snoc, Hfn in Hs. congruence. }
  assert (Hc' : cwd (disk c') = cwd d1) by (rewrite (proj1 Hnew2); by apply (written_cwd _ _ _ _ _ _ Hw)).
  assert (Hfile' : exists p d, node_at (disk c') (dir ++ [filename full]) = Some (File (stored p (content u) d))).
  { do 2 eexists. eapply only_new_keeps; [exact Hnew2|]. exact Hfile. }
  destruct Hfile' as (p & d & Hfile').
  assert (Hcanfull : canonical (disk c') full = inl (dir ++ [filename full])).
  { eapply canonical_entry; [|by apply Hkeep|by rewrite Hfn|exact Hfile'].
    by apply (canonical_directory d1). }
  assert (Hcanroot : canonical (disk c') (m_root_ l) = inl root).
  { apply (canonical_directory d1); [done..|]. by eapply only_new_keeps. }
  assert (Hresolve : Resolve l relative (disk c') = (Ok, Some (join (m_root_ l) relative))).
  { unfold Resolve. rewrite Hval. cbn [bool_decide negb decide]. rewrite Hcanroot, Hcan, Hcanfull.
    assert (is_prefix root (dir ++ [filename full]) = true) as -> by (apply is_prefix_spec; by apply prefix_app_r).
    unfold exists_. rewrite Hcan, Hcanfull, Hname, Husd. done. }
  unfold ServeFile. cbn [fst snd]. change (the_locator (with_locator c')) with (the_locator c').
  change (disk (with_locator c')) with (disk c'). rewrite Hloc', Hresolve. split; [done|].
  cbn [set_header text]. unfold stream_read. rewrite Hcan, Hcanfull, Hfile', Hread.
  split; [apply stored_prefix|]. intros Hshort. unfold stored. by rewrite Hshort.
Qed.

End uploads.
Arguments FileServingController {_}.

(** ** A concrete upload *)
Import ToyWorld.

#[local] Instance blank_json : JsonText :=
  {| dump := fun _ => "{}"; parse := fun _ => inr "no parser"; missing_field := fun n => n; wrong_type := fun n _ => n |}.
#[local] Instance no_short_write : ShortWrites := fun _ _ _ => None.
#[local] Instance no_layer : LayerInfo := fun _ _ => inl None.

(** The [file] part is the body of the request, the other fields are given. *)
Definition form (name dir over : string) : Multipart := fun req =>
  inl (fun field =>
    if bool_decide (field = "file") then mkPart (Some [("name", "file"); ("filename", name)]) (Http.body req)
    else if bool_decide (field = "path") then mkPart None dir
    else if bool_decide (field = "overwrite") then mkPart None over
    else mkPart None "").

Definition post (text : string) : request := mkRequest "POST" "/api/v1/upload" (fun _ => "") text "10.0.0.9".

Definition files : Disk :=
  mkDisk {[ ["srv"] := Directory; ["srv"; "uploads"] := Directory;
            ["srv"; "uploads"; "a.usda"] := File "old" ]} ["srv"].

Definition site : @FileServingController toy_usd :=
  mkController (Some (mkLocator "uploads" "sessions")) (Some (ThumbnailWorker.start, ".png"))
    (SessionManager (mkLocator "uploads" "sessions") 300 0 0 files) true.

Definition try_upload (m : Multipart) (text : string) :=
  UploadFile (MP := m) ∅ (post text) site.

Lemma links_check (f : list string -> bool) (d : Disk) :
  forallb (fun x => match x.2 with Symlink _ => negb (f x.1) | _ => true end) (map_to_list (nodes d)) = true ->
  forall loc t, node_at d loc = Some (Symlink t) -> f loc = false.
Proof.
  rewrite forallb_forall. intros Hf loc t Hn. destruct loc as [|w loc]; [done|].
  apply negb_true_iff, (Hf (w :: loc, Symlink t)), list_elem_of_In, elem_of_map_to_list, Hn.
Qed.

Lemma plain_files : plain_parts (disk site).
Proof. refine (links_check part_name (disk site) _). vm_compute. reflexivity. Qed.

Lemma site_serving : serving site ["srv"; "uploads"].
Proof.
  split; try (vm_compute; reflexivity); [|apply plain_files|refine (links_check usd_name (disk site) _); vm_compute; reflexivity].
  apply (bool_decide_unpack (".." ∉ names "uploads")). vm_compute. exact I.
Qed.


(** A new file in a new directory, next to the old one. *)
Lemma accepted_upload_is_stored_witness :
  exists c' res loc, try_upload (form "b.usda" "/sub%20dir" "") "text" = (c', res) /\ Http.code res = 201 /\
    ["srv"; "uploads"] `prefix_of` loc /\ node_at (disk c') loc = Some (File "text") /\
    node_at (disk c') ["srv"; "uploads"; "a.usda"] = Some (File "old").
Proof.
  assert (Hc : Http.code (snd (try_upload (form "b.usda" "/sub%20dir" "") "text")) = 201) by (vm_compute; reflexivity).
  destruct (try_upload (form "b.usda" "/sub%20dir" "") "text") as [c' res] eqn:Hu. cbn [fst snd] in *.
  destruct (accepted_upload_is_stored (MP := form "b.usda" "/sub%20dir" "") ∅ (post "text") site c' res plain_files Hu Hc)
    as (u & full & relative & d1 & root & dir & Hp & Hv & _ & Hnew & Hroot & Hdir & Hpre & Hfile & _ & Hkeep).
  exists c', res, (dir ++ [filename full]). split; [done|]. split; [done|].
  assert (Hr : canonical d1 "uploads" = inl ["srv"; "uploads"]).
  { apply (resolve_new (disk site)); [exact Hnew|vm_compute; reflexivity]. }
  injection (eq_trans (eq_sym Hroot) Hr) as ->. injection Hp as <-.
  injection Hv as <- <-. split_and!.
  - by apply prefix_app_r.
  - exact Hfile.
  - rewrite Hkeep; [vm_compute; reflexivity|..|vm_compute; by eexists];
      intros He; apply (f_equal last) in He; by rewrite last_snoc in He.
Defined.

Lemma uploaded_file_downloads_witness :
  exists c' res, try_upload (form "b.usda" "/sub%20dir" "") "text" = (c', res) /\ Http.code res = 201 /\
    exists relative, ("Location", "/api/v1/download/" +:+ relative) ∈ headers res /\
      Http.code (snd (ServeFile relative c')) = 200 /\ text (snd (ServeFile relative c')) = "text".
Proof.
  assert (Hc : Http.code (snd (try_upload (form "b.usda" "/sub%20dir" "") "text")) = 201) by (vm_compute; reflexivity).
  destruct (try_upload (form "b.usda" "/sub%20dir" "") "text") as [c' res] eqn:Hu. cbn [fst snd] in *.
  exists c', res. split; [done|]. split; [done|].
  destruct (uploaded_file_downloads (MP := form "b.usda" "/sub%20dir" "") ∅ (post "text") site c' res
    ["srv"; "uploads"] site_serving ltac:(discriminate) ltac:(reflexivity) Hu Hc)
    as (u & relative & Hp & Hloc & Hcode & _ & Htext).
  exists relative. split; [exact Hloc|]. split; [exact Hcode|]. rewrite Htext by reflexivity. by injection Hp as <-.
Defined.

(** A write that only falls short when the stream is closed goes unnoticed. *)
Example truncated_upload_is_accepted :
  let '(c', res) := UploadFile (SW := fun _ _ _ => Some (2%nat, false)) (MP := form "a.usda" "" "yes") ∅ (post "new text") site in
  Http.code res = 201 /\ node_at (disk c') ["srv"; "uploads"; "a.usda"] = Some (File "ne").
Proof. vm_compute. done. Qed.

End Uploads.
