(* ===== verification/Listing.v ===== *)
(** * The list of the uploaded files (source/controller/FileServingController.cpp)

    [GetFileList]: a walk over the uploads directory that collects the USD
    files. The order in which a directory is read and the time stamps of files
    are the file system's ([DirectoryOrder], [FileTimes]). *)
From S2P Require Import Prelude Filesystem PathFacts DiskFacts Locator Environment Http Manager Uploads.
From S2P Require Import Proto Usd Session ToyWorld.

Module Listing.
Import Str Path Disk Locator Http Manager PathFacts DiskFacts Uploads.
Local Open Scope string_scope.
Local Open Scope list_scope.
Local Open Scope Z_scope.

(** ** Reading directories *)

(** The names in a directory. *)
Definition children (loc : list string) (d : Disk) : list string :=
  omap (fun x => match last x.1 with
                 | Some w => if decide (x.1 = loc ++ [w]) then Some w else None
                 | None => None
                 end) (map_to_list (nodes d)).

Class DirectoryOrder := read_dir : list string -> Disk -> list string.

(** A directory is read in some order, each name once. *)
Class ReadsAll `{DirectoryOrder} : Prop := read_dir_perm : forall loc d, read_dir loc d ≡ₚ children loc d.

(** [last_write_time]; and the text of a [filesystem_error]. *)
Class FileTimes := {
  last_write_time : list string -> Disk -> Z + errc;
  filesystem_what : errc -> string }.

(** What an iterator over a tree meets. *)
Inductive item := Entry (path : string) | Error (e : errc).

Definition skip_permission_denied (e : errc) : list item :=
  if decide (e = permission_denied) then [] else [Error e].

(** No location is as long as this. *)
Definition height (d : Disk) : nat := S (foldr Nat.max 0%nat (length <$> (map_to_list (nodes d)).*1)).

(** [lexically_relative] of two canonical paths. *)
Fixpoint lexically_relative (loc base : list string) : list string :=
  match loc, base with
  | w :: loc', b :: base' => if bool_decide (w = b) then lexically_relative loc' base' else replicate (length base) ".." ++ loc
  | _, _ => replicate (length base) ".." ++ loc
  end.

(** [std::filesystem::relative] of two paths that exist. *)
Definition relative (p base : string) (d : Disk) : string + errc :=
  match canonical d p, canonical d base with
  | inl loc, inl b =>
      inl (match lexically_relative loc b with [] => "." | names => of_components names end)
  | inr e, _ | _, inr e => inr e
  end.

(** [entry.is_regular_file()]. *)
Definition entry_is_file (p : string) (d : Disk) : bool + errc :=
  match canonical d p with
  | inl loc => inl (match node_at d loc with Some (File _) => true | _ => false end)
  | inr no_such_file_or_directory | inr not_a_directory => inl false
  | inr e => inr e
  end.

Record listed := mkListed {
  list_filepath : string; list_filename : string; list_directory : string; list_size : Z; list_modified : Z }.

Definition listed_json (f : listed) : json :=
  JObject [("filepath", JString (list_filepath f)); ("filename", JString (list_filename f));
           ("directory", JString (list_directory f)); ("size", JNumber (list_size f));
           ("modified", JNumber (list_modified f))].

Section listing.
Context `{U : Usd} `{IO : IoErrors} `{JT : JsonText} `{DO : DirectoryOrder} `{FT : FileTimes}.

(** [recursive_directory_iterator]: every entry of the directory, a directory
    followed by its own entries; a link to a directory is not entered. *)
Fixpoint walk (fuel : nat) (d : Disk) (loc : list string) (path : string) : list item :=
  match fuel with
  | O => []
  | S fuel =>
      match io_error "readdir" loc d with
      | Some e => skip_permission_denied e
      | None =>
          read_dir loc d ≫= fun name =>
            Entry (join path name) ::
            match node_at d (loc ++ [name]) with
            | Some Directory => walk fuel d (loc ++ [name]) (join path name)
            | _ => []
            end
      end
  end.

Definition iterate (root : string) (d : Disk) : list item :=
  match canonical d root with
  | inr e => skip_permission_denied e
  | inl loc =>
      match node_at d loc with
      | Some Directory => walk (height d) d loc root
      | _ => [Error not_a_directory]
      end
  end.

(** [file_size]. *)
Definition size_of (p : string) (d : Disk) : Z + errc :=
  match canonical d p with
  | inr e => inr e
  | inl loc =>
      match node_at d loc, io_error "stat" loc d with
      | Some (File s), None => inl (Z.of_nat (String.length s))
      | _, Some e => inr e
      | _, None => inr is_a_directory
      end
  end.

Definition modified (p : string) (d : Disk) : Z + errc :=
  match canonical d p with inr e => inr e | inl loc => last_write_time loc d end.

Definition matches (name_filter ext_filter filename : string) : bool :=
  (is_empty name_filter || contains name_filter filename)
  && (is_empty ext_filter || ends_with ("." +:+ ext_filter) filename).

(** The body of the loop: what is added to the list. *)
Definition list_entry (root name_filter ext_filter path : string) (d : Disk) : option listed + errc :=
  match entry_is_file path d with
  | inr e => inr e
  | inl false => inl None
  | inl true =>
      if negb (IsUsdFilename (filename path)) then inl None
      else
        match relative path root d with
        | inr e => inr e
        | inl relative_path =>
            if negb (matches name_filter ext_filter (filename path)) then inl None
            else
              match size_of path d, modified path d with
              | inl size, inl time =>
                  inl (Some (mkListed relative_path (filename path) (parent_path relative_path) size time))
              | inr e, _ | _, inr e => inr e
              end
        end
  end.

(** The loop, up to the first exception. *)
Fixpoint list_entries (root name_filter ext_filter : string) (items : list item) (d : Disk) : list listed + errc :=
  match items with
  | [] => inl []
  | Error e :: _ => inr e
  | Entry path :: items =>
      match list_entry root name_filter ext_filter path d with
      | inr e => inr e
      | inl f =>
          match list_entries root name_filter ext_filter items d with
          | inl files => inl (from_option (fun f => [f]) [] f ++ files)
          | inr e => inr e
          end
      end
  end.

(** [url_params]: the parameters of the request's query. *)
Definition GetFileList (url_params : string -> option string) (c : FileServingController) :
    FileServingController * response :=
  let name_filter := default "" (url_params "name_contains") in
  let ext_filter := default "" (url_params "extension") in
  let c := with_locator c in
  let root := GetRoot (the_locator c) in
  (c, match list_entries root name_filter ext_filter (iterate root (disk c)) (disk c) with
      | inl files => mkResponse 200 [] (dump (JObject [("files", JArray (listed_json <$> files))]))
      | inr e => mkResponse 500 [] (dump (JObject [("error", JString (filesystem_what e))]))
      end).

(** ** The walk *)

(** [rel] leads from [loc] through directories to an entry. *)
Fixpoint reaches (d : Disk) (loc rel : list string) : Prop :=
  match rel with
  | [] => False
  | [w] => is_Some (node_at d (loc ++ [w]))
  | w :: rel => node_at d (loc ++ [w]) = Some Directory /\ reaches d (loc ++ [w]) rel
  end.

Lemma reaches_cons d loc w rel :
  reaches d loc (w :: rel) <->
  is_Some (node_at d (loc ++ [w])) /\ (rel = [] \/ node_at d (loc ++ [w]) = Some Directory /\ reaches d (loc ++ [w]) rel).
Proof.
  destruct rel as [|v rel]; [by cbn; naive_solver|]. split.
  - intros [Hd Hr]. rewrite Hd. split; [by eexists|by right].
  - by intros [_ [?|[? ?]]].
Qed.

Lemma reaches_node d loc rel : reaches d loc rel -> is_Some (node_at d (loc ++ rel)).
Proof.
  revert loc. induction rel as [|w rel IH]; intros loc; [done|]. intros [Hn [->|[_ Hr]]]%reaches_cons; [done|].
  apply IH in Hr. by rewrite <- app_assoc in Hr.
Qed.

(** Where the walk goes. *)
Fixpoint walk_names (fuel : nat) (d : Disk) (loc : list string) : list (list string) :=
  match fuel with
  | O => []
  | S fuel =>
      read_dir loc d ≫= fun name =>
        [name] ::
        match node_at d (loc ++ [name]) with
        | Some Directory => cons name <$> walk_names fuel d (loc ++ [name])
        | _ => []
        end
  end.

Definition path_of (root : string) (rel : list string) : string := foldl join root rel.

Lemma fmap_bind {A B C} (f : B -> C) (g : A -> list B) (l : list A) : f <$> (l ≫= g) = l ≫= (fun x => f <$> g x).
Proof. induction l as [|x l IH]; [done|]. cbn. by rewrite fmap_app, <- IH. Qed.

Lemma walk_eq fuel d loc path :
  (forall loc, io_error "readdir" loc d = None) ->
  walk fuel d loc path = (fun rel => Entry (path_of path rel)) <$> walk_names fuel d loc.
Proof.
  intros Hio. revert loc path. induction fuel as [|fuel IH]; intros loc path; [done|]. cbn [walk walk_names].
  rewrite Hio, fmap_bind. apply list_bind_ext; [|done]. intros name. cbn [fmap list_fmap]. f_equal.
  destruct (node_at d (loc ++ [name])) as [[]|]; try done. rewrite IH, <- list_fmap_compose. done.
Qed.

Lemma children_spec loc d w : w ∈ children loc d <-> is_Some (node_at d (loc ++ [w])).
Proof.
  assert (Hn : node_at d (loc ++ [w]) = nodes d !! (loc ++ [w])) by (unfold node_at; by destruct loc).
  rewrite Hn. unfold children. rewrite list_elem_of_omap. split.
  - intros ([k n] & Hin & Hw). cbn in Hw. apply elem_of_map_to_list in Hin.
    destruct (last k); [|done]. case_decide; [|done]. injection Hw as ->. subst k. by eexists.
  - intros [n Hk]. exists (loc ++ [w], n). cbn. rewrite last_snoc, decide_True by done. split; [|done].
    by apply elem_of_map_to_list.
Qed.

(** What a partial function keeps of a list without duplicates. *)
Lemma NoDup_omap {A B} (f : A -> option B) (l : list A) :
  (forall x y z, x ∈ l -> y ∈ l -> f x = Some z -> f y = Some z -> x = y) -> NoDup l -> NoDup (omap f l).
Proof.
  intros Hf Hl. induction Hl as [|x l Hx Hl IH]; [constructor|]. cbn.
  assert (Hrest : NoDup (omap f l)) by (apply IH; intros ?????; apply Hf; by right).
  destruct (f x) as [z|] eqn:Hz; [|done]. constructor; [|done]. intros (y & Hy & Hfy)%list_elem_of_omap.
  apply Hx. by rewrite (Hf x y z) by (by left || by right || done).
Qed.

Lemma children_NoDup loc d : NoDup (children loc d).
Proof.
  apply NoDup_omap; [|apply NoDup_map_to_list]. intros [k1 n1] [k2 n2] z H1%elem_of_map_to_list H2%elem_of_map_to_list. cbn.
  destruct (last k1); [|done]. case_decide; [|done]. intros [= ->]. destruct (last k2); [|done]. case_decide; [|done].
  intros [= ->]. subst. congruence.
Qed.

Context `{!ReadsAll}.

Lemma walk_names_spec fuel d loc rel :
  rel ∈ walk_names fuel d loc <-> reaches d loc rel /\ (length rel <= fuel)%nat.
Proof.
  revert loc rel. induction fuel as [|fuel IH]; intros loc rel; cbn [walk_names].
  { split; [by intros ?%elem_of_nil|]. intros [Hr Hl]. destruct rel; [done|cbn in Hl; lia]. }
  rewrite list_elem_of_bind. setoid_rewrite elem_of_cons. split.
  - intros (w & Hin & Hw). rewrite read_dir_perm, children_spec in Hw.
    destruct Hin as [->|Hin]; [split; [done|cbn; lia]|].
    destruct (node_at d (loc ++ [w])) as [[]|] eqn:Hd; try by apply elem_of_nil in Hin.
    apply list_elem_of_fmap in Hin as (rel' & -> & [Hr Hl]%IH). split; [|cbn; lia].
    apply reaches_cons. rewrite Hd. by auto.
  - intros [Hr Hl]. destruct rel as [|w rel]; [done|]. apply reaches_cons in Hr as [Hw Hr]. exists w.
    rewrite read_dir_perm, children_spec. split; [|done]. destruct Hr as [->|[Hd Hr]]; [by left|right].
    rewrite Hd. apply list_elem_of_fmap. exists rel. split; [done|]. apply IH. cbn in Hl. split; [done|lia].
Qed.

Lemma walk_names_NoDup fuel d loc : NoDup (walk_names fuel d loc).
Proof.
  revert loc. induction fuel as [|fuel IH]; intros loc; [constructor|]. cbn [walk_names].
  assert (Hhead : forall w y, y ∈ [w] :: (match node_at d (loc ++ [w]) with
    | Some Directory => cons w <$> walk_names fuel d (loc ++ [w]) | _ => [] end) -> head y = Some w).
  { intros w y [->|Hy]%elem_of_cons; [done|]. destruct (node_at d (loc ++ [w])) as [[]|]; try by apply elem_of_nil in Hy.
    by apply list_elem_of_fmap in Hy as (? & -> & _). }
  apply NoDup_bind.
  - intros w1 w2 y _ _ H1%Hhead H2%Hhead. congruence.
  - intros w _. constructor.
    + destruct (node_at d (loc ++ [w])) as [[]|]; try apply not_elem_of_nil.
      intros (rel & [= <-] & Hr)%list_elem_of_fmap. by apply walk_names_spec in Hr as [? _].
    + destruct (node_at d (loc ++ [w])) as [[]|]; try constructor. apply NoDup_fmap_2; [|apply IH]. by intros ?? [= ->].
  - rewrite read_dir_perm. apply children_NoDup.
Qed.

(** The fuel is enough. *)
Lemma reaches_length d loc rel : reaches d loc rel -> (length rel <= height d)%nat.
Proof.
  intros Hr. pose proof (reaches_node _ _ _ Hr) as [n Hn]. destruct rel as [|w rel]; [done|].
  assert (Hk : nodes d !! (loc ++ w :: rel) = Some n) by (revert Hn; unfold node_at; by destruct loc).
  assert (Hmax : forall (l : list (list string)) k, k ∈ l -> (length k <= foldr Nat.max 0%nat (length <$> l))%nat).
  { intros l k Hin. induction Hin as [k l|k x l Hin IH]; cbn [fmap list_fmap foldr]; lia. }
  unfold height. pose proof (Hmax (map_to_list (nodes d)).*1 (loc ++ w :: rel)) as Hle. rewrite length_app in Hle.
  cut (length (w :: rel) <= foldr Nat.max 0%nat (length <$> (map_to_list (nodes d)).*1))%nat; [lia|].
  etrans; [|apply Hle]; [lia|]. apply list_elem_of_fmap. exists (loc ++ w :: rel, n).
  by rewrite elem_of_map_to_list.
Qed.

(** ** The paths of the entries *)

(** A disk whose uploads directory is a tree of files and directories with
    proper names. *)
Record tree (c : FileServingController) (root : list string) : Prop := {
  tree_root : canonical (disk c) (m_root_ (the_locator c)) = inl root;
  tree_directory : node_at (disk c) root = Some Directory;
  tree_configured : m_root_ (the_locator c) <> "";
  tree_names : forall loc w, is_Some (node_at (disk c) (loc ++ [w])) -> regular_name w /\ contains_char slash w = false;
  tree_links : forall rel t, node_at (disk c) (root ++ rel) <> Some (Symlink t) }.

Section tree.
Context (c : FileServingController) (root : list string) (Htree : tree c root).
Let d := disk c.
Let root_path := m_root_ (the_locator c).

Lemma reaches_plain loc rel :
  reaches d loc rel -> Forall (fun w => regular_name w /\ contains_char slash w = false) rel.
Proof.
  revert loc. induction rel as [|w rel IH]; intros loc Hr; [constructor|]. apply reaches_cons in Hr as [Hw Hr].
  constructor; [by eapply (tree_names _ _ Htree)|]. destruct Hr as [->|[_ Hr]]; [constructor|by eapply IH].
Qed.

(** The path of an entry names it below the root. *)
Lemma path_names p rel :
  p <> "" -> Forall (fun w => regular_name w /\ contains_char slash w = false) rel -> rel <> [] ->
  let q := path_of p rel in
  names_of q = names p ++ rel /\ is_absolute q = is_absolute p /\ Some (filename q) = last rel /\ q <> "".
Proof.
  intros Hp Hrel Hne q. destruct (exists_last Hne) as (ws & w & ->). apply Forall_app in Hrel as [Hws Hw].
  apply Forall_singleton in Hw as [Hw Hs]. unfold q, path_of. rewrite foldl_app. cbn [foldl].
  destruct (plain_name w) as (Hwn & _ & Hwa); [apply Hw|done|].
  assert (Hdir : let b := path_of p ws in names b = names p ++ ws /\ is_absolute b = is_absolute p /\ b <> "").
  { clear -Hp Hws. cbn zeta. revert p Hp. induction Hws as [|v ws [Hv Hvs] _ IH]; intros p Hp; [by rewrite app_nil_r|].
    destruct (plain_name v) as (Hvn & _ & Hva); [apply Hv|done|].
    change (path_of p (v :: ws)) with (path_of (join p v) ws).
    destruct (IH (join p v)) as (Hn & Ha & Hne).
    - unfold join. rewrite Hva. destruct p; [done|]. by destruct (_ || _).
    - rewrite Hn, Ha, names_join, absolute_join, Hvn, <- app_assoc by done. done. }
  destruct Hdir as (Hn & Ha & Hb). fold (path_of p ws). assert (Hf : filename (join (path_of p ws) w) = w) by by apply filename_join.
  split_and!.
  - rewrite names_of_plain by (apply filename_no_slash; rewrite Hf; apply Hw).
    by rewrite names_join, Hn, Hwn, <- app_assoc by done.
  - by rewrite absolute_join.
  - by rewrite Hf, last_snoc.
  - unfold join. rewrite Hwa. destruct (path_of p ws); [done|]. by destruct (_ || _).
Qed.

Lemma entry_resolves links acc xs loc rel :
  resolve d links acc xs = inl loc -> node_at d loc = Some Directory -> root `prefix_of` loc ->
  reaches d loc rel -> resolve d links acc (xs ++ rel) = inl (loc ++ rel).
Proof.
  revert xs loc. induction rel as [|w rel IH]; intros xs loc Hr Hd Hpre Hrel; [done|].
  apply reaches_cons in Hrel as [[n Hn] Hrel].
  assert (Hw : regular_name w) by (eapply (tree_names _ _ Htree); by eexists).
  assert (Hnl : forall t, n <> Symlink t).
  { intros t ->. destruct Hpre as [k ->]. rewrite <- app_assoc in Hn. by apply (tree_links _ _ Htree) in Hn. }
  pose proof (resolve_child _ _ _ _ _ _ _ Hw Hr Hd Hn Hnl) as Hstep.
  destruct Hrel as [->|[Hdir Hrel]]; [done|].
  change (w :: rel) with ([w] ++ rel). rewrite !app_assoc. apply IH; [done|done|by apply prefix_app_r|done].
Qed.

(** Every entry of the walk is found where it is. *)
Lemma entry_canonical q rel :
  names_of q = names root_path ++ rel -> is_absolute q = is_absolute root_path -> q <> "" ->
  reaches d root rel -> canonical d q = inl (root ++ rel).
Proof.
  intros Hn Ha Hq Hr. pose proof (tree_root _ _ Htree) as Hroot. fold d root_path in Hroot. unfold canonical, start_of in *.
  destruct (is_empty root_path) eqn:He; [done|]. rewrite Hn, Ha. destruct (is_empty q) eqn:Heq; [by destruct q|].
  apply entry_resolves; [by apply resolve_names|apply (tree_directory _ _ Htree)|done|done].
Qed.

Lemma path_canonical rel : reaches d root rel -> canonical d (path_of root_path rel) = inl (root ++ rel).
Proof.
  intros Hr. destruct (path_names root_path rel) as (Hn & Ha & _ & Hq);
    [apply (tree_configured _ _ Htree)|by eapply reaches_plain|by intros ->|]. by apply entry_canonical.
Qed.

(** ** What is listed *)

Lemma lexically_below loc rel : lexically_relative (loc ++ rel) loc = rel.
Proof.
  induction loc as [|w loc IH]; cbn [app lexically_relative]; [by destruct rel|]. by rewrite bool_decide_true.
Qed.

(** The entry of the list for a file. *)
Definition listed_as (name_filter ext_filter : string) (rel : list string) : option listed :=
  match node_at d (root ++ rel), last rel, last_write_time (root ++ rel) d with
  | Some (File s), Some name, inl time =>
      if IsUsdFilename name && matches name_filter ext_filter name
      then Some (mkListed (of_components rel) name (parent_path (of_components rel)) (Z.of_nat (String.length s)) time)
      else None
  | _, _, _ => None
  end.

Context (Hstat : forall loc, io_error "stat" loc d = None) (Hdir : forall loc, io_error "readdir" loc d = None).
Context (Htime : forall loc, exists t, last_write_time loc d = inl t).

Lemma list_entry_listed name_filter ext_filter rel :
  reaches d root rel ->
  list_entry root_path name_filter ext_filter (path_of root_path rel) d = inl (listed_as name_filter ext_filter rel).
Proof.
  intros Hr. pose proof (path_canonical rel Hr) as Hc. destruct (reaches_node _ _ _ Hr) as [n Hn].
  destruct (path_names root_path rel) as (_ & _ & Hf & _);
    [apply (tree_configured _ _ Htree)|by eapply reaches_plain|by intros ->|].
  destruct (Htime (root ++ rel)) as [t Ht]. unfold list_entry, listed_as, entry_is_file, relative, size_of, modified.
  pose proof (tree_root _ _ Htree) as Hroot. fold d root_path in Hroot. rewrite Hc, Hroot, Hn, <- Hf, Ht, lexically_below.
  destruct n as [s| |k]; [|done..]. rewrite Hstat. destruct (IsUsdFilename _); [|done]. cbn [negb andb].
  destruct (matches _ _ _); [|done]. by destruct rel.
Qed.

Lemma list_entries_listed name_filter ext_filter rels :
  Forall (reaches d root) rels ->
  list_entries root_path name_filter ext_filter ((fun rel => Entry (path_of root_path rel)) <$> rels) d =
  inl (omap (listed_as name_filter ext_filter) rels).
Proof.
  induction 1 as [|rel rels Hr _ IH]; [done|]. rewrite fmap_cons. cbn [list_entries].
  rewrite list_entry_listed, IH by done. cbn. by destruct (listed_as _ _ rel).
Qed.

(** Different entries have different paths. *)
Lemma listed_injective name_filter ext_filter rel rel' f :
  reaches d root rel -> reaches d root rel' ->
  listed_as name_filter ext_filter rel = Some f -> listed_as name_filter ext_filter rel' = Some f -> rel = rel'.
Proof.
  assert (Hpath : forall r, reaches d root r -> listed_as name_filter ext_filter r = Some f ->
    names (list_filepath f) = r).
  { intros r Hr Hl. unfold listed_as in Hl. destruct (node_at d (root ++ r)) as [[s| |]|]; try done.
    destruct (last r); [|done]. destruct (last_write_time _ _); [|done]. destruct (_ && _); [|done].
    injection Hl as <-. apply names_of_components; [|by intros ->].
    eapply Forall_impl; [by eapply reaches_plain|]. intros w [Hw ?]. split; [apply Hw|done]. }
  intros Hr Hr' Hl Hl'. by rewrite <- (Hpath rel), <- (Hpath rel').
Qed.

(** A listed file whose path has only the characters the locator allows can be
    downloaded under that path. *)
Lemma listed_downloads name_filter ext_filter rel f s :
  (forall loc, io_error "read" loc d = None) ->
  reaches d root rel -> node_at d (root ++ rel) = Some (File s) -> listed_as name_filter ext_filter rel = Some f ->
  ValidatePath (list_filepath f) = (Ok, list_filepath f) ->
  code (snd (ServeFile (list_filepath f) c)) = 200 /\ text (snd (ServeFile (list_filepath f) c)) = s.
Proof.
  intros Hread Hr Hn Hl Hv. unfold listed_as in Hl. rewrite Hn in Hl. destruct (last rel) as [name|] eqn:Hlast; [|done].
  destruct (last_write_time _ _); [|done]. destruct (IsUsdFilename name) eqn:Husd; [|done]. cbn [andb] in Hl.
  destruct (matches _ _ _); [|done]. injection Hl as <-. cbn [list_filepath] in *.
  pose proof (reaches_plain _ _ Hr) as Hplain. assert (Hne : rel <> []) by by intros ->.
  assert (Hplain' : Forall (fun w => w <> "" /\ contains_char slash w = false) rel).
  { eapply Forall_impl; [exact Hplain|]. intros w [Hw ?]. split; [apply Hw|done]. }
  destruct (names_of_components rel Hplain' Hne) as (Hnames & Hend & Habs & Hne').
  set (p := of_components rel) in *. pose proof (tree_configured _ _ Htree) as Hconf. fold root_path in Hconf.
  destruct (exists_last Hne) as (ws & w & Hw). rewrite Hw, last_snoc in Hlast. injection Hlast as ->.
  assert (Hfp : filename p = name) by (eapply filename_last; [done|by rewrite Hnames]).
  assert (Hf : filename (join root_path p) = name) by (rewrite filename_join_last by done; done).
  assert (Hname : name <> "").
  { rewrite Hw in Hplain'. by apply Forall_app in Hplain' as [_ [[? _] _]%Forall_cons]. }
  assert (Hcan : canonical d (join root_path p) = inl (root ++ rel)).
  { apply entry_canonical; [|by apply absolute_join| |done].
    - rewrite names_of_plain by (apply filename_no_slash; by rewrite Hf). by rewrite names_join, Hnames.
    - intros He. rewrite He in Hf. by rewrite <- Hf in Hname. }
  assert (Hresolve : Resolve (the_locator c) p d = (Ok, Some (join root_path p))).
  { unfold Resolve. rewrite Hv. cbn [bool_decide negb decide]. pose proof (tree_root _ _ Htree) as Hroot. fold d in Hroot.
    fold root_path in Hroot |- *. unfold exists_. rewrite Hroot, Hcan, Hf, Husd.
    assert (is_prefix root (root ++ rel) = true) as -> by (apply is_prefix_spec; by eexists). done. }
  unfold ServeFile. cbn [snd]. change (the_locator (with_locator c)) with (the_locator c).
  change (disk (with_locator c)) with d. rewrite Hresolve. split; [done|].
  cbn [set_header text]. unfold stream_read. by rewrite Hcan, Hn, Hread.
Qed.

Lemma refused_path_not_found p : fst (ValidatePath p) <> Ok -> code (snd (ServeFile p c)) = 404.
Proof.
  intros Hv. unfold ServeFile, Resolve. cbn [snd]. destruct (ValidatePath p) as [st q]. cbn [fst] in Hv.
  rewrite bool_decide_false by done. cbn [negb]. by destruct st.
Qed.

End tree.
End listing.

(** ** A concrete directory *)
Import ToyWorld.

#[local] Instance blank_json : JsonText :=
  {| dump := fun _ => "{}"; parse := fun _ => inr "no parser"; missing_field := fun n => n; wrong_type := fun n _ => n |}.
#[local] Instance in_order : DirectoryOrder := children.
#[local] Instance in_order_all : ReadsAll.
Proof. by intros loc d. Qed.
#[local] Instance no_times : FileTimes := {| last_write_time := fun _ _ => inl 7; filesystem_what := error_message |}.

Definition library_disk : Disk :=
  mkDisk {[ ["srv"] := Directory; ["srv"; "uploads"] := Directory; ["srv"; "uploads"; "a.usda"] := File "old";
            ["srv"; "uploads"; "sub"] := Directory; ["srv"; "uploads"; "sub"; "b.usdz"] := File "zip";
            ["srv"; "uploads"; "sub"; "notes.txt"] := File "no"; ["srv"; "uploads"; "sub"; "b.usdz.part"] := File "z" ]}
    ["srv"].

Definition library : @FileServingController toy_usd :=
  mkController (Some (mkLocator "uploads" "sessions")) None
    (SessionManager (mkLocator "uploads" "sessions") 300 0 0 library_disk) true.

Definition extension_is (ext : string) : string -> option string :=
  fun name => if String.eqb name "extension" then Some ext else None.

Definition listed_paths (url_params : string -> option string) : list string + errc :=
  let root := "uploads" in
  match list_entries root "" (default "" (url_params "extension")) (iterate root library_disk) library_disk with
  | inl files => inl (list_filepath <$> files)
  | inr e => inr e
  end.

Example listed_by_extension : listed_paths (extension_is "usdz") = inl ["sub/b.usdz"].
Proof. by vm_compute. Qed.

(** A link out of the directory is listed under a path that leaves it. *)
Example listed_link :
  let d := set_node ["srv"; "uploads"; "x.usd"] (Symlink "/srv/secret.usd")
             (set_node ["srv"; "secret.usd"] (File "s") library_disk) in
  list_entry "uploads" "" "" "uploads/x.usd" d = inl (Some (mkListed "../secret.usd" "x.usd" ".." 1 7)).
Proof. by vm_compute. Qed.

Lemma names_check (d : Disk) :
  forallb (fun x => match last x.1 with
                    | Some w => negb (bool_decide (w = "" \/ w = "." \/ w = "..")) && negb (contains_char slash w)
                    | None => true
                    end) (map_to_list (nodes d)) = true ->
  forall loc w, is_Some (node_at d (loc ++ [w])) -> regular_name w /\ contains_char slash w = false.
Proof.
  rewrite forallb_forall. intros Hf loc w [n Hn].
  assert (Hk : nodes d !! (loc ++ [w]) = Some n) by (revert Hn; unfold node_at; by destruct loc).
  apply elem_of_map_to_list, list_elem_of_In, Hf in Hk. cbn [fst] in Hk. rewrite last_snoc in Hk.
  apply andb_true_iff in Hk as [Hw%negb_true_iff%bool_decide_eq_false Hs%negb_true_iff]. split; [|done].
  unfold regular_name. naive_solver.
Qed.

Lemma library_tree : tree library ["srv"; "uploads"].
Proof.
  split; try (vm_compute; reflexivity); [done|apply names_check; vm_compute; reflexivity|].
  intros rel t Hn.
  assert (Hl : forall loc t, node_at (disk library) loc = Some (Symlink t) -> (fun _ => true) loc = false)
    by (apply links_check; vm_compute; reflexivity).
  by specialize (Hl _ _ Hn).
Qed.

End Listing.
