(* ===== verification/Rest.v ===== *)
(** * [SessionController] (source/controller/SessionController.cpp,
    dto/SessionDto.h)

    The HTTP handlers of the sessions: listing, creating, deleting and
    committing, on the manager. What the wait for a commit ends with is an
    argument. *)
From S2P Require Import Prelude Filesystem Locator Http Proto Usd Session Handlers Manager Registry ToyWorld.

Module Rest.
Import Session Http Manager Registry.
Local Open Scope string_scope.
Local Open Scope list_scope.
Local Open Scope Z_scope.

(** [NLOHMANN_JSON_SERIALIZE_ENUM]: anything unknown is the first entry. *)
Definition mode_of_json (j : json) : SessionMode :=
  match j with
  | JString s =>
      if bool_decide (s = "single_edit") then SingleEdit
      else if bool_decide (s = "single_runtime") then SingleRuntime
      else if bool_decide (s = "collaborative_edit") then CollaborativeEdit
      else if bool_decide (s = "collaborative_runtime") then CollaborativeRuntime
      else SingleEdit
  | _ => SingleEdit
  end.

Lemma mode_roundtrip m : mode_of_json (JString (mode_string m)) = m.
Proof. by destruct m. Qed.

Record CreateSessionRequest := mkCreateRequest { req_usd_file : string; req_mode : SessionMode; req_auto_commit : bool }.

Section rest.
Context `{U : Usd} `{W : Wire} `{!WireOk} `{IO : Disk.IoErrors} `{JT : JsonText} `{SW : Disk.ShortWrites}.

(** Every field has a default. *)
Definition CreateSessionRequest_from_json (j : json) : CreateSessionRequest + json_exn :=
  let mode := match field "mode" j with Some v => mode_of_json v | None => SingleEdit end in
  match field "usd_file" j, field "auto_commit" j with
  | Some (JString s), Some (JBool b) => inl (mkCreateRequest s mode b)
  | Some (JString s), None => inl (mkCreateRequest s mode false)
  | None, Some (JBool b) => inl (mkCreateRequest "" mode b)
  | None, None => inl (mkCreateRequest "" mode false)
  | Some (JString _), Some v | None, Some v => inr (TypeError (wrong_type "auto_commit" v))
  | Some v, _ => inr (TypeError (wrong_type "usd_file" v))
  end.

Definition json_response (code : Z) (j : json) : response :=
  set_header "Content-Type" "application/json" (mkResponse code [] (dump j)).

Definition GetSessionList (m : Manager) : response :=
  json_response 200 (JObject [("sessions", JArray (omap (fun l => ToJson <$> objects m !! l) (List m)))]).

Definition not_found : response := make_error 404 "not_found" "Session not found.".

Definition GetSession (session_id : string) (m : Manager) : response :=
  match Get session_id m ≫= fun l => objects m !! l with
  | None => not_found
  | Some s => json_response 200 (ToJson s)
  end.

(** [a], [b] and [l] as for [Manager.Create]. *)
Definition CreateSession (req : request) (a b : Z) (l : location) (m : Manager) : Manager * response :=
  match parse_json_dto CreateSessionRequest_from_json req with
  | inr err => (m, err)
  | inl body =>
      if Str.is_empty (req_usd_file body)
      then (m, make_error 400 "invalid_request" "'usd_file' must not be empty.")
      else
        match Create (req_usd_file body) (req_mode body) (req_auto_commit body) a b l m with
        | (m, inr (error_msg, status)) =>
            (m, match status with
                | FileNotFound => make_error 404 "not_found" error_msg
                | StageOpenFailed => make_error 409 "stage_open_failed" error_msg
                | CreateOk => make_error 500 "internal_error" error_msg
                end)
        | (m, inl l) =>
            (m, match objects m !! l with
                | None => make_error 500 "internal_error" ""
                | Some s => set_header "Location" ("/api/v1/sessions/" +:+ id s) (json_response 201 (ToJson s))
                end)
        end
  end.

Definition DeleteSession (session_id : string) : M Manager response :=
  found ← Destroy session_id;
  mret (if found : bool then mkResponse 204 [] "" else not_found).

Definition commit_response (session_id : string) (status : CommitStatus) (error_msg : string) : response :=
  match status with
  | CommitOk => json_response 200 (JObject [("committed", JBool true); ("session_id", JString session_id)])
  | UnknownSession => not_found
  | NothingToCommit => make_error 409 "nothing_to_commit" error_msg
  | Unavailable => make_error 503 "unavailable" error_msg
  | WriteFailed => make_error 500 "commit_failed" error_msg
  end.

(** [outcome]: the state of the future when the wait ends. *)
Definition CommitSession (session_id : string) (promise : Z) (outcome : future) (m : Manager) : Manager * response :=
  match submit_commit session_id promise m with
  | (m, inl (status, error_msg)) => (m, commit_response session_id status error_msg)
  | (m, inr _) =>
      let '(status, error_msg) := await_commit outcome in (m, commit_response session_id status error_msg)
  end.

(** ** The life of a session *)

Lemma parse_refused {T} (from_json : json -> T + json_exn) req res :
  parse_json_dto from_json req = inr res -> Http.code res = 400.
Proof.
  unfold parse_json_dto. destruct (parse (body req)) as [j|]; [|by intros [= <-]].
  destruct j; try by intros [= <-]. destruct (from_json _) as [|[]]; [done|..]; by intros [= <-].
Qed.

(** What a creation that fails leaves behind: nothing, or the new sidecar file
    when USD could not open it or the stage. *)
Definition leaves_at_most (sidecar : string) (m m' : Manager) : Prop :=
  m' = m \/
  Disk.exists_ (m_disk m) sidecar = false /\ m' = set_m_disk (fst (CreateNew sidecar (m_disk m))) m.

Definition sidecar_of (a b : Z) (m : Manager) : string :=
  Path.join (m_sessions_dir_ m) (Locator.GenerateUuidV4 a b +:+ ".usda").

Lemma create_cases file mode auto_commit a b l m m' r :
  Create file mode auto_commit a b l m = (m', r) ->
  (exists e, r = inr e /\ (leaves_at_most (sidecar_of a b m) m m') /\ (snd e <> StageOpenFailed -> m' = m)) \/
  (exists s, r = inl l /\ objects m' = <[l := s]> (objects m) /\ id s = Locator.GenerateUuidV4 a b /\
     registry m' = match registry m !! id s with None => <[id s := l]> (registry m) | Some _ => registry m end).
Proof.
  unfold Create. destruct (Locator.Resolve _ _ _) as [[] [resolved|]];
    try (intros [= <- <-]; left; eexists; split_and!; [done|by left|done]).
  destruct (FindOrOpen resolved _) as [root|];
    [|intros [= <- <-]; left; eexists; split_and!; [done|by left|done]].
  cbv zeta. fold (sidecar_of a b m).
  assert (Hd : forall d sc, (if Disk.exists_ (m_disk m) (sidecar_of a b m)
      then (m_disk m, FindOrOpen (sidecar_of a b m) (m_disk m))
      else CreateNew (sidecar_of a b m) (m_disk m)) = (d, sc) ->
    leaves_at_most (sidecar_of a b m) m (set_m_disk d m)).
  { intros d sc. destruct (Disk.exists_ _ _) eqn:He.
    - intros [= <- <-]. left. by destruct m.
    - intros Hn. right. by rewrite Hn. }
  destruct (if Disk.exists_ _ _ then _ else _) as [d [sidecar|]] eqn:Hn; specialize (Hd _ _ eq_refl).
  2: { intros [= <- <-]. left. eexists. split_and!; [done..|]. cbn. done. }
  destruct (OpenStage root sidecar d) as [st|].
  2: { intros [= <- <-]. left. eexists. split_and!; [done..|]. cbn. done. }
  intros [= <- <-]. right. eexists. split_and!; [done..|]. reflexivity.
Qed.

(** Destroying a session takes its entry from the registry, whatever the rest
    of it does. *)
Lemma delete_registry sid m : registry (fst (DeleteSession sid m)) = delete sid (registry m).
Proof.
  unfold DeleteSession, Destroy, mbind, M_bind, get, modify, mret, M_ret, Get.
  destruct (registry m !! sid) as [l|] eqn:Hl; [|cbn [fst]; by rewrite delete_id].
  pose proof (preserves_same_teardown l (set_registry (delete sid (registry m)) m)) as (_ & Hreg & _).
  destruct (TeardownSession l _) as [m2 [[]|e]]; cbn [fst] in *; by rewrite Hreg.
Qed.

Lemma delete_unknown sid m : registry m !! sid = None -> DeleteSession sid m = (m, inl not_found).
Proof. intros Hn. unfold DeleteSession, Destroy, mbind, M_bind, get, Get. by rewrite Hn. Qed.

(** Deleting an id in any state of the server. *)
Lemma delete_spec i later :
  let '(m2, r) := DeleteSession i later in
  registry m2 = delete i (registry later) /\
  match registry later !! i with
  | None => m2 = later /\ r = inl not_found
  | Some _ => r = inl (mkResponse 204 [] "") \/ exists e, r = inr e
  end /\
  GetSession i m2 = not_found /\ DeleteSession i m2 = (m2, inl not_found).
Proof.
  pose proof (delete_registry i later) as Hreg.
  assert (Hans : match registry later !! i with
    | None => fst (DeleteSession i later) = later /\ snd (DeleteSession i later) = inl not_found
    | Some _ => snd (DeleteSession i later) = inl (mkResponse 204 [] "") \/ exists e, snd (DeleteSession i later) = inr e
    end).
  { destruct (registry later !! i) as [k|] eqn:Hk; [|by rewrite delete_unknown].
    unfold DeleteSession, Destroy, mbind, M_bind, get, modify, mret, M_ret, Get. rewrite Hk.
    destruct (TeardownSession k _) as [m2 [[]|e]]; cbn; eauto. }
  destruct (DeleteSession i later) as [m2 r]. cbn [fst snd] in *.
  assert (Hgone : registry m2 !! i = None) by (rewrite Hreg; apply lookup_delete_eq).
  split_and!; [done..| |by apply delete_unknown]. unfold GetSession, Get. by rewrite Hgone.
Qed.

(** C37. The life of a session as its clients see it. A request to create one
    that is answered with anything but 201 leaves the server as it was; only a
    409, when USD cannot open the new sidecar or the stage, leaves the sidecar
    file it had just created. After a 201 for an id that was not in use, the id
    in the [Location] header finds the session with the description the answer
    gave. And in whatever state the server is later, with whatever clients and
    queued commands, deleting an id removes that id and no other from the
    registry: the answer is 404, and nothing changed, if there was no such
    session, else 204 unless an exception left the teardown; in every case, also
    after that exception, the id finds nothing afterwards, and deleting it again
    is answered with 404 and changes nothing. *)
Theorem session_lifecycle req a b l m m1 res :
  CreateSession req a b l m = (m1, res) ->
  let sid := Locator.GenerateUuidV4 a b in
  (Http.code res <> 201 -> Http.code res <> 409 -> m1 = m) /\
  (Http.code res = 409 -> leaves_at_most (sidecar_of a b m) m m1) /\
  (Http.code res = 201 -> registry m !! sid = None ->
   ("Location", "/api/v1/sessions/" +:+ sid) ∈ headers res /\
   Http.code (GetSession sid m1) = 200 /\ text (GetSession sid m1) = text res) /\
  (forall i later,
   let '(m2, r) := DeleteSession i later in
   registry m2 = delete i (registry later) /\
   match registry later !! i with
   | None => m2 = later /\ r = inl not_found
   | Some _ => r = inl (mkResponse 204 [] "") \/ exists e, r = inr e
   end /\
   GetSession i m2 = not_found /\ DeleteSession i m2 = (m2, inl not_found)).
Proof.
  intros Hcr sid. unfold CreateSession in Hcr. destruct (parse_json_dto _ req) as [body|err] eqn:Hp.
  2: { injection Hcr as <- <-. apply parse_refused in Hp. rewrite Hp. split_and!; (done || lia || apply delete_spec). }
  destruct (Str.is_empty _); [injection Hcr as <- <-; split_and!; (done || apply delete_spec)|].
  destruct (Create _ _ _ _ _ _ _) as [m' r] eqn:Hc. apply create_cases in Hc
    as [([msg status] & -> & Hn & Hk)|(s & -> & Ho & Hid & Hr)].
  { injection Hcr as <- <-. cbn in Hk. destruct status; cbn; split_and!; try (done || apply delete_spec); intros; by apply Hk. }
  rewrite Ho, lookup_insert_eq in Hcr. injection Hcr as <- <-.
  split_and!; [done..| |apply delete_spec]. intros _ Hfresh.
  unfold sid in *. rewrite <- Hid in Hfresh |- *. rewrite Hfresh in Hr.
  assert (Hget : GetSession (id s) m' = json_response 200 (ToJson s)).
  { unfold GetSession, Get. rewrite Hr, lookup_insert_eq. cbn [mbind option_bind]. by rewrite Ho, lookup_insert_eq. }
  rewrite Hget. split_and!; [|done..]. apply elem_of_app. right. by left.
Qed.
End rest.

(** ** A concrete session *)
Import ToyWorld.

#[local] Instance create_json : JsonText :=
  {| dump := fun j => match field "session_id" j with Some (JString s) => s | _ => "" end;
     parse := fun s => inl (JObject [("usd_file", JString s); ("mode", JString "collaborative_edit")]);
     missing_field := fun n => n; wrong_type := fun n _ => n |}.

Definition create_request (file : string) : request := mkRequest "POST" "/api/v1/sessions" (fun _ => "") file "10.0.0.9".

(** A client attaches and two commands are queued before the session is deleted. *)
Lemma session_lifecycle_witness :
  exists m1 res, CreateSession (create_request "a.usda") 1 2 7 manager0 = (m1, res) /\ Http.code res = 201 /\
    text (GetSession id1 m1) = id1 /\
    Http.code (GetSession id1 manager4) = 200 /\
    GetSession id1 (fst (DeleteSession id1 manager4)) = not_found.
Proof.
  assert (Hc : Http.code (snd (CreateSession (create_request "a.usda") 1 2 7 manager0)) = 201) by (vm_compute; reflexivity).
  assert (Ht : text (snd (CreateSession (create_request "a.usda") 1 2 7 manager0)) = id1) by (vm_compute; reflexivity).
  destruct (CreateSession (create_request "a.usda") 1 2 7 manager0) as [m1 res] eqn:Hr. cbn [snd] in *.
  destruct (session_lifecycle _ 1 2 7 manager0 m1 res Hr) as (_ & _ & Hlife & Hdel).
  destruct (Hlife Hc ltac:(vm_compute; reflexivity)) as (_ & _ & Htext). specialize (Hdel id1 manager4).
  exists m1, res. split_and!; [done|exact Hc|exact (eq_trans Htext Ht)|vm_compute; reflexivity|].
  destruct (DeleteSession id1 manager4) as [m2 r]. by destruct Hdel as (_ & _ & Hgone & _).
Defined.

Example missing_file : Http.code (snd (CreateSession (create_request "b.usda") 1 2 7 manager0)) = 404.
Proof. vm_compute. reflexivity. Qed.

End Rest.
