(* ===== verification/Settings.v ===== *)
(** * Start-up (source/main.cpp, source/app/, source/server/)

    What the environment configures: the services of [ApplicationContext::create],
    the middleware of [Application::Initialize], the port and the timeout of
    [Server::Run]; and [main], up to the point where the server runs. The routes
    are in [Routes.v]; running them is the framework's. *)
From S2P Require Import Prelude Filesystem Locator Environment Http RateLimit Gateway Jwt Logging ThumbnailWorker.
From S2P Require Import Placeholder Proto Usd Manager.

Module Settings.
Import Usd.
Import Environment.
Local Open Scope string_scope.
Local Open Scope Z_scope.

(** A 64-bit number as the signed count of a [std::chrono] duration. *)
Definition to_count (n : Z) : Z := to_intptr n.

(** ** [ApplicationContext::create] *)

Definition uploads_root (env : environment) : string := default "./uploads" (get_env "IDTX_UPLOADS_ROOT" env).
Definition session_root (env : environment) : string := default "./sessions" (get_env "IDTX_SESSIONS_ROOT" env).

(** [None] without thumbnails, else the size given to the generator. *)
Definition thumbnail_size (env : environment) : option Z :=
  let thumb_enabled := default "true" (get_env "IDTX_THUMBNAIL_ENABLED" env) in
  if bool_decide (thumb_enabled <> "false") && bool_decide (thumb_enabled <> "0") then
    Some (match get_env "IDTX_THUMBNAIL_SIZE" env ≫= Text.stoull with Some n => u32 n | None => 256 end)
  else None.

Definition auth_controller (env : environment) : AuthController.AuthController :=
  let get name := default "" (get_env name env) in
  AuthController.mkAuth (get "OAUTH_TOKEN_URL") (get "OAUTH_CLIENT_ID") (get "OAUTH_CLIENT_SECRET")
    (get "OAUTH_SCOPE") true.

Definition idle_timeout (env : environment) : Z := to_count (get_env_u64 "IDTX_SESSION_IDLE_TIMEOUT_SECONDS" 300 env).

(** [cores]: [std::thread::hardware_concurrency()]. *)
Definition session_workers (cores : Z) (env : environment) : Z :=
  Z.max (get_env_u64 "IDTX_SESSION_WORKERS" (Z.max 1 (Z.min 4 cores)) env) 1.

Definition flush_interval_ms (env : environment) : Z := to_count (get_env_u64 "IDTX_SESSION_FLUSH_INTERVAL_MS" 2000 env).

(** The generator of the build: with imaging, a real preview unless the
    environment asks for the placeholder. *)
Inductive generator := PlaceholderGenerator (size : Z) | ImagingGenerator (size : Z).

Definition generator_size (g : generator) : Z := match g with PlaceholderGenerator n | ImagingGenerator n => n end.

Definition make_generator (imaging : bool) (size : Z) (env : environment) : generator :=
  let size := Placeholder.m_size_ size in
  if imaging && negb (bool_decide (default "real" (get_env "IDTX_THUMBNAIL_RENDER" env) = "placeholder"))
  then ImagingGenerator size else PlaceholderGenerator size.

Record ApplicationContext {U : Usd} := mkContext {
  usdFileLocator : Locator.UsdFileLocator;
  thumbnailWorker : option (ThumbnailWorker.ThumbnailWorker * generator);
  authController : AuthController.AuthController;
  sessionManager : Manager.Manager;
  workers : Z;
  flush_ms : Z }.

Section start.
Context `{U : Usd} `{IO : Disk.IoErrors}.

(** The context, or the text of the exception that ends the process;
    [root_error] is the message of the failed call, [imaging] whether the
    server is built with [IDTX_ENABLE_IMAGING]. *)
Definition create (imaging : bool) (env : environment) (cores now wall : Z) (root_error : string) (d : Disk.Disk) :
    ApplicationContext + string :=
  let locator := Locator.mkLocator (uploads_root env) (session_root env) in
  let '(d, root_status) := Locator.EnsureRootExists locator d in
  if negb (bool_decide (root_status = Locator.Ok))
  then inr ("Uploads root '" +:+ uploads_root env +:+ "' is not usable (" +:+ Locator.StatusToString root_status
            +:+ root_error +:+ "). Set IDTX_UPLOADS_ROOT and ensure the directory is "
            +:+ "writable by the server process (check volume ownership / "
            +:+ "securityContext.fsGroup in Kubernetes).")
  else
    inl (mkContext U locator
           ((fun size => (ThumbnailWorker.start, make_generator imaging size env)) <$> thumbnail_size env)
           (auth_controller env) (Manager.SessionManager locator (idle_timeout env) now wall d)
           (session_workers cores env) (flush_interval_ms env)).

(** A server that starts has a writable uploads root, at least one session worker
    and a generator whose pictures are not empty. *)
Lemma created_context imaging env cores now wall root_error d ctx :
  create imaging env cores now wall root_error d = inl ctx ->
  0 < workers ctx /\ snd (Locator.EnsureRootExists (usdFileLocator ctx) d) = Locator.Ok /\
  (forall w g, thumbnailWorker ctx = Some (w, g) -> 0 < generator_size g < 2 ^ 32).
Proof.
  unfold create. destruct (Locator.EnsureRootExists _ d) as [d' s] eqn:He.
  destruct (bool_decide (s = Locator.Ok)) eqn:Hs; [|done]. cbn [negb]. intros [= <-].
  cbn [workers usdFileLocator thumbnailWorker]. rewrite He. apply bool_decide_eq_true in Hs as ->. split_and!.
  - unfold session_workers. lia.
  - done.
  - intros w size. unfold thumbnail_size. destruct (_ && _); [|done]. cbn [fmap option_fmap option_map].
    intros [= <- <-]. unfold make_generator. cbv zeta. assert (Hs : forall (b : bool) n, generator_size (if b then ImagingGenerator n
      else PlaceholderGenerator n) = n) by by intros []. rewrite Hs. unfold Placeholder.m_size_. destruct (get_env _ env ≫= _) as [n|]; [|done].
    pose proof (wrap_bounds 32 n ltac:(lia)). destruct (Z.eqb_spec (u32 n) 0); lia.
Qed.
End start.

(** ** [Application::Initialize] *)

Definition rate_limit_config (env : environment) : RateLimitHandler.Config :=
  let d := RateLimitHandler.default_config in
  let num name fallback := get_env_u64 name fallback env in
  RateLimitHandler.mkConfig
    (num "RL_GLOBAL_MAX_REQUESTS" (RateLimitHandler.globalMaxRequests d))
    (to_count (num "RL_GLOBAL_WINDOW_SECONDS" (RateLimitHandler.globalWindow d)))
    (num "RL_LOGIN_MAX_REQUESTS" (RateLimitHandler.loginMaxRequests d))
    (to_count (num "RL_LOGIN_WINDOW_SECONDS" (RateLimitHandler.loginWindow d)))
    (num "RL_LOGIN_MAX_FAILURES" (RateLimitHandler.loginMaxFailures d))
    (to_count (num "RL_LOGIN_FAILURE_WINDOW_SECONDS" (RateLimitHandler.loginFailureWindow d)))
    (to_count (num "RL_LOGIN_LOCKOUT_SECONDS" (RateLimitHandler.loginLockout d)))
    (num "RL_LOGIN_MAX_BODY_BYTES" (RateLimitHandler.loginMaxBodyBytes d))
    (RateLimitHandler.uploadMaxBodyBytes d)
    (num "RL_GLOBAL_MAX_BODY_BYTES" (RateLimitHandler.globalMaxBodyBytes d))
    (match get_env "RL_TRUST_FORWARDED_FOR" env with
     | Some v => bool_decide (v <> "false") && bool_decide (v <> "0")
     | None => RateLimitHandler.trustForwardedFor d
     end).

Definition c_wellKnownVar_ : string := "OIDC_WELLKNOWN_URL".
Definition c_audiencesVar_ : string := "OIDC_AUDIENCES".

(** The rules given to the framework's CORS handler, for every path. *)
Record CORSRules := mkCORS { cors_headers : list string; cors_methods : list string; cors_origin : string }.

Definition corsMiddleware : CORSRules :=
  mkCORS ["Content-Type"; "Authorization"] ["POST"; "GET"; "PUT"; "DELETE"; "HEAD"] "*".

Record Middleware := mkMiddleware {
  rateLimit : RateLimitHandler.RateLimitHandler;
  login : AuthController.AuthController;
  jwt : JwtAuthHandler.JwtAuthHandler;
  audited : list Audit.AuditRecord;
  cors : CORSRules }.

Section initialize.
Context `{JT : Http.JsonText} `{JL : JwtAuthHandler.JwtLib}.

(** The throttler is the one of [rateLimit]; the right injection is thrown. *)
Definition Initialize (fetch : string -> HttpClient.Response) (now : Z) (env : environment)
    (auth : AuthController.AuthController) : Middleware + string :=
  let rlConfig := rate_limit_config env in
  let rl := RateLimitHandler.configure rlConfig now RateLimitHandler.new_handler in
  let auth := AuthController.mkAuth (AuthController.m_tokenUrl_ auth) (AuthController.m_clientId_ auth)
                (AuthController.m_clientSecret_ auth) (AuthController.m_scope_ auth)
                (RateLimitHandler.trustForwardedFor rlConfig) in
  match Oidc.create c_wellKnownVar_ c_audiencesVar_ env with
  | inr what => inr what
  | inl (cfg, records) =>
      inl (mkMiddleware rl auth
             (JwtAuthHandler.configure fetch cfg JwtAuthHandler.default_algs 60 JwtAuthHandler.new_handler) records
             corsMiddleware)
  end.

(** The two stages of the program in front of the routes, the framework's CORS
    handler between them: a request reaches its route, or a stage answers it. *)
Inductive outcome := Reached (ctx : option JwtAuthHandler.context) | Answered (res : Http.response) | Threw (what : string).

Definition handle (fetch : string -> HttpClient.Response) (req : Http.request) (t_lock t_login t_global : Z)
    (m : Middleware) : Middleware * outcome :=
  let '(rl, v) := RateLimitHandler.before_handle req t_lock t_login t_global (rateLimit m) in
  let m := mkMiddleware rl (login m) (jwt m) (audited m) (cors m) in
  match v with
  | RateLimitHandler.Block res event =>
      (mkMiddleware rl (login m) (jwt m) (audited m ++ [event])%list (cors m), Answered res)
  | RateLimitHandler.Pass =>
      let '(j, v) := JwtAuthHandler.before_handle fetch req (jwt m) in
      (mkMiddleware rl (login m) j (audited m) (cors m),
       match v with
       | JwtAuthHandler.Pass ctx => Reached ctx
       | JwtAuthHandler.Reject _ res => Answered res
       | JwtAuthHandler.Throw what => Threw what
       end)
  end.
End initialize.

(** ** [main] *)

Section main.
Context `{U : Usd} `{IO : Disk.IoErrors} `{JT : Http.JsonText} `{JL : JwtAuthHandler.JwtLib}.

(** A server that runs, or the lines logged by a process that exits with 1. *)
Definition main (imaging : bool) (fetch : string -> HttpClient.Response) (cores now wall : Z) (root_error : string)
    (d : Disk.Disk) (env : environment) : ApplicationContext * Middleware + list (Logging.stream * string) :=
  let env := load_dotenv ".env" d env in
  let failed what := Logging.logf (Some Logging.new_logger) Logging.Error ("Application error: " +:+ what) in
  match create imaging env cores now wall root_error d with
  | inr what => inr (failed what)
  | inl ctx =>
      match Initialize fetch now env (authController ctx) with
      | inr what => inr (failed what)
      | inl m => inl (ctx, m)
      end
  end.

(** A process that runs has a usable uploads root, and checks tokens for at least
    one audience unless its environment says that authentication is off. *)
Lemma main_runs imaging fetch cores now wall root_error d env ctx m :
  main imaging fetch cores now wall root_error d env = inl (ctx, m) ->
  snd (Locator.EnsureRootExists (usdFileLocator ctx) d) = Locator.Ok /\ 0 < workers ctx /\
  (JwtAuthHandler.is_enabled (jwt m) = true -> JwtAuthHandler.audiences_ (jwt m) <> []) /\
  (JwtAuthHandler.is_enabled (jwt m) = false ->
     exists v, (v = "true" \/ v = "1") /\ load_dotenv ".env" d env !! "IDTX_INSECURE_DISABLE_AUTH" = Some v).
Proof.
  unfold main. cbv zeta. set (env' := load_dotenv ".env" d env).
  destruct (create imaging env' cores now wall root_error d) as [c|] eqn:Hc; [|done].
  apply created_context in Hc as (Hw & Hr & _). unfold Initialize. cbv zeta.
  destruct (Oidc.create _ _ env') as [[cfg records]|] eqn:Ho; [|done]. intros [= <- <-]. cbn [jwt].
  destruct (Oidc.configuration_complete _ _ _ _ _ Ho) as (Hoff & _ & Hon).
  pose proof (JwtAuthHandler.configure_configured fetch cfg JwtAuthHandler.default_algs 60) as [He Ha _ _ _].
  rewrite He, Ha. split_and!; [done|done| |].
  - intros Hen. by apply Hon in Hen as (_ & _ & _ & ? & _).
  - intros Hen. apply Hoff in Hen as [Hen|Hen]; eauto.
Qed.
End main.

(** ** [Server::Run] *)

(** The port, an [int] cut to 16 bits; [None] where [atoi] is undefined. *)
Definition server_port (env : environment) : option Z :=
  u16 <$> Text.atoi (default "8080" (get_env "SERVER_PORT" env)).

Example port_wraps : server_port {["SERVER_PORT" := "73616"]} = Some 8080.
Proof. reflexivity. Qed.

(** The seconds a connection may stay idle, 0 for a multiple of 256. *)
Definition server_timeout (env : environment) : Z := u8 (get_env_u64 "SERVER_TIMEOUT_SECONDS" 5 env).

Example timeout_wraps : server_timeout {["SERVER_TIMEOUT_SECONDS" := "256"]} = 0.
Proof. reflexivity. Qed.

Example default_limits : rate_limit_config ∅ = RateLimitHandler.default_config.
Proof. reflexivity. Qed.

Example no_thumbnails : thumbnail_size {["IDTX_THUMBNAIL_ENABLED" := "0"]} = None.
Proof. reflexivity. Qed.

(** A size that is a multiple of 2^32 counts as the default. *)
Example thumbnail_size_wraps :
  Placeholder.m_size_ <$> thumbnail_size {["IDTX_THUMBNAIL_SIZE" := "4294967296"]} = Some 256.
Proof. reflexivity. Qed.
End Settings.
