(* ===== verification/Routes.v ===== *)
(** * The routes, and a request from end to end
    (source/routes/RouteRegistry.h, routes/http/*.h, routes/websocket/WebSocketRoutes.h)

    Every route with its handler, and what a request goes through: the
    middleware of [Settings.v], the framework's choice of a rule ([Crow]), the
    handler; for an upgrade to a websocket, the controller of [WebSocket.v].
    [App] is the state of the server; the theorem is about any sequence of
    requests, upgrades, messages and closed connections. *)
From S2P Require Import Prelude Filesystem PathFacts Locator Environment Http Health Gateway Jwt Settings.
From S2P Require Import Proto Usd Session Handlers Manager Registry WebSocket Uploads Listing Rest ToyWorld.

Module Routes.
Import Http Manager Uploads.
Local Open Scope string_scope.
Local Open Scope list_scope.
Local Open Scope Z_scope.

(** What a request meets besides the state: its query, the clocks, the random
    numbers and the location of a new session, and the end of a wait for a
    commit. *)
Record Circumstances := mkCircumstances {
  query : string -> option string;
  environ : Environment.environment;
  t_lock : Z; t_login : Z; t_global : Z; t_report : Z;
  wall_clock : Z;
  draws : Z * Z;
  new_session : Session.location;
  promise : Z;
  commit_outcome : future }.

(** A response; an accepted upgrade; an exception that leaves the handler;
    undefined behaviour. *)
Inductive result :=
| Responded (res : response) | Upgraded (conn : Session.connection) | HandlerThrew (what : string) | Undefined.

(** ** The framework's router *)

(** The index of the rule for a request among patterns and methods, the
    argument of its pattern, and the framework's own answers: no rule; an upgrade
    to a rule that has no websocket; a plain request to one that has; an upgrade
    that the controller does not accept. Whether the middleware runs before an
    upgrade, and can answer it, depends on the version of the framework. *)
Class Crow := {
  find_rule : list (string * string) -> request -> option nat;
  argument : string -> request -> string;
  not_routed : request -> response;
  no_websocket : request -> response;
  websocket_only : request -> response;
  upgrade_refused : request -> response;
  upgrades_checked : bool }.

(** The rule that is found is for the method (a HEAD request may be given to a
    GET rule) and for the URL, up to the parameters of the pattern. *)
Class CrowLaws `{Crow} : Prop := {
  found_rule : forall rules req i, find_rule rules req = Some i ->
    exists p m, rules !! i = Some (p, m) /\
      (method req = m \/ method req = "HEAD" /\ m = "GET") /\
      (if Str.contains_char "<" p then Str.starts_with (RateLimitHandler.before "<" p) (url req) = true else url req = p) }.

Section routes.
Context `{U : Usd} `{W : Wire} `{!WireOk} `{IO : Disk.IoErrors} `{SW : Disk.ShortWrites} `{JT : JsonText}
  `{MP : Multipart} `{LI : LayerInfo} `{DO : Listing.DirectoryOrder} `{FT : Listing.FileTimes} `{JL : JwtAuthHandler.JwtLib}.

(** The websocket controller shares the manager with the file controller. *)
Record App := mkApp {
  middleware : Settings.Middleware;
  files : FileServingController;
  m_next_connection_id_ : Z;
  sockets : gmap Session.connection WebSocket.WsUserData;
  closed : list (Session.connection * string) }.

Definition set_middleware (m : Settings.Middleware) (app : App) : App :=
  mkApp m (files app) (m_next_connection_id_ app) (sockets app) (closed app).

Definition set_files (c : FileServingController) (app : App) : App :=
  mkApp (middleware app) c (m_next_connection_id_ app) (sockets app) (closed app).

Definition websockets (app : App) : WebSocket.Server :=
  WebSocket.mkServer (manager (files app)) (m_next_connection_id_ app) (sockets app) (closed app).

Definition set_websockets (s : WebSocket.Server) (app : App) : App :=
  mkApp (middleware app) (set_manager (WebSocket.manager s) (files app)) (WebSocket.m_next_connection_id_ s)
    (WebSocket.sockets s) (WebSocket.closed s).

(** The HTTP exchanges of the process. *)
Context (Get Post : HttpClient.cpr_session -> HttpClient.cpr_response).

Definition fetch (url : string) : HttpClient.Response := HttpClient.get Get url 5000 [] None.

Definition idp_post (url : string) (payload : list (string * string)) : AuthController.IdpResponse :=
  let r := HttpClient.post Post url payload
             [("Content-Type", "application/x-www-form-urlencoded"); ("Accept", "application/json")] None 5000 in
  AuthController.mkIdp (HttpClient.ok r) (HttpClient.code r) (HttpClient.body r).

(** ** Handlers *)

(** What a rule is for: plain requests, with a handler that gets the argument of
    the pattern, or the upgrade of a connection, which is accepted and opened. *)
Inductive endpoint :=
| OnRequest (handler : Circumstances -> request -> string -> App -> App * result)
| OnUpgrade (accept : Circumstances -> request -> WebSocket.Server -> WebSocket.Server * option WebSocket.WsUserData)
    (open : Session.connection -> WebSocket.Server -> WebSocket.Server).

Record rule := mkRule { pattern : string; rule_method : string; serves : endpoint }.

Definition http (pattern method : string) handler : rule := mkRule pattern method (OnRequest handler).

Definition on_files (f : FileServingController -> FileServingController * response) (app : App) : App * result :=
  let '(c, res) := f (files app) in (set_files c app, Responded res).

(** A handler that only reads, and can have undefined behaviour. *)
Definition reads_files (f : FileServingController -> option response) (app : App) : App * result :=
  (app, match f (files app) with Some res => Responded res | None => Undefined end).

Definition on_manager (f : M Manager response) (app : App) : App * result :=
  let '(m, r) := f (manager (files app)) in
  (set_files (set_manager m (files app)) app,
   match r with
   | inl res => Responded res
   | inr (StdException what) => HandlerThrew what
   | inr OtherException => HandlerThrew ""
   end).

Definition login (x : Circumstances) (req : request) (app : App) : App * result :=
  let m := middleware app in
  let rl := Settings.rateLimit m in
  let '(throttler, res, events) :=
    AuthController.Login (Settings.login m) idp_post (t_report x) req (RateLimitHandler.m_loginThrottler_ rl) in
  let rl := RateLimitHandler.mkHandler (RateLimitHandler.m_enabled_ rl) (RateLimitHandler.m_config_ rl)
              (RateLimitHandler.m_globalLimiter_ rl) (RateLimitHandler.m_loginLimiter_ rl) throttler in
  (set_middleware (Settings.mkMiddleware rl (Settings.login m) (Settings.jwt m) (Settings.audited m ++ events) (Settings.cors m)) app,
   Responded res).

Definition HealthRoutes : list rule :=
  [http "/api/v1/health" "GET" (fun x req _ app => (app, Responded (Health.GetHealth (wall_clock x) req)))].

Definition AuthRoutes : list rule :=
  [http "/api/v1/auth/login" "POST" (fun x req _ => login x req)].

Definition FileServingRoutes : list rule :=
  [http "/api/v1/files" "GET" (fun x _ _ => on_files (Listing.GetFileList (query x)));
   http "/api/v1/download/<path>" "HEAD" (fun _ _ filepath => on_files (FileExists filepath));
   http "/api/v1/download/<path>" "GET" (fun _ _ filepath => on_files (ServeFile filepath));
   http "/api/v1/upload" "POST" (fun x req _ => on_files (UploadFile (environ x) req));
   http "/api/v1/thumbnail/<path>" "HEAD" (fun _ _ usd_filepath => reads_files (ThumbnailExists usd_filepath));
   http "/api/v1/thumbnail/<path>" "GET" (fun _ _ usd_filepath => reads_files (ServeThumbnail usd_filepath))].

Definition SessionRoutes : list rule :=
  [http "/api/v1/sessions" "GET" (fun _ _ _ => on_manager (gets Rest.GetSessionList));
   http "/api/v1/sessions" "POST" (fun x req _ => on_manager (fun m =>
     let '(m, res) := Rest.CreateSession req (fst (draws x)) (snd (draws x)) (new_session x) m in (m, inl res)));
   http "/api/v1/sessions/<string>" "GET" (fun _ _ session_id => on_manager (gets (Rest.GetSession session_id)));
   http "/api/v1/sessions/<string>" "DELETE" (fun _ _ session_id => on_manager (Rest.DeleteSession session_id));
   http "/api/v1/sessions/<string>/commit" "POST" (fun x _ session_id => on_manager (fun m =>
     let '(m, res) := Rest.CommitSession session_id (promise x) (commit_outcome x) m in (m, inl res)))].

Definition WebSocketRoutes : list rule :=
  [mkRule "/ws" "GET"
     (OnUpgrade (fun x req => WebSocket.OnAccept (query x "sid") (remote_ip_address req)) WebSocket.OnOpen)].

(** In the order of [RegisterAllRoutes]. *)
Definition all_routes : list rule :=
  HealthRoutes ++ AuthRoutes ++ FileServingRoutes ++ SessionRoutes ++ WebSocketRoutes.

(** A page of another origin may use every route. *)
Lemma routes_pass_cors : Forall (fun r => rule_method r ∈ Settings.cors_methods Settings.corsMiddleware) all_routes.
Proof. by repeat constructor. Qed.

End routes.
Arguments App {_}.

Section serve.
Context `{U : Usd} `{W : Wire} `{!WireOk} `{IO : Disk.IoErrors} `{SW : Disk.ShortWrites} `{JT : JsonText}
  `{MP : Multipart} `{LI : LayerInfo} `{DO : Listing.DirectoryOrder} `{FT : Listing.FileTimes} `{JL : JwtAuthHandler.JwtLib}.
Context `{CR : Crow} (Get Post : HttpClient.cpr_session -> HttpClient.cpr_response).

Definition rule_for (req : request) : option rule :=
  let rules := all_routes Post in
  find_rule ((fun r => (pattern r, rule_method r)) <$> rules) req ≫= fun i => rules !! i.

Definition route (x : Circumstances) (req : request) (app : App) : App * result :=
  match rule_for req with
  | Some r =>
      match serves r with
      | OnRequest handler => handler x req (argument (pattern r) req) app
      | OnUpgrade _ _ => (app, Responded (websocket_only req))
      end
  | None => (app, Responded (not_routed req))
  end.

(** An accepted connection keeps its user data and is opened. *)
Definition route_upgrade (conn : Session.connection) (x : Circumstances) (req : request) (app : App) : App * result :=
  match rule_for req with
  | Some r =>
      match serves r with
      | OnRequest _ => (app, Responded (no_websocket req))
      | OnUpgrade accept open =>
          let '(s, ws) := accept x req (websockets app) in
          match ws with
          | None => (set_websockets s app, Responded (upgrade_refused req))
          | Some ws =>
              (set_websockets (open conn (WebSocket.set_sockets (<[conn := ws]> (WebSocket.sockets s)) s)) app, Upgraded conn)
          end
      end
  | None => (app, Responded (not_routed req))
  end.

(** What follows when the middleware lets the request pass. *)
Definition guarded (next : App -> App * result) (x : Circumstances) (req : request) (app : App) : App * result :=
  let '(m, o) := Settings.handle (fetch Get) req (t_lock x) (t_login x) (t_global x) (middleware app) in
  let app := set_middleware m app in
  match o with
  | Settings.Reached _ => next app
  | Settings.Answered res => (app, Responded res)
  | Settings.Threw what => (app, HandlerThrew what)
  end.

Definition serve (x : Circumstances) (req : request) : App -> App * result := guarded (route x req) x req.

Definition serve_upgrade (conn : Session.connection) (x : Circumstances) (req : request) : App -> App * result :=
  if upgrades_checked then guarded (route_upgrade conn x req) x req else route_upgrade conn x req.

(** What reaches the server: a request, an upgrade of the connection [conn], a
    message on a connection ([r] is a location not in use) or its end. *)
Inductive arrival :=
| Request (x : Circumstances) (req : request)
| Upgrade (conn : Session.connection) (x : Circumstances) (req : request)
| Message (conn : Session.connection) (data : string) (isBinary : bool) (r : Session.location)
| Closed (conn : Session.connection).

Definition arrives (a : arrival) (app : App) : App :=
  match a with
  | Request x req => fst (serve x req app)
  | Upgrade conn x req => fst (serve_upgrade conn x req app)
  | Message conn data isBinary r => set_websockets (WebSocket.OnMessage conn data isBinary r (websockets app)) app
  | Closed conn => set_websockets (WebSocket.OnClose conn (websockets app)) app
  end.

(** One after the other. *)
Definition serve_all (l : list arrival) (app : App) : App := foldl (fun app a => arrives a app) app l.

(** ** Who can change anything *)

(** A request with a token that the library verified against a key of the
    document fetched at start-up ([fetch0] is the network then), for the
    provider's issuer, the configured audiences and an allowed algorithm. *)
Definition vouched (fetch0 : string -> HttpClient.Response) (cfg : Oidc.OidcConfiguration) (algs : gset string)
    (leeway : Z) (h : JwtAuthHandler.JwtAuthHandler) (req : request) : Prop :=
  exists token d key token_alg,
    header req "Authorization" = (JwtAuthHandler.bearer +:+ token)%string /\ JwtAuthHandler.decode token = inl d /\
    JwtAuthHandler.string_claim d "kid" = inl (JwtAuthHandler.kid key) /\ JwtAuthHandler.kid key <> "" /\
    JwtAuthHandler.document_keys (HttpClient.body (fetch0 (JwtAuthHandler.jwks_uri h))) key /\
    JwtAuthHandler.string_claim d "alg" = inl token_alg /\ token_alg ∈ JwtAuthHandler.supported /\
    (algs = ∅ \/ token_alg ∈ algs) /\
    JwtAuthHandler.verify (JwtAuthHandler.mkVerifier (u64 leeway) (Some (JwtAuthHandler.issuer_ h))
      (Oidc.audiences cfg) token_alg (JwtAuthHandler.pem key)) d = None.

Lemma handle_jwt f req t1 t2 t3 m : Settings.jwt (fst (Settings.handle f req t1 t2 t3 m)) = Settings.jwt m.
Proof.
  unfold Settings.handle. destruct (RateLimitHandler.before_handle _ _ _ _ _) as [rl [|res e]]; [|done].
  pose proof (JwtAuthHandler.before_handle_keeps f req (Settings.jwt m)) as Hk. cbn [Settings.jwt].
  by destruct (JwtAuthHandler.before_handle _ _ _) as [j v].
Qed.

Lemma handle_reached f req t1 t2 t3 m m' ctx :
  Settings.handle f req t1 t2 t3 m = (m', Settings.Reached ctx) ->
  snd (JwtAuthHandler.before_handle f req (Settings.jwt m)) = JwtAuthHandler.Pass ctx.
Proof.
  unfold Settings.handle. destruct (RateLimitHandler.before_handle _ _ _ _ _) as [rl [|res e]]; [|done]. cbn [Settings.jwt].
  destruct (JwtAuthHandler.before_handle _ _ _) as [j [c|c res|w]]; intros [= _ He]. by subst.
Qed.

(** No handler touches the keys. *)
Lemma rule_for_cases req r :
  rule_for req = Some r ->
  r ∈ all_routes Post.
Proof. intros (i & _ & Hr)%bind_Some. by eapply list_elem_of_lookup_2. Qed.

Ltac each_route H :=
  unfold all_routes, HealthRoutes, AuthRoutes, FileServingRoutes, SessionRoutes, WebSocketRoutes, http in H;
  cbn [Datatypes.app] in H; repeat (apply elem_of_cons in H as [->|H]); [..|by apply elem_of_nil in H].

Lemma route_jwt x req app : Settings.jwt (middleware (fst (route x req app))) = Settings.jwt (middleware app).
Proof.
  unfold route. destruct (rule_for req) as [r|] eqn:Hr; [|done]. apply rule_for_cases in Hr.
  assert (Hf : forall f, Settings.jwt (middleware (fst (on_files f app))) = Settings.jwt (middleware app))
    by (intros f; unfold on_files; by destruct (f _)).
  assert (Hm : forall f, Settings.jwt (middleware (fst (on_manager f app))) = Settings.jwt (middleware app))
    by (intros f; unfold on_manager; by destruct (f _) as [? [|[]]]).
  each_route Hr; cbn [serves]; first [done | apply Hf | apply Hm | idtac].
  unfold login. by destruct (AuthController.Login _ _ _ _ _) as [[? ?] ?].
Qed.

Lemma upgrade_jwt conn x req app :
  Settings.jwt (middleware (fst (route_upgrade conn x req app))) = Settings.jwt (middleware app).
Proof.
  unfold route_upgrade. destruct (rule_for req) as [r|]; [|done]. destruct (serves r); [done|].
  by destruct (accept x req _) as [s [ws|]].
Qed.

(** What the theorem protects: the files, the sessions and their clients. *)
Definition protected (app : App) :=
  (files app, m_next_connection_id_ app, sockets app, closed app).

(** The route of an unprotected request: the health route or the login. *)
Lemma unprotected_rule `{!CrowLaws} req r :
  JwtAuthHandler.unprotected req = true -> rule_for req = Some r ->
  r ∈ HealthRoutes ++ AuthRoutes Post.
Proof.
  intros Hu (i & Hi & Hr)%bind_Some. apply found_rule in Hi as (p & m & Hrule & Hm & Hurl).
  rewrite list_lookup_fmap, Hr in Hrule. cbn in Hrule. injection Hrule as <- <-. apply list_elem_of_lookup_2 in Hr.
  unfold JwtAuthHandler.unprotected in Hu. rewrite !orb_true_iff, !bool_decide_eq_true in Hu.
  unfold all_routes in Hr. rewrite app_assoc in Hr. apply elem_of_app in Hr as [Hr|Hr]; [done|exfalso].
  unfold FileServingRoutes, SessionRoutes, WebSocketRoutes, http in Hr. cbn [Datatypes.app] in Hr.
  repeat (apply elem_of_cons in Hr as [->|Hr]); [..|by apply elem_of_nil in Hr]; cbn [pattern rule_method] in *;
    (destruct Hu as [[Hu|Hu]|Hu]; rewrite Hu in *; [destruct Hm as [?|[? ?]]; congruence|by vm_compute in Hurl..]).
Qed.

(** An unprotected request reaches the health route and the login at most,
    which do not touch sessions or files. *)
Lemma unprotected_route `{!CrowLaws} x req app :
  JwtAuthHandler.unprotected req = true -> protected (fst (route x req app)) = protected app.
Proof.
  intros Hu. unfold route. destruct (rule_for req) as [r|] eqn:Hr; [|done].
  apply unprotected_rule in Hr; [|done]. unfold HealthRoutes, AuthRoutes, http in Hr. cbn [Datatypes.app] in Hr.
  repeat (apply elem_of_cons in Hr as [->|Hr]); [..|by apply elem_of_nil in Hr]; cbn [serves]; [done|].
  unfold login. by destruct (AuthController.Login _ _ _ _ _) as [[? ?] ?].
Qed.

Lemma unprotected_upgrade `{!CrowLaws} conn x req app :
  JwtAuthHandler.unprotected req = true -> fst (route_upgrade conn x req app) = app.
Proof.
  intros Hu. unfold route_upgrade. destruct (rule_for req) as [r|] eqn:Hr; [|done].
  apply unprotected_rule in Hr; [|done]. unfold HealthRoutes, AuthRoutes, http in Hr. cbn [Datatypes.app] in Hr.
  repeat (apply elem_of_cons in Hr as [->|Hr]); [..|by apply elem_of_nil in Hr]; done.
Qed.

Lemma guarded_changes fetch0 cfg algs leeway next x req app :
  let h := JwtAuthHandler.configure fetch0 cfg algs leeway JwtAuthHandler.new_handler in
  Settings.jwt (middleware app) = h -> Oidc.enabled cfg = true ->
  (forall app, Settings.jwt (middleware (fst (next app))) = Settings.jwt (middleware app)) ->
  (forall app, JwtAuthHandler.unprotected req = true -> protected (fst (next app)) = protected app) ->
  Settings.jwt (middleware (fst (guarded next x req app))) = h /\
  (protected (fst (guarded next x req app)) = protected app \/ vouched fetch0 cfg algs leeway h req).
Proof.
  intros h Hj Hen Hnext Hun. unfold guarded.
  pose proof (handle_jwt (fetch Get) req (t_lock x) (t_login x) (t_global x) (middleware app)) as Hk.
  destruct (Settings.handle _ _ _ _ _ _) as [m o] eqn:Hh. cbn [fst] in Hk. rewrite Hj in Hk.
  destruct o as [ctx|res|w]; [|split; [done|by left]..].
  split; [by rewrite Hnext|]. apply handle_reached in Hh. rewrite Hj in Hh.
  destruct (JwtAuthHandler.unprotected req) eqn:Hu; [left; by rewrite Hun|right].
  destruct (JwtAuthHandler.passed_requests_are_signed fetch0 (fetch Get) cfg algs leeway req ctx Hen Hu Hh)
    as (token & d & key & token_alg & subject & H1 & H2 & H3 & H4 & H5 & H6 & H7 & H8 & _ & H9 & _).
  by exists token, d, key, token_alg.
Qed.

(** What arrives on a connection that is not open has no effect. *)
Lemma set_websockets_same app : set_websockets (websockets app) app = app.
Proof. by destruct app as [? [] ? ? ?]. Qed.

Lemma arrives_changes `{!CrowLaws} fetch0 cfg algs leeway a app :
  let h := JwtAuthHandler.configure fetch0 cfg algs leeway JwtAuthHandler.new_handler in
  Settings.jwt (middleware app) = h -> Oidc.enabled cfg = true -> sockets app = ∅ ->
  match a with
  | Request _ req => ~ vouched fetch0 cfg algs leeway h req
  | Upgrade _ _ req => upgrades_checked = true /\ ~ vouched fetch0 cfg algs leeway h req
  | Message _ _ _ _ | Closed _ => True
  end ->
  Settings.jwt (middleware (arrives a app)) = h /\ protected (arrives a app) = protected app.
Proof.
  intros h Hj Hen Hso Ha. destruct a as [x req|conn x req|conn data b r|conn]; cbn [arrives].
  - destruct (guarded_changes fetch0 cfg algs leeway (route x req) x req app Hj Hen) as [Hj' [Hp|Hv]];
      [intros; apply route_jwt|intros; by apply unprotected_route|done|done].
  - destruct Ha as [Hc Hno]. unfold serve_upgrade. rewrite Hc.
    destruct (guarded_changes fetch0 cfg algs leeway (route_upgrade conn x req) x req app Hj Hen) as [Hj' [Hp|Hv]];
      [intros; apply upgrade_jwt|intros app' Hu; by rewrite unprotected_upgrade|done|done].
  - assert (WebSocket.OnMessage conn data b r (websockets app) = websockets app) as ->; [|by rewrite set_websockets_same].
    unfold WebSocket.OnMessage. destruct (negb b); [done|]. cbn [websockets WebSocket.sockets]. by rewrite Hso, lookup_empty.
  - assert (WebSocket.OnClose conn (websockets app) = websockets app) as ->; [|by rewrite set_websockets_same].
    unfold WebSocket.OnClose. cbn [websockets WebSocket.sockets]. by rewrite Hso, lookup_empty.
Qed.

(** C4. Without a valid token nothing can be changed. Start from a server with
    an identity provider and no open websocket. However many requests and
    websocket upgrades arrive, for whatever URLs, with whatever method and
    content, and whatever messages: unless one of them carries a bearer token that
    was verified against the identity provider's keys, for its issuer, the
    configured audiences and an allowed algorithm, every session and its clients,
    every file, the queue of thumbnails and the websocket connections are, after
    all of them, as they were. For upgrades this needs a framework that runs the
    middleware before it upgrades a connection; with one that does not, anybody
    can join a session ([upgrade_without_token]). *)
Theorem nothing_changes_without_a_token `{!CrowLaws} fetch0 cfg algs leeway l app :
  let h := JwtAuthHandler.configure fetch0 cfg algs leeway JwtAuthHandler.new_handler in
  Settings.jwt (middleware app) = h -> Oidc.enabled cfg = true -> sockets app = ∅ ->
  Forall (fun a =>
    match a with
    | Request _ req => ~ vouched fetch0 cfg algs leeway h req
    | Upgrade _ _ req => upgrades_checked = true /\ ~ vouched fetch0 cfg algs leeway h req
    | Message _ _ _ _ | Closed _ => True
    end) l ->
  files (serve_all l app) = files app /\ websockets (serve_all l app) = websockets app.
Proof.
  intros h Hj Hen Hso Hl.
  cut (protected (serve_all l app) = protected app).
  { unfold protected, websockets. intros [= -> -> -> ->]. done. }
  revert app Hj Hso. induction Hl as [|a l Ha Hl IH]; intros app Hj Hso; [done|]. cbn [serve_all foldl].
  destruct (arrives_changes fetch0 cfg algs leeway a app Hj Hen Hso Ha) as [Hj' Hp].
  assert (Hso' : sockets (arrives a app) = ∅) by (injection Hp as _ _ -> _; done).
  rewrite <- Hp. by apply IH.
Qed.
End serve.

(** ** A concrete server *)
Import ToyWorld.

(** A router that takes the first rule that fits. *)
Definition fits (req : request) (r : string * string) : Prop :=
  method req = r.2 /\
  (if Str.contains_char "<" r.1 then Str.starts_with (RateLimitHandler.before "<" r.1) (url req) = true else url req = r.1).

#[local] Instance fits_dec req r : Decision (fits req r).
Proof. unfold fits. destruct (Str.contains_char "<" r.1); apply _. Defined.

Definition first_fit (checked : bool) : Crow := {|
  find_rule rules req := fst <$> list_find (fits req) rules;
  argument p req := Str.drop_string (String.length (RateLimitHandler.before "<" p)) (url req);
  not_routed _ := mkResponse 404 [] "";
  no_websocket _ := mkResponse 404 [] "";
  websocket_only _ := mkResponse 404 [] "";
  upgrade_refused _ := mkResponse 400 [] "";
  upgrades_checked := checked |}.

Lemma first_fit_laws checked : CrowLaws (H := first_fit checked).
Proof.
  split. intros rules req i Hi. cbn in Hi. apply fmap_Some in Hi as ([j [p m]] & (Hl & [Hm Hu] & _)%list_find_Some & ->).
  exists p, m. split_and!; [done|by left|done].
Qed.

#[local] Instance whole : Disk.ShortWrites := fun _ _ _ => None.
#[local] Instance no_parts : Multipart := fun _ => inr "no parts".
#[local] Instance no_layers : LayerInfo := fun _ _ => inl None.

(** The provider, the files and the manager of the other examples. *)
Definition server : App :=
  mkApp (Settings.mkMiddleware RateLimitHandler.new_handler (AuthController.mkAuth "" "" "" "" true)
           JwtAuthHandler.demo_handler [] Settings.corsMiddleware)
    (set_manager Registry.manager1 Listing.library) 1 ∅ [].

(** The query names the session of [manager1]. *)
Definition circumstances : Circumstances :=
  mkCircumstances (fun p => if String.eqb p "sid" then Some Registry.id1 else None) ∅ 0 0 0 0 0 (1, 2) 7 0 NotReady.

Definition unknown (_ : HttpClient.cpr_session) : HttpClient.cpr_response := HttpClient.mkCpr 0 "" (Some "no network").

Definition call (method url : string) (token : string) : Circumstances * request :=
  (circumstances, mkRequest method url (fun h => if String.eqb h "Authorization" then token else "") "" "10.0.0.9").

Definition answer (l : Circumstances * request) : result :=
  snd (serve (JT := JwtAuthHandler.provider_json) (JL := JwtAuthHandler.demo_lib) (DO := Listing.in_order) (FT := Listing.no_times)
         (CR := first_fit true) unknown unknown (fst l) (snd l) (set_files Listing.library server)).

(** What the routes answer: without a token, and with one. *)
Example refused_without_token :
  answer (call "GET" "/api/v1/download/sub/b.usdz" "") =
    Responded (set_header "WWW-Authenticate" "Bearer" (mkResponse 401 [] "Unauthorized: No Bearer token")).
Proof. vm_compute. reflexivity. Qed.

Example served_with_token :
  match answer (call "GET" "/api/v1/download/sub/b.usdz" "Bearer k1") with
  | Responded res => Http.code res = 200 /\ text res = "zip"
  | _ => False
  end.
Proof. vm_compute. split; reflexivity. Qed.

(** An upgrade of connection 40. *)
Definition joining (checked : bool) (token : string) : App :=
  let '(x, req) := call "GET" "/ws" token in
  arrives (JT := JwtAuthHandler.provider_json) (JL := JwtAuthHandler.demo_lib) (DO := Listing.in_order) (FT := Listing.no_times)
    (CR := first_fit checked) unknown unknown (Upgrade 40 x req) server.

Definition clients_of (app : @App toy_usd) : option (list (Z * Z)) :=
  (fun ses => map_to_list (Session.clients ses)) <$> objects (manager (files app)) !! 7.

Example upgrade_with_token : clients_of (joining true "Bearer k1") = Some [(1, 40)].
Proof. vm_compute. reflexivity. Qed.

Example upgrade_without_token : clients_of (joining false "") = Some [(1, 40)].
Proof. vm_compute. reflexivity. Qed.

Lemma nothing_changes_without_a_token_witness :
  let l := [uncurry Request (call "DELETE" "/api/v1/sessions/s1" ""); uncurry Request (call "POST" "/api/v1/upload" "Basic abc");
            uncurry Request (call "OPTIONS" "/api/v1/files" ""); uncurry (Upgrade 40) (call "GET" "/ws" "");
            Message 40 "drag" true 3; Closed 40] in
  let app := serve_all (JT := JwtAuthHandler.provider_json) (JL := JwtAuthHandler.demo_lib) (DO := Listing.in_order)
               (FT := Listing.no_times) (CR := first_fit true) unknown unknown l server in
  files app = files server /\ websockets app = websockets server.
Proof.
  intros l.
  apply (nothing_changes_without_a_token (JT := JwtAuthHandler.provider_json) (JL := JwtAuthHandler.demo_lib)
           (CR := first_fit true) (H0 := first_fit_laws true)
           unknown unknown JwtAuthHandler.network JwtAuthHandler.demo_config JwtAuthHandler.default_algs 60 l server eq_refl eq_refl eq_refl).
  assert (Hno : forall req, header req "Authorization" = "" \/ header req "Authorization" = "Basic abc" ->
    ~ vouched (JT := JwtAuthHandler.provider_json) (JL := JwtAuthHandler.demo_lib) JwtAuthHandler.network JwtAuthHandler.demo_config
        JwtAuthHandler.default_algs 60 JwtAuthHandler.demo_handler req).
  { intros req Hreq (token & d & key & a & Hb & _). destruct Hreq as [Hreq|Hreq]; rewrite Hb in Hreq; discriminate Hreq. }
  unfold l. repeat constructor; apply Hno; cbn; auto.
Defined.
End Routes.
